(** * PeerLink backend: share sessions, chunk relay, storage and election

    A shallow embedding of the PeerLink backend
    ([backend/src/socket/socket.handler.ts],
    [backend/src/controllers/share.controller.ts],
    [backend/src/repositories/storage.repository.ts],
    [backend/src/services/redis.service.ts],
    [backend/src/services/cluster.service.ts]) and the properties of the
    transfer-relay engine that follow from it.

    Conventions.
    - JavaScript numbers that hold counts, indices and millisecond clocks
      are [Z]; [Date.now()] is an input of every handler.
    - A [Set<number>] is a [gset Z], a [Map<number, _>] a [gmap Z _]; the
      process-wide [Map<string, _>] stores are association lists with the
      insertion-order semantics of a JavaScript [Map], since handlers
      iterate over them and stop at the first match.
    - Handlers run in a small state/output/exception monad: the state is
      the node's storage, the output is the list of messages handed to the
      socket layer, and [throw] keeps whatever was written before it. *)

From stdpp Require Import gmap strings list fin_maps pretty.
From Stdlib Require Import Sorted.

Local Open Scope Z_scope.

(* ===================================================================== *)
(** ** utils/error.utils.ts *)
(* ===================================================================== *)

Module ErrorUtils.

Inductive ErrorCode :=
| BAD_REQUEST | UNAUTHORIZED | FORBIDDEN | NOT_FOUND | CONFLICT
| RATE_LIMITED | PAYLOAD_TOO_LARGE
| INTERNAL_ERROR | SERVICE_UNAVAILABLE | REDIS_ERROR | WEBSOCKET_ERROR
| UPLOAD_FAILED | DOWNLOAD_FAILED | CHUNK_INVALID | CHECKSUM_MISMATCH
| FILE_TOO_LARGE
| SHARE_SESSION_FULL.

Record AppError := {
  code : ErrorCode;
  message : string;
  statusCode : Z;
}.

Definition badRequest (msg : string) : AppError :=
  {| code := BAD_REQUEST; message := msg; statusCode := 400 |}.

Definition notFound (resource : string) : AppError :=
  {| code := NOT_FOUND; message := resource +:+ " not found";
     statusCode := 404 |}.

Definition conflict (msg : string) : AppError :=
  {| code := CONFLICT; message := msg; statusCode := 409 |}.

Definition uploadFailed (msg : string) : AppError :=
  {| code := UPLOAD_FAILED; message := msg; statusCode := 500 |}.

(** The two numbers as the template literal prints them below [1e21];
    from there on JavaScript prints an exponent. *)
Definition fileTooLarge (size maxSize : Z) : AppError :=
  {| code := FILE_TOO_LARGE;
     message := "File too large: " +:+ pretty size +:+ " bytes (max: "
                +:+ pretty maxSize +:+ ")";
     statusCode := 413 |}.

Definition shareSessionFull (shareId : string) : AppError :=
  {| code := SHARE_SESSION_FULL;
     message := "Share session is full: " +:+ shareId;
     statusCode := 409 |}.

End ErrorUtils.
Export ErrorUtils.

(* ===================================================================== *)
(** ** types/index.ts *)
(* ===================================================================== *)

Inductive UploadStatus := uploading | paused | completed | failed | cancelled.

#[global] Instance UploadStatus_eq_dec : EqDecision UploadStatus.
Proof. solve_decision. Defined.

Definition UploadStatus_eqb (a b : UploadStatus) : bool :=
  match a, b with
  | uploading, uploading | paused, paused | completed, completed
  | failed, failed | cancelled, cancelled => true
  | _, _ => false
  end.

(** One entry of [pendingAcks]: [{ timestamp, retries }]. *)
Record AckInfo := {
  timestamp : Z;
  retries : Z;
}.

(** The [pendingAcks] member of an upload object at run time: absent, a
    [Map], or the plain empty object that comes back from Redis (the
    interface declares a [Map]; the storage layer casts what it parsed). *)
Inductive PendingAcks :=
| AcksAbsent
| AcksMap (m : gmap Z AckInfo)
| AcksObject.

(** [FileUpload] (imported as [UploadState] by the storage layer).  An
    optional member is [None] while the property is absent. *)
Record FileUpload := {
  up_fileId : string;
  up_fileName : string;
  up_fileSize : Z;
  up_totalChunks : Z;
  up_uploadedChunks : gset Z;
  up_clientId : string;
  up_startTime : Z;
  up_lastUpdate : Z;
  up_status : UploadStatus;
  up_chunkChecksums : option (gmap Z string);
  up_pendingAcks : PendingAcks;
  up_lastAckTime : option Z;
}.

Record ClientSession := {
  cs_clientId : string;
  cs_socketId : string;
  cs_nodeId : option string;
  cs_connected : bool;
  cs_lastHeartbeat : Z;
  cs_uploads : list string;
  cs_downloads : list string;
  cs_uploadSpeed : Z;
  cs_downloadSpeed : Z;
  cs_shareId : option string;
}.

Inductive ShareSessionStatus := active | inactive.

Record ShareSession := {
  ss_shareId : string;
  ss_createdAt : Z;
  ss_lastActivity : Z;
  ss_clients : list string;
  ss_status : ShareSessionStatus;
}.

Record RateLimitResult := {
  allowed : bool;
  remaining : Z;
  resetAt : Z;
}.

(** A binary chunk payload ([Buffer]). *)
Definition Buffer := list Byte.byte.

(** The members of [config/app.config.ts] read by the modelled code. *)
Record Config := {
  maxFileSize : Z;
  rateLimitUploads : Z;
  rateLimitMessages : Z;
  ackTimeout : Z;
  maxRetries : Z;
  maxConcurrentUploads : Z;
  maxConcurrentDownloads : Z;
  maxConcurrentTransfers : Z;
  useNativeAddon : bool;
  useCluster : bool;
}.

(** The values [app.config.ts] falls back to when the environment sets
    nothing. *)
Definition defaultConfig : Config := {|
  maxFileSize := 1073741824;
  rateLimitUploads := 100;
  rateLimitMessages := 1000;
  ackTimeout := 10000;
  maxRetries := 3;
  maxConcurrentUploads := 10;
  maxConcurrentDownloads := 10;
  maxConcurrentTransfers := 5;
  useNativeAddon := false;
  useCluster := false;
|}.

(** JavaScript truthiness of a string-valued property that may be absent:
    [undefined] and the empty string are falsy. *)
Definition truthy (s : option string) : option string :=
  match s with
  | Some v => if String.eqb v "" then None else Some v
  | None => None
  end.

(* ===================================================================== *)
(** ** JavaScript [Map<string, V>] *)
(* ===================================================================== *)

(** Entries are kept in insertion order; [set] on a present key replaces
    the value in place, [set] on a new key appends. *)
Module JsMap.

Definition t (V : Type) := list (string * V).

Fixpoint get {V} (k : string) (m : t V) : option V :=
  match m with
  | [] => None
  | (k', v) :: r => if String.eqb k' k then Some v else get k r
  end.

Fixpoint set {V} (k : string) (v : V) (m : t V) : t V :=
  match m with
  | [] => [(k, v)]
  | (k', v') :: r =>
      if String.eqb k' k then (k, v) :: r else (k', v') :: set k v r
  end.

Definition delete {V} (k : string) (m : t V) : t V :=
  List.filter (fun kv => negb (String.eqb (fst kv) k)) m.

Definition values {V} (m : t V) : list V := map snd m.

End JsMap.

(* ===================================================================== *)
(** ** services/redis.service.ts *)
(* ===================================================================== *)

(** [TTL] of [config/redis.config.ts], in seconds. *)
Record TTLConfig := {
  CLIENT_SESSION : Z;
  SHARE_SESSION : Z;
  UPLOAD_STATE : Z;
  RATE_LIMIT_WINDOW : Z;
  HEARTBEAT : Z;
}.

Definition DEFAULT_TTL : TTLConfig := {|
  CLIENT_SESSION := 3600;
  SHARE_SESSION := 86400;
  UPLOAD_STATE := 7200;
  RATE_LIMIT_WINDOW := 60;
  HEARTBEAT := 300;
|}.

(** What can interrupt a handler: an [AppErrorClass] raised by the code, a
    [TypeError] raised by the runtime, or a command sent to a closed Redis
    client. *)
Inductive Exn :=
| AppErr (e : AppError)
| TypeError (what : string)
| ClientClosedError.

(** What [JSON.parse] gives back for the [pendingAcks] member.  A [Map]
    has no enumerable own property, so [JSON.stringify] writes it as the
    empty object whatever its entries are. *)
Inductive JsonAcks :=
| JsonAcksAbsent
| JsonEmptyObject.

Module Redis.

(** A key with its value and the instant (ms) at which it expires. *)
Record Entry (V : Type) := mkEntry {
  value : V;
  expireAt : option Z;
}.
Arguments mkEntry {V}.
Arguments value {V}.
Arguments expireAt {V}.

Definition live {V} (now : Z) (e : Entry V) : bool :=
  match expireAt e with
  | None => true
  | Some t => now <? t
  end.

(** The JSON text stored under [upload:<fileId>]: the object literal
    [data] of [setUploadState] after [JSON.stringify]. *)
Record UploadData := {
  d_fileId : string;
  d_fileName : string;
  d_fileSize : Z;
  d_totalChunks : Z;
  d_uploadedChunks : list Z;
  d_clientId : string;
  d_startTime : Z;
  d_lastUpdate : Z;
  d_status : UploadStatus;
  d_chunkChecksums : option (list (Z * string));
  d_pendingAcks : JsonAcks;
  d_lastAckTime : option Z;
}.

(** The keyspace, one association list per key prefix:
    [session:client:], [session:share:], [upload:], [ratelimit:],
    [cancelled:], and the single key [cluster:master]. *)
Record t := {
  isOpen : bool;
  clientKeys : JsMap.t (Entry ClientSession);
  shareKeys : JsMap.t (Entry ShareSession);
  uploadKeys : JsMap.t (Entry UploadData);
  ratelimitKeys : JsMap.t (Entry Z);
  cancelledKeys : JsMap.t (Entry (gset string));
  clusterMaster : option (Entry string);
}.

(** [GET key]: an expired key is a missing key. *)
Definition GET {V} (now : Z) (k : string) (m : JsMap.t (Entry V))
  : option V :=
  match JsMap.get k m with
  | Some e => if live now e then Some (value e) else None
  | None => None
  end.

(** [SETEX key seconds value]. *)
Definition SETEX {V} (now : Z) (k : string) (seconds : Z) (v : V)
    (m : JsMap.t (Entry V)) : JsMap.t (Entry V) :=
  JsMap.set k (mkEntry v (Some (now + seconds * 1000))) m.

(** [KEYS prefix*] followed by [MGET]: the live keys with their values,
    in keyspace order. *)
Definition SCAN {V} (now : Z) (m : JsMap.t (Entry V))
  : list (string * V) :=
  omap (fun kv => if live now (snd kv)
                  then Some (fst kv, value (snd kv)) else None) m.

(** [TTL key] in seconds: -2 for a missing key, -1 for a key without
    expiry, else the remaining time rounded to the second. *)
Definition TTL {V} (now : Z) (k : string) (m : JsMap.t (Entry V)) : Z :=
  match JsMap.get k m with
  | Some e =>
      if live now e then
        match expireAt e with
        | Some t => (t - now + 500) / 1000
        | None => -1
        end
      else -2
  | None => -2
  end.

(** [INCR key]: a missing key counts from 0 and gets no expiry. *)
Definition INCR (now : Z) (k : string) (m : JsMap.t (Entry Z))
  : JsMap.t (Entry Z) :=
  match JsMap.get k m with
  | Some e =>
      if live now e then JsMap.set k (mkEntry (value e + 1) (expireAt e)) m
      else JsMap.set k (mkEntry 1 None) m
  | None => JsMap.set k (mkEntry 1 None) m
  end.

(** [EXPIRE key seconds]: no effect on a missing key. *)
Definition EXPIRE {V} (now : Z) (k : string) (seconds : Z)
    (m : JsMap.t (Entry V)) : JsMap.t (Entry V) :=
  match JsMap.get k m with
  | Some e =>
      if live now e
      then JsMap.set k (mkEntry (value e) (Some (now + seconds * 1000))) m
      else m
  | None => m
  end.

End Redis.

(* ===================================================================== *)
(** ** Messages leaving a handler *)
(* ===================================================================== *)

(** The role of a node in the cluster. *)
Inductive Role := master | worker.

(** Server-to-client events with their payloads.  The [progress] member
    of [chunk-uploaded] is a floating-point percentage computed from the
    two counts that are carried, and is not repeated here. *)
Inductive ServerEvent :=
| registered (clientId socketId : string)
| heartbeat_ack
| rate_limited (resetAt : Z)
| upload_init_response (fileId : string)
| file_transfer_started (fileId fileName : string) (fileSize totalChunks : Z)
| chunk_uploaded (fileId : string) (chunkIndex : Z) (uploadedChunks : nat)
    (totalChunks : Z)
| chunk_received (fileId : string) (chunkIndex : Z) (chunk : Buffer)
    (totalChunks : Z)
| chunk_acknowledged (fileId : string) (chunkIndex : Z)
| upload_complete (fileId fileName : string) (fileSize duration : Z)
| chunk_retry (fileId : string) (chunkIndex attempt : Z)
| transfer_failed (fileId : string) (failedChunks : list Z)
| download_cancelled (fileId : string)
| connection_ready (shareId : string) (connectedClients : nat)
    (message : string)
| client_joined_share (clientId shareId : string)
| client_disconnected_from_share (clientId shareId : string)
| cluster_role_change (nodeId : string) (role : Role).

(** The argument given to the acknowledgement callback of [upload-chunk]. *)
Inductive CallbackResponse :=
| cb_error (msg : string)
| cb_success.

Inductive Output :=
| Emit (ev : ServerEvent)
    (** [socket.emit] on the connection the handler serves *)
| EmitTo (socketId : string) (ev : ServerEvent)
    (** [io.sockets.sockets.get(socketId).emit] *)
| Route (clientId : string) (ev : ServerEvent)
    (** [clusterManager.routeMessageToClient] *)
| Callback (r : CallbackResponse)
| Webhook (event : string)
    (** [webhookService.triggerWebhook] *)
| ClusterNotify (what : string) (clientOrSocket : string)
    (** [handleClientConnect], [handleClientDisconnect],
        [handleShareCreate] *)
| ResJson (shareId : string) (connectedClients : nat)
    (** [res.json] of the share controller *)
| IoEmit (ev : ServerEvent)
    (** [io.emit]: to every socket of the node *)
| UpdateRole (nodeId : string) (role : Role)
    (** [nodeService.updateRole] *).

(* ===================================================================== *)
(** ** The state of one node and the handler monad *)
(* ===================================================================== *)

(** [StorageRepository]: [redisService] is [None] in the embedded backend;
    the five maps are [inMemoryStorage].  [filesSent] is the counter of
    [StatsService]. *)
Record Node := mkNode {
  redisService : option Redis.t;
  fileUploads : JsMap.t FileUpload;
  clientSessions : JsMap.t ClientSession;
  shareSessions : JsMap.t ShareSession;
  activeConnections : JsMap.t string;
  cancelledDownloads : JsMap.t (gset string);
  filesSent : Z;
}.

Definition emptyNode (r : option Redis.t) : Node :=
  mkNode r [] [] [] [] [] 0.

Inductive Result (A : Type) :=
| Return (a : A)
| Throw (e : Exn).
Arguments Return {A}.
Arguments Throw {A}.

(** A handler step: from a node state to a result, the next state and the
    messages sent, oldest first. *)
Definition M (A : Type) : Type := Node -> Result A * Node * list Output.

Definition ret {A} (a : A) : M A := fun n => (Return a, n, []).

Definition bind {A B} (m : M A) (k : A -> M B) : M B :=
  fun n =>
    match m n with
    | (Return a, n1, o1) =>
        match k a n1 with
        | (r, n2, o2) => (r, n2, o1 ++ o2)
        end
    | (Throw e, n1, o1) => (Throw e, n1, o1)
    end.

Definition throw {A} (e : Exn) : M A := fun n => (Throw e, n, []).

(** [try { m } catch { }] for a block whose value is not used. *)
Definition try_ (m : M unit) : M unit :=
  fun n =>
    match m n with
    | (Return _, n1, o1) => (Return tt, n1, o1)
    | (Throw _, n1, o1) => (Return tt, n1, o1)
    end.

Definition gets {A} (f : Node -> A) : M A := fun n => (Return (f n), n, []).
Definition modify (f : Node -> Node) : M unit := fun n => (Return tt, f n, []).
Definition send (o : Output) : M unit := fun n => (Return tt, n, [o]).

Declare Scope handler_scope.
Delimit Scope handler_scope with handler.
Notation "x <- m ;; k" := (bind m (fun x => k))
  (at level 100, m at next level, right associativity) : handler_scope.
Notation "m ;; k" := (bind m (fun _ => k))
  (at level 100, right associativity) : handler_scope.
Local Open Scope handler_scope.

(** [for (const x of xs) body(x)] *)
Fixpoint for_each {X} (xs : list X) (body : X -> M unit) : M unit :=
  match xs with
  | [] => ret tt
  | x :: r => body x ;; for_each r body
  end.

Definition when (b : bool) (m : M unit) : M unit := if b then m else ret tt.

(** The state, the result and the messages of a run. *)
Definition state_of {A} (r : Result A * Node * list Output) : Node := snd (fst r).
Definition result_of {A} (r : Result A * Node * list Output) : Result A := fst (fst r).
Definition outputs_of {A} (r : Result A * Node * list Output) : list Output := snd r.

Definition set_redis (r : Redis.t) (n : Node) : Node :=
  mkNode (Some r) (fileUploads n) (clientSessions n) (shareSessions n)
    (activeConnections n) (cancelledDownloads n) (filesSent n).
Definition set_fileUploads (m : JsMap.t FileUpload) (n : Node) : Node :=
  mkNode (redisService n) m (clientSessions n) (shareSessions n)
    (activeConnections n) (cancelledDownloads n) (filesSent n).
Definition set_clientSessions (m : JsMap.t ClientSession) (n : Node) : Node :=
  mkNode (redisService n) (fileUploads n) m (shareSessions n)
    (activeConnections n) (cancelledDownloads n) (filesSent n).
Definition set_shareSessions (m : JsMap.t ShareSession) (n : Node) : Node :=
  mkNode (redisService n) (fileUploads n) (clientSessions n) m
    (activeConnections n) (cancelledDownloads n) (filesSent n).
Definition set_activeConnections (m : JsMap.t string) (n : Node) : Node :=
  mkNode (redisService n) (fileUploads n) (clientSessions n) (shareSessions n)
    m (cancelledDownloads n) (filesSent n).
Definition set_cancelledDownloads (m : JsMap.t (gset string)) (n : Node) : Node :=
  mkNode (redisService n) (fileUploads n) (clientSessions n) (shareSessions n)
    (activeConnections n) m (filesSent n).
Definition set_filesSent (c : Z) (n : Node) : Node :=
  mkNode (redisService n) (fileUploads n) (clientSessions n) (shareSessions n)
    (activeConnections n) (cancelledDownloads n) c.

(** Replacing one family of the keyspace. *)
Definition Redis_set_clientKeys (m : JsMap.t (Redis.Entry ClientSession))
    (r : Redis.t) : Redis.t :=
  Redis.Build_t (Redis.isOpen r) m (Redis.shareKeys r) (Redis.uploadKeys r)
    (Redis.ratelimitKeys r) (Redis.cancelledKeys r) (Redis.clusterMaster r).
Definition Redis_set_shareKeys (m : JsMap.t (Redis.Entry ShareSession))
    (r : Redis.t) : Redis.t :=
  Redis.Build_t (Redis.isOpen r) (Redis.clientKeys r) m (Redis.uploadKeys r)
    (Redis.ratelimitKeys r) (Redis.cancelledKeys r) (Redis.clusterMaster r).
Definition Redis_set_uploadKeys (m : JsMap.t (Redis.Entry Redis.UploadData))
    (r : Redis.t) : Redis.t :=
  Redis.Build_t (Redis.isOpen r) (Redis.clientKeys r) (Redis.shareKeys r) m
    (Redis.ratelimitKeys r) (Redis.cancelledKeys r) (Redis.clusterMaster r).
Definition Redis_set_ratelimitKeys (m : JsMap.t (Redis.Entry Z))
    (r : Redis.t) : Redis.t :=
  Redis.Build_t (Redis.isOpen r) (Redis.clientKeys r) (Redis.shareKeys r)
    (Redis.uploadKeys r) m (Redis.cancelledKeys r) (Redis.clusterMaster r).
Definition Redis_set_cancelledKeys (m : JsMap.t (Redis.Entry (gset string)))
    (r : Redis.t) : Redis.t :=
  Redis.Build_t (Redis.isOpen r) (Redis.clientKeys r) (Redis.shareKeys r)
    (Redis.uploadKeys r) (Redis.ratelimitKeys r) m (Redis.clusterMaster r).
Definition Redis_set_clusterMaster (m : option (Redis.Entry string))
    (r : Redis.t) : Redis.t :=
  Redis.Build_t (Redis.isOpen r) (Redis.clientKeys r) (Redis.shareKeys r)
    (Redis.uploadKeys r) (Redis.ratelimitKeys r) (Redis.cancelledKeys r) m.

Definition emptyRedis : Redis.t := Redis.Build_t true [] [] [] [] [] None.

(** [hay.includes(needle)] *)
Fixpoint includes (needle hay : string) : bool :=
  String.prefix needle hay ||
  match hay with
  | EmptyString => false
  | String _ rest => includes needle rest
  end.

(** [new Map(entries)]: a later entry replaces an earlier one. *)
Definition Map_of_entries {V} (l : list (Z * V)) : gmap Z V :=
  foldl (fun m kv => <[fst kv := snd kv]> m) ∅ l.

Module RedisService.

(** A command sent to the server; it is rejected when the client is
    closed. *)
Definition command {A} (r : Redis.t) (k : Result A * Redis.t)
  : Result A * Redis.t :=
  if Redis.isOpen r then k else (Throw ClientClosedError, r).

Section Methods.
Variable TTL : TTLConfig.

Definition setClientSession (now : Z) (clientId : string)
    (session : ClientSession) (r : Redis.t) : Result unit * Redis.t :=
  command r
    (Return tt,
     Redis_set_clientKeys
       (Redis.SETEX now clientId (CLIENT_SESSION TTL) session
          (Redis.clientKeys r)) r).

Definition getClientSession (now : Z) (clientId : string) (r : Redis.t)
  : option ClientSession :=
  if negb (Redis.isOpen r) then None
  else Redis.GET now clientId (Redis.clientKeys r).

Definition getAllClientSessions (now : Z) (r : Redis.t)
  : JsMap.t ClientSession :=
  if negb (Redis.isOpen r) then []
  else foldl (fun m kv => JsMap.set (fst kv) (snd kv) m) []
         (Redis.SCAN now (Redis.clientKeys r)).

Definition setShareSession (now : Z) (shareId : string)
    (session : ShareSession) (r : Redis.t) : Result unit * Redis.t :=
  command r
    (Return tt,
     Redis_set_shareKeys
       (Redis.SETEX now shareId (SHARE_SESSION TTL) session
          (Redis.shareKeys r)) r).

Definition getShareSession (now : Z) (shareId : string) (r : Redis.t)
  : option ShareSession :=
  if negb (Redis.isOpen r) then None
  else Redis.GET now shareId (Redis.shareKeys r).

Definition deleteShareSession (shareId : string) (r : Redis.t)
  : Result unit * Redis.t :=
  command r
    (Return tt,
     Redis_set_shareKeys (JsMap.delete shareId (Redis.shareKeys r)) r).

(** The object literal [data] of [setUploadState], as [JSON.stringify]
    writes it: the [Set] and the checksum [Map] are turned into arrays
    first; [pendingAcks] is spread into [data] as it is. *)
Definition toData (upload : FileUpload) : Redis.UploadData := {|
  Redis.d_fileId := up_fileId upload;
  Redis.d_fileName := up_fileName upload;
  Redis.d_fileSize := up_fileSize upload;
  Redis.d_totalChunks := up_totalChunks upload;
  Redis.d_uploadedChunks := elements (up_uploadedChunks upload);
  Redis.d_clientId := up_clientId upload;
  Redis.d_startTime := up_startTime upload;
  Redis.d_lastUpdate := up_lastUpdate upload;
  Redis.d_status := up_status upload;
  Redis.d_chunkChecksums :=
    match up_chunkChecksums upload with
    | Some m => Some (map_to_list m)
    | None => None
    end;
  Redis.d_pendingAcks :=
    match up_pendingAcks upload with
    | AcksAbsent => JsonAcksAbsent
    | AcksMap _ => JsonEmptyObject
    | AcksObject => JsonEmptyObject
    end;
  Redis.d_lastAckTime := up_lastAckTime upload;
|}.

(** [JSON.parse] followed by the two conversions of [getUploadState]. *)
Definition fromData (d : Redis.UploadData) : FileUpload := {|
  up_fileId := Redis.d_fileId d;
  up_fileName := Redis.d_fileName d;
  up_fileSize := Redis.d_fileSize d;
  up_totalChunks := Redis.d_totalChunks d;
  up_uploadedChunks := list_to_set (Redis.d_uploadedChunks d);
  up_clientId := Redis.d_clientId d;
  up_startTime := Redis.d_startTime d;
  up_lastUpdate := Redis.d_lastUpdate d;
  up_status := Redis.d_status d;
  up_chunkChecksums :=
    match Redis.d_chunkChecksums d with
    | Some l => Some (Map_of_entries l)
    | None => Some ∅
    end;
  up_pendingAcks :=
    match Redis.d_pendingAcks d with
    | JsonAcksAbsent => AcksAbsent
    | JsonEmptyObject => AcksObject
    end;
  up_lastAckTime := Redis.d_lastAckTime d;
|}.

Definition setUploadState (now : Z) (fileId : string) (upload : FileUpload)
    (r : Redis.t) : Result unit * Redis.t :=
  command r
    (Return tt,
     Redis_set_uploadKeys
       (Redis.SETEX now fileId (UPLOAD_STATE TTL) (toData upload)
          (Redis.uploadKeys r)) r).

Definition getUploadState (now : Z) (fileId : string) (r : Redis.t)
  : Result (option FileUpload) * Redis.t :=
  command r
    (Return (fromData <$> Redis.GET now fileId (Redis.uploadKeys r)), r).

Definition getAllUploadStates (now : Z) (r : Redis.t) : JsMap.t FileUpload :=
  if negb (Redis.isOpen r) then []
  else foldl
         (fun m kv =>
            if includes ":chunks:" ("upload:" +:+ fst kv) then m
            else JsMap.set (fst kv) (fromData (snd kv)) m)
         [] (Redis.SCAN now (Redis.uploadKeys r)).

Definition checkRateLimit (now : Z) (identifier : string) (maxRequests : Z)
    (windowSeconds : Z) (r : Redis.t) : Result RateLimitResult * Redis.t :=
  command r
    (let currentCount :=
       match Redis.GET now identifier (Redis.ratelimitKeys r) with
       | Some c => c
       | None => 0
       end in
     if maxRequests <=? currentCount then
       let ttl := Redis.TTL now identifier (Redis.ratelimitKeys r) in
       (Return {| allowed := false; remaining := 0;
                  resetAt := now + ttl * 1000 |}, r)
     else
       let k1 := Redis.INCR now identifier (Redis.ratelimitKeys r) in
       let k2 := if currentCount =? 0
                 then Redis.EXPIRE now identifier windowSeconds k1 else k1 in
       (Return {| allowed := true;
                  remaining := maxRequests - currentCount - 1;
                  resetAt := now + windowSeconds * 1000 |},
        Redis_set_ratelimitKeys k2 r)).

Definition addCancelledDownload (now : Z) (fileId clientId : string)
    (r : Redis.t) : Result unit * Redis.t :=
  command r
    (let old := match Redis.GET now fileId (Redis.cancelledKeys r) with
                | Some s => s
                | None => ∅
                end in
     let keep := match JsMap.get fileId (Redis.cancelledKeys r) with
                 | Some e => if Redis.live now e then Redis.expireAt e else None
                 | None => None
                 end in
     let k1 := JsMap.set fileId (Redis.mkEntry ({[clientId]} ∪ old) keep)
                 (Redis.cancelledKeys r) in
     (Return tt,
      Redis_set_cancelledKeys
        (Redis.EXPIRE now fileId (UPLOAD_STATE TTL) k1) r)).

Definition removeCancelledDownloads (fileId : string) (r : Redis.t)
  : Result unit * Redis.t :=
  command r
    (Return tt,
     Redis_set_cancelledKeys (JsMap.delete fileId (Redis.cancelledKeys r)) r).

End Methods.
End RedisService.

(* ===================================================================== *)
(** ** repositories/storage.repository.ts *)
(* ===================================================================== *)

(** What [getAllUploadStates] hands out: the in-memory [Map] itself in the
    embedded backend, so that later writes show through it, or a [Map]
    freshly built from Redis. *)
Inductive UploadsRef :=
| LiveUploads
| Snapshot (m : JsMap.t FileUpload).

Definition deref (h : UploadsRef) (n : Node) : JsMap.t FileUpload :=
  match h with
  | LiveUploads => fileUploads n
  | Snapshot m => m
  end.

Module StorageRepository.

(** [if (this.redisService) { ... } else { ... }]: a method of
    [RedisService] run on the node's client, or the in-memory branch. *)
Definition backend {A} (redis : Redis.t -> Result A * Redis.t)
    (memory : M A) : M A :=
  fun n =>
    match redisService n with
    | Some r => let '(res, r') := redis r in (res, set_redis r' n, [])
    | None => memory n
    end.

(** A Redis method that only reads. *)
Definition reading {A} (f : Redis.t -> A) (r : Redis.t)
  : Result A * Redis.t :=
  (Return (f r), r).

Section Methods.
Variable TTL : TTLConfig.

Definition setClientSession (now : Z) (clientId : string)
    (session : ClientSession) : M unit :=
  backend (RedisService.setClientSession TTL now clientId session)
    (modify (fun n =>
       set_clientSessions (JsMap.set clientId session (clientSessions n)) n)).

Definition getClientSession (now : Z) (clientId : string)
  : M (option ClientSession) :=
  backend (reading (RedisService.getClientSession now clientId))
    (gets (fun n => JsMap.get clientId (clientSessions n))).

Definition getAllClientSessions (now : Z) : M (JsMap.t ClientSession) :=
  backend (reading (RedisService.getAllClientSessions now))
    (gets clientSessions).

(** The Redis write is wrapped in [try]/[catch]; the in-memory write
    always happens. *)
Definition setUploadState (now : Z) (fileId : string) (upload : FileUpload)
  : M unit :=
  try_ (backend (RedisService.setUploadState TTL now fileId upload) (ret tt)) ;;
  modify (fun n =>
    set_fileUploads (JsMap.set fileId upload (fileUploads n)) n).

(** The in-memory map answers first; what Redis returns is cached. *)
Definition getUploadState (now : Z) (fileId : string)
  : M (option FileUpload) :=
  cached <- gets (fun n => JsMap.get fileId (fileUploads n)) ;;
  match cached with
  | Some upload => ret (Some upload)
  | None =>
      upload <- backend (RedisService.getUploadState now fileId) (ret None) ;;
      match upload with
      | Some u =>
          modify (fun n =>
            set_fileUploads (JsMap.set fileId u (fileUploads n)) n) ;;
          ret (Some u)
      | None => ret None
      end
  end.

Definition getAllUploadStates (now : Z) : M UploadsRef :=
  backend (reading (fun r => Snapshot (RedisService.getAllUploadStates now r)))
    (ret LiveUploads).

Definition setShareSession (now : Z) (shareId : string)
    (session : ShareSession) : M unit :=
  backend (RedisService.setShareSession TTL now shareId session)
    (modify (fun n =>
       set_shareSessions (JsMap.set shareId session (shareSessions n)) n)).

Definition getShareSession (now : Z) (shareId : string)
  : M (option ShareSession) :=
  backend (reading (RedisService.getShareSession now shareId))
    (gets (fun n => JsMap.get shareId (shareSessions n))).

Definition deleteShareSession (shareId : string) : M unit :=
  backend (RedisService.deleteShareSession shareId)
    (modify (fun n =>
       set_shareSessions (JsMap.delete shareId (shareSessions n)) n)).

(** The embedded branch answers [allowed: true] to every request. *)
Definition checkRateLimit (now : Z) (identifier : string) (maxRequests : Z)
  : M RateLimitResult :=
  backend
    (RedisService.checkRateLimit now identifier maxRequests
       (RATE_LIMIT_WINDOW TTL))
    (ret {| allowed := true; remaining := maxRequests;
            resetAt := now + 60000 |}).

Definition addCancelledDownload (now : Z) (fileId clientId : string)
  : M unit :=
  backend (RedisService.addCancelledDownload TTL now fileId clientId)
    (modify (fun n =>
       let old := match JsMap.get fileId (cancelledDownloads n) with
                  | Some s => s
                  | None => ∅
                  end in
       set_cancelledDownloads
         (JsMap.set fileId ({[clientId]} ∪ old) (cancelledDownloads n)) n)).

Definition removeCancelledDownloads (fileId : string) : M unit :=
  backend (RedisService.removeCancelledDownloads fileId)
    (modify (fun n =>
       set_cancelledDownloads (JsMap.delete fileId (cancelledDownloads n)) n)).

Definition setActiveConnection (clientId socketId : string) : M unit :=
  modify (fun n =>
    set_activeConnections (JsMap.set clientId socketId (activeConnections n)) n).

Definition deleteActiveConnection (clientId : string) : M unit :=
  modify (fun n =>
    set_activeConnections (JsMap.delete clientId (activeConnections n)) n).

End Methods.
End StorageRepository.

(** [statsService.incrementFilesSent]: load and save failures are caught
    inside the service. *)
Definition incrementFilesSent : M unit :=
  modify (fun n => set_filesSent (filesSent n + 1) n).

(* ===================================================================== *)
(** ** Assignments to members of the stored objects *)
(* ===================================================================== *)

Definition cs_with_lastHeartbeat (t : Z) (c : ClientSession) : ClientSession :=
  {| cs_clientId := cs_clientId c; cs_socketId := cs_socketId c;
     cs_nodeId := cs_nodeId c; cs_connected := cs_connected c;
     cs_lastHeartbeat := t; cs_uploads := cs_uploads c;
     cs_downloads := cs_downloads c; cs_uploadSpeed := cs_uploadSpeed c;
     cs_downloadSpeed := cs_downloadSpeed c; cs_shareId := cs_shareId c |}.

Definition cs_with_connected (b : bool) (c : ClientSession) : ClientSession :=
  {| cs_clientId := cs_clientId c; cs_socketId := cs_socketId c;
     cs_nodeId := cs_nodeId c; cs_connected := b;
     cs_lastHeartbeat := cs_lastHeartbeat c; cs_uploads := cs_uploads c;
     cs_downloads := cs_downloads c; cs_uploadSpeed := cs_uploadSpeed c;
     cs_downloadSpeed := cs_downloadSpeed c; cs_shareId := cs_shareId c |}.

Definition cs_with_downloads (d : list string) (c : ClientSession)
  : ClientSession :=
  {| cs_clientId := cs_clientId c; cs_socketId := cs_socketId c;
     cs_nodeId := cs_nodeId c; cs_connected := cs_connected c;
     cs_lastHeartbeat := cs_lastHeartbeat c; cs_uploads := cs_uploads c;
     cs_downloads := d; cs_uploadSpeed := cs_uploadSpeed c;
     cs_downloadSpeed := cs_downloadSpeed c; cs_shareId := cs_shareId c |}.

Definition cs_with_shareId (sid : string) (c : ClientSession) : ClientSession :=
  {| cs_clientId := cs_clientId c; cs_socketId := cs_socketId c;
     cs_nodeId := cs_nodeId c; cs_connected := cs_connected c;
     cs_lastHeartbeat := cs_lastHeartbeat c; cs_uploads := cs_uploads c;
     cs_downloads := cs_downloads c; cs_uploadSpeed := cs_uploadSpeed c;
     cs_downloadSpeed := cs_downloadSpeed c; cs_shareId := Some sid |}.

Definition ss_with_clients (l : list string) (s : ShareSession) : ShareSession :=
  {| ss_shareId := ss_shareId s; ss_createdAt := ss_createdAt s;
     ss_lastActivity := ss_lastActivity s; ss_clients := l;
     ss_status := ss_status s |}.

Definition ss_with_lastActivity (t : Z) (s : ShareSession) : ShareSession :=
  {| ss_shareId := ss_shareId s; ss_createdAt := ss_createdAt s;
     ss_lastActivity := t; ss_clients := ss_clients s;
     ss_status := ss_status s |}.

Definition up_with_status (st : UploadStatus) (u : FileUpload) : FileUpload :=
  {| up_fileId := up_fileId u; up_fileName := up_fileName u;
     up_fileSize := up_fileSize u; up_totalChunks := up_totalChunks u;
     up_uploadedChunks := up_uploadedChunks u; up_clientId := up_clientId u;
     up_startTime := up_startTime u; up_lastUpdate := up_lastUpdate u;
     up_status := st; up_chunkChecksums := up_chunkChecksums u;
     up_pendingAcks := up_pendingAcks u; up_lastAckTime := up_lastAckTime u |}.

Definition up_with_pendingAcks (a : PendingAcks) (u : FileUpload) : FileUpload :=
  {| up_fileId := up_fileId u; up_fileName := up_fileName u;
     up_fileSize := up_fileSize u; up_totalChunks := up_totalChunks u;
     up_uploadedChunks := up_uploadedChunks u; up_clientId := up_clientId u;
     up_startTime := up_startTime u; up_lastUpdate := up_lastUpdate u;
     up_status := up_status u; up_chunkChecksums := up_chunkChecksums u;
     up_pendingAcks := a; up_lastAckTime := up_lastAckTime u |}.

Definition up_with_lastAckTime (t : Z) (u : FileUpload) : FileUpload :=
  {| up_fileId := up_fileId u; up_fileName := up_fileName u;
     up_fileSize := up_fileSize u; up_totalChunks := up_totalChunks u;
     up_uploadedChunks := up_uploadedChunks u; up_clientId := up_clientId u;
     up_startTime := up_startTime u; up_lastUpdate := up_lastUpdate u;
     up_status := up_status u; up_chunkChecksums := up_chunkChecksums u;
     up_pendingAcks := up_pendingAcks u; up_lastAckTime := Some t |}.

(** [upload.uploadedChunks.add(i); upload.lastUpdate = now], and the
    checksum entry when the native addon is enabled. *)
Definition up_add_chunk (i now : Z) (sum : option string) (u : FileUpload)
  : FileUpload :=
  {| up_fileId := up_fileId u; up_fileName := up_fileName u;
     up_fileSize := up_fileSize u; up_totalChunks := up_totalChunks u;
     up_uploadedChunks := {[i]} ∪ up_uploadedChunks u;
     up_clientId := up_clientId u;
     up_startTime := up_startTime u; up_lastUpdate := now;
     up_status := up_status u;
     up_chunkChecksums :=
       match sum with
       | Some c =>
           Some (<[i := c]> (match up_chunkChecksums u with
                             | Some m => m
                             | None => ∅
                             end))
       | None => up_chunkChecksums u
       end;
     up_pendingAcks := up_pendingAcks u; up_lastAckTime := up_lastAckTime u |}.

(** [array.includes(x)] and [array.filter(y => y !== x)] on strings. *)
Definition includes_str (x : string) (l : list string) : bool :=
  existsb (String.eqb x) l.

Definition without (x : string) (l : list string) : list string :=
  List.filter (fun y => negb (String.eqb y x)) l.

(* ===================================================================== *)
(** ** socket/socket.handler.ts *)
(* ===================================================================== *)

Record UploadInitEvent := {
  ui_clientId : string;
  ui_fileName : string;
  ui_fileSize : Z;
  ui_totalChunks : Z;
}.

Record UploadChunkEvent := {
  uc_fileId : string;
  uc_chunkIndex : Z;
  uc_chunk : Buffer;
  uc_clientId : string;
}.

Module SocketHandler.
Section Handlers.
Variable config : Config.
Variable TTL : TTLConfig.
(** [simdChecksum] of the native addon. *)
Variable simdChecksum : Buffer -> string.

(** The number of uploads of [clientId] whose status is [uploading]. *)
Definition activeUploadsOf (clientId : string) (uploads : JsMap.t FileUpload)
  : Z :=
  Z.of_nat
    (length
       (List.filter
          (fun u => String.eqb (up_clientId u) clientId
                    && UploadStatus_eqb (up_status u) uploading)
          (JsMap.values uploads))).

(** [register]: [nodeId] is [clusterManager.getNodeId()]. *)
Definition register (nodeId : option string) (now : Z)
    (socketId clientId : string) : M unit :=
  let session := {|
    cs_clientId := clientId; cs_socketId := socketId;
    cs_nodeId := truthy nodeId; cs_connected := true;
    cs_lastHeartbeat := now; cs_uploads := []; cs_downloads := [];
    cs_uploadSpeed := 0; cs_downloadSpeed := 0; cs_shareId := None |} in
  StorageRepository.setClientSession TTL now clientId session ;;
  StorageRepository.setActiveConnection clientId socketId ;;
  send (ClusterNotify "handleClientConnect" clientId) ;;
  send (Emit (registered clientId socketId)) ;;
  send (Webhook "client-connected").

Definition heartbeat (now : Z) (clientId : string) : M unit :=
  rateLimit <- StorageRepository.checkRateLimit TTL now
                 ("heartbeat:" +:+ clientId) (rateLimitMessages config) ;;
  if negb (allowed rateLimit) then
    send (Emit (rate_limited (resetAt rateLimit)))
  else
    session <- StorageRepository.getClientSession now clientId ;;
    match session with
    | Some s =>
        StorageRepository.setClientSession TTL now clientId
          (cs_with_lastHeartbeat now s) ;;
        send (Emit heartbeat_ack)
    | None => ret tt
    end.

(** The receiver loop of [upload-init]: a receiver over a limit is
    skipped; an accepted one gets [fileId] pushed on its [downloads]. *)
Fixpoint acceptReceivers (now : Z) (fileId : string) (allUploads : UploadsRef)
    (otherClients : list string) : M (list string) :=
  match otherClients with
  | [] => ret []
  | otherClientId :: rest =>
      otherSession <- StorageRepository.getClientSession now otherClientId ;;
      match otherSession with
      | Some os =>
          let downloads := Z.of_nat (length (cs_downloads os)) in
          if maxConcurrentDownloads config <=? downloads then
            acceptReceivers now fileId allUploads rest
          else
            receiverActiveUploads <-
              gets (fun n => activeUploadsOf otherClientId (deref allUploads n)) ;;
            if maxConcurrentTransfers config <=?
                 downloads + receiverActiveUploads then
              acceptReceivers now fileId allUploads rest
            else
              StorageRepository.setClientSession TTL now otherClientId
                (cs_with_downloads (cs_downloads os ++ [fileId]) os) ;;
              accepted <- acceptReceivers now fileId allUploads rest ;;
              ret (otherClientId :: accepted)
      | None => acceptReceivers now fileId allUploads rest
      end
  end.

(** [upload-init]; [rnd] is the random suffix of the file id. *)
Definition uploadInit (now : Z) (rnd : string) (data : UploadInitEvent)
  : M unit :=
  rateLimit <- StorageRepository.checkRateLimit TTL now
                 ("upload:" +:+ ui_clientId data) (rateLimitUploads config) ;;
  if negb (allowed rateLimit) then
    send (Emit (rate_limited (resetAt rateLimit)))
  else
    allUploads <- StorageRepository.getAllUploadStates now ;;
    activeUploads <-
      gets (fun n => activeUploadsOf (ui_clientId data) (deref allUploads n)) ;;
    if maxConcurrentUploads config <=? activeUploads then
      throw (AppErr (uploadFailed
        ("Too many concurrent uploads (max "
         +:+ pretty (maxConcurrentUploads config) +:+ ")")))
    else
    senderSession <- StorageRepository.getClientSession now (ui_clientId data) ;;
    let senderActiveDownloads :=
      match senderSession with
      | Some s => Z.of_nat (length (cs_downloads s))
      | None => 0
      end in
    if maxConcurrentTransfers config <=? activeUploads + senderActiveDownloads
    then
      throw (AppErr (uploadFailed
        ("Too many concurrent transfers (max "
         +:+ pretty (maxConcurrentTransfers config) +:+ ")")))
    else
    if maxFileSize config <? ui_fileSize data then
      throw (AppErr (fileTooLarge (ui_fileSize data) (maxFileSize config)))
    else
    let fileId := "file-" +:+ pretty now +:+ "-" +:+ rnd in
    let upload := {|
      up_fileId := fileId; up_fileName := ui_fileName data;
      up_fileSize := ui_fileSize data; up_totalChunks := ui_totalChunks data;
      up_uploadedChunks := ∅; up_clientId := ui_clientId data;
      up_startTime := now; up_lastUpdate := now; up_status := uploading;
      up_chunkChecksums := None; up_pendingAcks := AcksAbsent;
      up_lastAckTime := None |} in
    StorageRepository.setUploadState TTL now fileId upload ;;
    when (useCluster config)
      (try_
         (clientSession <- StorageRepository.getClientSession now
                             (ui_clientId data) ;;
          match truthy (clientSession ≫= cs_shareId) with
          | Some shareId =>
              _ <- StorageRepository.getShareSession now shareId ;; ret tt
          | None => ret tt
          end)) ;;
    clientSession <- StorageRepository.getClientSession now (ui_clientId data) ;;
    acceptedReceivers <-
      match truthy (clientSession ≫= cs_shareId) with
      | Some shareId =>
          shareSession <- StorageRepository.getShareSession now shareId ;;
          match shareSession with
          | Some ss =>
              acceptReceivers now fileId allUploads
                (without (ui_clientId data) (ss_clients ss))
          | None => ret []
          end
      | None => ret []
      end ;;
    match truthy (clientSession ≫= cs_shareId) with
    | Some shareId =>
        shareSession <- StorageRepository.getShareSession now shareId ;;
        match shareSession with
        | Some ss =>
            if (1 <? length (ss_clients ss))%nat
               && (length acceptedReceivers =? 0)%nat
            then
              throw (AppErr (uploadFailed
                "All receivers are busy (too many concurrent transfers)"))
            else ret tt
        | None => ret tt
        end
    | None => ret tt
    end ;;
    send (Emit (upload_init_response fileId)) ;;
    for_each acceptedReceivers
      (fun receiverId =>
         send (Route receiverId
                 (file_transfer_started fileId (ui_fileName data)
                    (ui_fileSize data) (ui_totalChunks data)))).

(** The write that an assignment to a member of [upload] amounts to: the
    object returned by [getUploadState] is the one held by the in-memory
    map under [fileId]. *)
Definition writeThrough (fileId : string) (upload : FileUpload) : M unit :=
  modify (fun n =>
    set_fileUploads (JsMap.set fileId upload (fileUploads n)) n).

(** The guarded insertion of [upload-chunk].  [pendingAcks.set] is not a
    function on the plain object that Redis hands back; the members
    assigned before the call stay assigned. *)
Definition insertChunk (now : Z) (data : UploadChunkEvent) (upload : FileUpload)
  : M FileUpload :=
  if bool_decide (uc_chunkIndex data ∈ up_uploadedChunks upload) then
    ret upload
  else
    let sum := if useNativeAddon config
               then Some (simdChecksum (uc_chunk data)) else None in
    let u1 := up_add_chunk (uc_chunkIndex data) now sum upload in
    let ack := {| timestamp := now; retries := 0 |} in
    match up_pendingAcks upload with
    | AcksAbsent =>
        let u2 := up_with_pendingAcks
                    (AcksMap {[uc_chunkIndex data := ack]}) u1 in
        writeThrough (uc_fileId data) u2 ;; ret u2
    | AcksMap m =>
        let u2 := up_with_pendingAcks
                    (AcksMap (<[uc_chunkIndex data := ack]> m)) u1 in
        writeThrough (uc_fileId data) u2 ;; ret u2
    | AcksObject =>
        writeThrough (uc_fileId data) u1 ;;
        throw (TypeError "upload.pendingAcks.set is not a function")
    end.

(** The relay loop of [upload-chunk] over the other clients of the
    share. *)
Definition relayChunk (now : Z) (data : UploadChunkEvent) (totalChunks : Z)
    (otherClients : list string) : M unit :=
  for_each otherClients
    (fun otherClientId =>
       otherSession <- StorageRepository.getClientSession now otherClientId ;;
       match otherSession with
       | Some os =>
           if includes_str (uc_fileId data) (cs_downloads os) then
             send (Route otherClientId
                     (chunk_received (uc_fileId data) (uc_chunkIndex data)
                        (uc_chunk data) totalChunks)) ;;
             send (Route (uc_clientId data)
                     (chunk_acknowledged (uc_fileId data) (uc_chunkIndex data)))
           else ret tt
       | None => ret tt
       end).

(** "Forward chunk to other clients in the share session": the share of
    the sender is looked up and the relay loop runs over its other
    clients. *)
Definition forwardChunk (now : Z) (data : UploadChunkEvent) (totalChunks : Z)
  : M unit :=
  clientSession <- StorageRepository.getClientSession now (uc_clientId data) ;;
  match truthy (clientSession ≫= cs_shareId) with
  | Some shareId =>
      shareSession <- StorageRepository.getShareSession now shareId ;;
      match shareSession with
      | Some ss =>
          relayChunk now data totalChunks
            (without (uc_clientId data) (ss_clients ss))
      | None => ret tt
      end
  | None => ret tt
  end.

(** The completion check that ends [upload-chunk]. *)
Definition completeIfDone (now : Z) (data : UploadChunkEvent)
    (upload : FileUpload) : M unit :=
  if (Z.of_nat (size (up_uploadedChunks upload)) =? up_totalChunks upload)
     && negb (UploadStatus_eqb (up_status upload) completed)
  then
    StorageRepository.setUploadState TTL now (uc_fileId data)
      (up_with_status completed upload) ;;
    send (Emit (upload_complete (uc_fileId data) (up_fileName upload)
                  (up_fileSize upload) (now - up_startTime upload))) ;;
    send (Webhook "upload-complete") ;;
    try_ incrementFilesSent ;;
    StorageRepository.removeCancelledDownloads (uc_fileId data)
  else ret tt.

(** [upload-chunk]; [callback] tells whether the client passed an
    acknowledgement callback. *)
Definition uploadChunk (now : Z) (data : UploadChunkEvent) (callback : bool)
  : M unit :=
  upload <- StorageRepository.getUploadState now (uc_fileId data) ;;
  match upload with
  | None =>
      when callback (send (Callback (cb_error "Upload not found or cancelled"))) ;;
      throw (AppErr (uploadFailed "Upload not found or cancelled"))
  | Some upload =>
      if UploadStatus_eqb (up_status upload) cancelled
         || UploadStatus_eqb (up_status upload) paused
      then
        when callback (send (Callback (cb_error "Upload cancelled or paused")))
      else
        upload <- insertChunk now data upload ;;
        send (Emit (chunk_uploaded (uc_fileId data) (uc_chunkIndex data)
                      (size (up_uploadedChunks upload))
                      (up_totalChunks upload))) ;;
        forwardChunk now data (up_totalChunks upload) ;;
        when callback (send (Callback cb_success)) ;;
        completeIfDone now data upload
  end.

(** [chunk-acknowledged] sent by a client. *)
Definition chunkAcknowledged (now : Z) (fileId : string) (chunkIndex : Z)
  : M unit :=
  upload <- StorageRepository.getUploadState now fileId ;;
  match upload with
  | None => ret tt
  | Some upload =>
      match up_pendingAcks upload with
      | AcksAbsent => ret tt
      | AcksMap m =>
          StorageRepository.setUploadState TTL now fileId
            (up_with_lastAckTime now
               (up_with_pendingAcks (AcksMap (delete chunkIndex m)) upload))
      | AcksObject =>
          throw (TypeError "upload.pendingAcks.delete is not a function")
      end
  end.

(** [cancel-download] *)
Definition cancelDownload (now : Z) (fileId clientId : string) : M unit :=
  StorageRepository.addCancelledDownload TTL now fileId clientId ;;
  session <- StorageRepository.getClientSession now clientId ;;
  match session with
  | Some s =>
      when (includes_str fileId (cs_downloads s))
        (StorageRepository.setClientSession TTL now clientId
           (cs_with_downloads (without fileId (cs_downloads s)) s))
  | None => ret tt
  end ;;
  send (Emit (download_cancelled fileId)) ;;
  upload <- StorageRepository.getUploadState now fileId ;;
  match upload with
  | Some _ => send (Webhook "download-cancelled")
  | None => ret tt
  end.

(** [disconnect] of the connection [socketId]: the first session bound to
    the socket is taken out of its share and marked disconnected. *)
Definition disconnect (now : Z) (socketId : string) : M unit :=
  send (ClusterNotify "handleClientDisconnect" socketId) ;;
  sessions <- StorageRepository.getAllClientSessions now ;;
  match List.find (fun kv => String.eqb (cs_socketId (snd kv)) socketId)
          sessions with
  | Some (clientId, session) =>
      match truthy (cs_shareId session) with
      | Some shareId =>
          shareSession <- StorageRepository.getShareSession now shareId ;;
          match shareSession with
          | Some ss =>
              let otherClients := without clientId (ss_clients ss) in
              for_each otherClients
                (fun otherClientId =>
                   send (Route otherClientId
                           (client_disconnected_from_share clientId shareId))) ;;
              if (length otherClients =? 0)%nat then
                StorageRepository.deleteShareSession shareId
              else
                StorageRepository.setShareSession TTL now shareId
                  (ss_with_clients otherClients ss)
          | None => ret tt
          end
      | None => ret tt
      end ;;
      StorageRepository.setClientSession TTL now clientId
        (cs_with_connected false session) ;;
      StorageRepository.deleteActiveConnection clientId ;;
      send (Webhook "client-disconnected")
  | None => ret tt
  end.

(** The inner loop of the acknowledgement checker over [pendingAcks]: the
    entries after the pass, the indices to retry and the indices that
    failed.  The two lists follow the order of [map_to_list]; in the
    code they follow the order in which the entries were inserted into
    the [Map].  Which indices are in each list does not depend on it. *)
Definition timedOut (now : Z) (a : AckInfo) : bool :=
  ackTimeout config <? now - timestamp a.

Definition scanPendingAcks (now : Z) (m : gmap Z AckInfo)
  : gmap Z AckInfo * list Z * list Z :=
  let retry (a : AckInfo) := timedOut now a && negb (maxRetries config <=? retries a) in
  let fail (a : AckInfo) := timedOut now a && (maxRetries config <=? retries a) in
  ((fun a => if retry a
             then {| timestamp := now; retries := retries a + 1 |} else a) <$> m,
   map fst (List.filter (fun kv => retry (snd kv)) (map_to_list m)),
   map fst (List.filter (fun kv => fail (snd kv)) (map_to_list m))).

(** The body of the checker for one upload.  [sockets] lists the ids of
    the sockets open on this node; [live] tells whether [upload] is the
    object held by the in-memory map, in which case the changes to its
    entries are visible at once. *)
Definition checkUpload (now : Z) (sockets : list string) (live : bool)
    (fileId : string) (upload : FileUpload) : M unit :=
  if negb (UploadStatus_eqb (up_status upload) uploading) then ret tt
  else
    match up_pendingAcks upload with
    | AcksAbsent => ret tt
    | AcksObject => throw (TypeError "upload.pendingAcks is not iterable")
    | AcksMap m =>
        if (size m =? 0)%nat then ret tt
        else
          let '(m', timedOutChunks, failedChunks) := scanPendingAcks now m in
          let u1 := up_with_pendingAcks (AcksMap m') upload in
          when live (writeThrough fileId u1) ;;
          when (negb (length timedOutChunks =? 0)%nat)
            (session <- StorageRepository.getClientSession now
                          (up_clientId upload) ;;
             match session with
             | Some s =>
                 when (includes_str (cs_socketId s) sockets)
                   (for_each timedOutChunks
                      (fun chunkIndex =>
                         send (EmitTo (cs_socketId s)
                                 (chunk_retry fileId chunkIndex
                                    (match m' !! chunkIndex with
                                     | Some a => retries a
                                     | None => 0
                                     end)))))
             | None => ret tt
             end) ;;
          when (negb (length failedChunks =? 0)%nat)
            (StorageRepository.setUploadState TTL now fileId
               (up_with_status failed u1) ;;
             session <- StorageRepository.getClientSession now
                          (up_clientId upload) ;;
             match session with
             | Some s =>
                 when (includes_str (cs_socketId s) sockets)
                   (send (EmitTo (cs_socketId s)
                            (transfer_failed fileId failedChunks)))
             | None => ret tt
             end ;;
             send (Webhook "upload-cancelled")) ;;
          when (negb (length timedOutChunks =? 0)%nat
                && (length failedChunks =? 0)%nat)
            (StorageRepository.setUploadState TTL now fileId u1)
    end.

(** One tick of [startAckTimeoutChecker]. *)
Definition ackTimeoutCheck (now : Z) (sockets : list string) : M unit :=
  uploads <- StorageRepository.getAllUploadStates now ;;
  entries <- gets (deref uploads) ;;
  for_each entries
    (fun kv =>
       checkUpload now sockets
         (match uploads with LiveUploads => true | Snapshot _ => false end)
         (fst kv) (snd kv)).

(** [safeHandler]: an exception is logged and goes no further. *)
Definition safeHandler (h : M unit) : M unit := try_ h.

End Handlers.
End SocketHandler.

(* ===================================================================== *)
(** ** controllers/share.controller.ts *)
(* ===================================================================== *)

(** The JSON body of a share request; a member is [None] when absent. *)
Record ShareRequest := {
  req_clientId : option string;
  req_shareId : option string;
}.

Module ShareController.
Section Handlers.
Variable TTL : TTLConfig.

(** [validateRequired] of [validators/input.validator.ts] on the two
    members a share request can carry. *)
Definition validateRequired (body : ShareRequest) (fields : list string)
  : M unit :=
  let value f :=
    if String.eqb f "clientId" then req_clientId body
    else if String.eqb f "shareId" then req_shareId body
    else None in
  let missing := List.filter (fun f => negb (bool_decide (is_Some (truthy (value f))))) fields in
  if (0 <? length missing)%nat then
    throw (AppErr (badRequest
      ("Missing required fields: " +:+ String.concat ", " missing)))
  else ret tt.

(** [createShare]; [rnd] is the random suffix of a generated share id. *)
Definition createShare (now : Z) (rnd : string) (body : ShareRequest)
  : M unit :=
  validateRequired body ["clientId"] ;;
  let clientId := default "" (req_clientId body) in
  shareId <-
    match truthy (req_shareId body) with
    | Some customShareId =>
        existing <- StorageRepository.getShareSession now customShareId ;;
        match existing with
        | Some _ => throw (AppErr (conflict "Share ID already exists"))
        | None => ret customShareId
        end
    | None => ret ("share-" +:+ pretty now +:+ "-" +:+ rnd)
    end ;;
  let shareSession := {|
    ss_shareId := shareId; ss_createdAt := now; ss_lastActivity := now;
    ss_clients := [clientId]; ss_status := active |} in
  StorageRepository.setShareSession TTL now shareId shareSession ;;
  clientSession <- StorageRepository.getClientSession now clientId ;;
  match clientSession with
  | Some cs =>
      StorageRepository.setClientSession TTL now clientId
        (cs_with_shareId shareId cs) ;;
      send (ClusterNotify "handleShareCreate" clientId)
  | None => ret tt
  end ;;
  for_each (ss_clients shareSession)
    (fun cid =>
       send (Route cid
               (connection_ready shareId (length (ss_clients shareSession))
                  "Share session created - Waiting for others to join"))) ;;
  send (ResJson shareId 1).

Definition joinShare (now : Z) (body : ShareRequest) : M unit :=
  validateRequired body ["shareId"; "clientId"] ;;
  let shareId := default "" (req_shareId body) in
  let clientId := default "" (req_clientId body) in
  shareSession <- StorageRepository.getShareSession now shareId ;;
  match shareSession with
  | None => throw (AppErr (notFound "Share session not found"))
  | Some ss =>
      match ss_status ss with
      | inactive => throw (AppErr (badRequest "Share session is inactive"))
      | active =>
          if (2 <=? length (ss_clients ss))%nat then
            throw (AppErr (shareSessionFull shareId))
          else
            let joined :=
              ss_with_lastActivity now
                (ss_with_clients (ss_clients ss ++ [clientId]) ss) in
            StorageRepository.setShareSession TTL now shareId joined ;;
            clientSession <- StorageRepository.getClientSession now clientId ;;
            match clientSession with
            | Some cs =>
                StorageRepository.setClientSession TTL now clientId
                  (cs_with_shareId shareId cs)
            | None => ret tt
            end ;;
            for_each (ss_clients joined)
              (fun cid =>
                 send (Route cid
                         (connection_ready shareId (length (ss_clients joined))
                            "Connection ready - Ready to share files!")) ;;
                 send (Route cid (client_joined_share clientId shareId))) ;;
            send (Webhook "share-joined") ;;
            send (ResJson shareId (length (ss_clients joined)))
      end
  end.

(** The status code [errorMiddleware] answers with. *)
Definition httpStatus (r : Result unit) : Z :=
  match r with
  | Return _ => 200
  | Throw (AppErr e) => statusCode e
  | Throw _ => 500
  end.

End Handlers.
End ShareController.

(* ===================================================================== *)
(** ** services/cluster.service.ts: leader election *)
(* ===================================================================== *)

Module ClusterManager.

Definition ELECTION_INTERVAL : Z := 5000.
Definition MASTER_TTL : Z := 15.

(** The members of [ClusterManager] the election reads and writes:
    [io] and [redisClient] tell whether the member is set. *)
Record t := mk {
  nodeId : option string;
  isMaster : bool;
  io : bool;
  redisClient : bool;
}.

Definition with_isMaster (b : bool) (c : t) : t :=
  mk (nodeId c) b (io c) (redisClient c).

(** [SET cluster:master value NX EX seconds]: whether the reply is [OK],
    and the keyspace afterwards. *)
Definition SET_NX_EX (now : Z) (v : string) (seconds : Z) (r : Redis.t)
  : bool * Redis.t :=
  let write :=
    Redis_set_clusterMaster (Some (Redis.mkEntry v (Some (now + seconds * 1000)))) r in
  match Redis.clusterMaster r with
  | Some e => if Redis.live now e then (false, r) else (true, write)
  | None => (true, write)
  end.

(** [GET cluster:master] *)
Definition GET_master (now : Z) (r : Redis.t) : option string :=
  match Redis.clusterMaster r with
  | Some e => if Redis.live now e then Some (Redis.value e) else None
  | None => None
  end.

(** [EXPIRE cluster:master seconds] *)
Definition EXPIRE_master (now : Z) (seconds : Z) (r : Redis.t) : Redis.t :=
  match Redis.clusterMaster r with
  | Some e =>
      if Redis.live now e then
        Redis_set_clusterMaster
          (Some (Redis.mkEntry (Redis.value e) (Some (now + seconds * 1000)))) r
      else r
  | None => r
  end.

(** [notifyLocalClientsOfRoleChange] *)
Definition notifyLocalClientsOfRoleChange (c : t) (id : string) (role : Role)
  : list Output :=
  if io c then [IoEmit (cluster_role_change id role)] else [].

(** One run of [tryBecomeMaster] at time [now] against the shared
    keyspace [r]: the node afterwards, the keyspace afterwards, and what
    the node sent.  The election has a Redis client of its own;
    [reachable] tells whether its commands get through in this run.  When
    they do not, the first command throws and the [catch] of the election
    logs the error, leaving everything as it was.  This is the run with
    its three commands answered one after the other at one instant and
    nothing in between; the runs whose commands are interleaved with
    those of other runs are those of [Election.command] below. *)
Definition tryBecomeMaster (now : Z) (reachable : bool) (c : t) (r : Redis.t)
  : t * Redis.t * list Output :=
  match truthy (nodeId c) with
  | None => (c, r, [])
  | Some id =>
      if negb (redisClient c) then (c, r, [])
      else if negb reachable then (c, r, [])
      else
        let '(ok, r1) := SET_NX_EX now id MASTER_TTL r in
        if ok then
          if isMaster c then (c, r1, [])
          else (with_isMaster true c, r1,
                UpdateRole id master :: notifyLocalClientsOfRoleChange c id master)
        else
          if bool_decide (GET_master now r1 = Some id) then
            let r2 := EXPIRE_master now MASTER_TTL r1 in
            if isMaster c then (c, r2, [])
            else (with_isMaster true c, r2,
                  UpdateRole id master :: notifyLocalClientsOfRoleChange c id master)
          else
            if isMaster c then
              (with_isMaster false c, r1,
               UpdateRole id worker :: notifyLocalClientsOfRoleChange c id worker)
            else (c, r1, [])
  end.

End ClusterManager.

(** A cluster: the keyspace shared by the nodes, and the nodes. *)
Record Cluster := mkCluster {
  sharedRedis : Redis.t;
  members : list ClusterManager.t;
}.

(** The election timer of one node firing: the time, the position of the
    node in [members], and whether the node reaches the store. *)
Record Tick := mkTick {
  tick_time : Z;
  tick_node : nat;
  tick_reachable : bool;
}.

Definition electionStep (k : Tick) (c : Cluster) : Cluster * list Output :=
  match members c !! tick_node k with
  | Some node =>
      let '(node', r', out) :=
        ClusterManager.tryBecomeMaster (tick_time k) (tick_reachable k) node
          (sharedRedis c) in
      (mkCluster r' (<[tick_node k := node']> (members c)), out)
  | None => (c, [])
  end.

(** A schedule of election timers, oldest first. *)
Fixpoint runElections (ticks : list Tick) (c : Cluster) : Cluster :=
  match ticks with
  | [] => c
  | k :: rest => runElections rest (fst (electionStep k c))
  end.

(** No two nodes of the cluster carry the same id. *)
Definition distinctIds (l : list ClusterManager.t) : Prop :=
  forall i j ni nj id,
    l !! i = Some ni -> l !! j = Some nj ->
    truthy (ClusterManager.nodeId ni) = Some id ->
    truthy (ClusterManager.nodeId nj) = Some id -> i = j.

(* ===================================================================== *)
(** ** A node serving a sequence of requests *)
(* ===================================================================== *)

(** What reaches a node: socket events, the two share routes, and the
    tick of the acknowledgement checker. *)
Inductive Request :=
| on_register (socketId clientId : string)
| on_heartbeat (clientId : string)
| on_upload_init (rnd : string) (data : UploadInitEvent)
| on_upload_chunk (data : UploadChunkEvent) (callback : bool)
| on_chunk_acknowledged (fileId : string) (chunkIndex : Z)
| on_cancel_download (fileId clientId : string)
| on_disconnect (socketId : string)
| post_share_create (rnd : string) (body : ShareRequest)
| post_share_join (body : ShareRequest)
| ack_timer (sockets : list string).

Section Serve.
Variable config : Config.
Variable TTL : TTLConfig.
Variable simdChecksum : Buffer -> string.
(** [clusterManager.getNodeId()] *)
Variable nodeId : option string.

(** Every handler is wrapped ([safeHandler], [asyncHandler]) so that an
    exception ends the request and nothing else.  The callback of the
    acknowledgement checker is not wrapped: an exception in it ends the
    tick as an unhandled rejection of the timer callback; here the tick
    ends in the same state, and what the process does about the
    rejection is not modelled. *)
Definition serve (now : Z) (rq : Request) : M unit :=
  try_
    match rq with
    | on_register socketId clientId =>
        SocketHandler.register TTL nodeId now socketId clientId
    | on_heartbeat clientId => SocketHandler.heartbeat config TTL now clientId
    | on_upload_init rnd data => SocketHandler.uploadInit config TTL now rnd data
    | on_upload_chunk data callback =>
        SocketHandler.uploadChunk config TTL simdChecksum now data callback
    | on_chunk_acknowledged fileId chunkIndex =>
        SocketHandler.chunkAcknowledged TTL now fileId chunkIndex
    | on_cancel_download fileId clientId =>
        SocketHandler.cancelDownload TTL now fileId clientId
    | on_disconnect socketId => SocketHandler.disconnect TTL now socketId
    | post_share_create rnd body => ShareController.createShare TTL now rnd body
    | post_share_join body => ShareController.joinShare TTL now body
    | ack_timer sockets => SocketHandler.ackTimeoutCheck config TTL now sockets
    end.

(** Requests served one after the other, each stamped with its time. *)
Fixpoint serveAll (rqs : list (Z * Request)) : M unit :=
  match rqs with
  | [] => ret tt
  | (now, rq) :: rest => serve now rq ;; serveAll rest
  end.

End Serve.

(** The [chunk-received] messages routed to [clientId] for chunk
    [chunkIndex] of [fileId]. *)
Definition is_chunk_received_for (clientId fileId : string) (chunkIndex : Z)
    (o : Output) : bool :=
  match o with
  | Route c (chunk_received f i _ _) =>
      String.eqb c clientId && String.eqb f fileId && (i =? chunkIndex)
  | _ => false
  end.

Definition is_chunk_received (o : Output) : bool :=
  match o with
  | Route _ (chunk_received _ _ _ _) => true
  | _ => false
  end.

Definition count_outputs (p : Output -> bool) (l : list Output) : nat :=
  length (List.filter p l).

(* ===================================================================== *)
(** ** Views of the stored state *)
(* ===================================================================== *)

(** The share stored under [shareId], whichever backend holds it (in
    Redis, whether or not its key has expired). *)
Definition storedShare (n : Node) (shareId : string) : option ShareSession :=
  match redisService n with
  | Some r => Redis.value <$> JsMap.get shareId (Redis.shareKeys r)
  | None => JsMap.get shareId (shareSessions n)
  end.

(** The part of a node that holds the shares. *)
Definition shareStore (n : Node)
  : option (JsMap.t (Redis.Entry ShareSession)) * JsMap.t ShareSession :=
  (Redis.shareKeys <$> redisService n, shareSessions n).

(** A handler step leaves the view [proj] of the node as it was. *)
Definition keeps {A B} (proj : Node -> B) (m : M A) : Prop :=
  forall n, proj (state_of (m n)) = proj n.

(** Every stored share is active and has at most two clients. *)
Definition sharesBounded (n : Node) : Prop :=
  forall shareId ss,
    storedShare n shareId = Some ss ->
    ss_status ss = active /\ (length (ss_clients ss) <= 2)%nat.

(* ===================================================================== *)
(** ** Further views, invariants and scenarios *)
(* ===================================================================== *)

(** A step that reads: it returns the value of [f] and changes nothing. *)
Definition reads {A} (m : M A) (f : Node -> A) : Prop :=
  forall n, m n = (Return (f n), n, []).

(** What [getShareSession] and [getClientSession] return at time [now]. *)
Definition visibleShare (now : Z) (n : Node) (shareId : string)
  : option ShareSession :=
  match redisService n with
  | Some r => RedisService.getShareSession now shareId r
  | None => JsMap.get shareId (shareSessions n)
  end.

Definition visibleSession (now : Z) (n : Node) (clientId : string)
  : option ClientSession :=
  match redisService n with
  | Some r => RedisService.getClientSession now clientId r
  | None => JsMap.get clientId (clientSessions n)
  end.

(** A run on the embedded backend with the default configuration: A
    creates the share S and B joins it. *)
Definition shareOfTwo : list (Z * Request) :=
  [ (1000, on_register "sA" "A");
    (1001, on_register "sB" "B");
    (1002, post_share_create "r"
             {| req_clientId := Some "A"; req_shareId := Some "S" |});
    (1003, post_share_join
             {| req_clientId := Some "B"; req_shareId := Some "S" |}) ]%string.

Definition nodeWithShareOfTwo : Node :=
  state_of (serveAll defaultConfig DEFAULT_TTL (fun _ => ""%string) None
              shareOfTwo (emptyNode None)).


(** What [getUploadState] reads back, at time [later], after
    [setUploadState] wrote [upload] at time [now]. *)
Definition readBack (TTL : TTLConfig) (now later : Z) (fileId : string)
    (upload : FileUpload) (r : Redis.t) : Result (option FileUpload) :=
  fst (RedisService.getUploadState later fileId
         (snd (RedisService.setUploadState TTL now fileId upload r))).

(** An upload of three chunks with chunk 0 received and waiting for its
    acknowledgement. *)
Definition uploadAwaitingAck : FileUpload := {|
  up_fileId := "F"; up_fileName := "x"; up_fileSize := 48;
  up_totalChunks := 3; up_uploadedChunks := {[0]}; up_clientId := "A";
  up_startTime := 1004; up_lastUpdate := 1005; up_status := uploading;
  up_chunkChecksums := None;
  up_pendingAcks := AcksMap {[0 := {| timestamp := 1005; retries := 0 |}]};
  up_lastAckTime := None |}.

Definition is_rate_limited (o : Output) : bool :=
  match o with
  | Emit (rate_limited _) => true
  | _ => false
  end.

Definition is_heartbeat_ack (o : Output) : bool :=
  match o with
  | Emit heartbeat_ack => true
  | _ => false
  end.

(** Client A registers and sends [count] heartbeats within the same
    millisecond. *)
Definition heartbeatFlood (count : nat) : list (Z * Request) :=
  (1000, on_register "sA" "A") :: repeat (1001, on_heartbeat "A") count.

(** B receives five files from C in the share S0 and confirms none; then
    B joins the share S that A created. *)
Definition busyReceiver : list (Z * Request) :=
  let init name :=
    on_upload_init name
      {| ui_clientId := "C"; ui_fileName := name; ui_fileSize := 16;
         ui_totalChunks := 1 |} in
  [ (1000, on_register "sC" "C");
    (1001, on_register "sB" "B");
    (1002, post_share_create "r"
             {| req_clientId := Some "C"; req_shareId := Some "S0" |});
    (1003, post_share_join
             {| req_clientId := Some "B"; req_shareId := Some "S0" |});
    (1004, init "a"); (1005, init "b"); (1006, init "c"); (1007, init "d");
    (1008, init "e");
    (1009, on_register "sA" "A");
    (1010, post_share_create "r"
             {| req_clientId := Some "A"; req_shareId := Some "S" |});
    (1011, post_share_join
             {| req_clientId := Some "B"; req_shareId := Some "S" |}) ]%string.

Definition nodeWithBusyReceiver (r : option Redis.t) : Node :=
  state_of (serveAll defaultConfig DEFAULT_TTL (fun _ => ""%string) None
              busyReceiver (emptyNode r)).

(** The cancelled marks stored for [fileId], whichever backend holds
    them. *)
Definition storedCancelled (n : Node) (fileId : string) : option (gset string) :=
  match redisService n with
  | Some r => Redis.value <$> JsMap.get fileId (Redis.cancelledKeys r)
  | None => JsMap.get fileId (cancelledDownloads n)
  end.

(** The Redis client of the node, if it has one, is open. *)
Definition redisOpen (n : Node) : Prop :=
  match redisService n with
  | Some r => Redis.isOpen r = true
  | None => True
  end.

(** The receivers of a chunk at time [now]: the other clients of the
    sender's share whose [downloads] contain the file. *)
Definition liveReceivers (now : Z) (n : Node) (data : UploadChunkEvent)
  : list string :=
  match truthy (visibleSession now n (uc_clientId data) ≫= cs_shareId) with
  | Some shareId =>
      match visibleShare now n shareId with
      | Some ss =>
          List.filter
            (fun c =>
               match visibleSession now n c with
               | Some os => includes_str (uc_fileId data) (cs_downloads os)
               | None => false
               end)
            (without (uc_clientId data) (ss_clients ss))
      | None => []
      end
  | None => []
  end.

(** What the relay sends for a chunk: to each receiver the chunk, and to
    the sender an acknowledgement. *)
Definition relayOutputs (data : UploadChunkEvent) (totalChunks : Z)
    (receivers : list string) : list Output :=
  flat_map
    (fun c =>
       [Route c (chunk_received (uc_fileId data) (uc_chunkIndex data)
                   (uc_chunk data) totalChunks);
        Route (uc_clientId data)
          (chunk_acknowledged (uc_fileId data) (uc_chunkIndex data))])
    receivers.

(** [pendingAcks] holds no entry. *)
Definition noPendingAcks (u : FileUpload) : Prop :=
  match up_pendingAcks u with
  | AcksMap m => m = ∅
  | _ => True
  end.

Section Insertion.
Variable config : Config.
Variable simdChecksum : Buffer -> string.

(** The upload after the guarded insertion. *)
Definition withChunk (now : Z) (data : UploadChunkEvent) (u : FileUpload)
  : FileUpload :=
  if bool_decide (uc_chunkIndex data ∈ up_uploadedChunks u) then u
  else
    let sum := if useNativeAddon config
               then Some (simdChecksum (uc_chunk data)) else None in
    let ack := {| timestamp := now; retries := 0 |} in
    up_with_pendingAcks
      (AcksMap (<[uc_chunkIndex data := ack]>
                  (match up_pendingAcks u with
                   | AcksMap m => m
                   | _ => ∅
                   end)))
      (up_add_chunk (uc_chunkIndex data) now sum u).

End Insertion.

Definition is_upload_complete (o : Output) : bool :=
  match o with
  | Emit (upload_complete _ _ _ _) => true
  | _ => false
  end.

(** The transfer of scenario 1 up to its last chunk: A and B share S, A
    announces a file of three chunks and has sent chunks 0 and 1. *)
Definition chunkOf (fileId : string) (i : Z) : UploadChunkEvent :=
  {| uc_fileId := fileId; uc_chunkIndex := i; uc_chunk := [];
     uc_clientId := "A" |}.

Definition transferStarted : list (Z * Request) :=
  shareOfTwo ++
  [ (1004, on_upload_init "x"
             {| ui_clientId := "A"; ui_fileName := "x"; ui_fileSize := 48;
                ui_totalChunks := 3 |}) ]%string.

Definition twoChunksIn : list (Z * Request) :=
  transferStarted ++
  [ (1005, on_upload_chunk (chunkOf "file-1004-x" 0) true);
    (1006, on_upload_chunk (chunkOf "file-1004-x" 1) true) ]%string.

Definition nodeAfter (rqs : list (Z * Request)) : Node :=
  state_of (serveAll defaultConfig DEFAULT_TTL (fun _ => ""%string) None rqs
              (emptyNode None)).

(** The claim as the data model states it, for one step of an upload that
    was [uploading]: it is [completed] afterwards exactly when all chunks
    are in and no acknowledgement is pending. *)
Definition completesWhenAcked (before after : FileUpload) : Prop :=
  up_status before = uploading ->
  (up_status after = completed <->
   Z.of_nat (size (up_uploadedChunks after)) = up_totalChunks after
   /\ noPendingAcks after).

Definition uploadBeforeLastChunk : FileUpload := {|
  up_fileId := "file-1004-x"; up_fileName := "x"; up_fileSize := 48;
  up_totalChunks := 3; up_uploadedChunks := {[0; 1]}; up_clientId := "A";
  up_startTime := 1004; up_lastUpdate := 1006; up_status := uploading;
  up_chunkChecksums := None;
  up_pendingAcks :=
    AcksMap (<[1 := {| timestamp := 1006; retries := 0 |}]>
               {[0 := {| timestamp := 1005; retries := 0 |}]});
  up_lastAckTime := None |}.

Definition uploadAfterLastChunk : FileUpload := {|
  up_fileId := "file-1004-x"; up_fileName := "x"; up_fileSize := 48;
  up_totalChunks := 3; up_uploadedChunks := {[0; 1; 2]}; up_clientId := "A";
  up_startTime := 1004; up_lastUpdate := 1007; up_status := completed;
  up_chunkChecksums := None;
  up_pendingAcks :=
    AcksMap (<[2 := {| timestamp := 1007; retries := 0 |}]>
               (<[1 := {| timestamp := 1006; retries := 0 |}]>
                  {[0 := {| timestamp := 1005; retries := 0 |}]}));
  up_lastAckTime := None |}.

(** Scenario 4: A has sent chunk 0 of three, no acknowledgement comes
    from the clients, and the checker runs every 11 seconds until the
    three retries are used up. *)
Definition retriesExhausted : list (Z * Request) :=
  transferStarted ++
  [ (1005, on_upload_chunk (chunkOf "file-1004-x" 0) true);
    (12000, ack_timer ["sA"; "sB"]);
    (23000, ack_timer ["sA"; "sB"]);
    (34000, ack_timer ["sA"; "sB"]);
    (45000, ack_timer ["sA"; "sB"]) ]%string.

(** The invariant of the data model: the chunks lie in
    [0, totalChunks) and there are at most [totalChunks] of them. *)
Definition chunksWithinTotal (u : FileUpload) : Prop :=
  (forall i, i ∈ up_uploadedChunks u -> 0 <= i < up_totalChunks u) /\
  Z.of_nat (size (up_uploadedChunks u)) <= up_totalChunks u.

(** [u'] is [u] with at most chunk [i] added. *)
Definition extendsBy (i : Z) (u u' : FileUpload) : Prop :=
  up_totalChunks u' = up_totalChunks u /\
  up_uploadedChunks u ⊆ up_uploadedChunks u' /\
  up_uploadedChunks u' ⊆ {[i]} ∪ up_uploadedChunks u.

(** Every upload of [m] is still in [m'], the one under [fileId] with at
    most chunk [i] added and the others as they were. *)
Definition uploadsGrowBy (fileId : string) (i : Z)
    (m m' : JsMap.t FileUpload) : Prop :=
  forall f u,
    JsMap.get f m = Some u ->
    exists u', JsMap.get f m' = Some u' /\ extendsBy i u u' /\
               (f <> fileId -> u' = u).

(** The requests of a sequence of [upload-chunk] events. *)
Definition chunkRequests (evs : list (Z * (UploadChunkEvent * bool)))
  : list (Z * Request) :=
  map (fun ev => (fst ev, on_upload_chunk (fst (snd ev)) (snd (snd ev)))) evs.

(** A chunk index outside the file is recorded like any other: chunk 7
    of a three-chunk file is in the set while the upload is [uploading],
    and with chunks 0, 1 and 2 after it the set has four elements. *)
Definition uploadWithStrayChunk : FileUpload := {|
  up_fileId := "file-1004-x"; up_fileName := "x"; up_fileSize := 48;
  up_totalChunks := 3; up_uploadedChunks := {[7]}; up_clientId := "A";
  up_startTime := 1004; up_lastUpdate := 1005; up_status := uploading;
  up_chunkChecksums := None;
  up_pendingAcks := AcksMap {[7 := {| timestamp := 1005; retries := 0 |}]};
  up_lastAckTime := None |}.

Definition uploadJustStarted : FileUpload := {|
  up_fileId := "file-1004-x"; up_fileName := "x"; up_fileSize := 48;
  up_totalChunks := 3; up_uploadedChunks := ∅; up_clientId := "A";
  up_startTime := 1004; up_lastUpdate := 1004; up_status := uploading;
  up_chunkChecksums := None; up_pendingAcks := AcksAbsent;
  up_lastAckTime := None |}.

(** At most one node of the cluster has its [isMaster] flag set. *)
(** [cluster:master] holds [id] and does not expire before [until]. *)
Definition lockHeldBy (r : Redis.t) (id : string) (until : Z) : Prop :=
  exists e x,
    Redis.clusterMaster r = Some e /\ Redis.value e = id /\
    Redis.expireAt e = Some x /\ until <= x.

(** Two nodes that start as workers, the lock being free. *)
Definition twoNodes : Cluster :=
  mkCluster emptyRedis
    [ ClusterManager.mk (Some "n1"%string) false true true;
      ClusterManager.mk (Some "n2"%string) false true true ].

(** Three nodes that start as workers, the lock being free. *)
Definition threeNodes : Cluster :=
  mkCluster emptyRedis
    [ ClusterManager.mk (Some "n1"%string) false true true;
      ClusterManager.mk (Some "n2"%string) false true true;
      ClusterManager.mk (Some "n3"%string) false true true ].

(* ===================================================================== *)
(** ** frontend/src/utils/compression.ts *)
(* ===================================================================== *)

Module Compression.
Section Codec.
(** [gzipSync] and [gunzipSync] of fflate, [None] when the call throws.
    The arrays they return are taken to span their buffers. *)
Variable gzipSync : Buffer -> option Buffer.
Variable gunzipSync : Buffer -> option Buffer.
(** [COMPRESSION_CONFIG.enabled], which [setCompressionEnabled] sets. *)
Variable enabled : bool.

Definition minChunkSize : Z := 1024.

(** The compressed bytes are used only when they are fewer than the
    original ones. *)
Definition compressChunk (data : Buffer) : Buffer :=
  if negb enabled || (Z.of_nat (length data) <? minChunkSize) then data
  else
    match gzipSync data with
    | Some compressed =>
        if (length compressed <? length data)%nat then compressed else data
    | None => data
    end.

(** Whatever [gunzipSync] accepts is taken to be compressed. *)
Definition decompressChunk (compressed : Buffer) : Buffer :=
  match gunzipSync compressed with
  | Some decompressed => decompressed
  | None => compressed
  end.

End Codec.
End Compression.

(* ===================================================================== *)
(** ** frontend/src/utils/streaming.ts *)
(* ===================================================================== *)

Module StreamingDownload.

Record t := mk {
  totalChunks : Z;
  receivedChunks : gset Z;
  chunks : gmap Z Buffer;
}.

(** What a download does to the page: the three callbacks the hook
    passes, and the anchor click of [downloadBlob].  The percentage given
    to [onProgress] is a rounded floating-point quotient and is not
    carried. *)
Inductive Event :=
| onProgress
| downloadBlob (blob : Buffer)
| onComplete (blob : Buffer)
| onError (message : string).

Definition create (totalChunks : Z) : t := mk totalChunks ∅ ∅.

(** The loop of [finalize]: the chunks in index order, or the first index
    without a chunk. *)
Fixpoint orderedChunks (chunks : gmap Z Buffer) (indices : list Z)
  : list Buffer + Z :=
  match indices with
  | [] => inl []
  | i :: rest =>
      match chunks !! i with
      | None => inr i
      | Some chunk =>
          match orderedChunks chunks rest with
          | inl ordered => inl (chunk :: ordered)
          | inr j => inr j
          end
      end
  end.

(** [finalize] has no [await] in it and runs to its end inside
    [addChunk].  [cleanup] is reached only when no chunk is missing. *)
Definition finalize (d : t) : t * list Event :=
  match orderedChunks (chunks d) (seqZ 0 (totalChunks d)) with
  | inl ordered =>
      let blob := concat ordered in
      (mk (totalChunks d) ∅ ∅, [downloadBlob blob; onComplete blob])
  | inr i =>
      (d, [onError ("Missing chunk " +:+ pretty i +:+ " of "
                    +:+ pretty (totalChunks d))])
  end.

Definition addChunk (chunkIndex : Z) (chunk : Buffer) (d : t)
  : bool * t * list Event :=
  if bool_decide (chunkIndex ∈ receivedChunks d) then (false, d, [])
  else
    let d1 := mk (totalChunks d) ({[chunkIndex]} ∪ receivedChunks d)
                (<[chunkIndex := chunk]> (chunks d)) in
    if Z.of_nat (size (receivedChunks d1)) =? totalChunks d1 then
      let '(d2, events) := finalize d1 in (true, d2, onProgress :: events)
    else (true, d1, [onProgress]).

Definition getMissingChunks (d : t) : list Z :=
  List.filter (fun i => negb (bool_decide (i ∈ receivedChunks d)))
    (seqZ 0 (totalChunks d)).

Definition isComplete (d : t) : bool :=
  Z.of_nat (size (receivedChunks d)) =? totalChunks d.

End StreamingDownload.

(* ===================================================================== *)
(** ** frontend/src/hooks/useFileTransfer.ts *)
(* ===================================================================== *)

(** [Math.ceil(a / b)] for a positive [b]. *)
Definition Math_ceil_div (a b : Z) : Z := - ((- a) / b).

(** [blob.slice(start, end)] for [0 <= start <= end]. *)
Definition Blob_slice (start finish : Z) (file : Buffer) : Buffer :=
  take (Z.to_nat (finish - start)) (drop (Z.to_nat start) file).

Module UseFileTransfer.
Section Hook.
Variable gzipSync : Buffer -> option Buffer.
Variable gunzipSync : Buffer -> option Buffer.
Variable enabled : bool.
(** [config.CHUNK_SIZE] *)
Variable chunkSize : Z.

(** [totalChunks] of [uploadFile]. *)
Definition totalChunks (file : Buffer) : Z :=
  Math_ceil_div (Z.of_nat (length file)) chunkSize.

(** [sendChunk] of [uploadFile]: [ref] is the offset that
    [uploadFileRefs] holds for the file, if it holds one.  The offset is
    advanced before the first [await], so every call takes a slice of its
    own. *)
Definition sendChunk (fileId clientId : string) (file : Buffer)
    (ref : option Z) : option UploadChunkEvent * option Z :=
  match ref with
  | None => (None, None)
  | Some currentOffset =>
      if Z.of_nat (length file) <=? currentOffset then (None, ref)
      else
        let chunk :=
          Blob_slice currentOffset (currentOffset + chunkSize) file in
        (Some {| uc_fileId := fileId;
                 uc_chunkIndex := currentOffset / chunkSize;
                 uc_chunk := Compression.compressChunk gzipSync enabled chunk;
                 uc_clientId := clientId |},
         Some (currentOffset + chunkSize))
  end.

(** [onFileTransferStarted] on the downloads of [downloadManager]. *)
Definition onFileTransferStarted (fileId : string) (totalChunks : Z)
    (downloads : JsMap.t StreamingDownload.t) : JsMap.t StreamingDownload.t :=
  JsMap.set fileId (StreamingDownload.create totalChunks) downloads.

(** [onChunkReceived]; the hook always decompresses. *)
Definition onChunkReceived (fileId : string) (chunkIndex : Z) (chunk : Buffer)
    (downloads : JsMap.t StreamingDownload.t)
  : JsMap.t StreamingDownload.t * list StreamingDownload.Event :=
  match JsMap.get fileId downloads with
  | None => (downloads, [])
  | Some download =>
      let '(_, download', events) :=
        StreamingDownload.addChunk chunkIndex
          (Compression.decompressChunk gunzipSync chunk) download in
      (JsMap.set fileId download' downloads, events)
  end.

(** The [upload-chunk] events of one file when every acknowledgement
    callback reports success: [sendChunk] is called until it has nothing
    left to send.  The events are listed in the order of the calls; a
    call emits its event only after its own [await chunk.arrayBuffer()],
    and [UPLOAD_CONCURRENCY] calls are in flight at once, so the order in
    which the events leave is not fixed by the code. *)
Fixpoint sendAll (calls : nat) (fileId clientId : string) (file : Buffer)
    (ref : option Z) : list UploadChunkEvent :=
  match calls with
  | O => []
  | S calls' =>
      match sendChunk fileId clientId file ref with
      | (Some event, ref') =>
          event :: sendAll calls' fileId clientId file ref'
      | (None, _) => []
      end
  end.

(** [chunk-received] events of one file arriving one after the other. *)
Fixpoint receiveAll (fileId : string) (arrivals : list (Z * Buffer))
    (downloads : JsMap.t StreamingDownload.t)
  : JsMap.t StreamingDownload.t * list StreamingDownload.Event :=
  match arrivals with
  | [] => (downloads, [])
  | (chunkIndex, chunk) :: rest =>
      let '(downloads1, events1) :=
        onChunkReceived fileId chunkIndex chunk downloads in
      let '(downloads2, events2) := receiveAll fileId rest downloads1 in
      (downloads2, events1 ++ events2)
  end.

End Hook.
End UseFileTransfer.

(** The blobs handed to [onComplete]. *)
Definition completedBlobs (events : list StreamingDownload.Event)
  : list Buffer :=
  omap (fun e => match e with
                 | StreamingDownload.onComplete blob => Some blob
                 | _ => None
                 end) events.

(** A download in progress of a file of [total] chunks whose chunk [i]
    is [content i]: what it holds are chunks of the file, and it holds
    fewer than [total] of them. *)
Definition downloadInProgress (total : Z) (content : Z -> Buffer)
    (d : StreamingDownload.t) : Prop :=
  StreamingDownload.totalChunks d = total /\
  StreamingDownload.receivedChunks d = dom (StreamingDownload.chunks d) /\
  (forall i c, StreamingDownload.chunks d !! i = Some c ->
               0 <= i < total /\ c = content i) /\
  Z.of_nat (size (StreamingDownload.receivedChunks d)) < total.

(** The slice of [file] that chunk [i] carries. *)
Definition sliceOf (chunkSize : Z) (file : Buffer) (i : Z) : Buffer :=
  Blob_slice (i * chunkSize) (i * chunkSize + chunkSize) file.

(** Every arrival is a chunk of the file: its index is in range and it
    unpacks to the content of that chunk. *)
Definition genuineArrivals (gunzipSync : Buffer -> option Buffer) (total : Z)
    (content : Z -> Buffer) (arrivals : list (Z * Buffer)) : Prop :=
  forall i c, (i, c) ∈ arrivals ->
    0 <= i < total /\ Compression.decompressChunk gunzipSync c = content i.

(** The schedule lets node [i] renew the lock in time: every election run,
    of whichever node, takes place before the lock runs out, and the lock
    runs out [MASTER_TTL] seconds after the last run of node [i] that
    reached the store. *)
Fixpoint renewsInTime (i : nat) (expiry : Z) (ticks : list Tick) : Prop :=
  match ticks with
  | [] => True
  | k :: rest =>
      tick_time k < expiry /\
      renewsInTime i
        (if (tick_node k =? i)%nat && tick_reachable k
         then tick_time k + ClusterManager.MASTER_TTL * 1000 else expiry)
        rest
  end.

(** Node [i] is the master of the cluster and holds the lock until
    [expiry]; no other node has its flag set. *)
Definition soleMaster (i : nat) (id : string) (expiry : Z) (c : Cluster)
  : Prop :=
  distinctIds (members c) /\
  (exists node,
      members c !! i = Some node /\
      truthy (ClusterManager.nodeId node) = Some id /\
      ClusterManager.redisClient node = true /\
      ClusterManager.isMaster node = true) /\
  lockHeldBy (sharedRedis c) id expiry /\
  (forall j node, j <> i -> members c !! j = Some node ->
                  ClusterManager.isMaster node = false).

(** The pending acknowledgements of an upload after the checker has run
    at the times [times], oldest first, with no acknowledgement and no new
    chunk in between. *)
Definition checkerRuns (config : Config) (times : list Z)
    (m : gmap Z AckInfo) : gmap Z AckInfo :=
  foldl (fun m now => fst (fst (SocketHandler.scanPendingAcks config now m)))
    m times.

(** Calls of [RedisService.checkRateLimit] for one identifier served one
    after the other, at the times [times]: each call has run its [GET] and
    its [MULTI] before the next one starts.  (The method awaits the [GET]
    before it queues the [INCR], so calls that overlap can all read the
    same count; such runs are not among these.) *)
Fixpoint checkRateLimits (maxRequests windowSeconds : Z) (identifier : string)
    (times : list Z) (r : Redis.t) : list (Result RateLimitResult) :=
  match times with
  | [] => []
  | now :: rest =>
      let '(res, r') :=
        RedisService.checkRateLimit now identifier maxRequests windowSeconds r in
      res :: checkRateLimits maxRequests windowSeconds identifier rest r'
  end.

(** The call returned and let the request through. *)
Definition isAllowed (res : Result RateLimitResult) : bool :=
  match res with
  | Return x => allowed x
  | Throw _ => false
  end.

(** The node once [setShareSession], respectively [setClientSession], has
    written, and what a later read may find: in Redis the key is gone
    [seconds] after the write at [now]. *)
Definition storeShare (TTL : TTLConfig) (now : Z) (shareId : string)
    (session : ShareSession) (n : Node) : Node :=
  state_of (StorageRepository.setShareSession TTL now shareId session n).

Definition storeSession (TTL : TTLConfig) (now : Z) (clientId : string)
    (session : ClientSession) (n : Node) : Node :=
  state_of (StorageRepository.setClientSession TTL now clientId session n).

Definition unlessExpired {A} (n : Node) (now seconds later : Z) (a : A)
  : option A :=
  match redisService n with
  | Some _ => if later <? now + seconds * 1000 then Some a else None
  | None => Some a
  end.

(** The share that [createShare] stores, and the id it is stored under. *)
Definition newShare (now : Z) (shareId clientId : string) : ShareSession :=
  {| ss_shareId := shareId; ss_createdAt := now; ss_lastActivity := now;
     ss_clients := [clientId]; ss_status := active |}.

Definition newShareId (now : Z) (rnd : string) (body : ShareRequest) : string :=
  match truthy (req_shareId body) with
  | Some customShareId => customShareId
  | None => "share-" +:+ pretty now +:+ "-" +:+ rnd
  end.

(** The session of [clientId], if the node sees one, made to point to
    [shareId]. *)
Definition pointSession (TTL : TTLConfig) (now : Z) (clientId shareId : string)
    (n : Node) : Node :=
  match visibleSession now n clientId with
  | Some cs => storeSession TTL now clientId (cs_with_shareId shareId cs) n
  | None => n
  end.

(** The share after [clientId] has joined it at time [now]. *)
Definition joinedShare (now : Z) (clientId : string) (ss : ShareSession)
  : ShareSession :=
  ss_with_lastActivity now (ss_with_clients (ss_clients ss ++ [clientId]) ss).

(** What routing looks at: the sessions and the shares, in Redis or in
    memory. *)
Definition routingStore (n : Node)
  : option (bool * JsMap.t (Redis.Entry ClientSession)
            * JsMap.t (Redis.Entry ShareSession))
    * JsMap.t ClientSession * JsMap.t ShareSession :=
  ((fun r => (Redis.isOpen r, Redis.clientKeys r, Redis.shareKeys r))
     <$> redisService n,
   clientSessions n, shareSessions n).

(** The session that [register] stores. *)
Definition freshSession (nodeId : option string) (now : Z)
    (socketId clientId : string) : ClientSession :=
  {| cs_clientId := clientId; cs_socketId := socketId;
     cs_nodeId := truthy nodeId; cs_connected := true;
     cs_lastHeartbeat := now; cs_uploads := []; cs_downloads := [];
     cs_uploadSpeed := 0; cs_downloadSpeed := 0; cs_shareId := None |}.

(* ===================================================================== *)
(** ** server.ts: the cleanup job *)
(* ===================================================================== *)

Module Server.

(** [RedisService.deleteClientSession] and [deleteUploadState]: [DEL] of
    the key. *)
Definition RedisService_deleteClientSession (clientId : string) (r : Redis.t)
  : Result unit * Redis.t :=
  RedisService.command r
    (Return tt,
     Redis_set_clientKeys (JsMap.delete clientId (Redis.clientKeys r)) r).

Definition RedisService_deleteUploadState (fileId : string) (r : Redis.t)
  : Result unit * Redis.t :=
  RedisService.command r
    (Return tt,
     Redis_set_uploadKeys (JsMap.delete fileId (Redis.uploadKeys r)) r).

(** [StorageRepository.deleteClientSession] *)
Definition deleteClientSession (clientId : string) : M unit :=
  StorageRepository.backend (RedisService_deleteClientSession clientId)
    (modify (fun n =>
       set_clientSessions (JsMap.delete clientId (clientSessions n)) n)).

(** [StorageRepository.deleteUploadState]: the key goes from Redis, if
    there is one, and then from the in-memory map. *)
Definition deleteUploadState (fileId : string) : M unit :=
  StorageRepository.backend (RedisService_deleteUploadState fileId) (ret tt) ;;
  modify (fun n => set_fileUploads (JsMap.delete fileId (fileUploads n)) n).

Section Cleanup.
(** [config.sessionTimeout] and [config.shareSessionTimeout], in ms. *)
Variable sessionTimeout : Z.
Variable shareSessionTimeout : Z.

(** One run of the callback of [startCleanupInterval] at time [now].
    Both loops run over the entries the map had when the loop began; a
    [Map] that loses the entry being visited goes on with the next one. *)
Definition cleanup (now : Z) : M unit :=
  let uploadTimeout := shareSessionTimeout in
  try_
    (sessions <- StorageRepository.getAllClientSessions now ;;
     for_each sessions
       (fun kv =>
          let '(clientId, session) := kv in
          when (negb (cs_connected session)
                && (sessionTimeout <? now - cs_lastHeartbeat session))
            (deleteClientSession clientId)) ;;
     uploads <- StorageRepository.getAllUploadStates now ;;
     entries <- gets (deref uploads) ;;
     for_each entries
       (fun kv =>
          let '(fileId, upload) := kv in
          if UploadStatus_eqb (up_status upload) completed
             && (5 * 60 * 1000 <? now - up_lastUpdate upload)
          then deleteUploadState fileId
          else
            when (UploadStatus_eqb (up_status upload) uploading
                  && (uploadTimeout <? now - up_lastUpdate upload))
              (deleteUploadState fileId))).

End Cleanup.
End Server.

(** The sessions and the uploads that a cleanup at time [now] removes. *)
Definition inactiveSession (sessionTimeout now : Z) (s : ClientSession)
  : bool :=
  negb (cs_connected s) && (sessionTimeout <? now - cs_lastHeartbeat s).

Definition expiredUpload (uploadTimeout now : Z) (u : FileUpload) : bool :=
  match up_status u with
  | completed => 300000 <? now - up_lastUpdate u
  | uploading => uploadTimeout <? now - up_lastUpdate u
  | _ => false
  end.

(** A [Map] holds a key once. *)
Definition uniqueKeys {V} (m : JsMap.t V) : Prop := NoDup (map fst m).

(** What [getAllClientSessions] lists at time [now]. *)
Definition listedSessions (now : Z) (n : Node) : JsMap.t ClientSession :=
  match redisService n with
  | Some r => RedisService.getAllClientSessions now r
  | None => clientSessions n
  end.

(** The node after [deleteShareSession]. *)
Definition dropShare (shareId : string) (n : Node) : Node :=
  state_of (StorageRepository.deleteShareSession shareId n).

(** The node after [disconnect] has taken [clientId], whose session is
    [session], out of the share [shareId], stored as [ss]. *)
Definition afterDisconnect (TTL : TTLConfig) (now : Z) (clientId : string)
    (session : ClientSession) (shareId : string) (ss : ShareSession)
    (n : Node) : Node :=
  let others := without clientId (ss_clients ss) in
  let n1 := if (length others =? 0)%nat then dropShare shareId n
            else storeShare TTL now shareId (ss_with_clients others ss) n in
  let n2 := storeSession TTL now clientId (cs_with_connected false session) n1 in
  set_activeConnections (JsMap.delete clientId (activeConnections n2)) n2.

(* ===================================================================== *)
(** ** controllers/upload.controller.ts *)
(* ===================================================================== *)

Module UploadController.

(** The body of the response of [GET /uploads/:fileId].  The members
    [progress], [speed] and [eta] are floating-point quotients and are
    left out. *)
Record UploadProgress := {
  pr_fileId : string;
  pr_fileName : string;
  pr_fileSize : Z;
  pr_uploadedChunks : Z;
  pr_totalChunks : Z;
  pr_missingChunks : list Z;
  pr_missingCount : Z;
  pr_status : UploadStatus;
}.

(** [for (let i = 0; i < upload.totalChunks; i++)
       if (!upload.uploadedChunks.has(i)) missingChunks.push(i)] *)
Definition missingChunks (upload : FileUpload) : list Z :=
  List.filter (fun i => negb (bool_decide (i ∈ up_uploadedChunks upload)))
    (seqZ 0 (up_totalChunks upload)).

Definition getUploadProgress (now : Z) (fileId : string) : M UploadProgress :=
  upload <- StorageRepository.getUploadState now fileId ;;
  match upload with
  | None => throw (AppErr (notFound "Upload"))
  | Some upload =>
      let missingChunks := missingChunks upload in
      ret {| pr_fileId := up_fileId upload;
             pr_fileName := up_fileName upload;
             pr_fileSize := up_fileSize upload;
             pr_uploadedChunks := Z.of_nat (size (up_uploadedChunks upload));
             pr_totalChunks := up_totalChunks upload;
             pr_missingChunks := take 10 missingChunks;
             pr_missingCount := Z.of_nat (length missingChunks);
             pr_status := up_status upload |}
  end.

End UploadController.

(* ===================================================================== *)
(** ** utils/error.utils.ts: [retry], and its use in server.ts *)
(* ===================================================================== *)

Module Retry.

(** What a run of [retry] does, in order: a call of [fn], a call of
    [onRetry], a [setTimeout] that is awaited. *)
Inductive Event :=
| Attempt (attempt : Z)
| OnRetry (attempt : Z) (error : Exn)
| Sleep (delay : Z).

(** [delayMs * Math.pow(backoffMultiplier, attempt - 1)] *)
Definition backoff (delayMs backoffMultiplier attempt : Z) : Z :=
  delayMs * backoffMultiplier ^ (attempt - 1).

Section Retry.
Context {T : Type}.
(** [fn attempt] is the outcome of the call of [fn] made in the
    iteration [attempt]: the value it resolves to or the error it
    rejects with. *)
Variable fn : Z -> Exn + T.
Variable maxRetries : Z.
Variable delayMs : Z.
Variable backoffMultiplier : Z.
(** Whether [options.onRetry] is given. *)
Variable onRetry : bool.

(** The loop [for (attempt; attempt <= maxRetries; attempt++)] with
    [remaining = maxRetries - attempt + 1] iterations to go.  The result
    is the value returned or the value thrown, [None] for [undefined]. *)
Fixpoint attempts (remaining : nat) (attempt : Z) (lastError : option Exn)
  : (option Exn + T) * list Event :=
  match remaining with
  | O => (inl lastError, [])
  | S remaining =>
      match fn attempt with
      | inr v => (inr v, [Attempt attempt])
      | inl error =>
          let pause :=
            if attempt <? maxRetries then
              let delay := backoff delayMs backoffMultiplier attempt in
              (if onRetry then [OnRetry attempt error] else [])
              ++ [Sleep delay]
            else [] in
          let '(r, events) := attempts remaining (attempt + 1) (Some error) in
          (r, Attempt attempt :: pause ++ events)
      end
  end.

Definition retry : (option Exn + T) * list Event :=
  attempts (Z.to_nat maxRetries) 1 None.

End Retry.

(** The attempts made and the delays waited for. *)
Definition calls (events : list Event) : list Z :=
  omap (fun e => match e with Attempt a => Some a | _ => None end) events.

Definition sleeps (events : list Event) : list Z :=
  omap (fun e => match e with Sleep d => Some d | _ => None end) events.

End Retry.

Module ServerInit.

(** [initializeRedis]: [createRedisClient attempt] is the outcome of the
    connection made in that attempt.  The result is the [RedisService]
    handed back, if any, or the error thrown. *)
Definition initializeRedis (useRedis useCluster : bool)
    (createRedisClient : Z -> Exn + Redis.t) (n : Node)
  : (option Exn + option Redis.t) * Node * list Retry.Event :=
  if negb useRedis then (inr None, n, [])
  else
    match Retry.retry createRedisClient 3 2000 2 true with
    | (inr client, events) => (inr (Some client), set_redis client n, events)
    | (inl error, events) =>
        if useCluster then (inl error, n, events) else (inr None, n, events)
    end.

End ServerInit.

(** Successive calls of [addChunk] on one download: the download after
    them and what they did to the page. *)
Definition addChunks (arrivals : list (Z * Buffer)) (d : StreamingDownload.t)
  : StreamingDownload.t * list StreamingDownload.Event :=
  foldl
    (fun acc arrival =>
       let '(_, d', events) :=
         StreamingDownload.addChunk (fst arrival) (snd arrival) (fst acc) in
       (d', snd acc ++ events))
    (d, []) arrivals.

(** The events of a finished download. *)
Definition hands_over (e : StreamingDownload.Event) : bool :=
  match e with
  | StreamingDownload.downloadBlob _ | StreamingDownload.onComplete _ => true
  | _ => false
  end.

(* ===================================================================== *)
(** ** services/cluster.service.ts: routing a message to a client *)
(* ===================================================================== *)

Module MessageRouting.

(** A row of the session table, as [SessionService.getClientSessions]
    returns it. *)
Record DbSession := {
  db_nodeId : string;
  db_socketId : string;
}.

(** What is published on [message:route]. *)
Record RouteMessage := {
  targetNodeId : string;
  targetClientId : option string;
  rm_socketId : string;
  rm_event : ServerEvent;
}.

(** What routing does: an [emit] on a socket of this node, a message on
    [message:route], a message on [routing:request]. *)
Inductive Action :=
| SocketEmit (socketId : string) (event : ServerEvent)
| PublishRoute (m : RouteMessage)
| PublishRequest (targetClientId : string) (event : ServerEvent).

(** The members of [ClusterManager] that routing reads and writes: [io]
    is the list of the ids in [io.sockets.sockets], or [None] while it is
    [null]; [pubSubReady] is [pubSubService.isReady()]. *)
Record t := mk {
  nodeId : option string;
  io : option (list string);
  isMaster : bool;
  localClients : JsMap.t string;
  pubSubReady : bool;
}.

(** [this.io.sockets.sockets.get(socketId)?.emit(event, payload)] *)
Definition emitIfOpen (sockets : list string) (socketId : string)
    (event : ServerEvent) : list Action :=
  if bool_decide (socketId ∈ sockets) then [SocketEmit socketId event] else [].

(** Step 3 of [routeMessageToClient]; [sessions] is what
    [getClientSessions] returns for the client. *)
Definition routeByRole (sessions : list DbSession) (clientId : string)
    (event : ServerEvent) (c : t) : list Action :=
  if negb (isMaster c) then
    if pubSubReady c then [PublishRequest clientId event] else []
  else
    flat_map
      (fun session =>
         if bool_decide (Some (db_nodeId session) = nodeId c) then
           match io c with
           | Some sockets => emitIfOpen sockets (db_socketId session) event
           | None => []
           end
         else if pubSubReady c then
           [PublishRoute {| targetNodeId := db_nodeId session;
                            targetClientId := Some clientId;
                            rm_socketId := db_socketId session;
                            rm_event := event |}]
         else [])
      sessions.

(** Step 2; [session] is what [storageRepository.getClientSession]
    returns for the client. *)
Definition routeBySession (session : option ClientSession)
    (sessions : list DbSession) (clientId : string) (event : ServerEvent)
    (c : t) : list Action :=
  match session with
  | Some s =>
      match truthy (cs_nodeId s) with
      | Some sessionNode =>
          if bool_decide (Some sessionNode = nodeId c) then
            match io c with
            | Some sockets => emitIfOpen sockets (cs_socketId s) event
            | None => []
            end
          else if pubSubReady c then
            [PublishRoute {| targetNodeId := sessionNode;
                             targetClientId := Some clientId;
                             rm_socketId := cs_socketId s;
                             rm_event := event |}]
          else routeByRole sessions clientId event c
      | None => routeByRole sessions clientId event c
      end
  | None => routeByRole sessions clientId event c
  end.

(** [routeMessageToClient]: the manager afterwards and what was done. *)
Definition routeMessageToClient (session : option ClientSession)
    (sessions : list DbSession) (clientId : string) (event : ServerEvent)
    (c : t) : t * list Action :=
  match truthy (JsMap.get clientId (localClients c)), io c with
  | Some localSocketId, Some sockets =>
      if bool_decide (localSocketId ∈ sockets) then
        (c, [SocketEmit localSocketId event])
      else
        let c1 := mk (nodeId c) (io c) (isMaster c)
                    (JsMap.delete clientId (localClients c)) (pubSubReady c) in
        (c1, routeBySession session sessions clientId event c1)
  | _, _ => (c, routeBySession session sessions clientId event c)
  end.

(** The subscriber of [message:route]. *)
Definition onMessageRoute (data : RouteMessage) (c : t) : list Action :=
  match io c with
  | Some sockets =>
      if bool_decide (Some (targetNodeId data) = nodeId c) then
        if bool_decide (rm_socketId data ∈ sockets) then
          [SocketEmit (rm_socketId data) (rm_event data)]
        else
          match truthy (targetClientId data) with
          | Some clientId =>
              match truthy (JsMap.get clientId (localClients c)) with
              | Some localSocketId =>
                  emitIfOpen sockets localSocketId (rm_event data)
              | None => []
              end
          | None => []
          end
      else []
  | None => []
  end.

(** The subscriber of [routing:request]; [sessions] is what
    [getClientSessions] returns for the target. *)
Definition onRoutingRequest (sessions : list DbSession)
    (event : ServerEvent) (c : t) : list Action :=
  if negb (isMaster c) then []
  else
    flat_map
      (fun session =>
         match bool_decide (Some (db_nodeId session) = nodeId c), io c with
         | true, Some sockets => emitIfOpen sockets (db_socketId session) event
         | _, _ =>
             if pubSubReady c then
               [PublishRoute {| targetNodeId := db_nodeId session;
                                targetClientId := None;
                                rm_socketId := db_socketId session;
                                rm_event := event |}]
             else []
         end)
      sessions.

End MessageRouting.

(** What the nodes of a cluster do when [data] arrives on
    [message:route]: the actions of each, in the order of the list. *)
Definition deliverRoute (data : MessageRouting.RouteMessage)
    (nodes : list MessageRouting.t) : list MessageRouting.Action :=
  flat_map (MessageRouting.onMessageRoute data) nodes.

(** The server handles the [upload-chunk] events of [timed] one after
    the other, each at its time and with an acknowledgement callback:
    the node afterwards and everything that was sent. *)
Fixpoint relayAll (config : Config) (TTL : TTLConfig)
    (simdChecksum : Buffer -> string) (timed : list (Z * UploadChunkEvent))
    (n : Node) : Node * list Output :=
  match timed with
  | [] => (n, [])
  | (now, data) :: rest =>
      let run :=
        SocketHandler.uploadChunk config TTL simdChecksum now data true n in
      let '(n', outputs) :=
        relayAll config TTL simdChecksum rest (state_of run) in
      (n', outputs_of run ++ outputs)
  end.

(** The [chunk-received] events for [fileId] that [outputs] route to
    [clientId]: index and bytes, in the order sent. *)
Definition routedChunks (clientId fileId : string) (outputs : list Output)
  : list (Z * Buffer) :=
  omap (fun o =>
          match o with
          | Route c (chunk_received f i chunk _) =>
              if String.eqb c clientId && String.eqb f fileId
              then Some (i, chunk) else None
          | _ => None
          end) outputs.

(** The upload that [upload-init] stores, and the id it is stored
    under. *)
Definition newFileId (now : Z) (rnd : string) : string :=
  "file-" +:+ pretty now +:+ "-" +:+ rnd.

Definition newUpload (now : Z) (rnd : string) (data : UploadInitEvent)
  : FileUpload :=
  {| up_fileId := newFileId now rnd; up_fileName := ui_fileName data;
     up_fileSize := ui_fileSize data; up_totalChunks := ui_totalChunks data;
     up_uploadedChunks := ∅; up_clientId := ui_clientId data;
     up_startTime := now; up_lastUpdate := now; up_status := uploading;
     up_chunkChecksums := None; up_pendingAcks := AcksAbsent;
     up_lastAckTime := None |}.

(* ===================================================================== *)
(** ** controllers/webhook.controller.ts, services/webhook.service.ts *)
(* ===================================================================== *)

Module Webhooks.

Record WebhookEndpoint := {
  wh_url : string;
  wh_events : list string;
  wh_active : bool;
}.

(** The body of the registration request; [wr_events] is [None] when the
    member is absent, and a list of event names otherwise. *)
Record WebhookRequest := {
  wr_url : option string;
  wr_events : option (list string);
}.

Definition defaultEvents : list string :=
  ["client-connected"; "client-disconnected"; "upload-complete";
   "download-complete"].

(** [registerWebhook] on the map of [getWebhookEndpoints]: the id
    answered, or the error of [validateRequired]. *)
Definition registerWebhook (now : Z) (body : WebhookRequest)
    (endpoints : JsMap.t WebhookEndpoint)
  : Result string * JsMap.t WebhookEndpoint :=
  match truthy (wr_url body) with
  | None =>
      (Throw (AppErr (badRequest "Missing required fields: url")), endpoints)
  | Some url =>
      let webhookId := "webhook-" +:+ pretty now in
      (Return webhookId,
       JsMap.set webhookId
         {| wh_url := url;
            wh_events := default defaultEvents (wr_events body);
            wh_active := true |} endpoints)
  end.

(** [triggerWebhook]: the urls posted to, in the order of the posts.  A
    post that fails is logged and the loop goes on. *)
Definition triggerWebhook (event : string)
    (endpoints : JsMap.t WebhookEndpoint) : list string :=
  omap (fun kv =>
          if wh_active (snd kv) && includes_str event (wh_events (snd kv))
          then Some (wh_url (snd kv)) else None) endpoints.

End Webhooks.

(** [pendingAcks.set] is about to fail: the upload object came back from
    Redis, where it had been written with a [Map] of pending
    acknowledgements, with a plain object for [pendingAcks], and the
    chunk is new, so that the guarded insertion reaches the call. *)
Definition insertionFails (data : UploadChunkEvent) (u : FileUpload) : Prop :=
  up_pendingAcks u = AcksObject /\ uc_chunkIndex data ∉ up_uploadedChunks u.

(** How often [c] occurs in a list of client ids. *)
Definition timesListed (c : string) (l : list string) : nat :=
  length (List.filter (String.eqb c) l).

(** The [chunk-received] messages for chunk [chunkIndex] of [fileId] that
    [outputs] routes to [clientId]. *)
Definition routedTo (clientId fileId : string) (chunkIndex : Z)
    (outputs : list Output) : nat :=
  count_outputs (is_chunk_received_for clientId fileId chunkIndex) outputs.

(* ===================================================================== *)
(** ** Shares and the clients they list, in time *)
(* ===================================================================== *)






Section AskingForShares.
Variable config : Config.
Variable TTL : TTLConfig.
Variable simdChecksum : Buffer -> string.
Variable nodeId : option string.

(** The create or join request is answered 200. *)
Definition accepted (now : Z) (rq : Request) (n : Node) : bool :=
  match rq with
  | post_share_create rnd body =>
      match result_of (ShareController.createShare TTL now rnd body n) with
      | Return _ => true
      | Throw _ => false
      end
  | post_share_join body =>
      match result_of (ShareController.joinShare TTL now body n) with
      | Return _ => true
      | Throw _ => false
      end
  | _ => false
  end.



End AskingForShares.



(* ===================================================================== *)
(** ** services/cluster.service.ts: the election, command by command *)
(* ===================================================================== *)

Module Election.

(** The three commands a run of [tryBecomeMaster] sends to the store.
    Each one is awaited: before the next command of the run is served,
    the store may serve commands of other runs, of this node and of
    others, and the lock may expire. *)
Inductive Command := SET_NX | GET | EXPIRE.

(** A node with its runs of [tryBecomeMaster] that are suspended at an
    [await]: [afterSet] counts the runs whose [SET NX] was refused and
    whose [GET] has not been answered, [afterGet] the runs whose [GET]
    returned the id of the node and whose [EXPIRE] has not been answered.
    ([setInterval] starts a run every [ELECTION_INTERVAL] whether or not
    the one before has finished.) *)
Record Member := mkMember {
  manager : ClusterManager.t;
  afterSet : nat;
  afterGet : nat;
}.

(** [if (!this.isMaster) { this.isMaster = true; updateRole; notify }] *)
Definition becomeMaster (c : ClusterManager.t) (id : string)
  : ClusterManager.t * list Output :=
  if ClusterManager.isMaster c then (c, [])
  else (ClusterManager.with_isMaster true c,
        UpdateRole id master
        :: ClusterManager.notifyLocalClientsOfRoleChange c id master).

(** [if (this.isMaster) { this.isMaster = false; updateRole; notify }] *)
Definition loseMaster (c : ClusterManager.t) (id : string)
  : ClusterManager.t * list Output :=
  if ClusterManager.isMaster c then
    (ClusterManager.with_isMaster false c,
     UpdateRole id worker
     :: ClusterManager.notifyLocalClientsOfRoleChange c id worker)
  else (c, []).

(** One command of a run of [tryBecomeMaster] answered at time [now],
    with what the run does on the answer up to its next [await] or its
    end.  [SET_NX] is the first command of a new run, started by the
    timer; [GET] and [EXPIRE] continue a suspended run, if there is one.
    When the command does not get through ([reachable] is false), the
    [await] throws, the [catch] logs the error and the run is over. *)
Definition command (now : Z) (cmd : Command) (reachable : bool)
    (m : Member) (r : Redis.t) : Member * Redis.t * list Output :=
  let c := manager m in
  match truthy (ClusterManager.nodeId c) with
  | None => (m, r, [])
  | Some id =>
      if negb (ClusterManager.redisClient c) then (m, r, [])
      else
        match cmd with
        | SET_NX =>
            if negb reachable then (m, r, [])
            else
              let '(ok, r1) :=
                ClusterManager.SET_NX_EX now id ClusterManager.MASTER_TTL r in
              if ok then
                let '(c', out) := becomeMaster c id in
                (mkMember c' (afterSet m) (afterGet m), r1, out)
              else (mkMember c (S (afterSet m)) (afterGet m), r1, [])
        | GET =>
            match afterSet m with
            | O => (m, r, [])
            | S waiting =>
                if negb reachable then (mkMember c waiting (afterGet m), r, [])
                else if bool_decide (ClusterManager.GET_master now r = Some id)
                then (mkMember c waiting (S (afterGet m)), r, [])
                else
                  let '(c', out) := loseMaster c id in
                  (mkMember c' waiting (afterGet m), r, out)
            end
        | EXPIRE =>
            match afterGet m with
            | O => (m, r, [])
            | S waiting =>
                if negb reachable then (mkMember c (afterSet m) waiting, r, [])
                else
                  let r2 :=
                    ClusterManager.EXPIRE_master now ClusterManager.MASTER_TTL r in
                  let '(c', out) := becomeMaster c id in
                  (mkMember c' (afterSet m) waiting, r2, out)
            end
        end
  end.

(** The store shared by the nodes, and the nodes with their runs. *)
Record State := mkState {
  store : Redis.t;
  nodes : list Member;
}.

(** A command answered by the store: the time, the position of the node
    in [nodes], the command, and whether it gets through. *)
Record Step := mkStep {
  step_time : Z;
  step_node : nat;
  step_command : Command;
  step_reachable : bool;
}.

Definition answer (k : Step) (s : State) : State * list Output :=
  match nodes s !! step_node k with
  | Some m =>
      let '(m', r', out) :=
        command (step_time k) (step_command k) (step_reachable k) m (store s) in
      (mkState r' (<[step_node k := m']> (nodes s)), out)
  | None => (s, [])
  end.

(** The commands of a schedule answered in order, oldest first. *)
Fixpoint run (steps : list Step) (s : State) : State :=
  match steps with
  | [] => s
  | k :: rest => run rest (fst (answer k s))
  end.

(** The step takes the lock for its node or renews it: a [SET NX] that
    is granted, or the [EXPIRE] of a suspended run, in both cases
    followed by [isMaster = true]. *)
Definition confirms (k : Step) (s : State) : bool :=
  match nodes s !! step_node k with
  | Some m =>
      match truthy (ClusterManager.nodeId (manager m)) with
      | Some id =>
          ClusterManager.redisClient (manager m) && step_reachable k
          && match step_command k with
             | SET_NX =>
                 fst (ClusterManager.SET_NX_EX (step_time k) id
                        ClusterManager.MASTER_TTL (store s))
             | GET => false
             | EXPIRE => negb (afterGet m =? 0)%nat
             end
      | None => false
      end
  | None => false
  end.

(** The time at which node [i] last took or renewed the lock in a
    schedule, [last] being that time before the schedule. *)
Fixpoint confirmedAt (steps : list Step) (s : State) (i : nat)
    (last : option Z) : option Z :=
  match steps with
  | [] => last
  | k :: rest =>
      confirmedAt rest (fst (answer k s)) i
        (if (step_node k =? i)%nat && confirms k s
         then Some (step_time k) else last)
  end.

(** The check that [EXPIRE] does not make: when the step is the
    [EXPIRE] of a suspended run, [cluster:master] still holds the id of
    the node, as it did at the [GET] of the run. *)
Definition renewsOwnLock (k : Step) (s : State) : bool :=
  match step_command k, nodes s !! step_node k with
  | EXPIRE, Some m =>
      negb (confirms k s)
      || bool_decide
           (ClusterManager.GET_master (step_time k) (store s)
            = truthy (ClusterManager.nodeId (manager m)))
  | _, _ => true
  end.

Fixpoint renewOwnLock (steps : list Step) (s : State) : bool :=
  match steps with
  | [] => true
  | k :: rest => renewsOwnLock k s && renewOwnLock rest (fst (answer k s))
  end.

(** The clock never runs backwards along a schedule, and ends no later
    than [finish]. *)
Fixpoint inOrder (steps : list Step) (finish : Z) : Prop :=
  match steps with
  | [] => True
  | k :: rest =>
      match rest with
      | [] => step_time k <= finish
      | k' :: _ => step_time k <= step_time k'
      end /\ inOrder rest finish
  end.

(** Node [i] reports [isMaster = true] at time [now], having taken or
    renewed the lock less than [MASTER_TTL] seconds before. *)
Definition reportsMaster (steps : list Step) (s : State) (now : Z) (i : nat)
  : Prop :=
  exists m t,
    nodes (run steps s) !! i = Some m /\
    ClusterManager.isMaster (manager m) = true /\
    confirmedAt steps s i None = Some t /\
    now < t + ClusterManager.MASTER_TTL * 1000.

(** No two nodes have [isMaster = true]. *)
Definition atMostOneMaster (s : State) : Prop :=
  forall i j mi mj,
    nodes s !! i = Some mi -> nodes s !! j = Some mj ->
    ClusterManager.isMaster (manager mi) = true ->
    ClusterManager.isMaster (manager mj) = true ->
    i = j.

(** The nodes of a cluster with no run under way. *)
Definition idle (c : Cluster) : State :=
  mkState (sharedRedis c) (map (fun node => mkMember node 0 0) (members c)).

(** n1 wins the lock and then cannot reach the store; after the lock has
    expired n2 wins it. *)
Definition partitioned : list Step :=
  [ mkStep 0 0 SET_NX true;
    mkStep 1000 1 SET_NX true; mkStep 1001 1 GET true;
    mkStep 5000 0 SET_NX false;
    mkStep 6000 1 SET_NX true; mkStep 6001 1 GET true;
    mkStep 10000 0 SET_NX false;
    mkStep 11000 1 SET_NX true; mkStep 11001 1 GET true;
    mkStep 15000 0 SET_NX false;
    mkStep 16000 1 SET_NX true ].

(** n1 holds the lock, renewed at 5002 until 20002, and misses the store
    at 10000 and 15000.  Its run of 20000 is refused by [SET NX] and
    reads its own id at 20001; the lock expires at 20002, n2 takes it at
    20003, and the [EXPIRE] of n1's run arrives at 20004. *)
Definition overtaken : list Step :=
  [ mkStep 0 0 SET_NX true;
    mkStep 5000 0 SET_NX true; mkStep 5001 0 GET true;
    mkStep 5002 0 EXPIRE true;
    mkStep 10000 0 SET_NX false;
    mkStep 15000 0 SET_NX false;
    mkStep 20000 0 SET_NX true; mkStep 20001 0 GET true;
    mkStep 20003 1 SET_NX true;
    mkStep 20004 0 EXPIRE true ].

(** Three nodes hold their elections every five seconds, the commands of
    their runs interleaved; n1 is stopped after 10.3 s and n2 takes over
    once the lock has expired. *)
Definition takeover : list Step :=
  [ mkStep 0 0 SET_NX true; mkStep 100 1 SET_NX true;
    mkStep 150 2 SET_NX true; mkStep 200 1 GET true; mkStep 250 2 GET true;
    mkStep 5000 0 SET_NX true; mkStep 5100 1 SET_NX true;
    mkStep 5150 0 GET true; mkStep 5200 1 GET true; mkStep 5250 0 EXPIRE true;
    mkStep 10000 0 SET_NX true; mkStep 10150 2 SET_NX true;
    mkStep 10200 2 GET true; mkStep 10250 0 GET true;
    mkStep 10300 0 EXPIRE true;
    mkStep 25100 1 SET_NX true; mkStep 25150 2 SET_NX true;
    mkStep 25200 1 GET true; mkStep 25350 2 GET true;
    mkStep 30100 1 SET_NX true; mkStep 30150 2 SET_NX true;
    mkStep 30200 2 GET true;
    mkStep 35100 1 SET_NX true; mkStep 35150 1 GET true;
    mkStep 35200 1 EXPIRE true ].

End Election.

(** Scenario 1 on a node that writes to Redis, each chunk acknowledged
    before the next is sent: [chunk-acknowledged] stores the upload with
    its [Map] of pending acknowledgements. *)
Definition twoChunksAcknowledged : list (Z * Request) :=
  transferStarted ++
  [ (1005, on_upload_chunk (chunkOf "file-1004-x" 0) true);
    (1006, on_chunk_acknowledged "file-1004-x" 0);
    (1007, on_upload_chunk (chunkOf "file-1004-x" 1) true);
    (1008, on_chunk_acknowledged "file-1004-x" 1) ]%string.

(** A second node on the Redis of the first (or the first node after a
    restart): it holds nothing in memory and reads the upload back from
    Redis, with the plain object that [pendingAcks] has become. *)
Definition secondNode : Node :=
  emptyNode
    (redisService
       (state_of (serveAll defaultConfig DEFAULT_TTL (fun _ => ""%string) None
                    twoChunksAcknowledged (emptyNode (Some emptyRedis))))).

(* ===================================================================== *)
(** ** Basic facts: maps and the handler monad *)
(* ===================================================================== *)

Lemma JsMap_get_set_eq {V} (k : string) (v : V) (m : JsMap.t V) :
  JsMap.get k (JsMap.set k v m) = Some v.
Proof.
  induction m as [|[k' v'] m IH]; simpl.
  - by rewrite String.eqb_refl.
  - destruct (String.eqb k' k) eqn:E; simpl.
    + by rewrite String.eqb_refl.
    + by rewrite E.
Qed.

Lemma JsMap_get_set_ne {V} (k k' : string) (v : V) (m : JsMap.t V) :
  k <> k' -> JsMap.get k' (JsMap.set k v m) = JsMap.get k' m.
Proof.
  intros Hne. induction m as [|[k0 v0] m IH]; simpl.
  - destruct (String.eqb k k') eqn:E; [|done].
    apply String.eqb_eq in E. done.
  - destruct (String.eqb k0 k) eqn:E; simpl.
    + apply String.eqb_eq in E. subst k0.
      destruct (String.eqb k k') eqn:E'; [|done].
      apply String.eqb_eq in E'. done.
    + destruct (String.eqb k0 k'); [done|apply IH].
Qed.

Lemma JsMap_get_delete_eq {V} (k : string) (m : JsMap.t V) :
  JsMap.get k (JsMap.delete k m) = None.
Proof.
  induction m as [|[k0 v0] m IH]; simpl; [done|].
  destruct (String.eqb k0 k) eqn:E; simpl; [done|]. by rewrite E.
Qed.

Lemma JsMap_get_delete_ne {V} (k k' : string) (m : JsMap.t V) :
  k <> k' -> JsMap.get k' (JsMap.delete k m) = JsMap.get k' m.
Proof.
  intros Hne. induction m as [|[k0 v0] m IH]; simpl; [done|].
  destruct (String.eqb k0 k) eqn:E; simpl.
  - apply String.eqb_eq in E. subst k0.
    destruct (String.eqb k k') eqn:E'; [|done].
    apply String.eqb_eq in E'. done.
  - destruct (String.eqb k0 k'); [done|apply IH].
Qed.

Arguments JsMap.delete {V} k m : simpl never.

Lemma set_redis_same (n : Node) (r : Redis.t) :
  redisService n = Some r -> set_redis r n = n.
Proof. destruct n; simpl; intros ->; reflexivity. Qed.

Lemma keeps_ret {A B} (proj : Node -> B) (a : A) : keeps proj (ret a).
Proof. by intros n. Qed.

Lemma keeps_throw {A B} (proj : Node -> B) (e : Exn) : keeps proj (@throw A e).
Proof. by intros n. Qed.

Lemma keeps_send {B} (proj : Node -> B) (o : Output) : keeps proj (send o).
Proof. by intros n. Qed.

Lemma keeps_gets {A B} (proj : Node -> B) (f : Node -> A) : keeps proj (gets f).
Proof. by intros n. Qed.

Lemma keeps_bind {A A' B} (proj : Node -> B) (m : M A) (k : A -> M A') :
  keeps proj m -> (forall a, keeps proj (k a)) -> keeps proj (bind m k).
Proof.
  intros Hm Hk n. unfold bind, state_of.
  specialize (Hm n). unfold state_of in Hm.
  destruct (m n) as [[[a|e] n1] o1]; simpl in *; [|done].
  specialize (Hk a n1). unfold state_of in Hk.
  destruct (k a n1) as [[r n2] o2]; simpl in *. congruence.
Qed.

Lemma keeps_try {B} (proj : Node -> B) (m : M unit) :
  keeps proj m -> keeps proj (try_ m).
Proof.
  intros Hm n. specialize (Hm n). unfold try_, state_of in *.
  by destruct (m n) as [[[a|e] n1] o1].
Qed.

Lemma keeps_when {B} (proj : Node -> B) (b : bool) (m : M unit) :
  keeps proj m -> keeps proj (when b m).
Proof. destruct b; simpl; [done|]. intros _. apply keeps_ret. Qed.

Lemma keeps_for_each {X B} (proj : Node -> B) (xs : list X) (body : X -> M unit) :
  (forall x, keeps proj (body x)) -> keeps proj (for_each xs body).
Proof.
  intros Hb. induction xs as [|x xs IH]; simpl.
  - apply keeps_ret.
  - apply keeps_bind; [apply Hb|]. intros _. apply IH.
Qed.

Lemma keeps_modify {B} (proj : Node -> B) (f : Node -> Node) :
  (forall n, proj (f n) = proj n) -> keeps proj (modify f).
Proof. intros Hf n. apply Hf. Qed.

Lemma keeps_backend {A B} (proj : Node -> B)
    (redis : Redis.t -> Result A * Redis.t) (memory : M A) :
  (forall n r, redisService n = Some r ->
               proj (set_redis (snd (redis r)) n) = proj n) ->
  keeps proj memory ->
  keeps proj (StorageRepository.backend redis memory).
Proof.
  intros Hr Hm n. unfold StorageRepository.backend.
  destruct (redisService n) as [r|] eqn:E; [|apply Hm].
  specialize (Hr n r E). by destruct (redis r) as [res r'].
Qed.

(* ===================================================================== *)
(** ** Handlers that do not touch the shares *)
(* ===================================================================== *)

Lemma shareStore_set_redis (n : Node) (r r' : Redis.t) :
  redisService n = Some r ->
  Redis.shareKeys r' = Redis.shareKeys r ->
  shareStore (set_redis r' n) = shareStore n.
Proof.
  intros Hr Hk. unfold shareStore. rewrite Hr. simpl. by rewrite Hk.
Qed.

(** Unfolds a method of [RedisService] and checks that the share keys
    come out as they went in. *)
Ltac redis_keeps_shares :=
  let n := fresh "n" in
  let r := fresh "r" in
  let Hr := fresh "Hr" in
  intros n r Hr; apply (shareStore_set_redis n r); [exact Hr|];
  unfold RedisService.setClientSession, RedisService.setUploadState,
    RedisService.getUploadState, RedisService.checkRateLimit,
    RedisService.addCancelledDownload, RedisService.removeCancelledDownloads,
    RedisService.command, StorageRepository.reading;
  repeat case_match; reflexivity.

(** Splits on the test that heads the handler in the goal. *)
Ltac keeps_case :=
  cbv zeta;
  match goal with
  | |- keeps _ (match ?x with _ => _ end) => destruct x eqn:?
  end.

(** Walks through a handler with the rules for [keeps]. *)
Ltac keeps_walk :=
  repeat first
    [ apply keeps_ret | apply keeps_throw | apply keeps_send
    | apply keeps_gets | apply keeps_bind | apply keeps_try
    | apply keeps_when | apply keeps_for_each
    | apply keeps_modify; intros []; reflexivity
    | apply keeps_backend; [redis_keeps_shares|]
    | progress intros
    | match goal with
      | |- keeps _ (match ?x with _ => _ end) => destruct x
      end ].

Section Frames.
Variable config : Config.
Variable TTL : TTLConfig.
Variable simdChecksum : Buffer -> string.

Lemma setClientSession_keeps_shares now clientId session :
  keeps shareStore (StorageRepository.setClientSession TTL now clientId session).
Proof. unfold StorageRepository.setClientSession. keeps_walk. Qed.

Lemma getClientSession_keeps_shares now clientId :
  keeps shareStore (StorageRepository.getClientSession now clientId).
Proof. unfold StorageRepository.getClientSession. keeps_walk. Qed.

Lemma getShareSession_keeps_shares now shareId :
  keeps shareStore (StorageRepository.getShareSession now shareId).
Proof. unfold StorageRepository.getShareSession. keeps_walk. Qed.

Lemma setUploadState_keeps_shares now fileId upload :
  keeps shareStore (StorageRepository.setUploadState TTL now fileId upload).
Proof. unfold StorageRepository.setUploadState. keeps_walk. Qed.

Lemma getUploadState_keeps_shares now fileId :
  keeps shareStore (StorageRepository.getUploadState now fileId).
Proof. unfold StorageRepository.getUploadState. keeps_walk. Qed.

Lemma register_keeps_shares nodeId now socketId clientId :
  keeps shareStore (SocketHandler.register TTL nodeId now socketId clientId).
Proof.
  unfold SocketHandler.register, StorageRepository.setClientSession,
    StorageRepository.setActiveConnection.
  keeps_walk.
Qed.

Lemma heartbeat_keeps_shares now clientId :
  keeps shareStore (SocketHandler.heartbeat config TTL now clientId).
Proof.
  unfold SocketHandler.heartbeat, StorageRepository.checkRateLimit,
    StorageRepository.getClientSession, StorageRepository.setClientSession.
  keeps_walk.
Qed.

Lemma acceptReceivers_keeps_shares now fileId allUploads others :
  keeps shareStore
    (SocketHandler.acceptReceivers config TTL now fileId allUploads others).
Proof.
  induction others as [|o rest IH]; simpl; [apply keeps_ret|].
  apply keeps_bind; [apply getClientSession_keeps_shares|].
  intros [os|]; [|exact IH].
  keeps_case; [exact IH|].
  apply keeps_bind; [apply keeps_gets|]. intros active.
  keeps_case; [exact IH|].
  apply keeps_bind; [apply setClientSession_keeps_shares|]. intros _.
  apply keeps_bind; [exact IH|]. intros acc. apply keeps_ret.
Qed.

Lemma uploadInit_keeps_shares now rnd data :
  keeps shareStore (SocketHandler.uploadInit config TTL now rnd data).
Proof.
  unfold SocketHandler.uploadInit.
  apply keeps_bind.
  { unfold StorageRepository.checkRateLimit. keeps_walk. }
  intros rl. keeps_case; [apply keeps_send|].
  apply keeps_bind.
  { unfold StorageRepository.getAllUploadStates. keeps_walk. }
  intros allUploads. apply keeps_bind; [apply keeps_gets|]. intros active.
  keeps_case; [apply keeps_throw|].
  apply keeps_bind; [apply getClientSession_keeps_shares|]. intros sender.
  keeps_case; [apply keeps_throw|].
  keeps_case; [apply keeps_throw|].
  apply keeps_bind; [apply setUploadState_keeps_shares|]. intros _.
  apply keeps_bind.
  { apply keeps_when, keeps_try, keeps_bind;
      [apply getClientSession_keeps_shares|].
    intros cs. keeps_case; [|apply keeps_ret].
    apply keeps_bind; [apply getShareSession_keeps_shares|].
    intros _. apply keeps_ret. }
  intros _.
  apply keeps_bind; [apply getClientSession_keeps_shares|]. intros cs.
  apply keeps_bind.
  { keeps_case; [|apply keeps_ret].
    apply keeps_bind; [apply getShareSession_keeps_shares|].
    intros [ss|]; [apply acceptReceivers_keeps_shares|apply keeps_ret]. }
  intros accepted.
  apply keeps_bind.
  { keeps_case; [|apply keeps_ret].
    apply keeps_bind; [apply getShareSession_keeps_shares|].
    intros [ss|]; [|apply keeps_ret].
    keeps_case; [apply keeps_throw|apply keeps_ret]. }
  intros _. apply keeps_bind; [apply keeps_send|]. intros _.
  apply keeps_for_each. intros x. apply keeps_send.
Qed.

Lemma uploadChunk_keeps_shares now data callback :
  keeps shareStore
    (SocketHandler.uploadChunk config TTL simdChecksum now data callback).
Proof.
  unfold SocketHandler.uploadChunk.
  apply keeps_bind; [apply getUploadState_keeps_shares|].
  intros [upload|].
  2:{ apply keeps_bind; [apply keeps_when, keeps_send|].
      intros _. apply keeps_throw. }
  keeps_case; [apply keeps_when, keeps_send|].
  apply keeps_bind.
  { unfold SocketHandler.insertChunk, SocketHandler.writeThrough. keeps_walk. }
  intros u. apply keeps_bind; [apply keeps_send|]. intros _.
  apply keeps_bind.
  { unfold SocketHandler.forwardChunk.
    apply keeps_bind; [apply getClientSession_keeps_shares|]. intros cs.
    keeps_case; [|apply keeps_ret].
    apply keeps_bind; [apply getShareSession_keeps_shares|].
    intros [ss|]; [|apply keeps_ret].
    unfold SocketHandler.relayChunk. apply keeps_for_each. intros o.
    apply keeps_bind; [apply getClientSession_keeps_shares|].
    intros [os|]; [|apply keeps_ret].
    keeps_case; [|apply keeps_ret].
    apply keeps_bind; [apply keeps_send|]. intros _. apply keeps_send. }
  intros _. apply keeps_bind; [apply keeps_when, keeps_send|]. intros _.
  unfold SocketHandler.completeIfDone.
  keeps_case; [|apply keeps_ret].
  apply keeps_bind; [apply setUploadState_keeps_shares|]. intros _.
  apply keeps_bind; [apply keeps_send|]. intros _.
  apply keeps_bind; [apply keeps_send|]. intros _.
  apply keeps_bind.
  { apply keeps_try. unfold incrementFilesSent. keeps_walk. }
  intros _. unfold StorageRepository.removeCancelledDownloads. keeps_walk.
Qed.

Lemma chunkAcknowledged_keeps_shares now fileId chunkIndex :
  keeps shareStore (SocketHandler.chunkAcknowledged TTL now fileId chunkIndex).
Proof.
  unfold SocketHandler.chunkAcknowledged.
  apply keeps_bind; [apply getUploadState_keeps_shares|].
  intros [upload|]; [|apply keeps_ret].
  keeps_case; [apply keeps_ret|apply setUploadState_keeps_shares|
               apply keeps_throw].
Qed.

Lemma cancelDownload_keeps_shares now fileId clientId :
  keeps shareStore (SocketHandler.cancelDownload TTL now fileId clientId).
Proof.
  unfold SocketHandler.cancelDownload.
  apply keeps_bind.
  { unfold StorageRepository.addCancelledDownload. keeps_walk. }
  intros _. apply keeps_bind; [apply getClientSession_keeps_shares|].
  intros s. apply keeps_bind.
  { destruct s; [|apply keeps_ret].
    apply keeps_when, setClientSession_keeps_shares. }
  intros _. apply keeps_bind; [apply keeps_send|]. intros _.
  apply keeps_bind; [apply getUploadState_keeps_shares|].
  intros [u|]; [apply keeps_send|apply keeps_ret].
Qed.

Lemma checkUpload_keeps_shares now sockets live fileId upload :
  keeps shareStore
    (SocketHandler.checkUpload config TTL now sockets live fileId upload).
Proof.
  unfold SocketHandler.checkUpload.
  keeps_case; [apply keeps_ret|].
  keeps_case; [apply keeps_ret| |apply keeps_throw].
  keeps_case; [apply keeps_ret|].
  destruct (SocketHandler.scanPendingAcks config now m) as [[m' retry] fail].
  apply keeps_bind.
  { apply keeps_when. unfold SocketHandler.writeThrough. keeps_walk. }
  intros _. apply keeps_bind.
  { apply keeps_when, keeps_bind; [apply getClientSession_keeps_shares|].
    intros [s|]; [|apply keeps_ret].
    apply keeps_when, keeps_for_each. intros i. apply keeps_send. }
  intros _. apply keeps_bind.
  { apply keeps_when, keeps_bind; [apply setUploadState_keeps_shares|].
    intros _. apply keeps_bind; [apply getClientSession_keeps_shares|].
    intros s. apply keeps_bind; [|intros _; apply keeps_send].
    destruct s; [|apply keeps_ret]. apply keeps_when, keeps_send. }
  intros _. apply keeps_when, setUploadState_keeps_shares.
Qed.

Lemma ackTimeoutCheck_keeps_shares now sockets :
  keeps shareStore (SocketHandler.ackTimeoutCheck config TTL now sockets).
Proof.
  unfold SocketHandler.ackTimeoutCheck.
  apply keeps_bind.
  { unfold StorageRepository.getAllUploadStates. keeps_walk. }
  intros uploads. apply keeps_bind; [apply keeps_gets|]. intros entries.
  apply keeps_for_each. intros kv. apply checkUpload_keeps_shares.
Qed.

End Frames.

Lemma reads_backend {A} (g : Redis.t -> A) (f : Node -> A) :
  reads (StorageRepository.backend (StorageRepository.reading g) (gets f))
    (fun n => match redisService n with
              | Some r => g r
              | None => f n
              end).
Proof.
  intros n. unfold StorageRepository.backend, StorageRepository.reading.
  destruct (redisService n) as [r|] eqn:E; [|done].
  by rewrite (set_redis_same n r E).
Qed.

Lemma getShareSession_reads now shareId :
  reads (StorageRepository.getShareSession now shareId)
    (fun n => visibleShare now n shareId).
Proof. apply reads_backend. Qed.

Lemma getClientSession_reads now clientId :
  reads (StorageRepository.getClientSession now clientId)
    (fun n => visibleSession now n clientId).
Proof. apply reads_backend. Qed.

Lemma visibleShare_stored now n shareId ss :
  visibleShare now n shareId = Some ss -> storedShare n shareId = Some ss.
Proof.
  unfold visibleShare, storedShare, RedisService.getShareSession, Redis.GET.
  destruct (redisService n) as [r|]; [|done].
  destruct (negb (Redis.isOpen r)); [done|].
  destruct (JsMap.get shareId (Redis.shareKeys r)) as [e|]; [|done].
  destruct (Redis.live now e); [|done]. simpl. congruence.
Qed.

Lemma storedShare_proj (n n' : Node) :
  shareStore n' = shareStore n -> forall s, storedShare n' s = storedShare n s.
Proof.
  unfold shareStore, storedShare. intros H s.
  destruct (redisService n) as [r|], (redisService n') as [r'|];
    simpl in H; simplify_eq; congruence.
Qed.

(** What a share write leaves in the store: the share written, or what
    was stored before. *)
Lemma setShareSession_stored TTL now shareId ss n k v :
  storedShare (state_of (StorageRepository.setShareSession TTL now shareId ss n)) k
    = Some v ->
  (k = shareId /\ v = ss) \/ storedShare n k = Some v.
Proof.
  unfold StorageRepository.setShareSession, StorageRepository.backend,
    storedShare, state_of, modify.
  destruct (redisService n) as [r|] eqn:E; simpl.
  - unfold RedisService.setShareSession, RedisService.command.
    destruct (Redis.isOpen r); simpl; [|auto].
    unfold Redis.SETEX. destruct (decide (shareId = k)) as [->|Hne].
    + rewrite JsMap_get_set_eq. simpl. intros [= <-]. auto.
    + rewrite JsMap_get_set_ne by done. auto.
  - rewrite E. destruct (decide (shareId = k)) as [->|Hne].
    + rewrite JsMap_get_set_eq. intros [= <-]. auto.
    + rewrite JsMap_get_set_ne by done. auto.
Qed.

Lemma deleteShareSession_stored shareId n k v :
  storedShare (state_of (StorageRepository.deleteShareSession shareId n)) k
    = Some v ->
  storedShare n k = Some v.
Proof.
  unfold StorageRepository.deleteShareSession, StorageRepository.backend,
    storedShare, state_of, modify.
  destruct (redisService n) as [r|] eqn:E; simpl.
  - unfold RedisService.deleteShareSession, RedisService.command.
    destruct (Redis.isOpen r); simpl; [|auto].
    destruct (decide (shareId = k)) as [->|Hne].
    + by rewrite JsMap_get_delete_eq.
    + by rewrite JsMap_get_delete_ne.
  - rewrite E. destruct (decide (shareId = k)) as [->|Hne].
    + by rewrite JsMap_get_delete_eq.
    + by rewrite JsMap_get_delete_ne.
Qed.

Lemma state_bind_Return {A B} (m : M A) (k : A -> M B) n a n1 o1 :
  m n = (Return a, n1, o1) -> state_of (bind m k n) = state_of (k a n1).
Proof.
  intros H. unfold bind, state_of. rewrite H.
  by destruct (k a n1) as [[r n2] o2].
Qed.

Lemma state_bind_Throw {A B} (m : M A) (k : A -> M B) n e n1 o1 :
  m n = (Throw e, n1, o1) -> state_of (bind m k n) = n1.
Proof. intros H. unfold bind, state_of. by rewrite H. Qed.

Lemma state_bind_reads {A B} (m : M A) (f : Node -> A) (k : A -> M B) n :
  reads m f -> state_of (bind m k n) = state_of (k (f n) n).
Proof. intros H. by apply state_bind_Return with []. Qed.

Lemma state_bind_keeps {A B C} (proj : Node -> C) (m : M A) (k : A -> M B) n :
  keeps proj m -> (forall a, keeps proj (k a)) ->
  proj (state_of (bind m k n)) = proj n.
Proof. intros Hm Hk. by apply keeps_bind. Qed.

(** [validateRequired] on the members a share request carries. *)
Lemma validateRequired_clientId body n :
  ShareController.validateRequired body ["clientId"] n =
    match truthy (req_clientId body) with
    | Some _ => (Return tt, n, [])
    | None =>
        (Throw (AppErr (badRequest "Missing required fields: clientId")), n, [])
    end.
Proof.
  unfold ShareController.validateRequired. simpl.
  by destruct (truthy (req_clientId body)).
Qed.

Lemma validateRequired_both_ok body n s c :
  truthy (req_shareId body) = Some s -> truthy (req_clientId body) = Some c ->
  ShareController.validateRequired body ["shareId"; "clientId"] n
    = (Return tt, n, []).
Proof.
  intros Hs Hc. unfold ShareController.validateRequired. simpl.
  by rewrite Hs, Hc.
Qed.

Lemma validateRequired_state body fields n :
  state_of (ShareController.validateRequired body fields n) = n.
Proof. unfold ShareController.validateRequired. by case_match. Qed.

Lemma validateRequired_missing_throws body fields n :
  (exists f, In f fields /\
     (if String.eqb f "clientId" then truthy (req_clientId body)
      else if String.eqb f "shareId" then truthy (req_shareId body)
      else None) = None) ->
  exists e, ShareController.validateRequired body fields n = (Throw e, n, []).
Proof.
  intros (f & Hin & Hf). unfold ShareController.validateRequired.
  match goal with |- context [List.filter ?p fields] => set (pred := p) end.
  assert (Hm : In f (List.filter pred fields)).
  { apply filter_In. split; [done|]. unfold pred.
    destruct (String.eqb f "clientId"); [by rewrite Hf|].
    destruct (String.eqb f "shareId"); [by rewrite Hf|done]. }
  destruct (List.filter pred fields) as [|x l]; [done|]. simpl. eauto.
Qed.

Lemma truthy_default s c : truthy s = Some c -> default ""%string s = c.
Proof.
  unfold truthy. destruct s as [v|]; [|done]. simpl.
  destruct (String.eqb v ""); congruence.
Qed.

(** After [createShare] on behalf of [c], a stored share is the new one,
    with [c] as its only client, or was stored before. *)
Lemma createShare_stored TTL now rnd body n :
  exists sid, forall k v,
    storedShare (state_of (ShareController.createShare TTL now rnd body n)) k
      = Some v ->
    (k = sid /\ exists c, truthy (req_clientId body) = Some c /\
                          ss_clients v = [c] /\ ss_status v = active)
    \/ storedShare n k = Some v.
Proof.
  unfold ShareController.createShare.
  destruct (truthy (req_clientId body)) as [c|] eqn:Hc.
  2:{ exists ""%string. intros k v.
      erewrite state_bind_Throw
        by (rewrite validateRequired_clientId, Hc; reflexivity). auto. }
  erewrite state_bind_Return
    by (rewrite validateRequired_clientId, Hc; reflexivity).
  rewrite (truthy_default _ _ Hc).
  match goal with
  | |- context [state_of (bind ?m ?k n)] =>
      assert (Hid : (exists e, m n = (Throw e, n, [])) \/
                    (exists sid, m n = (Return sid, n, [])));
      [|destruct Hid as [[e He]|[sid Hsid]];
        [exists ""%string; intros k' v';
         rewrite (state_bind_Throw m k n e n [] He); auto
        |exists sid; intros k' v';
         rewrite (state_bind_Return m k n sid n [] Hsid)]]
  end.
  { destruct (truthy (req_shareId body)) as [custom|]; [|right; eauto].
    unfold bind. rewrite getShareSession_reads.
    destruct (visibleShare now n custom); simpl; eauto. }
  match goal with
  | |- context [bind (StorageRepository.setShareSession TTL now sid ?ss) ?k n] =>
      set (rest := k); set (new := ss)
  end.
  intros Hv.
  assert (Hkeep : forall a, keeps shareStore (rest a)).
  { intros []. unfold rest.
    apply keeps_bind; [apply getClientSession_keeps_shares|]. intros cs.
    apply keeps_bind.
    { destruct cs; [|apply keeps_ret].
      apply keeps_bind; [apply setClientSession_keeps_shares|].
      intros _. apply keeps_send. }
    intros _. apply keeps_bind; [|intros _; apply keeps_send].
    apply keeps_for_each. intros x. apply keeps_send. }
  assert (Hafter : storedShare
            (state_of (StorageRepository.setShareSession TTL now sid new n)) k'
            = Some v').
  { destruct (StorageRepository.setShareSession TTL now sid new n)
      as [[[[]|e] n1] o1] eqn:Hset.
    - rewrite (state_bind_Return _ rest n tt n1 o1 Hset) in Hv.
      by rewrite (storedShare_proj n1 _ (Hkeep tt n1)) in Hv.
    - by rewrite (state_bind_Throw _ rest n e n1 o1 Hset) in Hv. }
  apply setShareSession_stored in Hafter as [[-> ->]|Hold]; [|auto].
  left. split; [done|]. exists c. auto.
Qed.

Lemma joinShare_missing TTL now body n s c :
  truthy (req_shareId body) = Some s -> truthy (req_clientId body) = Some c ->
  visibleShare now n s = None ->
  ShareController.joinShare TTL now body n
    = (Throw (AppErr (notFound "Share session not found")), n, []).
Proof.
  intros Hs Hc Hv. unfold ShareController.joinShare, bind.
  rewrite (validateRequired_both_ok body n s c Hs Hc).
  rewrite (truthy_default _ _ Hs), getShareSession_reads, Hv. reflexivity.
Qed.

Lemma joinShare_full TTL now body n s c ss :
  truthy (req_shareId body) = Some s -> truthy (req_clientId body) = Some c ->
  visibleShare now n s = Some ss -> ss_status ss = active ->
  (2 <= length (ss_clients ss))%nat ->
  ShareController.joinShare TTL now body n
    = (Throw (AppErr (shareSessionFull s)), n, []).
Proof.
  intros Hs Hc Hv Ha Hlen. unfold ShareController.joinShare, bind.
  rewrite (validateRequired_both_ok body n s c Hs Hc).
  rewrite (truthy_default _ _ Hs), getShareSession_reads, Hv, Ha.
  destruct (2 <=? length (ss_clients ss))%nat eqn:E; [reflexivity|].
  apply Nat.leb_gt in E. lia.
Qed.

(** After [joinShare], a stored share is the joined one, with the new
    client appended to a share that had room, or was stored before. *)
Lemma joinShare_stored TTL now body n k v :
  storedShare (state_of (ShareController.joinShare TTL now body n)) k = Some v ->
  (exists c ss, truthy (req_clientId body) = Some c /\
                truthy (req_shareId body) = Some k /\
                storedShare n k = Some ss /\ ss_status ss = active /\
                (length (ss_clients ss) < 2)%nat /\
                ss_clients v = ss_clients ss ++ [c] /\ ss_status v = active)
  \/ storedShare n k = Some v.
Proof.
  unfold ShareController.joinShare.
  destruct (truthy (req_shareId body)) as [s|] eqn:Hs.
  2:{ destruct (validateRequired_missing_throws body ["shareId"; "clientId"] n)
        as [e He].
      { exists "shareId"%string. simpl. rewrite Hs. auto. }
      rewrite (state_bind_Throw _ _ n e n [] He). auto. }
  destruct (truthy (req_clientId body)) as [c|] eqn:Hc.
  2:{ destruct (validateRequired_missing_throws body ["shareId"; "clientId"] n)
        as [e He].
      { exists "clientId"%string. simpl. rewrite Hc. auto. }
      rewrite (state_bind_Throw _ _ n e n [] He). auto. }
  rewrite (state_bind_Return _ _ n tt n []
             (validateRequired_both_ok body n s c Hs Hc)).
  rewrite (truthy_default _ _ Hs), (truthy_default _ _ Hc).
  rewrite (state_bind_reads _ _ _ n (getShareSession_reads now s)).
  destruct (visibleShare now n s) as [ss|] eqn:Hvis; [|auto].
  destruct (ss_status ss) eqn:Hst; [|auto].
  destruct (2 <=? length (ss_clients ss))%nat eqn:Hlen; [auto|].
  apply Nat.leb_gt in Hlen.
  match goal with
  | |- context [bind (StorageRepository.setShareSession TTL now s ?new) ?k] =>
      set (rest := k); set (joined := new)
  end.
  intros Hv.
  assert (Hkeep : forall a, keeps shareStore (rest a)).
  { intros []. unfold rest.
    apply keeps_bind; [apply getClientSession_keeps_shares|]. intros cs.
    apply keeps_bind.
    { destruct cs; [apply setClientSession_keeps_shares|apply keeps_ret]. }
    intros _. apply keeps_bind.
    { apply keeps_for_each. intros x.
      apply keeps_bind; [apply keeps_send|]. intros _. apply keeps_send. }
    intros _. apply keeps_bind; [apply keeps_send|]. intros _.
    apply keeps_send. }
  assert (Hafter : storedShare
            (state_of (StorageRepository.setShareSession TTL now s joined n)) k
            = Some v).
  { destruct (StorageRepository.setShareSession TTL now s joined n)
      as [[[[]|e] n1] o1] eqn:Hset.
    - rewrite (state_bind_Return _ rest n tt n1 o1 Hset) in Hv.
      by rewrite (storedShare_proj n1 _ (Hkeep tt n1)) in Hv.
    - by rewrite (state_bind_Throw _ rest n e n1 o1 Hset) in Hv. }
  apply setShareSession_stored in Hafter as [[-> ->]|Hold]; [|auto].
  left. exists c, ss. repeat split; auto.
  by apply visibleShare_stored with now.
Qed.

(** After [disconnect], a stored share was stored before, possibly with
    more clients. *)
Lemma disconnect_stored TTL now socketId n k v :
  storedShare (state_of (SocketHandler.disconnect TTL now socketId n)) k
    = Some v ->
  exists v0, storedShare n k = Some v0 /\ ss_status v = ss_status v0 /\
             (forall c, In c (ss_clients v) -> In c (ss_clients v0)) /\
             (length (ss_clients v) <= length (ss_clients v0))%nat.
Proof.
  assert (Hrefl : forall v0, storedShare n k = Some v0 ->
            exists v1, storedShare n k = Some v1 /\
              ss_status v0 = ss_status v1 /\
              (forall c, In c (ss_clients v0) -> In c (ss_clients v1)) /\
              (length (ss_clients v0) <= length (ss_clients v1))%nat).
  { intros v0 H. exists v0. auto. }
  unfold SocketHandler.disconnect.
  rewrite (state_bind_Return _ _ n tt n [ClusterNotify "handleClientDisconnect" socketId])
    by reflexivity.
  unfold StorageRepository.getAllClientSessions.
  rewrite (state_bind_reads _ _ _ n (reads_backend _ _)).
  match goal with
  | |- context [List.find ?p ?l] => destruct (List.find p l) as [[clientId session]|]
  end; [|apply Hrefl].
  match goal with
  | |- context [state_of (bind ?m ?k n)] => set (first := m); set (rest := k)
  end.
  assert (Hkeep : forall a, keeps shareStore (rest a)).
  { intros []. unfold rest.
    apply keeps_bind; [apply setClientSession_keeps_shares|]. intros _.
    apply keeps_bind; [|intros _; apply keeps_send].
    unfold StorageRepository.deleteActiveConnection. keeps_walk. }
  assert (Hfirst : storedShare (state_of (first n)) k = Some v ->
            exists v0, storedShare n k = Some v0 /\
              ss_status v = ss_status v0 /\
              (forall c, In c (ss_clients v) -> In c (ss_clients v0)) /\
              (length (ss_clients v) <= length (ss_clients v0))%nat).
  { unfold first.
    destruct (truthy (cs_shareId session)) as [shareId|]; [|apply Hrefl].
    rewrite (state_bind_reads _ _ _ n (getShareSession_reads now shareId)).
    destruct (visibleShare now n shareId) as [ss|] eqn:Hvis; [|apply Hrefl].
    apply visibleShare_stored in Hvis.
    match goal with
    | |- context [state_of (bind ?m ?k n)] =>
        assert (Hsend : exists o, m n = (Return tt, n, o))
    end.
    { generalize (without clientId (ss_clients ss)). intros l.
      induction l as [|x l [o IH]]; simpl; [by eexists|].
      unfold bind, send at 1. rewrite IH. by eexists. }
    destruct Hsend as [o Hsend].
    rewrite (state_bind_Return _ _ n tt n o Hsend).
    destruct (length (without clientId (ss_clients ss)) =? 0)%nat.
    - intros H. apply deleteShareSession_stored in H. by apply Hrefl.
    - intros H. apply setShareSession_stored in H as [[-> ->]|Hold];
        [|by apply Hrefl].
      exists ss. split; [done|]. simpl. split; [done|]. split.
      + intros c Hin. unfold without in Hin. by apply filter_In in Hin as [? _].
      + unfold without. apply filter_length_le. }
  intros Hv. apply Hfirst.
  destruct (first n) as [[[[]|e] n1] o1] eqn:Hrun.
  - rewrite (state_bind_Return _ rest n tt n1 o1 Hrun) in Hv.
    by rewrite (storedShare_proj n1 _ (Hkeep tt n1)) in Hv.
  - by rewrite (state_bind_Throw _ rest n e n1 o1 Hrun) in Hv.
Qed.

Lemma state_try (m : M unit) (n : Node) : state_of (try_ m n) = state_of (m n).
Proof. unfold try_, state_of. by destruct (m n) as [[[[]|e] n1] o1]. Qed.

(** How a request changes what is stored about shares. *)
Lemma serve_stored config TTL simdChecksum nodeId now rq n :
  let n' := state_of (serve config TTL simdChecksum nodeId now rq n) in
  match rq with
  | post_share_create _ body =>
      exists sid, forall k v,
        storedShare n' k = Some v ->
        (k = sid /\ exists c, truthy (req_clientId body) = Some c /\
                              ss_clients v = [c] /\ ss_status v = active)
        \/ storedShare n k = Some v
  | post_share_join body =>
      forall k v,
        storedShare n' k = Some v ->
        (exists c ss, truthy (req_clientId body) = Some c /\
                      truthy (req_shareId body) = Some k /\
                      storedShare n k = Some ss /\ ss_status ss = active /\
                      (length (ss_clients ss) < 2)%nat /\
                      ss_clients v = ss_clients ss ++ [c] /\
                      ss_status v = active)
        \/ storedShare n k = Some v
  | on_disconnect _ =>
      forall k v,
        storedShare n' k = Some v ->
        exists v0, storedShare n k = Some v0 /\ ss_status v = ss_status v0 /\
                   (forall c, In c (ss_clients v) -> In c (ss_clients v0)) /\
                   (length (ss_clients v) <= length (ss_clients v0))%nat
  | _ => forall k, storedShare n' k = storedShare n k
  end.
Proof.
  unfold serve. cbv zeta. rewrite state_try.
  destruct rq; intros; try apply storedShare_proj.
  - apply register_keeps_shares.
  - apply heartbeat_keeps_shares.
  - apply uploadInit_keeps_shares.
  - apply uploadChunk_keeps_shares.
  - apply chunkAcknowledged_keeps_shares.
  - apply cancelDownload_keeps_shares.
  - exact (disconnect_stored TTL now socketId n k v H).
  - apply createShare_stored.
  - exact (joinShare_stored TTL now body n k v H).
  - apply ackTimeoutCheck_keeps_shares.
Qed.

Lemma serveAll_cons config TTL simdChecksum nodeId now rq rest n :
  state_of (serveAll config TTL simdChecksum nodeId ((now, rq) :: rest) n)
  = state_of (serveAll config TTL simdChecksum nodeId rest
                (state_of (serve config TTL simdChecksum nodeId now rq n))).
Proof.
  simpl. unfold serve at 1, try_.
  match goal with
  | |- context [bind (fun n0 => match ?h n0 with _ => _ end) _] =>
      set (handler := h)
  end.
  unfold bind, state_of, serve, try_. fold handler.
  destruct (handler n) as [[[[]|e] n1] o1]; simpl;
    by destruct (serveAll config TTL simdChecksum nodeId rest n1) as [[r n2] o2].
Qed.

Lemma serve_sharesBounded config TTL simdChecksum nodeId now rq n :
  sharesBounded n ->
  sharesBounded (state_of (serve config TTL simdChecksum nodeId now rq n)).
Proof.
  intros Hb k v Hv. pose proof (serve_stored config TTL simdChecksum nodeId now rq n) as H.
  cbv zeta in H.
  destruct rq; try (rewrite H in Hv; by apply Hb in Hv).
  - destruct (H k v Hv) as (v0 & Hv0 & Hst & Hincl & Hlen).
    apply Hb in Hv0 as [Ha Hl]. split; [congruence|lia].
  - destruct H as [sid H]. destruct (H k v Hv) as [[Hk (c & Htc & Hc & Ha)]|Hold].
    + rewrite Hc. split; [done|simpl; lia].
    + by apply Hb in Hold.
  - destruct (H k v Hv) as [(c & ss & Htc & Hts & Hss & Hact & Hlen & Hc & Ha)|Hold].
    + rewrite Hc, length_app. simpl. split; [done|lia].
    + by apply Hb in Hold.
Qed.

Lemma serveAll_sharesBounded config TTL simdChecksum nodeId rqs n :
  sharesBounded n ->
  sharesBounded (state_of (serveAll config TTL simdChecksum nodeId rqs n)).
Proof.
  revert n. induction rqs as [|[now rq] rest IH]; intros n Hb; [done|].
  rewrite serveAll_cons. by apply IH, serve_sharesBounded.
Qed.

(* ===================================================================== *)
(** ** Share admission *)
(* ===================================================================== *)

(** C8.  Joining a share that already has two participants fails with
    409 [SHARE_SESSION_FULL] and changes nothing, so the client list of
    the share stays as it was; joining a share that cannot be found fails
    with 404; and whatever requests a node serves, every stored share
    keeps at most two clients. *)
Theorem C8_join_full_or_missing_and_bound
    (config : Config) (TTL : TTLConfig) (simdChecksum : Buffer -> string)
    (nodeId : option string) :
  (forall now body n s c ss,
      sharesBounded n ->
      truthy (req_shareId body) = Some s ->
      truthy (req_clientId body) = Some c ->
      visibleShare now n s = Some ss ->
      length (ss_clients ss) = 2%nat ->
      ShareController.joinShare TTL now body n
        = (Throw (AppErr (shareSessionFull s)), n, []) /\
      code (shareSessionFull s) = SHARE_SESSION_FULL /\
      ShareController.httpStatus (Throw (AppErr (shareSessionFull s))) = 409) /\
  (forall now body n s c,
      truthy (req_shareId body) = Some s ->
      truthy (req_clientId body) = Some c ->
      visibleShare now n s = None ->
      ShareController.joinShare TTL now body n
        = (Throw (AppErr (notFound "Share session not found")), n, []) /\
      ShareController.httpStatus
        (Throw (AppErr (notFound "Share session not found"))) = 404) /\
  (forall rqs n,
      sharesBounded n ->
      sharesBounded (state_of (serveAll config TTL simdChecksum nodeId rqs n))).
Proof.
  split; [|split].
  - intros now body n s c ss Hb Hs Hc Hv Hlen. split; [|done].
    apply joinShare_full with c ss; auto; [|lia].
    apply visibleShare_stored in Hv. by apply Hb in Hv as [? _].
  - intros now body n s c Hs Hc Hv. split; [|done].
    by apply joinShare_missing with s c.
  - intros rqs n. apply serveAll_sharesBounded.
Qed.

Lemma C8_witness :
  ShareController.joinShare DEFAULT_TTL 2000
    {| req_clientId := Some "C"%string; req_shareId := Some "S"%string |}
    nodeWithShareOfTwo
  = (Throw (AppErr (shareSessionFull "S")), nodeWithShareOfTwo, []) /\
  ShareController.joinShare DEFAULT_TTL 2000
    {| req_clientId := Some "C"%string; req_shareId := Some "T"%string |}
    nodeWithShareOfTwo
  = (Throw (AppErr (notFound "Share session not found")),
     nodeWithShareOfTwo, []) /\
  sharesBounded nodeWithShareOfTwo.
Proof.
  destruct (C8_join_full_or_missing_and_bound defaultConfig DEFAULT_TTL
              (fun _ => ""%string) None) as (Hfull & Hmissing & Hbound).
  assert (Hb : sharesBounded nodeWithShareOfTwo).
  { apply Hbound. intros s ss H. discriminate H. }
  split; [|split; [|exact Hb]].
  - apply (Hfull 2000 _ nodeWithShareOfTwo "S" "C"
             {| ss_shareId := "S"; ss_createdAt := 1002;
                ss_lastActivity := 1003; ss_clients := ["A"; "B"];
                ss_status := active |})%string;
      [exact Hb|reflexivity|reflexivity|vm_compute; reflexivity|reflexivity].
  - apply (Hmissing 2000 _ nodeWithShareOfTwo "T" "C")%string;
      [reflexivity|reflexivity|vm_compute; reflexivity].
Defined.

(* ===================================================================== *)
(** ** Upload state through Redis *)
(* ===================================================================== *)

Lemma readBack_live TTL now later fileId upload r :
  Redis.isOpen r = true -> later < now + UPLOAD_STATE TTL * 1000 ->
  readBack TTL now later fileId upload r
  = Return (Some (RedisService.fromData (RedisService.toData upload))).
Proof.
  intros Hopen Hlive.
  unfold readBack, RedisService.setUploadState, RedisService.getUploadState,
    RedisService.command.
  rewrite Hopen. simpl. rewrite Hopen. simpl.
  unfold Redis.GET, Redis.SETEX. rewrite JsMap_get_set_eq.
  unfold Redis.live. simpl.
  destruct (later <? now + UPLOAD_STATE TTL * 1000) eqn:E; [done|].
  apply Z.ltb_ge in E. lia.
Qed.

(** The set of uploaded chunks survives the round trip. *)
Lemma roundTrip_uploadedChunks upload :
  up_uploadedChunks (RedisService.fromData (RedisService.toData upload))
  = up_uploadedChunks upload.
Proof. simpl. apply list_to_set_elements_L. Qed.

(** The pending acknowledgements never come back as a [Map]. *)
Lemma roundTrip_pendingAcks upload m :
  up_pendingAcks (RedisService.fromData (RedisService.toData upload))
  <> AcksMap m.
Proof. simpl. by destruct (up_pendingAcks upload). Qed.

(** C3.  Written to Redis and read back one second later,
    [uploadAwaitingAck] still has chunk 0 in [uploadedChunks], but its
    [pendingAcks] is the plain empty object: the entry for chunk 0 is
    gone, and a second node that loads the upload from Redis gets the
    same. *)
Theorem C3_pendingAcks_lost_through_redis :
  exists back,
    readBack DEFAULT_TTL 1005 2005 "F" uploadAwaitingAck emptyRedis
      = Return (Some back) /\
    up_uploadedChunks back = up_uploadedChunks uploadAwaitingAck /\
    up_pendingAcks uploadAwaitingAck
      = AcksMap {[0 := {| timestamp := 1005; retries := 0 |}]} /\
    up_pendingAcks back = AcksObject /\
    (let writer :=
       state_of (StorageRepository.setUploadState DEFAULT_TTL 1005 "F"
                   uploadAwaitingAck (emptyNode (Some emptyRedis))) in
     let reader := emptyNode (redisService writer) in
     result_of (StorageRepository.getUploadState 2005 "F" reader)
       = Return (Some back)).
Proof.
  exists (RedisService.fromData (RedisService.toData uploadAwaitingAck)).
  split; [by apply readBack_live|].
  split; [apply roundTrip_uploadedChunks|].
  split; [reflexivity|]. split; reflexivity.
Qed.

(* ===================================================================== *)
(** ** Rate limiting *)
(* ===================================================================== *)

(** In the embedded backend [checkRateLimit] allows every request. *)
Lemma checkRateLimit_embedded TTL now identifier maxRequests
    fu cs ss ac cd fs :
  StorageRepository.checkRateLimit TTL now identifier maxRequests
    (mkNode None fu cs ss ac cd fs)
  = (Return {| allowed := true; remaining := maxRequests;
               resetAt := now + 60000 |},
     mkNode None fu cs ss ac cd fs, []).
Proof. reflexivity. Qed.

(** In the distributed backend a request over the limit is refused, and
    [resetAt] is the expiry of the counter, to the second. *)
Lemma checkRateLimit_redis_refuses now identifier maxRequests window r
    count expiry :
  Redis.isOpen r = true ->
  JsMap.get identifier (Redis.ratelimitKeys r)
    = Some (Redis.mkEntry count (Some expiry)) ->
  now < expiry -> maxRequests <= count ->
  exists res,
    RedisService.checkRateLimit now identifier maxRequests window r
      = (Return res, r) /\
    allowed res = false /\
    expiry - 500 <= resetAt res <= expiry + 500.
Proof.
  intros Hopen Hget Hlive Hmax.
  unfold RedisService.checkRateLimit, RedisService.command, Redis.GET,
    Redis.TTL, Redis.live.
  rewrite Hopen, Hget. simpl.
  destruct (now <? expiry) eqn:E; [|apply Z.ltb_ge in E; lia].
  destruct (maxRequests <=? count) eqn:E'; [|apply Z.leb_gt in E'; lia].
  eexists. split; [reflexivity|]. split; [reflexivity|]. simpl.
  pose proof (Z.div_mod (expiry - now + 500) 1000 ltac:(lia)) as Hd.
  pose proof (Z.mod_pos_bound (expiry - now + 500) 1000 ltac:(lia)) as Hm.
  lia.
Qed.

(** C10.  With the default limit of 1000 messages per minute, 1001
    heartbeats of one client within a millisecond: the distributed
    backend acknowledges 1000 and refuses the last one with
    [rate-limited], while the embedded backend acknowledges all 1001 and
    never answers [rate-limited]. *)
Theorem C10_embedded_backend_never_rate_limits :
  let run r :=
    outputs_of (serveAll defaultConfig DEFAULT_TTL (fun _ => ""%string) None
                  (heartbeatFlood 1001) (emptyNode r)) in
  count_outputs is_heartbeat_ack (run (Some emptyRedis)) = 1000%nat /\
  List.filter is_rate_limited (run (Some emptyRedis))
    = [Emit (rate_limited 61001)] /\
  count_outputs is_heartbeat_ack (run None) = 1001%nat /\
  count_outputs is_rate_limited (run None) = 0%nat.
Proof. vm_compute. repeat split. Qed.

(* ===================================================================== *)
(** ** Upload initiation *)
(* ===================================================================== *)

(** C7.  A's [upload-init] towards the busy receiver B throws
    [uploadFailed] "All receivers are busy", sends nothing and registers
    nothing on B, yet the upload state written before the check stays in
    storage with status [uploading], in both backends. *)
Theorem C7_failed_init_leaves_upload_state :
  let init r :=
    SocketHandler.uploadInit defaultConfig DEFAULT_TTL 1012 "x"
      {| ui_clientId := "A"; ui_fileName := "x"; ui_fileSize := 48;
         ui_totalChunks := 3 |} (nodeWithBusyReceiver r) in
  let failure :=
    Throw (AppErr (uploadFailed
      "All receivers are busy (too many concurrent transfers)")) in
  (result_of (init None) = failure /\ outputs_of (init None) = [] /\
   JsMap.get "file-1012-x" (fileUploads (nodeWithBusyReceiver None)) = None /\
   up_status <$> JsMap.get "file-1012-x" (fileUploads (state_of (init None)))
     = Some uploading /\
   clientSessions (state_of (init None))
     = clientSessions (nodeWithBusyReceiver None)) /\
  (result_of (init (Some emptyRedis)) = failure /\
   up_status <$> JsMap.get "file-1012-x"
                   (fileUploads (state_of (init (Some emptyRedis))))
     = Some uploading /\
   (Redis.d_status ∘ Redis.value <$>
      (redisService (state_of (init (Some emptyRedis)))
         ≫= fun r => JsMap.get "file-1012-x" (Redis.uploadKeys r)))
     = Some uploading).
Proof. vm_compute. repeat split. Qed.

(* ===================================================================== *)
(** ** Chunk ingestion *)
(* ===================================================================== *)

Lemma bind_Return {A B} (m : M A) (k : A -> M B) n a n1 o1 r n2 o2 :
  m n = (Return a, n1, o1) -> k a n1 = (r, n2, o2) ->
  bind m k n = (r, n2, o1 ++ o2).
Proof. intros H1 H2. unfold bind. by rewrite H1, H2. Qed.

Lemma bind_Throw {A B} (m : M A) (k : A -> M B) n e n1 o1 :
  m n = (Throw e, n1, o1) -> bind m k n = (Throw e, n1, o1).
Proof. intros H1. unfold bind. by rewrite H1. Qed.

Section ChunkIngestion.
Variable config : Config.
Variable TTL : TTLConfig.
Variable simdChecksum : Buffer -> string.

Lemma getUploadState_held now fileId n u :
  JsMap.get fileId (fileUploads n) = Some u ->
  StorageRepository.getUploadState now fileId n = (Return (Some u), n, []).
Proof.
  intros H. unfold StorageRepository.getUploadState, bind, gets.
  by rewrite H.
Qed.

Lemma relayChunk_run now data totalChunks others n :
  SocketHandler.relayChunk now data totalChunks others n
  = (Return tt, n,
     relayOutputs data totalChunks
       (List.filter
          (fun c =>
             match visibleSession now n c with
             | Some os => includes_str (uc_fileId data) (cs_downloads os)
             | None => false
             end) others)).
Proof.
  unfold SocketHandler.relayChunk.
  induction others as [|c rest IH]; [reflexivity|].
  cbn [for_each List.filter].
  unfold bind at 1. unfold bind at 1. rewrite getClientSession_reads.
  destruct (visibleSession now n c) as [os|]; cbn.
  - destruct (includes_str (uc_fileId data) (cs_downloads os)); cbn;
      by rewrite IH.
  - by rewrite IH.
Qed.

Lemma forwardChunk_run now data totalChunks n :
  SocketHandler.forwardChunk now data totalChunks n
  = (Return tt, n, relayOutputs data totalChunks (liveReceivers now n data)).
Proof.
  unfold SocketHandler.forwardChunk, liveReceivers, bind.
  rewrite getClientSession_reads.
  destruct (truthy (visibleSession now n (uc_clientId data) ≫= cs_shareId))
    as [shareId|]; [|reflexivity].
  rewrite getShareSession_reads.
  destruct (visibleShare now n shareId) as [ss|]; [|reflexivity].
  by rewrite relayChunk_run.
Qed.

(** Writing an upload leaves sessions and shares as they were. *)
Lemma liveReceivers_set_fileUploads now n data m :
  liveReceivers now (set_fileUploads m n) data = liveReceivers now n data.
Proof. by destruct n. Qed.

Lemma insertChunk_run now data u n :
  JsMap.get (uc_fileId data) (fileUploads n) = Some u ->
  up_pendingAcks u <> AcksObject ->
  exists n',
    SocketHandler.insertChunk config simdChecksum now data u n
      = (Return (withChunk config simdChecksum now data u), n', []) /\
    JsMap.get (uc_fileId data) (fileUploads n') = Some (withChunk config simdChecksum now data u) /\
    (forall f, f <> uc_fileId data ->
               JsMap.get f (fileUploads n') = JsMap.get f (fileUploads n)) /\
    redisService n' = redisService n /\
    clientSessions n' = clientSessions n /\
    shareSessions n' = shareSessions n /\
    cancelledDownloads n' = cancelledDownloads n /\
    filesSent n' = filesSent n.
Proof.
  intros Hheld Hacks.
  unfold SocketHandler.insertChunk, withChunk.
  destruct (bool_decide (uc_chunkIndex data ∈ up_uploadedChunks u)).
  { exists n. by repeat split. }
  cbv zeta.
  destruct (up_pendingAcks u) as [|m|] eqn:E; [| |done].
  - eexists. split; [reflexivity|].
    destruct n; simpl in *. rewrite JsMap_get_set_eq.
    repeat split; try done.
    intros f Hf. by rewrite JsMap_get_set_ne.
  - eexists. split; [reflexivity|].
    destruct n; simpl in *. rewrite JsMap_get_set_eq.
    repeat split; try done.
    intros f Hf. by rewrite JsMap_get_set_ne.
Qed.

Lemma withChunk_status now data u :
  up_status (withChunk config simdChecksum now data u) = up_status u.
Proof. unfold withChunk. by case_match. Qed.

Lemma withChunk_totalChunks now data u :
  up_totalChunks (withChunk config simdChecksum now data u) = up_totalChunks u.
Proof. unfold withChunk. by case_match. Qed.

Lemma withChunk_uploadedChunks now data u :
  up_uploadedChunks (withChunk config simdChecksum now data u)
  = {[uc_chunkIndex data]} ∪ up_uploadedChunks u.
Proof.
  unfold withChunk. case_bool_decide as H; simpl; [|done].
  symmetry. apply subseteq_union_1_L. by apply singleton_subseteq_l.
Qed.

Lemma withChunk_has now data u :
  uc_chunkIndex data ∈ up_uploadedChunks (withChunk config simdChecksum now data u).
Proof.
  rewrite withChunk_uploadedChunks. apply elem_of_union_l.
  by apply elem_of_singleton.
Qed.

(** A second insertion of the same chunk changes nothing. *)
Lemma withChunk_idem now later data u :
  withChunk config simdChecksum later data (withChunk config simdChecksum now data u) = withChunk config simdChecksum now data u.
Proof.
  unfold withChunk at 1.
  rewrite bool_decide_eq_true_2 by apply withChunk_has. done.
Qed.

(** The completion check when it fires, on a node whose Redis client, if
    any, is open. *)
Lemma completeIfDone_fires now data u n :
  redisOpen n ->
  Z.of_nat (size (up_uploadedChunks u)) = up_totalChunks u ->
  up_status u <> completed ->
  exists n',
    SocketHandler.completeIfDone TTL now data u n
      = (Return tt, n',
         [Emit (upload_complete (uc_fileId data) (up_fileName u)
                  (up_fileSize u) (now - up_startTime u));
          Webhook "upload-complete"]) /\
    JsMap.get (uc_fileId data) (fileUploads n')
      = Some (up_with_status completed u) /\
    filesSent n' = filesSent n + 1 /\
    storedCancelled n' (uc_fileId data) = None.
Proof.
  intros Hopen Hsize Hst. unfold SocketHandler.completeIfDone.
  rewrite Hsize, Z.eqb_refl.
  replace (UploadStatus_eqb (up_status u) completed) with false
    by (by destruct (up_status u)).
  cbn [negb andb].
  unfold redisOpen in Hopen.
  destruct n as [[r|] fu cs sh ac cd fs]; cbn in Hopen.
  - eexists. split.
    + unfold StorageRepository.setUploadState,
        StorageRepository.removeCancelledDownloads,
        StorageRepository.backend, RedisService.setUploadState,
        RedisService.removeCancelledDownloads, RedisService.command,
        incrementFilesSent, bind, try_, modify, send.
      cbn. rewrite Hopen. cbn. rewrite Hopen. cbn. reflexivity.
    + cbn. rewrite JsMap_get_set_eq, JsMap_get_delete_eq. done.
  - eexists. split; [reflexivity|].
    cbn. rewrite JsMap_get_set_eq, JsMap_get_delete_eq. done.
Qed.

Lemma completeIfDone_skips now data u n :
  Z.of_nat (size (up_uploadedChunks u)) <> up_totalChunks u
  \/ up_status u = completed ->
  SocketHandler.completeIfDone TTL now data u n = (Return tt, n, []).
Proof.
  intros H. unfold SocketHandler.completeIfDone.
  destruct H as [H| ->].
  - apply Z.eqb_neq in H. by rewrite H.
  - by rewrite andb_false_r.
Qed.

Lemma relayOutputs_not_complete data total receivers :
  List.filter is_upload_complete (relayOutputs data total receivers) = [].
Proof. induction receivers as [|c l IH]; [done|]. simpl. exact IH. Qed.

(** [upload-chunk] on an upload that the node holds and does not reject:
    what is returned, written and sent. *)
Lemma uploadChunk_run now data callback n u :
  JsMap.get (uc_fileId data) (fileUploads n) = Some u ->
  up_status u <> cancelled -> up_status u <> paused ->
  up_pendingAcks u <> AcksObject ->
  redisOpen n ->
  let u1 := withChunk config simdChecksum now data u in
  let done :=
    bool_decide (Z.of_nat (size (up_uploadedChunks u1)) = up_totalChunks u1
                 /\ up_status u <> completed) in
  exists n',
    SocketHandler.uploadChunk config TTL simdChecksum now data callback n
    = (Return tt, n',
       [Emit (chunk_uploaded (uc_fileId data) (uc_chunkIndex data)
                (size (up_uploadedChunks u1)) (up_totalChunks u1))]
       ++ relayOutputs data (up_totalChunks u1) (liveReceivers now n data)
       ++ (if callback then [Callback cb_success] else [])
       ++ (if done
           then [Emit (upload_complete (uc_fileId data) (up_fileName u1)
                         (up_fileSize u1) (now - up_startTime u1));
                 Webhook "upload-complete"]
           else [])) /\
    JsMap.get (uc_fileId data) (fileUploads n')
      = Some (if done then up_with_status completed u1 else u1) /\
    filesSent n' = (if done then filesSent n + 1 else filesSent n) /\
    (done = true -> storedCancelled n' (uc_fileId data) = None).
Proof.
  intros Hheld Hc Hp Hacks Hopen u1 done.
  destruct (insertChunk_run now data u n Hheld Hacks)
    as (n1 & Hins & Hheld1 & _ & Hr1 & Hcs1 & Hsh1 & _ & Hfs1).
  fold u1 in Hins, Hheld1.
  assert (Hrecv : liveReceivers now n1 data = liveReceivers now n data).
  { unfold liveReceivers, visibleSession, visibleShare.
    by rewrite Hr1, Hcs1, Hsh1. }
  assert (Hopen1 : redisOpen n1) by (unfold redisOpen; by rewrite Hr1).
  assert (Hst1 : up_status u1 = up_status u) by apply withChunk_status.
  assert (Hhead : forall tail_run : Result unit * Node * list Output,
            SocketHandler.completeIfDone TTL now data u1 n1 = tail_run ->
            SocketHandler.uploadChunk config TTL simdChecksum now data callback n
            = (fst (fst tail_run), snd (fst tail_run),
               [Emit (chunk_uploaded (uc_fileId data) (uc_chunkIndex data)
                        (size (up_uploadedChunks u1)) (up_totalChunks u1))]
               ++ relayOutputs data (up_totalChunks u1) (liveReceivers now n data)
               ++ (if callback then [Callback cb_success] else [])
               ++ snd tail_run)).
  { intros [[res n2] o2] Htail. unfold SocketHandler.uploadChunk, bind.
    rewrite (getUploadState_held now _ n u Hheld).
    replace (UploadStatus_eqb (up_status u) cancelled) with false
      by (by destruct (up_status u)).
    replace (UploadStatus_eqb (up_status u) paused) with false
      by (by destruct (up_status u)).
    cbn [orb]. rewrite Hins. unfold send at 1.
    rewrite forwardChunk_run, Hrecv.
    destruct callback; cbn [when]; unfold send, ret; rewrite Htail;
      cbn [fst snd app]; by rewrite ?app_nil_r. }
  unfold done. case_bool_decide as Hd.
  - destruct Hd as [Hsize Hnc].
    destruct (completeIfDone_fires now data u1 n1 Hopen1 Hsize)
      as (n2 & Hrun & Hheld2 & Hfs2 & Hcd2); [congruence|].
    exists n2. rewrite (Hhead _ Hrun). cbn [fst snd].
    repeat split; [done|lia|done].
  - exists n1. rewrite (Hhead (Return tt, n1, [])).
    + cbn [fst snd]. by repeat split.
    + apply completeIfDone_skips.
      destruct (decide (Z.of_nat (size (up_uploadedChunks u1))
                        = up_totalChunks u1)) as [Hs|Hs]; [|by left].
      right. rewrite Hst1.
      destruct (decide (up_status u = completed)) as [?|Hnc]; [done|].
      exfalso. apply Hd. done.
Qed.

(** A chunk that the upload already has, on an upload that is not waiting
    for completion: nothing is written; the chunk is relayed again. *)
Lemma uploadChunk_duplicate now data callback n u :
  JsMap.get (uc_fileId data) (fileUploads n) = Some u ->
  up_status u <> cancelled -> up_status u <> paused ->
  uc_chunkIndex data ∈ up_uploadedChunks u ->
  (Z.of_nat (size (up_uploadedChunks u)) = up_totalChunks u ->
   up_status u = completed) ->
  SocketHandler.uploadChunk config TTL simdChecksum now data callback n
  = (Return tt, n,
     [Emit (chunk_uploaded (uc_fileId data) (uc_chunkIndex data)
              (size (up_uploadedChunks u)) (up_totalChunks u))]
     ++ relayOutputs data (up_totalChunks u) (liveReceivers now n data)
     ++ (if callback then [Callback cb_success] else [])).
Proof.
  intros Hheld Hc Hp Hhas Hdone.
  unfold SocketHandler.uploadChunk, bind.
  rewrite (getUploadState_held now _ n u Hheld).
  replace (UploadStatus_eqb (up_status u) cancelled) with false
    by (by destruct (up_status u)).
  replace (UploadStatus_eqb (up_status u) paused) with false
    by (by destruct (up_status u)).
  cbn [orb]. unfold SocketHandler.insertChunk.
  rewrite bool_decide_eq_true_2 by done.
  unfold ret at 1. unfold send at 1. rewrite forwardChunk_run.
  assert (Hskip : SocketHandler.completeIfDone TTL now data u n
                  = (Return tt, n, [])).
  { apply completeIfDone_skips.
    destruct (decide (Z.of_nat (size (up_uploadedChunks u))
                      = up_totalChunks u)); auto. }
  destruct callback; cbn [when]; unfold send, ret; rewrite Hskip;
    cbn [app]; by rewrite ?app_nil_r.
Qed.

(** A cancelled or paused upload is rejected: nothing is written and
    nothing is relayed. *)
Lemma uploadChunk_rejected now data callback n u :
  JsMap.get (uc_fileId data) (fileUploads n) = Some u ->
  up_status u = cancelled \/ up_status u = paused ->
  SocketHandler.uploadChunk config TTL simdChecksum now data callback n
  = (Return tt, n,
     if callback then [Callback (cb_error "Upload cancelled or paused")]
     else []).
Proof.
  intros Hheld Hst. unfold SocketHandler.uploadChunk, bind.
  rewrite (getUploadState_held now _ n u Hheld).
  replace (UploadStatus_eqb (up_status u) cancelled
           || UploadStatus_eqb (up_status u) paused) with true
    by (by destruct Hst as [-> | ->]).
  by destruct callback.
Qed.

End ChunkIngestion.

Section ChunkDelivery.
Variable config : Config.
Variable TTL : TTLConfig.
Variable simdChecksum : Buffer -> string.

Lemma insertChunk_passes now data u n :
  JsMap.get (uc_fileId data) (fileUploads n) = Some u ->
  ~ insertionFails data u ->
  exists n',
    SocketHandler.insertChunk config simdChecksum now data u n
      = (Return (withChunk config simdChecksum now data u), n', []) /\
    JsMap.get (uc_fileId data) (fileUploads n')
      = Some (withChunk config simdChecksum now data u) /\
    redisService n' = redisService n /\
    clientSessions n' = clientSessions n /\
    shareSessions n' = shareSessions n /\
    cancelledDownloads n' = cancelledDownloads n /\
    filesSent n' = filesSent n.
Proof.
  intros Hheld Hpass.
  assert (Hcase : up_pendingAcks u = AcksObject
                  \/ up_pendingAcks u <> AcksObject)
    by (destruct (up_pendingAcks u); auto).
  destruct Hcase as [Hobj|Hacks].
  - assert (Hin : uc_chunkIndex data ∈ up_uploadedChunks u).
    { destruct (decide (uc_chunkIndex data ∈ up_uploadedChunks u)); [done|].
      exfalso. apply Hpass. by split. }
    exists n. unfold SocketHandler.insertChunk, withChunk.
    rewrite bool_decide_eq_true_2 by done. by repeat split.
  - destruct (insertChunk_run config simdChecksum now data u n Hheld Hacks)
      as (n' & Hrun & Hheld' & _ & Hr & Hcs & Hsh & Hcd & Hfs).
    exists n'. by repeat split.
Qed.

(** The completion check when it fires on a node whose Redis client is
    closed: the write to Redis is caught, the rest is done up to the
    clearing of the cancelled marks, which throws. *)
Lemma completeIfDone_fires_closed now data u n :
  ~ redisOpen n ->
  Z.of_nat (size (up_uploadedChunks u)) = up_totalChunks u ->
  up_status u <> completed ->
  exists n',
    SocketHandler.completeIfDone TTL now data u n
      = (Throw ClientClosedError, n',
         [Emit (upload_complete (uc_fileId data) (up_fileName u)
                  (up_fileSize u) (now - up_startTime u));
          Webhook "upload-complete"]) /\
    JsMap.get (uc_fileId data) (fileUploads n')
      = Some (up_with_status completed u) /\
    filesSent n' = filesSent n + 1 /\
    storedCancelled n' (uc_fileId data) = storedCancelled n (uc_fileId data).
Proof.
  intros Hclosed Hsize Hst. unfold SocketHandler.completeIfDone.
  rewrite Hsize, Z.eqb_refl.
  replace (UploadStatus_eqb (up_status u) completed) with false
    by (by destruct (up_status u)).
  cbn [negb andb].
  unfold redisOpen in Hclosed.
  destruct n as [[r|] fu cs sh ac cd fs]; cbn in Hclosed; [|done].
  destruct (Redis.isOpen r) eqn:Hopen; [done|].
  eexists. split.
  - unfold StorageRepository.setUploadState,
      StorageRepository.removeCancelledDownloads,
      StorageRepository.backend, RedisService.setUploadState,
      RedisService.removeCancelledDownloads, RedisService.command,
      incrementFilesSent, bind, try_, modify, send.
    cbn. rewrite Hopen. cbn. rewrite Hopen. cbn. reflexivity.
  - cbn. rewrite JsMap_get_set_eq. done.
Qed.

Lemma redisOpen_dec n : {redisOpen n} + {~ redisOpen n}.
Proof.
  unfold redisOpen. destruct (redisService n) as [r|]; [|by left].
  destruct (Redis.isOpen r); [by left|by right].
Qed.

(** [upload-chunk] on an upload that the node holds and does not reject,
    when the insertion does not fail: what is written and sent, with the
    Redis client open or closed. *)
Lemma uploadChunk_passes now data callback n u :
  JsMap.get (uc_fileId data) (fileUploads n) = Some u ->
  up_status u <> cancelled -> up_status u <> paused ->
  ~ insertionFails data u ->
  let u1 := withChunk config simdChecksum now data u in
  let done :=
    bool_decide (Z.of_nat (size (up_uploadedChunks u1)) = up_totalChunks u1
                 /\ up_status u <> completed) in
  exists res n',
    SocketHandler.uploadChunk config TTL simdChecksum now data callback n
    = (res, n',
       [Emit (chunk_uploaded (uc_fileId data) (uc_chunkIndex data)
                (size (up_uploadedChunks u1)) (up_totalChunks u1))]
       ++ relayOutputs data (up_totalChunks u1) (liveReceivers now n data)
       ++ (if callback then [Callback cb_success] else [])
       ++ (if done
           then [Emit (upload_complete (uc_fileId data) (up_fileName u1)
                         (up_fileSize u1) (now - up_startTime u1));
                 Webhook "upload-complete"]
           else [])) /\
    JsMap.get (uc_fileId data) (fileUploads n')
      = Some (if done then up_with_status completed u1 else u1) /\
    filesSent n' = (if done then filesSent n + 1 else filesSent n) /\
    (done = false -> res = Return tt) /\
    (done = true -> redisOpen n ->
     res = Return tt /\ storedCancelled n' (uc_fileId data) = None) /\
    (done = true -> ~ redisOpen n ->
     res = Throw ClientClosedError /\
     storedCancelled n' (uc_fileId data) = storedCancelled n (uc_fileId data)).
Proof.
  intros Hheld Hc Hp Hpass u1 done.
  destruct (insertChunk_passes now data u n Hheld Hpass)
    as (n1 & Hins & Hheld1 & Hr1 & Hcs1 & Hsh1 & Hcd1 & Hfs1).
  fold u1 in Hins, Hheld1.
  assert (Hrecv : liveReceivers now n1 data = liveReceivers now n data).
  { unfold liveReceivers, visibleSession, visibleShare.
    by rewrite Hr1, Hcs1, Hsh1. }
  assert (Hopen1 : redisOpen n1 <-> redisOpen n)
    by (unfold redisOpen; by rewrite Hr1).
  assert (Hmarks : storedCancelled n1 (uc_fileId data)
                   = storedCancelled n (uc_fileId data))
    by (unfold storedCancelled; by rewrite Hr1, Hcd1).
  assert (Hst1 : up_status u1 = up_status u) by apply withChunk_status.
  assert (Hhead : forall tail_run : Result unit * Node * list Output,
            SocketHandler.completeIfDone TTL now data u1 n1 = tail_run ->
            SocketHandler.uploadChunk config TTL simdChecksum now data callback n
            = (fst (fst tail_run), snd (fst tail_run),
               [Emit (chunk_uploaded (uc_fileId data) (uc_chunkIndex data)
                        (size (up_uploadedChunks u1)) (up_totalChunks u1))]
               ++ relayOutputs data (up_totalChunks u1) (liveReceivers now n data)
               ++ (if callback then [Callback cb_success] else [])
               ++ snd tail_run)).
  { intros [[res n2] o2] Htail. unfold SocketHandler.uploadChunk, bind.
    rewrite (getUploadState_held now _ n u Hheld).
    replace (UploadStatus_eqb (up_status u) cancelled) with false
      by (by destruct (up_status u)).
    replace (UploadStatus_eqb (up_status u) paused) with false
      by (by destruct (up_status u)).
    cbn [orb]. rewrite Hins. unfold send at 1.
    rewrite forwardChunk_run, Hrecv.
    destruct callback; cbn [when]; unfold send, ret; rewrite Htail;
      cbn [fst snd app]; by rewrite ?app_nil_r. }
  unfold done. case_bool_decide as Hd.
  - destruct Hd as [Hsize Hnc].
    destruct (redisOpen_dec n) as [Hopen|Hclosed].
    + destruct (completeIfDone_fires TTL now data u1 n1
                  (proj2 Hopen1 Hopen) Hsize)
        as (n2 & Hrun & Hheld2 & Hfs2 & Hcd2); [congruence|].
      exists (Return tt), n2. rewrite (Hhead _ Hrun). cbn [fst snd].
      split; [done|]. split; [done|]. split; [lia|].
      split; [done|]. split; [done|]. intros _ Hno. by destruct Hno.
    + destruct (completeIfDone_fires_closed now data u1 n1) as
        (n2 & Hrun & Hheld2 & Hfs2 & Hcd2);
        [by rewrite Hopen1|done|congruence|].
      exists (Throw ClientClosedError), n2. rewrite (Hhead _ Hrun).
      cbn [fst snd].
      split; [done|]. split; [done|]. split; [lia|].
      split; [done|]. split; [by intros _ Ho|].
      intros _ _. split; [done|]. by rewrite Hcd2.
  - exists (Return tt), n1. rewrite (Hhead (Return tt, n1, [])).
    + cbn [fst snd]. by repeat split.
    + apply completeIfDone_skips.
      destruct (decide (Z.of_nat (size (up_uploadedChunks u1))
                        = up_totalChunks u1)) as [Hs|Hs]; [|by left].
      right. rewrite Hst1.
      destruct (decide (up_status u = completed)) as [?|Hnc]; [done|].
      exfalso. apply Hd. done.
Qed.

End ChunkDelivery.

(* ===================================================================== *)
(** ** Completion *)
(* ===================================================================== *)

(** The last chunk of scenario 1 completes the upload while all three
    acknowledgements are pending.  And on a node that has read the upload
    back from Redis, the last chunk is recorded, [pendingAcks.set]
    throws, and the upload is left [uploading] with all chunks in and no
    acknowledgement pending. *)
Lemma C1_counterexample :
  (let before := nodeAfter twoChunksIn in
   let after :=
     state_of (SocketHandler.uploadChunk defaultConfig DEFAULT_TTL
                 (fun _ => ""%string) 1007 (chunkOf "file-1004-x" 2) true
                 before) in
   JsMap.get "file-1004-x" (fileUploads before) = Some uploadBeforeLastChunk /\
   JsMap.get "file-1004-x" (fileUploads after) = Some uploadAfterLastChunk /\
   ~ completesWhenAcked uploadBeforeLastChunk uploadAfterLastChunk) /\
  (let run :=
     SocketHandler.uploadChunk defaultConfig DEFAULT_TTL (fun _ => ""%string)
       1009 (chunkOf "file-1004-x" 2) true secondNode in
   exists before after,
     result_of (StorageRepository.getUploadState 1009 "file-1004-x" secondNode)
       = Return (Some before) /\
     up_pendingAcks before = AcksObject /\
     result_of run
       = Throw (TypeError "upload.pendingAcks.set is not a function") /\
     JsMap.get "file-1004-x" (fileUploads (state_of run)) = Some after /\
     up_status after = uploading /\
     Z.of_nat (size (up_uploadedChunks after)) = up_totalChunks after /\
     noPendingAcks after /\
     ~ completesWhenAcked before after).
Proof.
  split.
  - split; [vm_compute; reflexivity|]. split; [vm_compute; reflexivity|].
    intros H. destruct (H eq_refl) as [H1 _].
    destruct (H1 eq_refl) as [_ Hno].
    unfold noPendingAcks in Hno. simpl in Hno.
    by apply insert_non_empty in Hno.
  - cbv zeta. eexists _, _.
    split; [vm_compute; reflexivity|]. split; [reflexivity|].
    split; [vm_compute; reflexivity|]. split; [vm_compute; reflexivity|].
    split; [reflexivity|]. split; [by vm_compute|]. split; [exact I|].
    intros H. destruct (H eq_refl) as [_ H2].
    specialize (H2 (conj eq_refl I)). discriminate H2.
Qed.

(** C1, amended.  For an upload the node holds with status [uploading],
    an [upload-chunk] whose insertion does not fail leaves it [completed]
    exactly when, with the chunk recorded, all chunks are in, whether or
    not acknowledgements are pending (they are, whenever the chunk is
    new); otherwise it stays [uploading].  On completion the sender gets
    [upload-complete] once and [filesSent] grows by one; the cancelled
    marks of the file are cleared then, unless the node has a Redis
    client that is closed: in that case this last step throws and the
    marks stay.  (The insertion fails only for a new chunk on an upload
    object read back from Redis, whose [pendingAcks] is a plain object;
    that case is left out.) *)
Theorem C1_completed_when_all_chunks_in
    (config : Config) (TTL : TTLConfig) (simdChecksum : Buffer -> string)
    (now : Z) (data : UploadChunkEvent) (callback : bool) (n : Node)
    (u : FileUpload) :
  JsMap.get (uc_fileId data) (fileUploads n) = Some u ->
  up_status u = uploading ->
  ~ insertionFails data u ->
  exists res n' out u',
    SocketHandler.uploadChunk config TTL simdChecksum now data callback n
      = (res, n', out) /\
    JsMap.get (uc_fileId data) (fileUploads n') = Some u' /\
    up_uploadedChunks u' = {[uc_chunkIndex data]} ∪ up_uploadedChunks u /\
    up_totalChunks u' = up_totalChunks u /\
    (up_status u' = completed <->
     Z.of_nat (size (up_uploadedChunks u')) = up_totalChunks u') /\
    (up_status u' <> completed -> up_status u' = uploading) /\
    (uc_chunkIndex data ∉ up_uploadedChunks u -> ~ noPendingAcks u') /\
    (up_status u' = completed ->
     List.filter is_upload_complete out
       = [Emit (upload_complete (uc_fileId data) (up_fileName u)
                  (up_fileSize u) (now - up_startTime u))] /\
     filesSent n' = filesSent n + 1 /\
     (redisOpen n ->
      res = Return tt /\ storedCancelled n' (uc_fileId data) = None) /\
     (~ redisOpen n ->
      res = Throw ClientClosedError /\
      storedCancelled n' (uc_fileId data)
        = storedCancelled n (uc_fileId data))) /\
    (up_status u' <> completed ->
     res = Return tt /\
     List.filter is_upload_complete out = [] /\ filesSent n' = filesSent n).
Proof.
  intros Hheld Hst Hpass.
  assert (Hnc : up_status u <> cancelled) by (rewrite Hst; discriminate).
  assert (Hnp : up_status u <> paused) by (rewrite Hst; discriminate).
  pose proof (uploadChunk_passes config TTL simdChecksum now data callback n u
                Hheld Hnc Hnp Hpass) as Hrun0.
  cbv zeta in Hrun0.
  destruct Hrun0 as (res & n' & Hrun & Hheld' & Hfs & Hret & Hopen & Hclosed).
  set (u1 := withChunk config simdChecksum now data u) in *.
  assert (Hst1 : up_status u1 = uploading)
    by (unfold u1; by rewrite withChunk_status).
  assert (Hmeta : up_fileName u1 = up_fileName u /\
                  up_fileSize u1 = up_fileSize u /\
                  up_startTime u1 = up_startTime u).
  { unfold u1, withChunk.
    by destruct (bool_decide (uc_chunkIndex data ∈ up_uploadedChunks u)). }
  destruct Hmeta as (Hname & Hfsize & Hstart).
  assert (Hpend : uc_chunkIndex data ∉ up_uploadedChunks u ->
                  ~ noPendingAcks u1).
  { intros Hnew. unfold u1, withChunk, noPendingAcks.
    rewrite bool_decide_eq_false_2 by done. simpl.
    apply insert_non_empty. }
  assert (Hfilter : forall tail,
            List.filter is_upload_complete
              ([Emit (chunk_uploaded (uc_fileId data) (uc_chunkIndex data)
                        (size (up_uploadedChunks u1)) (up_totalChunks u1))]
               ++ relayOutputs data (up_totalChunks u1)
                    (liveReceivers now n data)
               ++ (if callback then [Callback cb_success] else []) ++ tail)
            = List.filter is_upload_complete tail).
  { intros tl. rewrite !List.filter_app, relayOutputs_not_complete.
    by destruct callback. }
  case_bool_decide as Hd.
  - destruct Hd as [Hsize _].
    eexists res, n', _, (up_with_status completed u1). split; [exact Hrun|].
    split; [exact Hheld'|]. split; [apply withChunk_uploadedChunks|].
    split; [apply withChunk_totalChunks|].
    split; [done|]. split; [done|]. split; [exact Hpend|]. split.
    + intros _. rewrite Hfilter, Hname, Hfsize, Hstart. auto.
    + done.
  - eexists res, n', _, u1. split; [exact Hrun|].
    split; [exact Hheld'|]. split; [apply withChunk_uploadedChunks|].
    split; [apply withChunk_totalChunks|].
    split.
    { rewrite Hst1. split; [done|]. intros Hsize. exfalso. apply Hd.
      split; [done|congruence]. }
    split; [done|]. split; [exact Hpend|]. split.
    + rewrite Hst1. done.
    + intros _. rewrite Hfilter. split; [auto|done].
Qed.

Lemma C1_witness :
  exists res n' out u',
    SocketHandler.uploadChunk defaultConfig DEFAULT_TTL (fun _ => ""%string)
      1007 (chunkOf "file-1004-x" 2) true (nodeAfter twoChunksIn)
      = (res, n', out) /\
    JsMap.get "file-1004-x" (fileUploads n') = Some u' /\
    up_status u' = completed /\
    filesSent n' = 1.
Proof.
  destruct (C1_completed_when_all_chunks_in defaultConfig DEFAULT_TTL
              (fun _ => ""%string) 1007 (chunkOf "file-1004-x" 2) true
              (nodeAfter twoChunksIn) uploadBeforeLastChunk)
    as (res & n' & out & u' & Hrun & Hheld & Hchunks & Htotal & Hiff & _ & _
        & Hdone & _).
  - vm_compute. reflexivity.
  - reflexivity.
  - intros [Hobj _]. discriminate Hobj.
  - assert (Hc : up_status u' = completed).
    { apply Hiff. rewrite Hchunks, Htotal. reflexivity. }
    exists res, n', out, u'. split; [exact Hrun|]. split; [exact Hheld|].
    split; [exact Hc|]. destruct (Hdone Hc) as (_ & Hfs & _). exact Hfs.
Defined.

(* ===================================================================== *)
(** ** Duplicate chunks *)
(* ===================================================================== *)

Lemma routedTo_app c f i l1 l2 :
  routedTo c f i (l1 ++ l2) = (routedTo c f i l1 + routedTo c f i l2)%nat.
Proof.
  unfold routedTo, count_outputs. by rewrite List.filter_app, length_app.
Qed.

Lemma routedTo_relayOutputs c data total receivers :
  routedTo c (uc_fileId data) (uc_chunkIndex data)
    (relayOutputs data total receivers)
  = timesListed c receivers.
Proof.
  unfold routedTo, count_outputs, timesListed.
  induction receivers as [|x l IH]; [done|].
  cbn [relayOutputs flat_map app List.filter is_chunk_received_for].
  rewrite String.eqb_refl, Z.eqb_refl, !andb_true_r, (String.eqb_sym x c).
  destruct (String.eqb c x); cbn [length]; unfold relayOutputs in IH;
    by rewrite IH.
Qed.

Lemma timesListed_notin c l : c ∉ l -> timesListed c l = 0%nat.
Proof.
  unfold timesListed. induction l as [|x l IH]; [done|].
  intros Hnot. apply not_elem_of_cons in Hnot as [Hne Hnot].
  cbn [List.filter]. rewrite (proj2 (String.eqb_neq c x) Hne). by apply IH.
Qed.

Lemma timesListed_NoDup c l :
  NoDup l -> timesListed c l = if bool_decide (c ∈ l) then 1%nat else 0%nat.
Proof.
  induction 1 as [|x l Hx Hnd IH].
  - rewrite bool_decide_eq_false_2 by apply not_elem_of_nil. done.
  - unfold timesListed in *. cbn [List.filter].
    destruct (String.eqb c x) eqn:E.
    + apply String.eqb_eq in E as ->.
      rewrite bool_decide_eq_true_2 by (apply elem_of_cons; by left).
      cbn [length]. fold (timesListed x l).
      by rewrite (timesListed_notin x l Hx).
    + apply String.eqb_neq in E. rewrite IH.
      destruct (decide (c ∈ l)) as [Hin|Hnot].
      * rewrite !bool_decide_eq_true_2; [done|apply elem_of_cons; by right|done].
      * rewrite !bool_decide_eq_false_2; [done| |done].
        by apply not_elem_of_cons.
Qed.

(** The [chunk-received] messages among what [upload-chunk] sends. *)
Lemma routedTo_uploadChunk c data total received receivers callback tail :
  (forall o, In o tail ->
             is_chunk_received_for c (uc_fileId data) (uc_chunkIndex data) o
             = false) ->
  routedTo c (uc_fileId data) (uc_chunkIndex data)
    ([Emit (chunk_uploaded (uc_fileId data) (uc_chunkIndex data)
              received total)]
     ++ relayOutputs data total receivers
     ++ (if callback : bool then [Callback cb_success] else [])
     ++ tail)
  = timesListed c receivers.
Proof.
  intros Htail. rewrite !routedTo_app, routedTo_relayOutputs.
  assert (Hnone : routedTo c (uc_fileId data) (uc_chunkIndex data) tail = 0%nat).
  { unfold routedTo, count_outputs.
    induction tail as [|o tl IH]; [done|]. cbn [List.filter].
    rewrite (Htail o) by (by left). apply IH. intros o' Ho'.
    apply Htail. by right. }
  rewrite Hnone. destruct callback; cbn; lia.
Qed.

(** The same chunk 0 delivered twice reaches B twice.  And on a node
    that has read the upload back from Redis, the first delivery of the
    last chunk throws at [pendingAcks.set] and routes nothing, and the
    second delivery completes the upload: the state is not the one the
    first delivery left. *)
Lemma C5_counterexample :
  (let run :=
     serveAll defaultConfig DEFAULT_TTL (fun _ => ""%string) None
       [ (1005, on_upload_chunk (chunkOf "file-1004-x" 0) true);
         (1006, on_upload_chunk (chunkOf "file-1004-x" 0) true) ]
       (nodeAfter transferStarted) in
   count_outputs (is_chunk_received_for "B" "file-1004-x" 0) (outputs_of run)
     = 2%nat /\
   count_outputs (is_chunk_received_for "B" "file-1004-x" 0) (outputs_of run)
     <> 1%nat) /\
  (let first :=
     SocketHandler.uploadChunk defaultConfig DEFAULT_TTL (fun _ => ""%string)
       1009 (chunkOf "file-1004-x" 2) true secondNode in
   let second :=
     SocketHandler.uploadChunk defaultConfig DEFAULT_TTL (fun _ => ""%string)
       1010 (chunkOf "file-1004-x" 2) true (state_of first) in
   routedTo "B" "file-1004-x" 2 (outputs_of first) = 0%nat /\
   up_status <$> JsMap.get "file-1004-x" (fileUploads (state_of first))
     = Some uploading /\
   up_status <$> JsMap.get "file-1004-x" (fileUploads (state_of second))
     = Some completed /\
   state_of second <> state_of first).
Proof.
  split; [vm_compute; split; [reflexivity|discriminate]|].
  cbv zeta. split; [vm_compute; reflexivity|].
  split; [vm_compute; reflexivity|]. split; [vm_compute; reflexivity|].
  intros H.
  assert (Hst : up_status <$> JsMap.get "file-1004-x"
                  (fileUploads
                     (state_of
                        (SocketHandler.uploadChunk defaultConfig DEFAULT_TTL
                           (fun _ => ""%string) 1010 (chunkOf "file-1004-x" 2)
                           true
                           (state_of
                              (SocketHandler.uploadChunk defaultConfig
                                 DEFAULT_TTL (fun _ => ""%string) 1009
                                 (chunkOf "file-1004-x" 2) true secondNode)))))
                = Some uploading).
  { rewrite H. vm_compute. reflexivity. }
  vm_compute in Hst. discriminate Hst.
Qed.

(** C5, amended.  When [upload-chunk] has been served for a chunk of an
    upload the node holds (not cancelled, not paused) and the insertion
    did not fail, serving the same [upload-chunk] again leaves the state
    of the node exactly as the first delivery left it.  Each of the two
    deliveries routes [chunk-received] for that chunk to a client as often
    as the client occurs among the receivers that are live at that
    delivery: exactly once to each live receiver, and to no one else,
    when no client occurs twice among them.  So a receiver that stays
    live gets the chunk once per delivery.  (The insertion fails only for
    a new chunk on an upload object read back from Redis; that case is
    left out.) *)
Theorem C5_duplicate_keeps_state_and_is_relayed_again
    (config : Config) (TTL : TTLConfig) (simdChecksum : Buffer -> string)
    (now later : Z) (data : UploadChunkEvent) (callback callback' : bool)
    (n : Node) (u : FileUpload) :
  JsMap.get (uc_fileId data) (fileUploads n) = Some u ->
  up_status u <> cancelled -> up_status u <> paused ->
  ~ insertionFails data u ->
  let first :=
    SocketHandler.uploadChunk config TTL simdChecksum now data callback n in
  let n1 := state_of first in
  let second :=
    SocketHandler.uploadChunk config TTL simdChecksum later data callback' n1 in
  let routed run c :=
    routedTo c (uc_fileId data) (uc_chunkIndex data) (outputs_of run) in
  state_of second = n1 /\
  (forall c, routed first c = timesListed c (liveReceivers now n data)) /\
  (forall c, routed second c = timesListed c (liveReceivers later n1 data)) /\
  (NoDup (liveReceivers now n data) ->
   forall c, routed first c
             = if bool_decide (c ∈ liveReceivers now n data)
               then 1%nat else 0%nat) /\
  (NoDup (liveReceivers later n1 data) ->
   forall c, routed second c
             = if bool_decide (c ∈ liveReceivers later n1 data)
               then 1%nat else 0%nat).
Proof.
  intros Hheld Hnc Hnp Hpass first n1 second routed.
  pose proof (uploadChunk_passes config TTL simdChecksum now data callback n u
                Hheld Hnc Hnp Hpass) as Hrun0.
  cbv zeta in Hrun0. destruct Hrun0 as (res & n1' & Hrun & Hheld1 & _).
  set (u1 := withChunk config simdChecksum now data u) in *.
  assert (Hn1 : n1 = n1') by (unfold n1, first; by rewrite Hrun).
  assert (Hst1 : up_status u1 = up_status u) by apply withChunk_status.
  assert (Hhas1 : uc_chunkIndex data ∈ up_uploadedChunks u1)
    by apply withChunk_has.
  set (done := bool_decide
                 (Z.of_nat (size (up_uploadedChunks u1)) = up_totalChunks u1
                  /\ up_status u <> completed)) in *.
  set (u' := if done then up_with_status completed u1 else u1) in *.
  assert (Hdup :
    SocketHandler.uploadChunk config TTL simdChecksum later data callback' n1
    = (Return tt, n1,
       [Emit (chunk_uploaded (uc_fileId data) (uc_chunkIndex data)
                (size (up_uploadedChunks u')) (up_totalChunks u'))]
       ++ relayOutputs data (up_totalChunks u') (liveReceivers later n1 data)
       ++ (if callback' then [Callback cb_success] else []))).
  { apply uploadChunk_duplicate; [by rewrite Hn1| | | |].
    - unfold u'. destruct done; simpl; [discriminate|congruence].
    - unfold u'. destruct done; simpl; [discriminate|congruence].
    - unfold u'. by destruct done.
    - unfold u', done. case_bool_decide as Hd; simpl; [done|].
      intros Hsize. rewrite Hst1.
      destruct (decide (up_status u = completed)) as [?|Hne]; [done|].
      exfalso. apply Hd. done. }
  assert (Hfirst : forall c,
            routed first c = timesListed c (liveReceivers now n data)).
  { intros c. unfold routed, first. rewrite Hrun. cbn [outputs_of snd].
    apply routedTo_uploadChunk. intros o Ho.
    destruct done; [|done].
    destruct Ho as [<-|[<-|[]]]; reflexivity. }
  assert (Hsecond : forall c,
            routed second c = timesListed c (liveReceivers later n1 data)).
  { intros c. unfold routed, second. rewrite Hdup. cbn [outputs_of snd].
    rewrite <- (app_nil_r (if callback' then _ else _)).
    apply routedTo_uploadChunk. intros o []. }
  split; [unfold second; by rewrite Hdup|].
  split; [exact Hfirst|]. split; [exact Hsecond|]. split.
  - intros Hnd c. rewrite Hfirst. by apply timesListed_NoDup.
  - intros Hnd c. rewrite Hsecond. by apply timesListed_NoDup.
Qed.

Lemma C5_witness :
  let first :=
    SocketHandler.uploadChunk defaultConfig DEFAULT_TTL (fun _ => ""%string)
      1007 (chunkOf "file-1004-x" 2) true (nodeAfter twoChunksIn) in
  let second :=
    SocketHandler.uploadChunk defaultConfig DEFAULT_TTL (fun _ => ""%string)
      1008 (chunkOf "file-1004-x" 2) true (state_of first) in
  state_of second = state_of first /\
  routedTo "B" "file-1004-x" 2 (outputs_of first) = 1%nat /\
  routedTo "B" "file-1004-x" 2 (outputs_of second) = 1%nat.
Proof.
  intros first second.
  destruct (C5_duplicate_keeps_state_and_is_relayed_again defaultConfig
              DEFAULT_TTL (fun _ => ""%string) 1007 1008
              (chunkOf "file-1004-x" 2) true true (nodeAfter twoChunksIn)
              uploadBeforeLastChunk)
    as (Hstate & Hfirst & Hsecond & _).
  - vm_compute. reflexivity.
  - discriminate.
  - discriminate.
  - intros [Hobj _]. discriminate Hobj.
  - split; [exact Hstate|]. split.
    + etransitivity; [apply (Hfirst "B"%string)|]. vm_compute. reflexivity.
    + etransitivity; [apply (Hsecond "B"%string)|]. vm_compute. reflexivity.
Defined.

(* ===================================================================== *)
(** ** Chunks after a failed transfer *)
(* ===================================================================== *)

(** C2.  After the checker has set the upload to [failed] and told the
    sender [transfer-failed], chunk 1 is still relayed to B, and chunk 2
    is relayed too and turns the status from [failed] to [completed],
    with [upload-complete] sent and [filesSent] incremented. *)
Theorem C2_failed_upload_still_relays :
  let failedNode := nodeAfter retriesExhausted in
  let run1 :=
    SocketHandler.uploadChunk defaultConfig DEFAULT_TTL (fun _ => ""%string)
      46000 (chunkOf "file-1004-x" 1) true failedNode in
  let run2 :=
    SocketHandler.uploadChunk defaultConfig DEFAULT_TTL (fun _ => ""%string)
      46001 (chunkOf "file-1004-x" 2) true (state_of run1) in
  List.filter
    (fun o => match o with EmitTo _ (transfer_failed _ _) => true | _ => false end)
    (outputs_of (serveAll defaultConfig DEFAULT_TTL (fun _ => ""%string) None
                   retriesExhausted (emptyNode None)))
    = [EmitTo "sA" (transfer_failed "file-1004-x" [0])] /\
  up_status <$> JsMap.get "file-1004-x" (fileUploads failedNode)
    = Some failed /\
  List.filter is_chunk_received (outputs_of run1)
    = [Route "B" (chunk_received "file-1004-x" 1 [] 3)] /\
  up_status <$> JsMap.get "file-1004-x" (fileUploads (state_of run1))
    = Some failed /\
  List.filter is_chunk_received (outputs_of run2)
    = [Route "B" (chunk_received "file-1004-x" 2 [] 3)] /\
  up_status <$> JsMap.get "file-1004-x" (fileUploads (state_of run2))
    = Some completed /\
  List.filter is_upload_complete (outputs_of run2)
    = [Emit (upload_complete "file-1004-x" "x" 48 44997)] /\
  filesSent (state_of run2) = filesSent failedNode + 1.
Proof. vm_compute. repeat split. Qed.

(* ===================================================================== *)
(** ** The set of uploaded chunks *)
(* ===================================================================== *)

Lemma extendsBy_refl i u : extendsBy i u u.
Proof. unfold extendsBy. set_solver. Qed.

Lemma extendsBy_trans i u v w :
  extendsBy i u v -> extendsBy i v w -> extendsBy i u w.
Proof.
  unfold extendsBy. intros (Ht1 & Hl1 & Hu1) (Ht2 & Hl2 & Hu2).
  split; [congruence|]. split; [by transitivity (up_uploadedChunks v)|].
  intros x Hx. apply Hu2 in Hx. apply elem_of_union in Hx as [Hx|Hx].
  - by apply elem_of_union_l.
  - by apply Hu1.
Qed.

Lemma uploadsGrowBy_refl fileId i m : uploadsGrowBy fileId i m m.
Proof. intros f u H. exists u. split; [done|]. split; [apply extendsBy_refl|done]. Qed.

Lemma uploadsGrowBy_trans fileId i m1 m2 m3 :
  uploadsGrowBy fileId i m1 m2 -> uploadsGrowBy fileId i m2 m3 ->
  uploadsGrowBy fileId i m1 m3.
Proof.
  intros H12 H23 f u Hu.
  destruct (H12 f u Hu) as (v & Hv & Hev & Hsame1).
  destruct (H23 f v Hv) as (w & Hw & Hew & Hsame2).
  exists w. split; [done|]. split; [by apply extendsBy_trans with v|].
  intros Hne. rewrite Hsame2, Hsame1; done.
Qed.

Lemma uploadsGrowBy_set_held fileId i m u v :
  JsMap.get fileId m = Some u -> extendsBy i u v ->
  uploadsGrowBy fileId i m (JsMap.set fileId v m).
Proof.
  intros Hheld Hext f w Hw. destruct (decide (f = fileId)) as [->|Hne].
  - exists v. rewrite JsMap_get_set_eq. split; [done|].
    split; [congruence|done].
  - exists w. rewrite JsMap_get_set_ne by done. split; [done|].
    split; [apply extendsBy_refl|done].
Qed.

Lemma uploadsGrowBy_set_fresh fileId i m v :
  JsMap.get fileId m = None ->
  uploadsGrowBy fileId i m (JsMap.set fileId v m).
Proof.
  intros Hfresh f w Hw. destruct (decide (f = fileId)) as [->|Hne];
    [congruence|].
  exists w. rewrite JsMap_get_set_ne by done. split; [done|].
  split; [apply extendsBy_refl|done].
Qed.

(** At most [T] integers lie in [0, T). *)
Lemma size_within (X : gset Z) (T : Z) :
  0 <= T -> (forall i, i ∈ X -> 0 <= i < T) -> Z.of_nat (size X) <= T.
Proof.
  intros HT Hin.
  assert (Hsub : X ⊆ list_to_set (seqZ 0 T)).
  { intros i Hi. apply elem_of_list_to_set, elem_of_seqZ.
    specialize (Hin i Hi). lia. }
  apply subseteq_size in Hsub.
  rewrite size_list_to_set in Hsub by apply NoDup_seqZ.
  rewrite length_seqZ in Hsub. lia.
Qed.

Lemma chunksWithinTotal_extendsBy i u u' :
  chunksWithinTotal u -> extendsBy i u u' ->
  0 <= i < up_totalChunks u -> chunksWithinTotal u'.
Proof.
  intros [Hin _] (Ht & _ & Hup) Hi.
  assert (Hin' : forall j, j ∈ up_uploadedChunks u' ->
                           0 <= j < up_totalChunks u').
  { intros j Hj. rewrite Ht. apply Hup in Hj.
    apply elem_of_union in Hj as [Hj|Hj]; [|by apply Hin].
    apply elem_of_singleton in Hj. by subst j. }
  split; [exact Hin'|]. apply size_within; [lia|exact Hin'].
Qed.

Section ChunkSets.
Variable config : Config.
Variable TTL : TTLConfig.
Variable simdChecksum : Buffer -> string.

Lemma completeIfDone_fileUploads now data u n :
  fileUploads (state_of (SocketHandler.completeIfDone TTL now data u n))
    = fileUploads n \/
  fileUploads (state_of (SocketHandler.completeIfDone TTL now data u n))
    = JsMap.set (uc_fileId data) (up_with_status completed u) (fileUploads n).
Proof.
  unfold SocketHandler.completeIfDone. case_match; [|by left]. right.
  unfold StorageRepository.setUploadState,
    StorageRepository.removeCancelledDownloads, StorageRepository.backend,
    RedisService.setUploadState, RedisService.removeCancelledDownloads,
    RedisService.command, incrementFilesSent, bind, try_, modify, send.
  destruct n as [[r|] fu cs sh ac cd fs]; cbn; [|reflexivity].
  destruct (Redis.isOpen r) eqn:E; cbn; rewrite ?E; reflexivity.
Qed.

Lemma insertChunk_fileUploads now data u n :
  JsMap.get (uc_fileId data) (fileUploads n) = Some u ->
  exists v,
    extendsBy (uc_chunkIndex data) u v /\
    JsMap.get (uc_fileId data)
      (fileUploads (state_of (SocketHandler.insertChunk config simdChecksum
                                now data u n))) = Some v /\
    uploadsGrowBy (uc_fileId data) (uc_chunkIndex data) (fileUploads n)
      (fileUploads (state_of (SocketHandler.insertChunk config simdChecksum
                                now data u n))) /\
    (forall u', result_of (SocketHandler.insertChunk config simdChecksum
                             now data u n) = Return u' -> u' = v).
Proof.
  intros Hheld. unfold SocketHandler.insertChunk.
  case_bool_decide as Hhas.
  { exists u. split; [apply extendsBy_refl|]. split; [done|].
    split; [apply uploadsGrowBy_refl|]. cbn. congruence. }
  cbv zeta.
  match goal with
  | |- context [up_add_chunk ?i ?t ?s u] => set (u1 := up_add_chunk i t s u)
  end.
  assert (Hext : extendsBy (uc_chunkIndex data) u u1).
  { unfold extendsBy, u1. simpl. set_solver. }
  destruct (up_pendingAcks u) as [|m|] eqn:E.
  - eexists. split; [|split; [|split]].
    2:{ destruct n; cbn. apply JsMap_get_set_eq. }
    + exact Hext.
    + destruct n; cbn in *. by apply uploadsGrowBy_set_held with u.
    + cbn. congruence.
  - eexists. split; [|split; [|split]].
    2:{ destruct n; cbn. apply JsMap_get_set_eq. }
    + exact Hext.
    + destruct n; cbn in *. by apply uploadsGrowBy_set_held with u.
    + cbn. congruence.
  - exists u1. split; [exact Hext|]. split; [|split].
    + destruct n; cbn. apply JsMap_get_set_eq.
    + destruct n; cbn in *. by apply uploadsGrowBy_set_held with u.
    + cbn. discriminate.
Qed.

(** [upload-chunk] from a state in which the upload is held. *)
Lemma uploadChunk_held_grows now data callback n u :
  JsMap.get (uc_fileId data) (fileUploads n) = Some u ->
  uploadsGrowBy (uc_fileId data) (uc_chunkIndex data) (fileUploads n)
    (fileUploads
       (state_of (SocketHandler.uploadChunk config TTL simdChecksum now data
                    callback n))).
Proof.
  intros Hheld. unfold SocketHandler.uploadChunk.
  rewrite (state_bind_Return _ _ n (Some u) n []
             (getUploadState_held now _ n u Hheld)).
  case_match.
  { replace (state_of (when callback _ n)) with n
      by (by destruct callback).
    apply uploadsGrowBy_refl. }
  destruct (insertChunk_fileUploads now data u n Hheld)
    as (v & Hext & Hv & Hgrow & Hres).
  destruct (SocketHandler.insertChunk config simdChecksum now data u n)
    as [[[u'|e] n1] o1] eqn:Hins.
  2:{ rewrite (state_bind_Throw _ _ n e n1 o1 Hins). exact Hgrow. }
  rewrite (state_bind_Return _ _ n u' n1 o1 Hins).
  cbn in Hv, Hgrow, Hres.
  rewrite (Hres u' eq_refl) in *.
  rewrite (state_bind_Return _ _ n1 tt n1 _ eq_refl).
  rewrite (state_bind_Return _ _ n1 tt n1 _
             (forwardChunk_run now data (up_totalChunks v) n1)).
  assert (Hcb : exists o, when callback (send (Callback cb_success)) n1
                          = (Return tt, n1, o))
    by (destruct callback; by eexists).
  destruct Hcb as [o Hcb]. rewrite (state_bind_Return _ _ n1 tt n1 o Hcb).
  apply uploadsGrowBy_trans with (fileUploads n1); [exact Hgrow|].
  destruct (completeIfDone_fileUploads now data v n1) as [-> | ->].
  - apply uploadsGrowBy_refl.
  - apply uploadsGrowBy_set_held with v; [exact Hv|].
    unfold extendsBy. simpl. set_solver.
Qed.

(** What the lookup of an upload can do. *)
Lemma getUploadState_cases now fileId n :
  (exists u, JsMap.get fileId (fileUploads n) = Some u /\
     StorageRepository.getUploadState now fileId n = (Return (Some u), n, []))
  \/ (JsMap.get fileId (fileUploads n) = None /\
      exists n', fileUploads n' = fileUploads n /\
        (StorageRepository.getUploadState now fileId n = (Return None, n', [])
         \/ exists e, StorageRepository.getUploadState now fileId n
                      = (Throw e, n', [])))
  \/ (JsMap.get fileId (fileUploads n) = None /\
      exists u nc, fileUploads nc = JsMap.set fileId u (fileUploads n) /\
        StorageRepository.getUploadState now fileId n
          = (Return (Some u), nc, [])).
Proof.
  destruct (JsMap.get fileId (fileUploads n)) as [u|] eqn:Hheld.
  { left. exists u. split; [done|]. by apply getUploadState_held. }
  right.
  unfold StorageRepository.getUploadState, bind, gets,
    StorageRepository.backend, RedisService.getUploadState,
    RedisService.command.
  rewrite Hheld.
  destruct n as [[r|] fu cs sh ac cd fs]; cbn.
  2:{ left. split; [done|]. eexists. split; [|left; reflexivity]. done. }
  destruct (Redis.isOpen r) eqn:Hopen; cbn.
  2:{ left. split; [done|]. eexists. split; [|right; eexists; reflexivity].
      done. }
  destruct (Redis.GET now fileId (Redis.uploadKeys r)) as [d|]; cbn.
  - right. split; [done|]. eexists _, _. split; [|reflexivity]. done.
  - left. split; [done|]. eexists. split; [|left; reflexivity]. done.
Qed.

(** [upload-chunk] from any state: every upload held before is held
    after, with the same total and no chunk lost. *)
Lemma uploadChunk_grows now data callback n :
  uploadsGrowBy (uc_fileId data) (uc_chunkIndex data) (fileUploads n)
    (fileUploads
       (state_of (SocketHandler.uploadChunk config TTL simdChecksum now data
                    callback n))).
Proof.
  destruct (getUploadState_cases now (uc_fileId data) n)
    as [(u & Hheld & _)|[(Hnone & n' & Hsame & Hrun)|(Hnone & u & nc & Hset & Hrun)]].
  - by apply uploadChunk_held_grows with u.
  - unfold SocketHandler.uploadChunk. destruct Hrun as [Hrun|[e Hrun]].
    + rewrite (state_bind_Return _ _ n None n' [] Hrun).
      replace (state_of (bind (when callback _) _ n')) with n'
        by (by destruct callback).
      rewrite Hsame. apply uploadsGrowBy_refl.
    + rewrite (state_bind_Throw _ _ n e n' [] Hrun).
      rewrite Hsame. apply uploadsGrowBy_refl.
  - assert (Hheldc : JsMap.get (uc_fileId data) (fileUploads nc) = Some u)
      by (rewrite Hset; apply JsMap_get_set_eq).
    pose proof (uploadChunk_held_grows now data callback nc u Hheldc) as Hg.
    unfold SocketHandler.uploadChunk in Hg |- *.
    rewrite (state_bind_Return _ _ nc (Some u) nc []
               (getUploadState_held now _ nc u Hheldc)) in Hg.
    rewrite (state_bind_Return _ _ n (Some u) nc [] Hrun).
    apply uploadsGrowBy_trans with (fileUploads nc); [|exact Hg].
    rewrite Hset. by apply uploadsGrowBy_set_fresh.
Qed.

End ChunkSets.

Lemma serve_upload_chunk_state config TTL simdChecksum nodeId now data
    callback n :
  state_of (serve config TTL simdChecksum nodeId now
              (on_upload_chunk data callback) n)
  = state_of (SocketHandler.uploadChunk config TTL simdChecksum now data
                callback n).
Proof. unfold serve. apply state_try. Qed.

(** Chunk 7 of a three-chunk file is recorded while the upload is
    [uploading]; with chunks 0, 1 and 2 after it the set has four
    elements for a total of three. *)
Lemma C4_counterexample :
  let stray := [ (1005, on_upload_chunk (chunkOf "file-1004-x" 7) true) ] in
  let more :=
    [ (1006, on_upload_chunk (chunkOf "file-1004-x" 0) true);
      (1007, on_upload_chunk (chunkOf "file-1004-x" 1) true);
      (1008, on_upload_chunk (chunkOf "file-1004-x" 2) true) ] in
  JsMap.get "file-1004-x" (fileUploads (nodeAfter (transferStarted ++ stray)))
    = Some uploadWithStrayChunk /\
  ~ chunksWithinTotal uploadWithStrayChunk /\
  ((fun u => (up_totalChunks u, size (up_uploadedChunks u))) <$>
     JsMap.get "file-1004-x"
       (fileUploads (nodeAfter (transferStarted ++ stray ++ more))))
    = Some (3, 4%nat).
Proof.
  split; [vm_compute; reflexivity|]. split; [|vm_compute; reflexivity].
  intros [Hin _]. specialize (Hin 7). simpl in Hin.
  assert (H7 : 7 ∈ ({[7]} : gset Z)) by (by apply elem_of_singleton).
  apply Hin in H7. lia.
Qed.

(** C4, amended.  Over any sequence of [upload-chunk] events, with
    arbitrary chunk indices, an upload that the node holds stays held
    with the same [totalChunks] and never loses a chunk.  If moreover it
    satisfies the invariant [uploadedChunks ⊆ [0, totalChunks)],
    [|uploadedChunks| <= totalChunks] to begin with, and every event
    addressed to it carries an index in [0, totalChunks), the invariant
    holds afterwards. *)
Theorem C4_chunks_grow_and_stay_within_total_for_valid_indices
    (config : Config) (TTL : TTLConfig) (simdChecksum : Buffer -> string)
    (nodeId : option string) (evs : list (Z * (UploadChunkEvent * bool)))
    (n : Node) (f : string) (u : FileUpload) :
  JsMap.get f (fileUploads n) = Some u ->
  exists u',
    JsMap.get f
      (fileUploads
         (state_of (serveAll config TTL simdChecksum nodeId
                      (chunkRequests evs) n))) = Some u' /\
    up_totalChunks u' = up_totalChunks u /\
    up_uploadedChunks u ⊆ up_uploadedChunks u' /\
    (chunksWithinTotal u ->
     (forall ev, In ev evs -> uc_fileId (fst (snd ev)) = f ->
                 0 <= uc_chunkIndex (fst (snd ev)) < up_totalChunks u) ->
     chunksWithinTotal u').
Proof.
  revert n u. induction evs as [|[now [data callback]] rest IH];
    intros n u Hheld.
  { exists u. split; [exact Hheld|]. split; [done|]. split; [done|]. auto. }
  cbn [chunkRequests map fst snd]. rewrite serveAll_cons.
  rewrite serve_upload_chunk_state.
  destruct (uploadChunk_grows config TTL simdChecksum now data callback n f u
              Hheld) as (u1 & Hheld1 & (Ht1 & Hsub1 & Hup1) & Hsame).
  destruct (IH _ u1 Hheld1) as (u' & Hheld' & Ht' & Hsub' & Hwithin).
  exists u'. split; [exact Hheld'|]. split; [congruence|].
  split; [by transitivity (up_uploadedChunks u1)|].
  intros Hinv Hvalid. apply Hwithin.
  - destruct (decide (f = uc_fileId data)) as [Heq|Hne].
    + apply chunksWithinTotal_extendsBy with (uc_chunkIndex data) u;
        [exact Hinv|done|].
      apply (Hvalid (now, (data, callback))); [by left|done].
    + by rewrite (Hsame Hne).
  - intros ev Hin Hf. rewrite Ht1. apply Hvalid; [by right|done].
Qed.

Lemma C4_witness :
  exists u',
    JsMap.get "file-1004-x"
      (fileUploads
         (state_of (serveAll defaultConfig DEFAULT_TTL (fun _ => ""%string)
                      None
                      (chunkRequests
                         [ (1005, (chunkOf "file-1004-x" 0, true));
                           (1006, (chunkOf "file-1004-x" 2, true));
                           (1007, (chunkOf "file-1004-x" 2, true)) ])
                      (nodeAfter transferStarted)))) = Some u' /\
    chunksWithinTotal u'.
Proof.
  destruct (C4_chunks_grow_and_stay_within_total_for_valid_indices
              defaultConfig DEFAULT_TTL (fun _ => ""%string) None
              [ (1005, (chunkOf "file-1004-x" 0, true));
                (1006, (chunkOf "file-1004-x" 2, true));
                (1007, (chunkOf "file-1004-x" 2, true)) ]
              (nodeAfter transferStarted) "file-1004-x" uploadJustStarted)
    as (u' & Hheld & _ & _ & Hwithin).
  - vm_compute. reflexivity.
  - exists u'. split; [exact Hheld|]. apply Hwithin.
    + split.
      * intros i Hi. simpl in Hi. by apply not_elem_of_empty in Hi.
      * vm_compute. discriminate.
    + intros ev [<-|[<-|[<-|[]]]] _; simpl; lia.
Defined.

(* ===================================================================== *)
(** ** Leader election *)
(* ===================================================================== *)

Lemma lockHeldBy_live r id until now :
  lockHeldBy r id until -> now < until ->
  ClusterManager.GET_master now r = Some id.
Proof.
  intros (e & x & He & Hv & Hx & Hle) Hnow.
  unfold ClusterManager.GET_master, Redis.live. rewrite He, Hx.
  destruct (now <? x) eqn:E; [by rewrite Hv|]. apply Z.ltb_ge in E. lia.
Qed.

(** The facts about one run of [tryBecomeMaster] that the invariant
    needs. *)
Lemma tryBecomeMaster_cases now reachable node r :
  let '(node', r', out) :=
    ClusterManager.tryBecomeMaster now reachable node r in
  ClusterManager.nodeId node' = ClusterManager.nodeId node /\
  ClusterManager.redisClient node' = ClusterManager.redisClient node /\
  ((* nothing reached the store *)
   (node' = node /\ r' = r /\
    (reachable = false \/ truthy (ClusterManager.nodeId node) = None
     \/ ClusterManager.redisClient node = false))
   \/ (* the lock was free or its own: it holds it for MASTER_TTL *)
   (exists id, truthy (ClusterManager.nodeId node) = Some id /\
      ClusterManager.redisClient node = true /\ reachable = true /\
      ClusterManager.isMaster node' = true /\
      lockHeldBy r' id (now + ClusterManager.MASTER_TTL * 1000) /\
      (ClusterManager.GET_master now r = None
       \/ ClusterManager.GET_master now r = Some id))
   \/ (* the lock is held by another node *)
   (exists id other, truthy (ClusterManager.nodeId node) = Some id /\
      reachable = true /\
      ClusterManager.isMaster node' = false /\ r' = r /\
      ClusterManager.GET_master now r = Some other /\ other <> id)).
Proof.
  unfold ClusterManager.tryBecomeMaster.
  destruct (truthy (ClusterManager.nodeId node)) as [id|] eqn:Hid;
    [|by auto 10].
  destruct (ClusterManager.redisClient node) eqn:Hcl; cbn [negb];
    [|by auto 10].
  destruct reachable; cbn [negb]; [|by auto 10].
  unfold ClusterManager.SET_NX_EX, ClusterManager.GET_master,
    ClusterManager.EXPIRE_master.
  destruct (Redis.clusterMaster r) as [e|] eqn:He.
  - destruct (Redis.live now e) eqn:Hlive.
    + rewrite He, Hlive. case_bool_decide as Hown.
      * injection Hown as Hown. rewrite Hown.
        assert (Hheld : lockHeldBy
                  (Redis_set_clusterMaster
                     (Some (Redis.mkEntry id
                              (Some (now + ClusterManager.MASTER_TTL * 1000)))) r)
                  id (now + ClusterManager.MASTER_TTL * 1000)).
        { eexists _, _. cbn. split; [reflexivity|]. split; [reflexivity|].
          split; [reflexivity|]. lia. }
        destruct (ClusterManager.isMaster node) eqn:Hm; cbn;
          (split; [done|]); (split; [done|]); right; left; exists id;
          auto 10.
      * assert (Hother : Redis.value e <> id) by congruence.
        destruct (ClusterManager.isMaster node) eqn:Hm; cbn;
          (split; [done|]); (split; [done|]); right; right;
          exists id, (Redis.value e); auto 10.
    + assert (Hheld : lockHeldBy
                (Redis_set_clusterMaster
                   (Some (Redis.mkEntry id
                            (Some (now + ClusterManager.MASTER_TTL * 1000)))) r)
                id (now + ClusterManager.MASTER_TTL * 1000)).
      { eexists _, _. cbn. split; [reflexivity|]. split; [reflexivity|].
          split; [reflexivity|]. lia. }
      destruct (ClusterManager.isMaster node) eqn:Hm; cbn;
        (split; [done|]); (split; [done|]); right; left; exists id; auto 10.
  - assert (Hheld : lockHeldBy
              (Redis_set_clusterMaster
                 (Some (Redis.mkEntry id
                          (Some (now + ClusterManager.MASTER_TTL * 1000)))) r)
              id (now + ClusterManager.MASTER_TTL * 1000)).
    { eexists _, _. cbn. split; [reflexivity|]. split; [reflexivity|].
          split; [reflexivity|]. lia. }
    destruct (ClusterManager.isMaster node) eqn:Hm; cbn;
      (split; [done|]); (split; [done|]); right; left; exists id; auto 10.
Qed.

Section ElectionFacts.
Import Election.

Lemma run_snoc steps k s :
  run (steps ++ [k]) s = fst (answer k (run steps s)).
Proof. revert s. induction steps as [|k0 rest IH]; intros s; simpl; auto. Qed.

Lemma confirmedAt_snoc steps k s i last :
  confirmedAt (steps ++ [k]) s i last
  = if (step_node k =? i)%nat && confirms k (run steps s)
    then Some (step_time k) else confirmedAt steps s i last.
Proof.
  revert s last. induction steps as [|k0 rest IH]; intros s last; simpl.
  - done.
  - apply IH.
Qed.

Lemma renewOwnLock_snoc steps k s :
  renewOwnLock (steps ++ [k]) s
  = renewOwnLock steps s && renewsOwnLock k (run steps s).
Proof.
  revert s. induction steps as [|k0 rest IH]; intros s; simpl.
  - by rewrite andb_true_r.
  - by rewrite IH, andb_assoc.
Qed.

Lemma inOrder_snoc steps k finish :
  inOrder (steps ++ [k]) finish ->
  inOrder steps (step_time k) /\ step_time k <= finish.
Proof.
  induction steps as [|k0 rest IH]; simpl.
  - intros [H _]. auto.
  - intros [H1 H2]. destruct (IH H2) as [IH1 IH2].
    split; [|exact IH2]. split; [|exact IH1].
    destruct rest as [|k1 rest']; simpl in *; auto.
Qed.

(** A lock that does not run out before [until] stays with its holder
    whatever command the store answers no later than that, when
    [until] is no further than [MASTER_TTL] away. *)
Lemma command_keeps_lock now cmd reachable m r id until :
  lockHeldBy r id until -> now < until ->
  until <= now + ClusterManager.MASTER_TTL * 1000 ->
  lockHeldBy (snd (fst (command now cmd reachable m r))) id until.
Proof.
  intros Hheld Hnow Hnear.
  pose proof Hheld as (e & x & He & Hv & Hx & Hle).
  assert (Hlive : Redis.live now e = true).
  { unfold Redis.live. rewrite Hx. apply Z.ltb_lt. lia. }
  unfold command.
  destruct (truthy (ClusterManager.nodeId (manager m))) as [me|]; [|done].
  destruct (ClusterManager.redisClient (manager m)); cbn [negb]; [|done].
  destruct cmd.
  - destruct reachable; cbn [negb]; [|done].
    unfold ClusterManager.SET_NX_EX. rewrite He, Hlive. done.
  - destruct (afterSet m); [done|].
    destruct reachable; cbn [negb]; [|done].
    case_bool_decide; [done|].
    by destruct (loseMaster (manager m) me).
  - destruct (afterGet m); [done|].
    destruct reachable; cbn [negb]; [|done].
    destruct (becomeMaster (manager m) me). cbn [fst snd].
    unfold ClusterManager.EXPIRE_master. rewrite He, Hlive.
    eexists _, _. cbn. split; [reflexivity|]. split; [exact Hv|].
    split; [reflexivity|]. exact Hnear.
Qed.

(** A command leaves the id and the client of the node as they were. *)
Lemma command_same_node now cmd reachable m r :
  ClusterManager.nodeId (manager (fst (fst (command now cmd reachable m r))))
    = ClusterManager.nodeId (manager m) /\
  ClusterManager.redisClient
    (manager (fst (fst (command now cmd reachable m r))))
    = ClusterManager.redisClient (manager m).
Proof.
  unfold command, becomeMaster, loseMaster.
  repeat case_match; simplify_eq; done.
Qed.

(** A step that takes or renews the lock, the check of [renewsOwnLock]
    being passed, leaves the lock with the node for [MASTER_TTL]
    seconds and the flag of the node set. *)
Lemma command_confirms k s m :
  nodes s !! step_node k = Some m ->
  confirms k s = true -> renewsOwnLock k s = true ->
  exists id,
    truthy (ClusterManager.nodeId (manager m)) = Some id /\
    lockHeldBy
      (snd (fst (command (step_time k) (step_command k) (step_reachable k)
                   m (store s))))
      id (step_time k + ClusterManager.MASTER_TTL * 1000) /\
    ClusterManager.isMaster
      (manager (fst (fst (command (step_time k) (step_command k)
                            (step_reachable k) m (store s))))) = true.
Proof.
  intros Hm Hconf Hguard. unfold renewsOwnLock in Hguard.
  rewrite Hm, Hconf in Hguard. cbn [negb orb] in Hguard.
  unfold confirms in Hconf. rewrite Hm in Hconf.
  unfold command, becomeMaster.
  destruct (truthy (ClusterManager.nodeId (manager m))) as [id|]; [|done].
  exists id. split; [done|].
  destruct (ClusterManager.redisClient (manager m)); [|done].
  destruct (step_reachable k); [|done]. cbn [andb negb] in *.
  destruct (step_command k); [| done |].
  - unfold ClusterManager.SET_NX_EX in *.
    assert (Hnew : lockHeldBy
              (Redis_set_clusterMaster
                 (Some (Redis.mkEntry id
                          (Some (step_time k
                                 + ClusterManager.MASTER_TTL * 1000))))
                 (store s))
              id (step_time k + ClusterManager.MASTER_TTL * 1000)).
    { eexists _, _. cbn. split; [reflexivity|]. split; [reflexivity|].
      split; [reflexivity|]. lia. }
    destruct (Redis.clusterMaster (store s)) as [e|].
    + destruct (Redis.live (step_time k) e); [done|].
      destruct (ClusterManager.isMaster (manager m)) eqn:Hflag; cbn; auto.
    + destruct (ClusterManager.isMaster (manager m)) eqn:Hflag; cbn; auto.
  - destruct (afterGet m) as [|waiting]; [done|].
    apply bool_decide_eq_true in Hguard.
    unfold ClusterManager.GET_master, ClusterManager.EXPIRE_master in *.
    destruct (Redis.clusterMaster (store s)) as [e|]; [|done].
    destruct (Redis.live (step_time k) e); [|done].
    injection Hguard as Hown.
    destruct (ClusterManager.isMaster (manager m)) eqn:Hflag; cbn;
      (split; [|done]); eexists _, _; cbn;
      (split; [reflexivity|]); (split; [exact Hown|]);
      (split; [reflexivity|]); lia.
Qed.


Lemma inOrder_head k l finish :
  inOrder (k :: l) finish -> step_time k <= finish.
Proof.
  revert k. induction l as [|k1 l IH]; intros k; cbn [inOrder].
  - by intros [H _].
  - intros [H Hrest]. specialize (IH k1 Hrest). lia.
Qed.

(** The lock was last taken or renewed at the time of a step. *)
Lemma confirmedAt_le steps i t :
  forall s last finish,
    (forall x, last = Some x -> x <= finish) ->
    inOrder steps finish ->
    confirmedAt steps s i last = Some t -> t <= finish.
Proof.
  induction steps as [|k l IH]; intros s last finish Hlast Hord Hc.
  - by apply Hlast.
  - cbn [confirmedAt] in Hc.
    pose proof (inOrder_head k l finish Hord) as Hk.
    destruct Hord as [_ Hord].
    apply (IH _ _ finish) in Hc; [done| |done].
    intros x Hx.
    destruct ((step_node k =? i)%nat && confirms k s); [|by apply Hlast].
    by injection Hx as <-.
Qed.

Lemma answer_lookup k s i mi :
  nodes (fst (answer k s)) !! i = Some mi ->
  exists m0,
    nodes s !! i = Some m0 /\
    ClusterManager.nodeId (manager mi) = ClusterManager.nodeId (manager m0) /\
    (i <> step_node k -> mi = m0).
Proof.
  unfold answer. destruct (nodes s !! step_node k) as [m|] eqn:Hm.
  2:{ cbn [fst]. intros Hi. exists mi. auto. }
  pose proof (command_same_node (step_time k) (step_command k)
                (step_reachable k) m (store s)) as [Hid _].
  destruct (command (step_time k) (step_command k) (step_reachable k) m
              (store s)) as [[m' r'] out].
  cbn [fst snd nodes] in *.
  assert (Hlen : (step_node k < length (nodes s))%nat)
    by (by apply lookup_lt_Some with m).
  destruct (decide (i = step_node k)) as [->|Hne].
  - rewrite list_lookup_insert_eq by done. intros [= <-].
    exists m. split; [done|]. split; [done|]. done.
  - rewrite list_lookup_insert_ne by done. intros Hi. exists mi. auto.
Qed.

Lemma answer_lookup_back k s i m0 :
  nodes s !! i = Some m0 ->
  exists mi,
    nodes (fst (answer k s)) !! i = Some mi /\
    ClusterManager.nodeId (manager mi) = ClusterManager.nodeId (manager m0).
Proof.
  intros Hi. unfold answer.
  destruct (nodes s !! step_node k) as [m|] eqn:Hm.
  2:{ cbn [fst]. exists m0. auto. }
  pose proof (command_same_node (step_time k) (step_command k)
                (step_reachable k) m (store s)) as [Hid _].
  destruct (command (step_time k) (step_command k) (step_reachable k) m
              (store s)) as [[m' r'] out].
  cbn [fst snd nodes] in *.
  assert (Hlen : (step_node k < length (nodes s))%nat)
    by (by apply lookup_lt_Some with m).
  destruct (decide (i = step_node k)) as [->|Hne].
  - exists m'. rewrite list_lookup_insert_eq by done.
    split; [done|]. congruence.
  - exists m0. by rewrite list_lookup_insert_ne.
Qed.

Lemma answer_distinctIds k s :
  distinctIds (map manager (nodes s)) ->
  distinctIds (map manager (nodes (fst (answer k s)))).
Proof.
  intros Hdist i j ni nj id Hi Hj Hidi Hidj.
  rewrite list_lookup_fmap in Hi, Hj.
  destruct (nodes (fst (answer k s)) !! i) as [mi|] eqn:Ei; [|done].
  destruct (nodes (fst (answer k s)) !! j) as [mj|] eqn:Ej; [|done].
  cbn in Hi, Hj. injection Hi as <-. injection Hj as <-.
  destruct (answer_lookup k s i mi Ei) as (m0 & H0 & Hsame0 & _).
  destruct (answer_lookup k s j mj Ej) as (m1 & H1 & Hsame1 & _).
  apply (Hdist i j (manager m0) (manager m1) id).
  - by rewrite list_lookup_fmap, H0.
  - by rewrite list_lookup_fmap, H1.
  - by rewrite <- Hsame0.
  - by rewrite <- Hsame1.
Qed.

(** What the times of the last renewals say about the lock: a node that
    took or renewed the lock at [t] holds it until [t + MASTER_TTL]. *)
Lemma answer_invariant steps k s0 :
  let s := run steps s0 in
  (forall i t,
      confirmedAt steps s0 i None = Some t ->
      exists m id,
        nodes s !! i = Some m /\
        truthy (ClusterManager.nodeId (manager m)) = Some id /\
        t <= step_time k /\
        (step_time k < t + ClusterManager.MASTER_TTL * 1000 ->
         lockHeldBy (store s) id (t + ClusterManager.MASTER_TTL * 1000))) ->
  renewsOwnLock k s = true ->
  forall i t,
    confirmedAt (steps ++ [k]) s0 i None = Some t ->
    exists m id,
      nodes (fst (answer k s)) !! i = Some m /\
      truthy (ClusterManager.nodeId (manager m)) = Some id /\
      t <= step_time k /\
      (step_time k < t + ClusterManager.MASTER_TTL * 1000 ->
       lockHeldBy (store (fst (answer k s))) id
         (t + ClusterManager.MASTER_TTL * 1000)).
Proof.
  intros s Hinv Hguard i t. rewrite confirmedAt_snoc. fold s.
  destruct ((step_node k =? i)%nat && confirms k s) eqn:Hnew.
  - (* the step itself takes or renews the lock for node [i] *)
    apply andb_true_iff in Hnew as [Hi Hconf]. apply Nat.eqb_eq in Hi.
    intros [= <-]. subst i.
    assert (Hm : exists m, nodes s !! step_node k = Some m).
    { unfold confirms in Hconf.
      destruct (nodes s !! step_node k) as [m|]; [eauto|done]. }
    destruct Hm as [m Hm].
    destruct (command_confirms k s m Hm Hconf Hguard) as (id & Hid & Hlock & _).
    pose proof (command_same_node (step_time k) (step_command k)
                  (step_reachable k) m (store s)) as [Hsame _].
    unfold answer. rewrite Hm.
    destruct (command (step_time k) (step_command k) (step_reachable k) m
                (store s)) as [[m' r'] out].
    cbn [fst snd nodes store] in *.
    exists m', id. rewrite list_lookup_insert_eq
      by (by apply lookup_lt_Some with m).
    split; [done|]. split; [congruence|]. split; [lia|]. done.
  - intros Hold.
    destruct (Hinv i t Hold) as (m0 & id & Hm0 & Hid & Hle & Hlock).
    destruct (answer_lookup_back k s i m0 Hm0) as (mi & Hmi & Hsame).
    exists mi, id. split; [done|]. split; [congruence|]. split; [done|].
    intros Hfresh. specialize (Hlock Hfresh).
    unfold answer. destruct (nodes s !! step_node k) as [m|]; [|done].
    pose proof (command_keeps_lock (step_time k) (step_command k)
                  (step_reachable k) m (store s) id
                  (t + ClusterManager.MASTER_TTL * 1000) Hlock Hfresh) as Hkeep.
    destruct (command (step_time k) (step_command k) (step_reachable k) m
                (store s)) as [[m' r'] out].
    cbn [fst snd store] in *. apply Hkeep. lia.
Qed.

Lemma run_invariant steps :
  forall s0 finish,
    distinctIds (map manager (nodes s0)) ->
    inOrder steps finish ->
    renewOwnLock steps s0 = true ->
    (forall i t,
        confirmedAt steps s0 i None = Some t ->
        exists m id,
          nodes (run steps s0) !! i = Some m /\
          truthy (ClusterManager.nodeId (manager m)) = Some id /\
          (finish < t + ClusterManager.MASTER_TTL * 1000 ->
           lockHeldBy (store (run steps s0)) id
             (t + ClusterManager.MASTER_TTL * 1000))) /\
    distinctIds (map manager (nodes (run steps s0))).
Proof.
  induction steps as [|k steps IH] using rev_ind;
    intros s0 finish Hdist Horder Hguard.
  - split; [|exact Hdist]. intros i t Ht. discriminate Ht.
  - apply inOrder_snoc in Horder as [Horder Hfin].
    rewrite renewOwnLock_snoc in Hguard.
    apply andb_true_iff in Hguard as [Hguard Hk].
    destruct (IH s0 (step_time k) Hdist Horder Hguard) as [Hinv Hdist'].
    rewrite run_snoc. split; [|by apply answer_distinctIds].
    assert (Hinv' : forall i t,
              confirmedAt steps s0 i None = Some t ->
              exists m id,
                nodes (run steps s0) !! i = Some m /\
                truthy (ClusterManager.nodeId (manager m)) = Some id /\
                t <= step_time k /\
                (step_time k < t + ClusterManager.MASTER_TTL * 1000 ->
                 lockHeldBy (store (run steps s0)) id
                   (t + ClusterManager.MASTER_TTL * 1000))).
    { intros i t Ht. destruct (Hinv i t Ht) as (m & id & Hm & Hid & Hlock).
      exists m, id. split; [done|]. split; [done|]. split; [|done].
      by apply (confirmedAt_le steps i t s0 None (step_time k)). }
    intros i t Ht.
    destruct (answer_invariant steps k s0 Hinv' Hk i t Ht)
      as (m & id & Hm & Hid & Hle & Hlock).
    exists m, id. split; [done|]. split; [done|].
    intros Hfresh. apply Hlock. lia.
Qed.

End ElectionFacts.

Section ElectionRuns.
Import Election.

(** A run of [tryBecomeMaster] whose commands are answered one after the
    other at one instant, on a node with no other run under way, is the
    run taken as one step. *)
Lemma tryBecomeMaster_uninterrupted now reachable c r :
  let '(m1, r1, o1) := command now SET_NX reachable (mkMember c 0 0) r in
  let '(m2, r2, o2) := command now GET reachable m1 r1 in
  let '(m3, r3, o3) := command now EXPIRE reachable m2 r2 in
  (manager m3, r3, o1 ++ o2 ++ o3)
    = ClusterManager.tryBecomeMaster now reachable c r /\
  afterSet m3 = 0%nat /\ afterGet m3 = 0%nat.
Proof.
  unfold command, ClusterManager.tryBecomeMaster, becomeMaster, loseMaster.
  cbn [manager afterSet afterGet].
  destruct (truthy (ClusterManager.nodeId c)) as [id|] eqn:Hid.
  2:{ by repeat (progress (cbn; rewrite ?Hid)). }
  destruct (ClusterManager.redisClient c) eqn:Hcl; cbn [negb].
  2:{ by repeat (progress (cbn; rewrite ?Hid, ?Hcl)). }
  destruct reachable; cbn [negb].
  2:{ by repeat (progress (cbn; rewrite ?Hid, ?Hcl)). }
  destruct (ClusterManager.SET_NX_EX now id ClusterManager.MASTER_TTL r)
    as [[] r1] eqn:Hset.
  - destruct (ClusterManager.isMaster c) eqn:Hm;
      repeat (progress (cbn; rewrite ?Hid, ?Hcl)); by rewrite ?app_nil_r.
  - repeat (progress (cbn; rewrite ?Hid, ?Hcl)).
    case_bool_decide as Hown.
    + repeat (progress (cbn; rewrite ?Hid, ?Hcl)).
      by destruct (ClusterManager.isMaster c) eqn:Hm.
    + destruct (ClusterManager.isMaster c) eqn:Hm;
        repeat (progress (cbn; rewrite ?Hid, ?Hcl)); by rewrite ?app_nil_r.
Qed.

(** A flag is turned on only by a step that takes or renews the lock. *)
Lemma command_turns_on k s m :
  nodes s !! step_node k = Some m ->
  ClusterManager.isMaster (manager m) = false ->
  ClusterManager.isMaster
    (manager (fst (fst (command (step_time k) (step_command k)
                          (step_reachable k) m (store s))))) = true ->
  confirms k s = true.
Proof.
  intros Hm Hoff. unfold confirms, command, becomeMaster, loseMaster.
  rewrite Hm, Hoff.
  destruct (truthy (ClusterManager.nodeId (manager m))) as [id|];
    [|cbn; congruence].
  destruct (ClusterManager.redisClient (manager m)); cbn [negb andb];
    [|cbn; congruence].
  destruct (step_command k).
  - destruct (step_reachable k); cbn [negb andb]; [|cbn; congruence].
    destruct (ClusterManager.SET_NX_EX (step_time k) id
                ClusterManager.MASTER_TTL (store s)) as [[] r1];
      cbn; congruence.
  - destruct (afterSet m); [cbn; congruence|].
    destruct (step_reachable k); cbn [negb]; [|cbn; congruence].
    case_bool_decide; cbn; congruence.
  - destruct (afterGet m); [cbn; congruence|].
    destruct (step_reachable k); cbn; congruence.
Qed.

End ElectionRuns.

(** Two ways to two masters.  n1 wins the lock and then cannot reach the
    store; after the lock has expired n2 wins it, and both nodes have
    [isMaster = true] while the lock names n2.  And n1, reaching the
    store, reads its own id, the lock expires and n2 takes it, and the
    [EXPIRE] of n1 renews the lock of n2: both nodes have their flag set,
    both having taken or renewed the lock within the last second. *)
Lemma C6_counterexample :
  (map (fun m => ClusterManager.isMaster (Election.manager m))
     (Election.nodes (Election.run Election.partitioned
                        (Election.idle twoNodes))) = [true; true] /\
   ClusterManager.GET_master 16000
     (Election.store (Election.run Election.partitioned
                        (Election.idle twoNodes))) = Some "n2"%string /\
   ~ Election.atMostOneMaster
       (Election.run Election.partitioned (Election.idle twoNodes))) /\
  (Election.reportsMaster Election.overtaken (Election.idle twoNodes) 20004 0 /\
   Election.reportsMaster Election.overtaken (Election.idle twoNodes) 20004 1 /\
   ClusterManager.GET_master 20004
     (Election.store (Election.run Election.overtaken
                        (Election.idle twoNodes))) = Some "n2"%string /\
   Election.renewOwnLock Election.overtaken (Election.idle twoNodes) = false /\
   ~ Election.atMostOneMaster
       (Election.run Election.overtaken (Election.idle twoNodes))).
Proof.
  split.
  - split; [reflexivity|]. split; [reflexivity|].
    intros H.
    specialize (H 0%nat 1%nat
                  (Election.mkMember
                     (ClusterManager.mk (Some "n1"%string) true true true) 0 0)
                  (Election.mkMember
                     (ClusterManager.mk (Some "n2"%string) true true true) 0 0)
                  eq_refl eq_refl eq_refl eq_refl).
    discriminate H.
  - split; [|split; [|split; [|split]]].
    + eexists _, _. split; [vm_compute; reflexivity|].
      split; [reflexivity|]. split; [vm_compute; reflexivity|].
      by vm_compute.
    + eexists _, _. split; [vm_compute; reflexivity|].
      split; [reflexivity|]. split; [vm_compute; reflexivity|].
      by vm_compute.
    + reflexivity.
    + reflexivity.
    + intros H.
      specialize (H 0%nat 1%nat
                    (Election.mkMember
                       (ClusterManager.mk (Some "n1"%string) true true true)
                       0 0)
                    (Election.mkMember
                       (ClusterManager.mk (Some "n2"%string) true true true)
                       0 0)
                    eq_refl eq_refl eq_refl eq_refl).
      discriminate H.
Qed.

(** C6, amended.  The store answers each command of the election
    ([SET NX] with expiry, [GET], [EXPIRE]) atomically, and the commands
    of the runs of all nodes reach it interleaved in any order.  (a) A
    command turns the [isMaster] flag of a node on only when, after it,
    [cluster:master] holds the id of that node, provided that an
    [EXPIRE] finds the lock still with the node whose [GET] saw it there
    (the code does not check this).  (b) Under the same proviso for
    every [EXPIRE] of a chronological schedule, at most one node reports
    [isMaster = true] among those that took or renewed the lock less than
    [MASTER_TTL] seconds ago, the nodes having distinct ids.  (c) A master
    whose [GET] does not return its id turns its flag off, updates its
    role to worker and emits [cluster-role-change] to its clients.  (d) A
    command that does not reach the store leaves the flag and the store
    as they were. *)
Theorem C6_one_master_per_lock_epoch :
  (forall k s m,
      Election.nodes s !! Election.step_node k = Some m ->
      Election.renewsOwnLock k s = true ->
      let '(m', r', _) :=
        Election.command (Election.step_time k) (Election.step_command k)
          (Election.step_reachable k) m (Election.store s) in
      ClusterManager.isMaster (Election.manager m) = false ->
      ClusterManager.isMaster (Election.manager m') = true ->
      exists id,
        truthy (ClusterManager.nodeId (Election.manager m)) = Some id /\
        ClusterManager.GET_master (Election.step_time k) r' = Some id) /\
  (forall steps s now i j,
      distinctIds (map Election.manager (Election.nodes s)) ->
      Election.inOrder steps now ->
      Election.renewOwnLock steps s = true ->
      Election.reportsMaster steps s now i ->
      Election.reportsMaster steps s now j ->
      i = j) /\
  (forall now m r id waiting,
      truthy (ClusterManager.nodeId (Election.manager m)) = Some id ->
      ClusterManager.redisClient (Election.manager m) = true ->
      ClusterManager.io (Election.manager m) = true ->
      ClusterManager.isMaster (Election.manager m) = true ->
      Election.afterSet m = S waiting ->
      ClusterManager.GET_master now r <> Some id ->
      Election.command now Election.GET true m r
      = (Election.mkMember
           (ClusterManager.with_isMaster false (Election.manager m))
           waiting (Election.afterGet m),
         r, [UpdateRole id worker; IoEmit (cluster_role_change id worker)])) /\
  (forall now cmd m r,
      Election.manager (fst (fst (Election.command now cmd false m r)))
        = Election.manager m /\
      snd (fst (Election.command now cmd false m r)) = r).
Proof.
  split; [|split; [|split]].
  - intros k s m Hm Hguard.
    pose proof (command_turns_on k s m Hm) as Hon.
    pose proof (command_confirms k s m Hm) as Hconf.
    destruct (Election.command (Election.step_time k) (Election.step_command k)
                (Election.step_reachable k) m (Election.store s))
      as [[m' r'] out].
    cbn [fst snd] in *. intros Hoff Hflag.
    destruct (Hconf (Hon Hoff Hflag) Hguard) as (id & Hid & Hlock & _).
    exists id. split; [done|].
    apply lockHeldBy_live
      with (Election.step_time k + ClusterManager.MASTER_TTL * 1000);
      [done|]. unfold ClusterManager.MASTER_TTL. lia.
  - intros steps s now i j Hdist Horder Hguard
      (mi & ti & Hi & _ & Hti & Hfi) (mj & tj & Hj & _ & Htj & Hfj).
    destruct (run_invariant steps s now Hdist Horder Hguard) as [Hinv Hdist'].
    destruct (Hinv i ti Hti) as (mi' & idi & Hi' & Hidi & Hlocki).
    destruct (Hinv j tj Htj) as (mj' & idj & Hj' & Hidj & Hlockj).
    assert (mi' = mi) by congruence. assert (mj' = mj) by congruence.
    subst mi' mj'.
    destruct (Hlocki Hfi) as (ei & xi & Hei & Hvi & _).
    destruct (Hlockj Hfj) as (ej & xj & Hej & Hvj & _).
    assert (Hsame : idi = idj) by congruence.
    apply (Hdist' i j (Election.manager mi) (Election.manager mj) idi).
    + by rewrite list_lookup_fmap, Hi.
    + by rewrite list_lookup_fmap, Hj.
    + done.
    + congruence.
  - intros now m r id waiting Hid Hcl Hio Hm Hwait Hget.
    unfold Election.command, Election.loseMaster,
      ClusterManager.notifyLocalClientsOfRoleChange.
    rewrite Hid, Hcl, Hwait, Hm, Hio. cbn [negb].
    by rewrite bool_decide_eq_false_2.
  - intros now cmd m r. unfold Election.command.
    repeat case_match; simplify_eq; done.
Qed.

(** After the takeover n1 still carries its flag, and n2 is the one node
    that reports master having renewed the lock within [MASTER_TTL]. *)
Lemma C6_witness :
  map (fun m => ClusterManager.isMaster (Election.manager m))
    (Election.nodes (Election.run Election.takeover (Election.idle threeNodes)))
    = [true; true; false] /\
  (forall i j,
      Election.reportsMaster Election.takeover (Election.idle threeNodes)
        35200 i ->
      Election.reportsMaster Election.takeover (Election.idle threeNodes)
        35200 j ->
      i = j) /\
  Election.reportsMaster Election.takeover (Election.idle threeNodes) 35200 1.
Proof.
  destruct C6_one_master_per_lock_epoch as (_ & Hepoch & _).
  split; [vm_compute; reflexivity|]. split.
  - intros i j.
    apply (Hepoch Election.takeover (Election.idle threeNodes) 35200 i j).
    + intros a b na nb id Ha Hb Hida Hidb.
      destruct a as [|[|[|a]]]; [| | |discriminate Ha];
        destruct b as [|[|[|b]]]; [| | |discriminate Hb| | | |discriminate Hb| | | |discriminate Hb];
        try reflexivity;
        cbv in Ha, Hb; injection Ha as <-; injection Hb as <-;
        cbv in Hida, Hidb; congruence.
    + cbn [Election.inOrder Election.takeover Election.step_time].
      repeat split; lia.
    + vm_compute. reflexivity.
  - eexists _, _. split; [vm_compute; reflexivity|].
    split; [reflexivity|]. split; [vm_compute; reflexivity|]. by vm_compute.
Defined.

(* ===================================================================== *)
(** ** The browser side: slicing, compression and reassembly *)
(* ===================================================================== *)

Lemma Math_ceil_div_le a b k : 0 < b -> (Math_ceil_div a b <= k <-> a <= k * b).
Proof.
  intros Hb. unfold Math_ceil_div.
  pose proof (Z.div_mod (- a) b ltac:(lia)) as Hd.
  pose proof (Z.mod_pos_bound (- a) b Hb) as Hm.
  split; intros H; nia.
Qed.

Lemma Blob_slice_next chunkSize file k :
  0 < chunkSize -> 0 <= k ->
  sliceOf chunkSize file k ++ drop (Z.to_nat ((k + 1) * chunkSize)) file
  = drop (Z.to_nat (k * chunkSize)) file.
Proof.
  intros Hc Hk. unfold sliceOf, Blob_slice.
  replace (k * chunkSize + chunkSize - k * chunkSize) with chunkSize by lia.
  replace (Z.to_nat ((k + 1) * chunkSize))
    with (Z.to_nat (k * chunkSize) + Z.to_nat chunkSize)%nat by nia.
  rewrite <- drop_drop. apply take_drop.
Qed.

Lemma sliceOf_concat chunkSize file :
  0 < chunkSize ->
  forall n k,
    0 <= k ->
    Z.of_nat (length file) <= (k + Z.of_nat n) * chunkSize ->
    concat (map (sliceOf chunkSize file) (seqZ k (Z.of_nat n)))
    = drop (Z.to_nat (k * chunkSize)) file.
Proof.
  intros Hc. induction n as [|n IH]; intros k Hk Hlen.
  - simpl. symmetry. apply drop_ge. nia.
  - rewrite seqZ_cons by lia. cbn [map concat].
    replace (Z.pred (Z.of_nat (S n))) with (Z.of_nat n) by lia.
    rewrite (IH (Z.succ k)) by lia.
    replace (Z.succ k) with (k + 1) by lia.
    by apply Blob_slice_next.
Qed.

Section Browser.
Variable gzipSync : Buffer -> option Buffer.
Variable gunzipSync : Buffer -> option Buffer.
Variable enabled : bool.
Variable chunkSize : Z.

Lemma sendAll_from fileId clientId file :
  0 < chunkSize ->
  forall calls k,
    0 <= k ->
    UseFileTransfer.totalChunks chunkSize file - k <= Z.of_nat calls ->
    UseFileTransfer.sendAll gzipSync enabled chunkSize calls fileId clientId
      file (Some (k * chunkSize))
    = map (fun i =>
             {| uc_fileId := fileId; uc_chunkIndex := i;
                uc_chunk := Compression.compressChunk gzipSync enabled
                              (sliceOf chunkSize file i);
                uc_clientId := clientId |})
        (seqZ k (UseFileTransfer.totalChunks chunkSize file - k)).
Proof.
  intros Hc. unfold UseFileTransfer.totalChunks.
  set (T := Math_ceil_div (Z.of_nat (length file)) chunkSize).
  assert (HT : forall k, T <= k <-> Z.of_nat (length file) <= k * chunkSize)
    by (intros k; by apply Math_ceil_div_le).
  induction calls as [|calls IH]; intros k Hk Hcalls.
  - rewrite seqZ_nil by lia. done.
  - cbn [UseFileTransfer.sendAll UseFileTransfer.sendChunk].
    destruct (Z.of_nat (length file) <=? k * chunkSize) eqn:E.
    + apply Z.leb_le, HT in E. rewrite seqZ_nil by lia. done.
    + apply Z.leb_gt in E.
      assert (k < T) by (destruct (decide (T <= k)) as [H%HT|]; lia).
      rewrite seqZ_cons by lia. cbn [map].
      rewrite Z.div_mul by lia.
      replace (k * chunkSize + chunkSize) with (Z.succ k * chunkSize) by lia.
      rewrite (IH (Z.succ k)) by lia.
      replace (T - Z.succ k) with (Z.pred (T - k)) by lia.
      unfold sliceOf.
      replace (Z.succ k * chunkSize) with (k * chunkSize + chunkSize) by lia.
      done.
Qed.

End Browser.

Lemma totalChunks_nonneg chunkSize file :
  0 < chunkSize -> 0 <= UseFileTransfer.totalChunks chunkSize file.
Proof.
  intros Hc. unfold UseFileTransfer.totalChunks.
  destruct (decide (Math_ceil_div (Z.of_nat (length file)) chunkSize <= -1))
    as [H|]; [|lia].
  apply Math_ceil_div_le in H; lia.
Qed.

Lemma totalChunks_pos chunkSize file :
  0 < chunkSize -> file <> [] ->
  0 < UseFileTransfer.totalChunks chunkSize file.
Proof.
  intros Hc Hfile. unfold UseFileTransfer.totalChunks.
  destruct (decide (Math_ceil_div (Z.of_nat (length file)) chunkSize <= 0))
    as [H|]; [|lia].
  apply Math_ceil_div_le in H; [|done].
  destruct file; [done|]. cbn [length] in H. lia.
Qed.

Lemma sendAll_events gzipSync enabled chunkSize fileId clientId file calls :
  0 < chunkSize ->
  UseFileTransfer.totalChunks chunkSize file <= Z.of_nat calls ->
  UseFileTransfer.sendAll gzipSync enabled chunkSize calls fileId clientId
    file (Some 0)
  = map (fun i =>
           {| uc_fileId := fileId; uc_chunkIndex := i;
              uc_chunk := Compression.compressChunk gzipSync enabled
                            (sliceOf chunkSize file i);
              uc_clientId := clientId |})
      (seqZ 0 (UseFileTransfer.totalChunks chunkSize file)).
Proof.
  intros Hc Hcalls.
  rewrite <- (Z.mul_0_l chunkSize) at 1.
  rewrite (sendAll_from gzipSync enabled chunkSize fileId clientId file Hc
             calls 0) by lia.
  by rewrite Z.sub_0_r.
Qed.

Lemma slices_concat chunkSize file :
  0 < chunkSize ->
  concat (map (sliceOf chunkSize file)
            (seqZ 0 (UseFileTransfer.totalChunks chunkSize file))) = file.
Proof.
  intros Hc. pose proof (totalChunks_nonneg chunkSize file Hc) as H0.
  set (total := UseFileTransfer.totalChunks chunkSize file) in *.
  replace total with (Z.of_nat (Z.to_nat total)) by lia.
  rewrite (sliceOf_concat chunkSize file Hc (Z.to_nat total) 0); [done|lia|].
  assert (H : total <= total) by lia.
  apply Math_ceil_div_le in H; lia.
Qed.

Lemma decompress_compress gzipSync gunzipSync enabled data :
  (forall x y, gzipSync x = Some y -> gunzipSync y = Some x) ->
  gunzipSync data = None ->
  Compression.decompressChunk gunzipSync
    (Compression.compressChunk gzipSync enabled data) = data.
Proof.
  intros Hcodec Hraw.
  assert (Hsame : Compression.decompressChunk gunzipSync data = data)
    by (unfold Compression.decompressChunk; by rewrite Hraw).
  unfold Compression.compressChunk.
  destruct (negb enabled || (Z.of_nat (length data) <? Compression.minChunkSize));
    [exact Hsame|].
  destruct (gzipSync data) as [compressed|] eqn:E; [|exact Hsame].
  destruct (length compressed <? length data)%nat; [|exact Hsame].
  unfold Compression.decompressChunk. by rewrite (Hcodec _ _ E).
Qed.

(** X1.  [uploadFile] cuts the file into [Math.ceil(size / chunkSize)]
    chunks: once [sendChunk] has been called at least that often, the
    [upload-chunk] events, in whatever order they are emitted, carry each
    of the indices [0 .. totalChunks - 1] exactly once, the event with
    index [i] carries the compressed slice [i] of the file, and the slices
    put end to end in the order of their indices are the file. *)
Theorem sendAll_slices_the_file
    (gzipSync : Buffer -> option Buffer) (enabled : bool) (chunkSize : Z)
    (fileId clientId : string) (file : Buffer) (calls : nat)
    (emitted : list UploadChunkEvent) :
  0 < chunkSize ->
  UseFileTransfer.totalChunks chunkSize file <= Z.of_nat calls ->
  emitted ≡ₚ UseFileTransfer.sendAll gzipSync enabled chunkSize calls fileId
               clientId file (Some 0) ->
  let total := UseFileTransfer.totalChunks chunkSize file in
  map uc_chunkIndex emitted ≡ₚ seqZ 0 total /\
  Forall (fun ev =>
            uc_chunk ev
              = Compression.compressChunk gzipSync enabled
                  (sliceOf chunkSize file (uc_chunkIndex ev)) /\
            uc_fileId ev = fileId /\ uc_clientId ev = clientId) emitted /\
  concat (map (sliceOf chunkSize file) (seqZ 0 total)) = file.
Proof.
  intros Hc Hcalls Hperm total.
  rewrite sendAll_events in Hperm by done. fold total in Hperm.
  split; [|split].
  - rewrite Hperm, map_map. simpl. by rewrite map_id.
  - rewrite Hperm. apply Forall_map, Forall_forall. done.
  - by apply slices_concat.
Qed.

Lemma sendAll_slices_the_file_witness :
  let file := [Byte.x01; Byte.x02; Byte.x03; Byte.x04; Byte.x05] in
  let chunk i data :=
    {| uc_fileId := "f"; uc_chunkIndex := i; uc_chunk := data;
       uc_clientId := "A" |} in
  map uc_chunkIndex
    [chunk 1 [Byte.x03; Byte.x04]; chunk 0 [Byte.x01; Byte.x02];
     chunk 2 [Byte.x05]]
  ≡ₚ [0; 1; 2].
Proof.
  intros file chunk.
  destruct (sendAll_slices_the_file (fun _ => None) false 2 "f" "A" file 3
              [chunk 1 [Byte.x03; Byte.x04]; chunk 0 [Byte.x01; Byte.x02];
               chunk 2 [Byte.x05]])
    as (Hindices & _).
  - lia.
  - by vm_compute.
  - apply perm_swap.
  - exact Hindices.
Defined.

(** X2.  A chunk that is not itself a gzip stream comes back unchanged
    from [decompressChunk] after [compressChunk], whether or not it was
    compressed on the way.  A chunk shorter than 1 KB that is a gzip
    stream is sent as it is and comes back as what it unpacks to. *)
Theorem decompressChunk_compressChunk
    (gzipSync gunzipSync : Buffer -> option Buffer) (enabled : bool)
    (data : Buffer) :
  ((forall x y, gzipSync x = Some y -> gunzipSync y = Some x) ->
   gunzipSync data = None ->
   Compression.decompressChunk gunzipSync
     (Compression.compressChunk gzipSync enabled data) = data) /\
  (forall inner,
      Z.of_nat (length data) < Compression.minChunkSize ->
      gunzipSync data = Some inner ->
      Compression.decompressChunk gunzipSync
        (Compression.compressChunk gzipSync enabled data) = inner).
Proof.
  split.
  2:{ intros inner Hshort Hgz. unfold Compression.compressChunk.
      apply Z.ltb_lt in Hshort. rewrite Hshort, orb_true_r.
      unfold Compression.decompressChunk. by rewrite Hgz. }
  apply decompress_compress.
Qed.

Lemma decompressChunk_compressChunk_witness :
  Compression.decompressChunk
    (fun y => match y with Byte.x1f :: x => Some x | _ => None end)
    (Compression.compressChunk (fun x => Some (Byte.x1f :: x)) true
       [Byte.x01; Byte.x02]) = [Byte.x01; Byte.x02] /\
  Compression.decompressChunk
    (fun y => match y with Byte.x1f :: x => Some x | _ => None end)
    (Compression.compressChunk (fun x => Some (Byte.x1f :: x)) true
       [Byte.x1f; Byte.x02]) = [Byte.x02].
Proof.
  split.
  - destruct (decompressChunk_compressChunk
                (fun x => Some (Byte.x1f :: x))
                (fun y => match y with Byte.x1f :: x => Some x | _ => None end)
                true [Byte.x01; Byte.x02]) as [Hback _].
    apply Hback; [|reflexivity].
    intros x y Hxy. injection Hxy as <-. reflexivity.
  - destruct (decompressChunk_compressChunk
                (fun x => Some (Byte.x1f :: x))
                (fun y => match y with Byte.x1f :: x => Some x | _ => None end)
                true [Byte.x1f; Byte.x02]) as [_ Hinner].
    apply Hinner; [by vm_compute|reflexivity].
Defined.

Lemma orderedChunks_all (chunks : gmap Z Buffer) (content : Z -> Buffer) l :
  (forall i, i ∈ l -> chunks !! i = Some (content i)) ->
  StreamingDownload.orderedChunks chunks l = inl (map content l).
Proof.
  induction l as [|i l IH]; intros H; [done|].
  cbn [StreamingDownload.orderedChunks map].
  rewrite (H i) by (apply elem_of_cons; by left).
  rewrite IH; [done|]. intros j Hj. apply H. apply elem_of_cons. by right.
Qed.

Lemma full_range (X : gset Z) (T : Z) :
  (forall i, i ∈ X -> 0 <= i < T) -> Z.of_nat (size X) = T ->
  forall i, 0 <= i < T -> i ∈ X.
Proof.
  intros Hin Hsize i Hi.
  assert (Hsub : X ⊆ list_to_set (seqZ 0 T)).
  { intros j Hj. apply elem_of_list_to_set, elem_of_seqZ.
    specialize (Hin j Hj). lia. }
  assert (Heq : X = list_to_set (seqZ 0 T)).
  { apply set_subseteq_size_eq; [exact Hsub|].
    rewrite size_list_to_set by apply NoDup_seqZ.
    rewrite length_seqZ. lia. }
  rewrite Heq. apply elem_of_list_to_set, elem_of_seqZ. lia.
Qed.

Lemma range_size (X : gset Z) (T : Z) :
  (forall i, 0 <= i < T -> i ∈ X) -> T <= Z.of_nat (size X).
Proof.
  intros Hall.
  assert (Hsub : list_to_set (seqZ 0 T) ⊆ X).
  { intros j Hj. apply elem_of_list_to_set, elem_of_seqZ in Hj.
    apply Hall. lia. }
  apply subseteq_size in Hsub.
  rewrite size_list_to_set in Hsub by apply NoDup_seqZ.
  rewrite length_seqZ in Hsub. lia.
Qed.

(** What [addChunk] does to a download in progress. *)
Lemma addChunk_cases total content d i :
  downloadInProgress total content d -> 0 <= i < total ->
  let blob := concat (map content (seqZ 0 total)) in
  (i ∈ StreamingDownload.receivedChunks d /\
   StreamingDownload.addChunk i (content i) d = (false, d, [])) \/
  ((i ∉ StreamingDownload.receivedChunks d) /\
   Z.of_nat (size (StreamingDownload.receivedChunks d)) + 1 = total /\
   StreamingDownload.addChunk i (content i) d
   = (true, StreamingDownload.create total,
      [StreamingDownload.onProgress; StreamingDownload.downloadBlob blob;
       StreamingDownload.onComplete blob])) \/
  ((i ∉ StreamingDownload.receivedChunks d) /\
   Z.of_nat (size (StreamingDownload.receivedChunks d)) + 1 < total /\
   exists d',
     StreamingDownload.addChunk i (content i) d
     = (true, d', [StreamingDownload.onProgress]) /\
     downloadInProgress total content d' /\
     StreamingDownload.receivedChunks d'
     = {[i]} ∪ StreamingDownload.receivedChunks d).
Proof.
  intros (Htot & Hdom & Hcons & Hsize) Hi blob.
  unfold StreamingDownload.addChunk.
  destruct (bool_decide (i ∈ StreamingDownload.receivedChunks d)) eqn:E.
  { left. apply bool_decide_eq_true in E. done. }
  apply bool_decide_eq_false in E. right.
  cbn [StreamingDownload.receivedChunks StreamingDownload.totalChunks].
  assert (Hs : size ({[i]} ∪ StreamingDownload.receivedChunks d)
               = S (size (StreamingDownload.receivedChunks d))).
  { rewrite size_union by (by apply disjoint_singleton_l). by rewrite size_singleton. }
  assert (Hin : forall j, j ∈ {[i]} ∪ StreamingDownload.receivedChunks d ->
                          0 <= j < total).
  { intros j [->%elem_of_singleton|Hj]%elem_of_union; [done|].
    rewrite Hdom in Hj. apply elem_of_dom in Hj as [c Hc].
    by apply Hcons in Hc as [? _]. }
  assert (Hcons' : forall j c,
             <[i := content i]> (StreamingDownload.chunks d) !! j = Some c ->
             0 <= j < total /\ c = content j).
  { intros j c Hj. destruct (decide (j = i)) as [->|Hne].
    - rewrite lookup_insert_eq in Hj. split; [done|congruence].
    - rewrite lookup_insert_ne in Hj by done. by apply Hcons. }
  assert (Hdom' : {[i]} ∪ StreamingDownload.receivedChunks d
                  = dom (<[i := content i]> (StreamingDownload.chunks d))).
  { by rewrite dom_insert_L, Hdom. }
  rewrite Hs, Htot.
  destruct (Z.of_nat (S (size (StreamingDownload.receivedChunks d))) =? total)
    eqn:Efull.
  - apply Z.eqb_eq in Efull. left. split; [done|]. split; [lia|].
    unfold StreamingDownload.finalize.
    cbn [StreamingDownload.chunks StreamingDownload.totalChunks].
    rewrite (orderedChunks_all _ content).
    + done.
    + intros j Hj. apply elem_of_seqZ in Hj.
      assert (Hj' : j ∈ {[i]} ∪ StreamingDownload.receivedChunks d).
      { apply (full_range _ total); [exact Hin|lia|lia]. }
      rewrite Hdom' in Hj'. apply elem_of_dom in Hj' as [c Hc].
      rewrite Hc. f_equal. by apply Hcons' in Hc as [_ ->].
  - apply Z.eqb_neq in Efull. right. split; [done|].
    assert (Hle : Z.of_nat (size ({[i]} ∪ StreamingDownload.receivedChunks d))
                  <= total) by (apply size_within; [lia|exact Hin]).
    rewrite Hs in Hle. split; [lia|].
    eexists. split; [reflexivity|]. split; [|done].
    split; [done|]. split; [exact Hdom'|]. split; [exact Hcons'|].
    cbn [StreamingDownload.receivedChunks]. rewrite Hs. lia.
Qed.

Lemma completedBlobs_app events1 events2 :
  completedBlobs (events1 ++ events2)
  = completedBlobs events1 ++ completedBlobs events2.
Proof. unfold completedBlobs. apply omap_app. Qed.

Lemma receiveAll_cons gunzipSync fileId i c rest downloads :
  UseFileTransfer.receiveAll gunzipSync fileId ((i, c) :: rest) downloads
  = (fst (UseFileTransfer.receiveAll gunzipSync fileId rest
            (fst (UseFileTransfer.onChunkReceived gunzipSync fileId i c
                    downloads))),
     snd (UseFileTransfer.onChunkReceived gunzipSync fileId i c downloads)
     ++ snd (UseFileTransfer.receiveAll gunzipSync fileId rest
               (fst (UseFileTransfer.onChunkReceived gunzipSync fileId i c
                       downloads)))).
Proof.
  cbn [UseFileTransfer.receiveAll].
  destruct (UseFileTransfer.onChunkReceived gunzipSync fileId i c downloads)
    as [d1 e1]. cbn [fst snd].
  by destruct (UseFileTransfer.receiveAll gunzipSync fileId rest d1).
Qed.

Lemma onChunkReceived_held gunzipSync fileId i c downloads d fresh d' events :
  JsMap.get fileId downloads = Some d ->
  StreamingDownload.addChunk i (Compression.decompressChunk gunzipSync c) d
  = (fresh, d', events) ->
  UseFileTransfer.onChunkReceived gunzipSync fileId i c downloads
  = (JsMap.set fileId d' downloads, events).
Proof.
  intros Hget Hadd. unfold UseFileTransfer.onChunkReceived.
  by rewrite Hget, Hadd.
Qed.

Lemma downloadInProgress_create total content :
  0 < total ->
  downloadInProgress total content (StreamingDownload.create total).
Proof.
  intros Htotal. unfold downloadInProgress, StreamingDownload.create.
  cbn [StreamingDownload.totalChunks StreamingDownload.receivedChunks
       StreamingDownload.chunks].
  split; [done|]. split; [by rewrite dom_empty_L|].
  split; [intros j cj Hj; by rewrite lookup_empty in Hj|].
  rewrite size_empty. lia.
Qed.

Section Receiving.
Variable gunzipSync : Buffer -> option Buffer.
Variable fileId : string.
Variable total : Z.
Variable content : Z -> Buffer.

Lemma receiveAll_in_progress arrivals :
  forall downloads d,
    JsMap.get fileId downloads = Some d ->
    downloadInProgress total content d ->
    genuineArrivals gunzipSync total content arrivals ->
    let run := UseFileTransfer.receiveAll gunzipSync fileId arrivals downloads in
    exists d',
      JsMap.get fileId (fst run) = Some d' /\
      downloadInProgress total content d' /\
      (forall blob, blob ∈ completedBlobs (snd run) ->
                    blob = concat (map content (seqZ 0 total))) /\
      (forall message, StreamingDownload.onError message ∉ snd run) /\
      (completedBlobs (snd run) = [] ->
       StreamingDownload.receivedChunks d'
       = StreamingDownload.receivedChunks d ∪ list_to_set (map fst arrivals)).
Proof.
  induction arrivals as [|[i c] rest IH]; intros downloads d Hget Hinv Hgen.
  { exists d. cbn. split; [done|]. split; [done|].
    split; [intros ? []%elem_of_nil|]. split; [intros ? []%elem_of_nil|].
    intros _. by rewrite union_empty_r_L. }
  assert (Hic : 0 <= i < total /\
                Compression.decompressChunk gunzipSync c = content i)
    by (apply Hgen, elem_of_cons; by left).
  destruct Hic as [Hi Hc].
  assert (Hrest : genuineArrivals gunzipSync total content rest)
    by (intros j cj Hj; apply Hgen, elem_of_cons; by right).
  assert (Htotal : 0 < total) by (destruct Hinv as (_ & _ & _ & ?); lia).
  cbv zeta. rewrite receiveAll_cons.
  destruct (addChunk_cases total content d i Hinv Hi)
    as [[Hin Hadd]|[(Hnew & Hfull & Hadd)
                   |(Hnew & Hless & d1 & Hadd & Hinv1 & Hrec1)]];
    rewrite <- Hc in Hadd;
    rewrite (onChunkReceived_held _ _ _ _ _ _ _ _ _ Hget Hadd);
    cbn [fst snd].
  - (* a chunk already held *)
    assert (Hget' : JsMap.get fileId (JsMap.set fileId d downloads) = Some d)
      by apply JsMap_get_set_eq.
    destruct (IH _ d Hget' Hinv Hrest) as (d' & Hg & Hi' & Hb & He & Hr).
    destruct (UseFileTransfer.receiveAll gunzipSync fileId rest
                (JsMap.set fileId d downloads)) as [ds2 ev2].
    exists d'. cbn [fst snd app] in *. split; [done|]. split; [done|].
    split; [done|]. split; [done|].
    intros Hnone. rewrite (Hr Hnone). cbn [map fst list_to_set].
    apply set_eq. intros j. rewrite !elem_of_union, elem_of_singleton.
    split; [tauto|]. intros [?|[->|?]]; tauto.
  - (* the last missing chunk *)
    assert (Hfresh : downloadInProgress total content
                       (StreamingDownload.create total))
      by (by apply downloadInProgress_create).
    assert (Hget' : JsMap.get fileId
                      (JsMap.set fileId (StreamingDownload.create total)
                         downloads)
                    = Some (StreamingDownload.create total))
      by apply JsMap_get_set_eq.
    destruct (IH _ _ Hget' Hfresh Hrest) as (d' & Hg & Hi' & Hb & He & Hr).
    destruct (UseFileTransfer.receiveAll gunzipSync fileId rest
                (JsMap.set fileId (StreamingDownload.create total) downloads))
      as [ds2 ev2].
    exists d'. cbn [fst snd] in *. rewrite completedBlobs_app.
    split; [done|]. split; [done|]. split.
    + intros blob [->|Hblob]%elem_of_cons; [done|by apply Hb].
    + split; [|discriminate].
      intros message Hm. apply (He message).
      apply elem_of_cons in Hm as [Hm|Hm]; [discriminate|].
      apply elem_of_cons in Hm as [Hm|Hm]; [discriminate|].
      apply elem_of_cons in Hm as [Hm|Hm]; [discriminate|done].
  - (* a new chunk, others still missing *)
    assert (Hget' : JsMap.get fileId (JsMap.set fileId d1 downloads) = Some d1)
      by apply JsMap_get_set_eq.
    destruct (IH _ d1 Hget' Hinv1 Hrest) as (d' & Hg & Hi' & Hb & He & Hr).
    destruct (UseFileTransfer.receiveAll gunzipSync fileId rest
                (JsMap.set fileId d1 downloads)) as [ds2 ev2].
    exists d'. cbn [fst snd] in *. rewrite completedBlobs_app.
    split; [done|]. split; [done|]. split; [done|]. split.
    + intros message Hm. apply (He message).
      apply elem_of_cons in Hm as [Hm|Hm]; [discriminate|done].
    + intros Hnone. rewrite (Hr Hnone), Hrec1. cbn [map fst list_to_set].
      apply set_eq. intros j. rewrite !elem_of_union. tauto.
Qed.

End Receiving.

Lemma receiveAll_app gunzipSync fileId arrivals1 arrivals2 downloads :
  UseFileTransfer.receiveAll gunzipSync fileId (arrivals1 ++ arrivals2)
    downloads
  = (fst (UseFileTransfer.receiveAll gunzipSync fileId arrivals2
            (fst (UseFileTransfer.receiveAll gunzipSync fileId arrivals1
                    downloads))),
     snd (UseFileTransfer.receiveAll gunzipSync fileId arrivals1 downloads)
     ++ snd (UseFileTransfer.receiveAll gunzipSync fileId arrivals2
               (fst (UseFileTransfer.receiveAll gunzipSync fileId arrivals1
                       downloads)))).
Proof.
  revert downloads. induction arrivals1 as [|[i c] rest IH]; intros downloads.
  - cbn [app UseFileTransfer.receiveAll fst snd].
    by destruct (UseFileTransfer.receiveAll gunzipSync fileId arrivals2
                   downloads).
  - cbn [app]. rewrite !receiveAll_cons, IH. cbn [fst snd].
    by rewrite app_assoc.
Qed.

(** Chunks that arrive once each: the download completes with the last
    one, if that makes the file whole, and is empty again afterwards. *)
Lemma receiveAll_distinct gunzipSync fileId total content arrivals :
  forall downloads d,
    JsMap.get fileId downloads = Some d ->
    downloadInProgress total content d ->
    genuineArrivals gunzipSync total content arrivals ->
    NoDup (map fst arrivals) ->
    (forall i, i ∈ map fst arrivals -> i ∉ StreamingDownload.receivedChunks d) ->
    Z.of_nat (size (StreamingDownload.receivedChunks d))
    + Z.of_nat (length arrivals) <= total ->
    let run := UseFileTransfer.receiveAll gunzipSync fileId arrivals downloads in
    if Z.of_nat (size (StreamingDownload.receivedChunks d))
       + Z.of_nat (length arrivals) =? total
    then JsMap.get fileId (fst run) = Some (StreamingDownload.create total) /\
         completedBlobs (snd run) = [concat (map content (seqZ 0 total))]
    else exists d',
        JsMap.get fileId (fst run) = Some d' /\
        downloadInProgress total content d' /\
        completedBlobs (snd run) = [].
Proof.
  induction arrivals as [|[i c] rest IH];
    intros downloads d Hget Hinv Hgen Hnd Hnew Hbound; cbv zeta.
  { cbn [length UseFileTransfer.receiveAll fst snd].
    destruct Hinv as (H1 & H2 & H3 & H4).
    rewrite (proj2 (Z.eqb_neq _ _)) by lia.
    exists d. done. }
  assert (Hic : 0 <= i < total /\
                Compression.decompressChunk gunzipSync c = content i)
    by (apply Hgen, elem_of_cons; by left).
  destruct Hic as [Hi Hc].
  assert (Hrest : genuineArrivals gunzipSync total content rest)
    by (intros j cj Hj; apply Hgen, elem_of_cons; by right).
  cbn [map fst] in Hnd. apply NoDup_cons in Hnd as [Hi_rest Hnd].
  assert (Hi_new : i ∉ StreamingDownload.receivedChunks d)
    by (apply Hnew; cbn [map fst]; apply elem_of_cons; by left).
  cbn [length] in Hbound |- *. rewrite receiveAll_cons.
  destruct (addChunk_cases total content d i Hinv Hi)
    as [[Hin Hadd]|[(_ & Hfull & Hadd)
                   |(_ & Hless & d1 & Hadd & Hinv1 & Hrec1)]];
    [done| |];
    rewrite <- Hc in Hadd;
    rewrite (onChunkReceived_held _ _ _ _ _ _ _ _ _ Hget Hadd);
    cbn [fst snd].
  - assert (rest = []) by (destruct rest; [done|cbn [length] in Hbound; lia]).
    subst rest. cbn [length UseFileTransfer.receiveAll fst snd].
    rewrite (proj2 (Z.eqb_eq _ _)) by lia.
    split; [apply JsMap_get_set_eq|done].
  - assert (Hget' : JsMap.get fileId (JsMap.set fileId d1 downloads) = Some d1)
      by apply JsMap_get_set_eq.
    assert (Hsize1 : size (StreamingDownload.receivedChunks d1)
                     = S (size (StreamingDownload.receivedChunks d))).
    { rewrite Hrec1, size_union by (by apply disjoint_singleton_l).
      by rewrite size_singleton. }
    specialize (IH _ d1 Hget' Hinv1 Hrest Hnd).
    cbv zeta in IH. rewrite Hsize1 in IH.
    replace (Z.of_nat (S (size (StreamingDownload.receivedChunks d)))
             + Z.of_nat (length rest))
      with (Z.of_nat (size (StreamingDownload.receivedChunks d))
            + Z.of_nat (S (length rest))) in IH by lia.
    rewrite completedBlobs_app. apply IH; [|lia].
    intros j Hj. rewrite Hrec1.
    intros [->%elem_of_singleton|Hjd]%elem_of_union; [done|].
    apply (Hnew j); [|done]. cbn [map fst]. apply elem_of_cons. by right.
Qed.

Lemma covering_length (total : Z) (indices : list Z) :
  NoDup indices ->
  (forall i, i ∈ indices -> 0 <= i < total) ->
  (forall i, 0 <= i < total -> i ∈ indices) ->
  Z.of_nat (length indices) = Z.max 0 total.
Proof.
  intros Hnd Hin Hall.
  assert (Heq : (list_to_set indices : gset Z) = list_to_set (seqZ 0 total)).
  { apply set_eq. intros i. rewrite !elem_of_list_to_set, elem_of_seqZ.
    split; [intros H%Hin; lia|intros H; apply Hall; lia]. }
  apply (f_equal size) in Heq.
  rewrite !size_list_to_set in Heq by (done || apply NoDup_seqZ).
  rewrite length_seqZ in Heq. lia.
Qed.

Lemma genuineArrivals_total gunzipSync total content arrivals :
  genuineArrivals gunzipSync total content arrivals ->
  arrivals <> [] -> 0 < total.
Proof.
  intros Hgen Hne. destruct arrivals as [|[i c] rest]; [done|].
  destruct (Hgen i c) as [? _]; [apply elem_of_cons; by left|lia].
Qed.

Lemma receiveAll_started gunzipSync fileId total content arrivals downloads :
  genuineArrivals gunzipSync total content arrivals ->
  let events :=
    snd (UseFileTransfer.receiveAll gunzipSync fileId arrivals
           (UseFileTransfer.onFileTransferStarted fileId total downloads)) in
  (forall blob, blob ∈ completedBlobs events ->
                blob = concat (map content (seqZ 0 total))) /\
  (forall message, StreamingDownload.onError message ∉ events) /\
  (0 < total ->
   (forall i, 0 <= i < total -> i ∈ map fst arrivals) ->
   completedBlobs events <> []).
Proof.
  intros Hgen events. unfold events.
  destruct (decide (arrivals = [])) as [->|Hne].
  { cbn. split; [intros ? []%elem_of_nil|]. split; [intros ? []%elem_of_nil|].
    intros Htotal Hall. specialize (Hall 0 ltac:(lia)).
    by apply elem_of_nil in Hall. }
  pose proof (genuineArrivals_total _ _ _ _ Hgen Hne) as Htotal.
  destruct (receiveAll_in_progress gunzipSync fileId total content arrivals
              (UseFileTransfer.onFileTransferStarted fileId total downloads)
              (StreamingDownload.create total))
    as (d' & _ & Hinv' & Hblobs & Herr & Hrec);
    [apply JsMap_get_set_eq|by apply downloadInProgress_create|done|].
  split; [exact Hblobs|]. split; [exact Herr|].
  intros _ Hall Hnone. specialize (Hrec Hnone).
  destruct Hinv' as (_ & _ & _ & Hsize).
  assert (total <= Z.of_nat (size (StreamingDownload.receivedChunks d'))).
  { apply range_size. intros i Hi. rewrite Hrec.
    apply elem_of_union_r, elem_of_list_to_set. by apply Hall. }
  lia.
Qed.

(** X3.  Reassembly in the browser.  Whatever the order in which the
    chunks of a file arrive, and however often each arrives, every blob
    handed to [onComplete] is the chunks [0 .. totalChunks - 1] put end to
    end, [onError] is never called, and once every chunk has arrived at
    least once the download has completed. *)
Theorem receiveAll_reassembles
    (gunzipSync : Buffer -> option Buffer) (fileId : string) (total : Z)
    (content : Z -> Buffer) (arrivals : list (Z * Buffer))
    (downloads : JsMap.t StreamingDownload.t) :
  genuineArrivals gunzipSync total content arrivals ->
  let events :=
    snd (UseFileTransfer.receiveAll gunzipSync fileId arrivals
           (UseFileTransfer.onFileTransferStarted fileId total downloads)) in
  (forall blob, blob ∈ completedBlobs events ->
                blob = concat (map content (seqZ 0 total))) /\
  (forall message, StreamingDownload.onError message ∉ events) /\
  (0 < total ->
   (forall i, 0 <= i < total -> i ∈ map fst arrivals) ->
   completedBlobs events <> []).
Proof. apply receiveAll_started. Qed.

Lemma receiveAll_reassembles_witness :
  let events :=
    snd (UseFileTransfer.receiveAll (fun _ => None) "f"
           [(1, [Byte.x03]); (0, [Byte.x01; Byte.x02]); (1, [Byte.x03])]
           (UseFileTransfer.onFileTransferStarted "f" 2 [])) in
  (forall blob, blob ∈ completedBlobs events ->
                blob = [Byte.x01; Byte.x02; Byte.x03]) /\
  completedBlobs events <> [].
Proof.
  destruct (receiveAll_reassembles (fun _ => None) "f" 2
              (fun i => if i =? 0 then [Byte.x01; Byte.x02] else [Byte.x03])
              [(1, [Byte.x03]); (0, [Byte.x01; Byte.x02]); (1, [Byte.x03])]
              [])
    as (Hblobs & _ & Hdone).
  - intros i c Hic.
    repeat (apply elem_of_cons in Hic as [Hic|Hic];
            [injection Hic as -> ->; split; [lia|reflexivity]|]).
    by apply elem_of_nil in Hic.
  - split; [exact Hblobs|]. apply Hdone; [lia|].
    intros i Hi. assert (Hi' : i = 0 \/ i = 1) by lia.
    destruct Hi' as [-> | ->]; cbn [map fst].
    + apply elem_of_cons. right. apply elem_of_cons. by left.
    + apply elem_of_cons. by left.
Defined.

(** X4.  When every chunk of the file arrives exactly once, in whatever
    order, the download completes exactly once, with the last arrival.
    The finished download is empty again: if all chunks then arrive a
    second time, the file is downloaded a second time. *)
Theorem receiveAll_once_each
    (gunzipSync : Buffer -> option Buffer) (fileId : string) (total : Z)
    (content : Z -> Buffer) (arrivals : list (Z * Buffer))
    (downloads : JsMap.t StreamingDownload.t) :
  0 < total ->
  genuineArrivals gunzipSync total content arrivals ->
  NoDup (map fst arrivals) ->
  (forall i, 0 <= i < total -> i ∈ map fst arrivals) ->
  let started :=
    UseFileTransfer.onFileTransferStarted fileId total downloads in
  let file := concat (map content (seqZ 0 total)) in
  completedBlobs
    (snd (UseFileTransfer.receiveAll gunzipSync fileId arrivals started))
  = [file] /\
  completedBlobs
    (snd (UseFileTransfer.receiveAll gunzipSync fileId (arrivals ++ arrivals)
            started))
  = [file; file].
Proof.
  intros Htotal Hgen Hnd Hall started file.
  assert (Hlen : Z.of_nat (length arrivals) = total).
  { rewrite <- (length_map fst arrivals).
    rewrite (covering_length total); [lia|done| |done].
    intros i Hi. apply list_elem_of_fmap in Hi as ([j c] & -> & Hjc).
    by apply Hgen in Hjc as [? _]. }
  assert (Hpass : forall ds,
            JsMap.get fileId ds = Some (StreamingDownload.create total) ->
            JsMap.get fileId
              (fst (UseFileTransfer.receiveAll gunzipSync fileId arrivals ds))
            = Some (StreamingDownload.create total) /\
            completedBlobs
              (snd (UseFileTransfer.receiveAll gunzipSync fileId arrivals ds))
            = [file]).
  { intros ds Hget.
    pose proof (receiveAll_distinct gunzipSync fileId total content arrivals
                  ds (StreamingDownload.create total) Hget
                  (downloadInProgress_create total content Htotal)
                  Hgen Hnd) as Hrun.
    cbv zeta in Hrun.
    cbn [StreamingDownload.create StreamingDownload.receivedChunks] in Hrun.
    rewrite size_empty in Hrun.
    rewrite (proj2 (Z.eqb_eq _ _)) in Hrun by lia.
    apply Hrun; [|lia]. intros i _. apply not_elem_of_empty. }
  destruct (Hpass started) as [Hget1 Hblobs1]; [apply JsMap_get_set_eq|].
  split; [exact Hblobs1|].
  rewrite receiveAll_app. cbn [snd]. rewrite completedBlobs_app, Hblobs1.
  destruct (Hpass _ Hget1) as [_ ->]. done.
Qed.

Lemma receiveAll_once_each_witness :
  completedBlobs
    (snd (UseFileTransfer.receiveAll (fun _ => None) "f"
            ([(1, [Byte.x03]); (0, [Byte.x01; Byte.x02])]
             ++ [(1, [Byte.x03]); (0, [Byte.x01; Byte.x02])])
            (UseFileTransfer.onFileTransferStarted "f" 2 [])))
  = [[Byte.x01; Byte.x02; Byte.x03]; [Byte.x01; Byte.x02; Byte.x03]].
Proof.
  destruct (receiveAll_once_each (fun _ => None) "f" 2
              (fun i => if i =? 0 then [Byte.x01; Byte.x02] else [Byte.x03])
              [(1, [Byte.x03]); (0, [Byte.x01; Byte.x02])] [])
    as [_ Htwice].
  - lia.
  - intros i c Hic.
    repeat (apply elem_of_cons in Hic as [Hic|Hic];
            [injection Hic as -> ->; split; [lia|reflexivity]|]).
    by apply elem_of_nil in Hic.
  - apply (bool_decide_unpack _). by vm_compute.
  - intros i Hi. assert (Hi' : i = 0 \/ i = 1) by lia.
    destruct Hi' as [-> | ->]; cbn [map fst].
    + apply elem_of_cons. right. apply elem_of_cons. by left.
    + apply elem_of_cons. by left.
  - exact Htwice.
Defined.

(** X5.  From one browser to the other.  If the chunk events that
    [uploadFile] sends for a non-empty file all reach the receiving hook,
    in any order and any number of times each, and no slice of the file
    is itself a gzip stream, then the file handed to [onComplete] is the
    file that was sent, and it is handed over at least once. *)
Theorem browser_to_browser
    (gzipSync gunzipSync : Buffer -> option Buffer) (enabled : bool)
    (chunkSize : Z) (fileId clientId : string) (file : Buffer) (calls : nat)
    (arrivals : list (Z * Buffer)) (downloads : JsMap.t StreamingDownload.t) :
  0 < chunkSize ->
  UseFileTransfer.totalChunks chunkSize file <= Z.of_nat calls ->
  file <> [] ->
  (forall x y, gzipSync x = Some y -> gunzipSync y = Some x) ->
  (forall i, 0 <= i < UseFileTransfer.totalChunks chunkSize file ->
             gunzipSync (sliceOf chunkSize file i) = None) ->
  let sent :=
    UseFileTransfer.sendAll gzipSync enabled chunkSize calls fileId clientId
      file (Some 0) in
  (forall i c, (i, c) ∈ arrivals ->
     exists ev, ev ∈ sent /\ uc_chunkIndex ev = i /\ uc_chunk ev = c) ->
  (forall ev, ev ∈ sent -> (uc_chunkIndex ev, uc_chunk ev) ∈ arrivals) ->
  let events :=
    snd (UseFileTransfer.receiveAll gunzipSync fileId arrivals
           (UseFileTransfer.onFileTransferStarted fileId
              (UseFileTransfer.totalChunks chunkSize file) downloads)) in
  completedBlobs events <> [] /\
  (forall blob, blob ∈ completedBlobs events -> blob = file).
Proof.
  intros Hc Hcalls Hfile Hcodec Hraw sent Hfrom Hall events.
  set (total := UseFileTransfer.totalChunks chunkSize file) in *.
  assert (Hsent : forall ev, ev ∈ sent <->
            exists i, 0 <= i < total /\
              ev = {| uc_fileId := fileId; uc_chunkIndex := i;
                      uc_chunk := Compression.compressChunk gzipSync enabled
                                    (sliceOf chunkSize file i);
                      uc_clientId := clientId |}).
  { intros ev. unfold sent. rewrite sendAll_events by done. fold total.
    rewrite list_elem_of_fmap. split.
    - intros (i & -> & Hi). apply elem_of_seqZ in Hi. exists i. split; [lia|done].
    - intros (i & Hi & ->). exists i. split; [done|]. apply elem_of_seqZ. lia. }
  assert (Hgen : genuineArrivals gunzipSync total (sliceOf chunkSize file)
                   arrivals).
  { intros i c Hic. destruct (Hfrom i c Hic) as (ev & Hev & <- & <-).
    apply Hsent in Hev as (j & Hj & ->). cbn [uc_chunkIndex uc_chunk].
    split; [done|]. apply decompress_compress; [done|by apply Hraw]. }
  destruct (receiveAll_started gunzipSync fileId total
              (sliceOf chunkSize file) arrivals downloads Hgen)
    as (Hblobs & _ & Hdone).
  fold events in Hblobs, Hdone.
  rewrite slices_concat in Hblobs by done.
  split; [|exact Hblobs].
  apply Hdone; [by apply totalChunks_pos|].
  intros i Hi. apply list_elem_of_fmap.
  eexists (i, _). split; [reflexivity|].
  apply (Hall {| uc_fileId := fileId; uc_chunkIndex := i;
                 uc_chunk := Compression.compressChunk gzipSync enabled
                               (sliceOf chunkSize file i);
                 uc_clientId := clientId |}).
  apply Hsent. by exists i.
Qed.

Lemma browser_to_browser_witness :
  let gzipSync := fun x : Buffer => Some (Byte.x1f :: x) in
  let gunzipSync :=
    fun y : Buffer => match y with Byte.x1f :: x => Some x | _ => None end in
  let file := [Byte.x01; Byte.x02; Byte.x03; Byte.x04; Byte.x05] in
  let arrivals :=
    [(2, [Byte.x05]); (0, [Byte.x01; Byte.x02]); (2, [Byte.x05]);
     (1, [Byte.x03; Byte.x04])] in
  let events :=
    snd (UseFileTransfer.receiveAll gunzipSync "f" arrivals
           (UseFileTransfer.onFileTransferStarted "f"
              (UseFileTransfer.totalChunks 2 file) [])) in
  completedBlobs events <> [] /\
  (forall blob, blob ∈ completedBlobs events -> blob = file).
Proof.
  intros gzipSync gunzipSync file arrivals events.
  assert (Hsent : UseFileTransfer.sendAll gzipSync true 2 3 "f" "A" file
                    (Some 0)
                  = [ {| uc_fileId := "f"; uc_chunkIndex := 0;
                         uc_chunk := [Byte.x01; Byte.x02];
                         uc_clientId := "A" |};
                      {| uc_fileId := "f"; uc_chunkIndex := 1;
                         uc_chunk := [Byte.x03; Byte.x04];
                         uc_clientId := "A" |};
                      {| uc_fileId := "f"; uc_chunkIndex := 2;
                         uc_chunk := [Byte.x05]; uc_clientId := "A" |} ])
    by (vm_compute; reflexivity).
  destruct (browser_to_browser gzipSync gunzipSync true 2 "f" "A" file 3
              arrivals []) as [Hdone Hblobs].
  - lia.
  - by vm_compute.
  - discriminate.
  - intros x y Hxy. injection Hxy as <-. reflexivity.
  - intros i Hi.
    assert (Ht : UseFileTransfer.totalChunks 2 file = 3)
      by (vm_compute; reflexivity).
    rewrite Ht in Hi. assert (Hi' : i = 0 \/ i = 1 \/ i = 2) by lia.
    destruct Hi' as [->|[->| ->]]; reflexivity.
  - rewrite Hsent. intros i c Hic. unfold arrivals in Hic.
    exists {| uc_fileId := "f"; uc_chunkIndex := i; uc_chunk := c;
              uc_clientId := "A" |}.
    split; [|done].
    repeat (apply elem_of_cons in Hic as [Hic|Hic];
            [injection Hic as -> ->; rewrite !elem_of_cons;
             repeat (first [by (left; reflexivity)|right])|]).
    by apply elem_of_nil in Hic.
  - rewrite Hsent. intros ev Hev. unfold arrivals.
    repeat (apply elem_of_cons in Hev as [->|Hev];
            [cbn [uc_chunkIndex uc_chunk]; rewrite !elem_of_cons;
             repeat (first [by (left; reflexivity)|right])|]).
    by apply elem_of_nil in Hev.
  - split; [exact Hdone|exact Hblobs].
Defined.

(* ===================================================================== *)
(** ** Leader election: a master that renews in time *)
(* ===================================================================== *)

Lemma electionStep_soleMaster i id expiry k c :
  soleMaster i id expiry c -> tick_time k < expiry ->
  soleMaster i id
    (if (tick_node k =? i)%nat && tick_reachable k
     then tick_time k + ClusterManager.MASTER_TTL * 1000 else expiry)
    (fst (electionStep k c)).
Proof.
  intros (Hdist & (ni & Hi & Hid & Hcl & Hm) & Hlock & Hothers) Hnow.
  pose proof (lockHeldBy_live _ _ _ _ Hlock Hnow) as Hlive.
  unfold electionStep.
  destruct (members c !! tick_node k) as [node|] eqn:Hnode.
  2:{ cbn [fst].
      replace (tick_node k =? i)%nat with false
        by (symmetry; apply Nat.eqb_neq; congruence).
      cbn [andb]. split; [done|]. split; [by exists ni|]. done. }
  pose proof (tryBecomeMaster_cases (tick_time k) (tick_reachable k) node
                (sharedRedis c)) as Hcases.
  destruct (ClusterManager.tryBecomeMaster (tick_time k) (tick_reachable k)
              node (sharedRedis c)) as [[node' r'] out].
  destruct Hcases as (Hsameid & Hsamecl & Hcases).
  cbn [fst members sharedRedis].
  assert (Hlen : (tick_node k < length (members c))%nat)
    by (by apply lookup_lt_Some with node).
  assert (Hat : forall j nj,
            <[tick_node k := node']> (members c) !! j = Some nj ->
            (j = tick_node k /\ nj = node') \/
            (j <> tick_node k /\ members c !! j = Some nj)).
  { intros j nj Hj. destruct (decide (j = tick_node k)) as [->|Hne].
    - rewrite list_lookup_insert_eq in Hj by done. left. split; congruence.
    - rewrite list_lookup_insert_ne in Hj by done. auto. }
  assert (Hdist' : distinctIds (<[tick_node k := node']> (members c))).
  { intros a b na nb x Ha Hb Hxa Hxb.
    destruct (Hat a na Ha) as [[-> ->]|[Hnea Holda]];
      destruct (Hat b nb Hb) as [[-> ->]|[Hneb Holdb]]; [done| | |].
    - rewrite Hsameid in Hxa. by apply (Hdist _ _ node nb x).
    - rewrite Hsameid in Hxb. by apply (Hdist _ _ na node x).
    - by apply (Hdist _ _ na nb x). }
  destruct (decide (tick_node k = i)) as [Hki|Hki].
  - (* the master itself runs its election *)
    rewrite Hki in *. rewrite Nat.eqb_refl. cbn [andb].
    assert (node = ni) by congruence. subst node.
    assert (Hothers' : forall j nj, j <> i ->
              <[i := node']> (members c) !! j = Some nj ->
              ClusterManager.isMaster nj = false).
    { intros j nj Hj Hlook. rewrite list_lookup_insert_ne in Hlook by done.
      by apply (Hothers j). }
    assert (Hi' : <[i := node']> (members c) !! i = Some node')
      by (by rewrite list_lookup_insert_eq).
    destruct Hcases as [(-> & -> & Hwhy)|[Hacq|Hlost]].
    + destruct Hwhy as [-> | [Hnoid|Hnocl]]; [|congruence|congruence].
      split; [done|]. split; [by exists ni|]. done.
    + destruct Hacq as (id0 & Hid0 & _ & -> & Hm' & Hheld & _).
      assert (id0 = id) by congruence. subst id0.
      split; [done|]. split; [|done].
      exists node'. rewrite Hsameid, Hsamecl. done.
    + destruct Hlost as (id0 & other & Hid0 & _ & _ & _ & Hget & Hne).
      congruence.
  - (* another node runs its election while the lock is held *)
    replace (tick_node k =? i)%nat with false
      by (symmetry; apply Nat.eqb_neq; congruence).
    cbn [andb].
    assert (Hi' : <[tick_node k := node']> (members c) !! i = Some ni)
      by (by rewrite list_lookup_insert_ne).
    assert (Hoff : ClusterManager.isMaster node = false)
      by (by apply (Hothers (tick_node k))).
    destruct Hcases as [(-> & -> & _)|[Hacq|Hlost]].
    + split; [done|]. split; [by exists ni|]. split; [done|].
      intros j nj Hj Hlook.
      destruct (Hat j nj Hlook) as [[-> ->]|[_ Hold]]; [done|].
      by apply (Hothers j).
    + exfalso. destruct Hacq as (id0 & Hid0 & _ & _ & _ & _ & Hwas).
      destruct Hwas as [Hwas|Hwas]; [congruence|].
      assert (id0 = id) by congruence. subst id0.
      apply Hki. by apply (Hdist (tick_node k) i node ni id).
    + destruct Hlost as (_ & _ & _ & _ & Hoff' & -> & _).
      split; [done|]. split; [by exists ni|]. split; [done|].
      intros j nj Hj Hlook.
      destruct (Hat j nj Hlook) as [[-> ->]|[_ Hold]]; [done|].
      by apply (Hothers j).
Qed.

(** X6.  A master that renews in time stays the only master.  If node
    [i] is master, holds [cluster:master] and is the only node with its
    flag set, and every election run of the schedule takes place before
    the lock runs out, the lock being renewed for [MASTER_TTL] seconds by
    each run of node [i] that reaches the store, then after the schedule
    node [i] is still master, still holds the lock, and no other node has
    set its flag. *)
Theorem master_renewing_in_time_stays_sole_master
    (i : nat) (id : string) (ticks : list Tick) :
  forall (expiry : Z) (c : Cluster),
    soleMaster i id expiry c ->
    renewsInTime i expiry ticks ->
    exists expiry', soleMaster i id expiry' (runElections ticks c).
Proof.
  induction ticks as [|k rest IH]; intros expiry c Hsole Hrenew.
  - by exists expiry.
  - destruct Hrenew as [Hnow Hrest]. cbn [runElections].
    apply (IH _ _ (electionStep_soleMaster i id expiry k c Hsole Hnow) Hrest).
Qed.

Lemma master_renewing_in_time_stays_sole_master_witness :
  exists expiry',
    soleMaster 0 "n1" expiry'
      (runElections
         [ mkTick 5000 0 true; mkTick 5100 1 true; mkTick 5200 2 true;
           mkTick 10000 0 false; mkTick 10100 1 true; mkTick 19000 0 true;
           mkTick 19500 2 true ]
         (runElections [mkTick 0 0 true] threeNodes)).
Proof.
  apply (master_renewing_in_time_stays_sole_master 0 "n1" _ 15000).
  - split; [|split; [|split]].
    + intros a b na nb id Ha Hb Hida Hidb.
      destruct a as [|[|[|a]]]; [| | |discriminate Ha];
        destruct b as [|[|[|b]]];
        [| | |discriminate Hb| | | |discriminate Hb| | | |discriminate Hb];
        try reflexivity;
        cbv in Ha, Hb; injection Ha as <-; injection Hb as <-;
        cbv in Hida, Hidb; congruence.
    + eexists. split; [reflexivity|]. split; [reflexivity|].
      split; reflexivity.
    + eexists _, _. split; [reflexivity|]. split; [reflexivity|].
      split; [reflexivity|]. by vm_compute.
    + intros j node Hj Hlook.
      destruct j as [|[|[|j]]]; [done| | |discriminate Hlook];
        cbv in Hlook; injection Hlook as <-; reflexivity.
  - cbn [renewsInTime tick_time tick_node tick_reachable Nat.eqb andb].
    unfold ClusterManager.MASTER_TTL. repeat split; lia.
Defined.

(* ===================================================================== *)
(** ** The acknowledgement checker *)
(* ===================================================================== *)

Section RetryBudget.
Variable config : Config.

Lemma scanPendingAcks_entry now m i :
  fst (fst (SocketHandler.scanPendingAcks config now m)) !! i
  = (fun a =>
       if SocketHandler.timedOut config now a
          && negb (maxRetries config <=? retries a)
       then {| timestamp := now; retries := retries a + 1 |} else a)
    <$> m !! i.
Proof. unfold SocketHandler.scanPendingAcks. cbn [fst]. apply lookup_fmap. Qed.

Lemma scanPendingAcks_retry now m i :
  i ∈ snd (fst (SocketHandler.scanPendingAcks config now m)) <->
  exists a, m !! i = Some a /\
            SocketHandler.timedOut config now a = true /\
            retries a < maxRetries config.
Proof.
  unfold SocketHandler.scanPendingAcks. cbn [fst snd].
  rewrite list_elem_of_fmap. split.
  - intros ([j a] & -> & Hin). apply list_elem_of_In, filter_In in Hin.
    destruct Hin as [Hin Hp]. apply list_elem_of_In, elem_of_map_to_list in Hin.
    cbn [fst snd] in *. apply andb_true_iff in Hp as [Hto Hr].
    exists a. split; [done|]. split; [done|].
    apply negb_true_iff, Z.leb_gt in Hr. lia.
  - intros (a & Hm & Hto & Hr). exists (i, a). split; [done|].
    apply list_elem_of_In, filter_In. split.
    + by apply list_elem_of_In, elem_of_map_to_list.
    + cbn [snd]. rewrite Hto. cbn [andb].
      apply negb_true_iff, Z.leb_gt. lia.
Qed.

Lemma scanPendingAcks_fail now m i :
  i ∈ snd (SocketHandler.scanPendingAcks config now m) <->
  exists a, m !! i = Some a /\
            SocketHandler.timedOut config now a = true /\
            maxRetries config <= retries a.
Proof.
  unfold SocketHandler.scanPendingAcks. cbn [fst snd].
  rewrite list_elem_of_fmap. split.
  - intros ([j a] & -> & Hin). apply list_elem_of_In, filter_In in Hin.
    destruct Hin as [Hin Hp]. apply list_elem_of_In, elem_of_map_to_list in Hin.
    cbn [fst snd] in *. apply andb_true_iff in Hp as [Hto Hr].
    exists a. split; [done|]. split; [done|]. by apply Z.leb_le.
  - intros (a & Hm & Hto & Hr). exists (i, a). split; [done|].
    apply list_elem_of_In, filter_In. split.
    + by apply list_elem_of_In, elem_of_map_to_list.
    + cbn [snd]. rewrite Hto. cbn [andb]. by apply Z.leb_le.
Qed.

Lemma checkerRuns_entry t0 i :
  0 <= ackTimeout config ->
  forall times m a,
    m !! i = Some a ->
    0 <= retries a <= maxRetries config ->
    t0 + retries a * ackTimeout config <= timestamp a ->
    exists a',
      checkerRuns config times m !! i = Some a' /\
      0 <= retries a' <= maxRetries config /\
      t0 + retries a' * ackTimeout config <= timestamp a'.
Proof.
  intros HT. induction times as [|now times IH]; intros m a Hm Hr Ht.
  - exists a. done.
  - unfold checkerRuns. cbn [foldl]. fold (checkerRuns config times).
    eapply IH.
    + rewrite scanPendingAcks_entry, Hm. reflexivity.
    + destruct (SocketHandler.timedOut config now a
                && negb (maxRetries config <=? retries a)) eqn:E;
        cbn [retries]; [|done].
      apply andb_true_iff in E as [_ E].
      apply negb_true_iff, Z.leb_gt in E. lia.
    + destruct (SocketHandler.timedOut config now a
                && negb (maxRetries config <=? retries a)) eqn:E;
        cbn [retries timestamp]; [|done].
      apply andb_true_iff in E as [E _].
      unfold SocketHandler.timedOut in E. apply Z.ltb_lt in E. nia.
Qed.

End RetryBudget.

(** X7.  The retry budget of the acknowledgement checker.  For a chunk
    recorded at time [t0] and never acknowledged, however often and
    whenever the checker runs: the retry count of the chunk stays within
    [maxRetries]; a run that retries the chunk stamps it with the time of
    the run; and a run reports the chunk as failed only later than
    [t0 + (maxRetries + 1) * ackTimeout]. *)
Theorem checker_retry_budget
    (config : Config) (times : list Z) (now t0 i : Z) (m : gmap Z AckInfo) :
  0 <= ackTimeout config -> 0 <= maxRetries config ->
  m !! i = Some {| timestamp := t0; retries := 0 |} ->
  let pending := checkerRuns config times m in
  let scan := SocketHandler.scanPendingAcks config now pending in
  (exists a, pending !! i = Some a /\
             0 <= retries a <= maxRetries config /\
             t0 + retries a * ackTimeout config <= timestamp a) /\
  (i ∈ snd (fst scan) ->
   exists a, fst (fst scan) !! i = Some a /\
             1 <= retries a <= maxRetries config /\ timestamp a = now) /\
  (i ∈ snd scan -> t0 + (maxRetries config + 1) * ackTimeout config < now).
Proof.
  intros HT HR Hm pending scan.
  destruct (checkerRuns_entry config t0 i HT times m _ Hm) as (a & Ha & Hr & Ht);
    [cbn; lia|cbn; lia|].
  fold pending in Ha.
  split; [by exists a|]. split.
  - intros Hretry. apply scanPendingAcks_retry in Hretry as (a1 & Ha1 & Hto & Hlt).
    assert (a1 = a) by congruence. subst a1.
    unfold scan. rewrite scanPendingAcks_entry, Ha. cbn [fmap option_fmap option_map].
    rewrite Hto. rewrite (proj2 (Z.leb_gt _ _)) by lia. cbn [andb negb].
    eexists. split; [reflexivity|]. cbn. lia.
  - intros Hfail. apply scanPendingAcks_fail in Hfail as (a1 & Ha1 & Hto & Hge).
    assert (a1 = a) by congruence. subst a1.
    unfold SocketHandler.timedOut in Hto. apply Z.ltb_lt in Hto. nia.
Qed.

Lemma checker_retry_budget_witness :
  let scan :=
    SocketHandler.scanPendingAcks defaultConfig 45000
      (checkerRuns defaultConfig [12000; 23000; 34000]
         {[0 := {| timestamp := 1005; retries := 0 |}]}) in
  0 ∈ snd scan /\ 1005 + (3 + 1) * 10000 < 45000.
Proof.
  destruct (checker_retry_budget defaultConfig [12000; 23000; 34000] 45000
              1005 0 {[0 := {| timestamp := 1005; retries := 0 |}]})
    as (_ & _ & Hfail).
  - by vm_compute.
  - by vm_compute.
  - reflexivity.
  - assert (Hin : 0 ∈ snd (SocketHandler.scanPendingAcks defaultConfig 45000
                            (checkerRuns defaultConfig [12000; 23000; 34000]
                               {[0 := {| timestamp := 1005; retries := 0 |}]}))).
    { apply (bool_decide_unpack _). by vm_compute. }
    split; [exact Hin|]. exact (Hfail Hin).
Defined.

Lemma JsMap_set_Forall {V} (P : string * V -> Prop) k v (m : JsMap.t V) :
  (forall k', P (k', v)) -> Forall P m -> Forall P (JsMap.set k v m).
Proof.
  intros Hv. induction m as [|[k' v'] m IH]; intros Hm; cbn [JsMap.set].
  - by constructor.
  - apply Forall_cons in Hm as [Hhd Htl].
    destruct (String.eqb k' k); constructor; auto.
Qed.

Lemma getAllUploadStates_fromData now r :
  Forall (fun kv => exists d, snd kv = RedisService.fromData d)
    (RedisService.getAllUploadStates now r).
Proof.
  unfold RedisService.getAllUploadStates.
  destruct (negb (Redis.isOpen r)); [constructor|].
  generalize (Redis.SCAN now (Redis.uploadKeys r)).
  assert (Hgen : forall (l : list (string * Redis.UploadData)) acc,
            Forall (fun kv => exists d, snd kv = RedisService.fromData d) acc ->
            Forall (fun kv => exists d, snd kv = RedisService.fromData d)
              (foldl (fun m kv =>
                        if includes ":chunks:" ("upload:" +:+ fst kv) then m
                        else JsMap.set (fst kv)
                               (RedisService.fromData (snd kv)) m) acc l)).
  { induction l as [|kv l IH]; intros acc Hacc; [done|].
    cbn [foldl]. apply IH.
    destruct (includes ":chunks:" ("upload:" +:+ fst kv)); [done|].
    apply JsMap_set_Forall; [|done]. intros k'. by eexists. }
  intros l. apply Hgen. constructor.
Qed.

Lemma fromData_no_Map d m :
  up_pendingAcks (RedisService.fromData d) <> AcksMap m.
Proof. cbn. by destruct (Redis.d_pendingAcks d). Qed.

Lemma checkUpload_without_Map config TTL now sockets live fileId u n :
  (forall m, up_pendingAcks u <> AcksMap m) ->
  SocketHandler.checkUpload config TTL now sockets live fileId u n
  = (Return tt, n, []) \/
  SocketHandler.checkUpload config TTL now sockets live fileId u n
  = (Throw (TypeError "upload.pendingAcks is not iterable"), n, []).
Proof.
  intros Hno. unfold SocketHandler.checkUpload.
  destruct (negb (UploadStatus_eqb (up_status u) uploading)); [by left|].
  destruct (up_pendingAcks u) as [|m|] eqn:E; [by left| |by right].
  by destruct (Hno m).
Qed.

Lemma for_each_quiet {X} (body : X -> M unit) e xs n :
  Forall (fun x => forall n, body x n = (Return tt, n, []) \/
                             body x n = (Throw e, n, [])) xs ->
  for_each xs body n = (Return tt, n, []) \/
  for_each xs body n = (Throw e, n, []).
Proof.
  induction xs as [|x xs IH]; intros Hall; [by left|].
  apply Forall_cons in Hall as [Hx Hxs]. cbn [for_each]. unfold bind.
  destruct (Hx n) as [-> | ->]; [|by right].
  destruct (IH Hxs) as [-> | ->]; [by left|by right].
Qed.

Lemma bind_quiet {A B} (m : M A) (k : A -> M B) n a n1 :
  m n = (Return a, n1, []) -> bind m k n = k a n1.
Proof.
  intros H. unfold bind. rewrite H. by destruct (k a n1) as [[? ?] ?].
Qed.

Lemma ackTimeoutCheck_with_redis config TTL now sockets n r :
  redisService n = Some r ->
  SocketHandler.ackTimeoutCheck config TTL now sockets n
  = for_each (RedisService.getAllUploadStates now r)
      (fun kv =>
         SocketHandler.checkUpload config TTL now sockets false
           (fst kv) (snd kv)) n.
Proof.
  intros Hr. unfold SocketHandler.ackTimeoutCheck.
  erewrite bind_quiet; cycle 1.
  { unfold StorageRepository.getAllUploadStates, StorageRepository.backend,
      StorageRepository.reading.
    rewrite Hr, (set_redis_same n r Hr). reflexivity. }
  erewrite bind_quiet; [|reflexivity]. reflexivity.
Qed.

(** X8.  With Redis configured the acknowledgement checker is idle: the
    uploads it lists come out of Redis without their map of pending
    acknowledgements, so a tick sends no [chunk-retry] and no
    [transfer-failed], changes nothing, and at most ends in the
    [TypeError] raised when [pendingAcks] is iterated. *)
Theorem ackTimeoutCheck_idle_with_redis
    (config : Config) (TTL : TTLConfig) (now : Z) (sockets : list string)
    (n : Node) (r : Redis.t) :
  redisService n = Some r ->
  SocketHandler.ackTimeoutCheck config TTL now sockets n = (Return tt, n, []) \/
  SocketHandler.ackTimeoutCheck config TTL now sockets n
  = (Throw (TypeError "upload.pendingAcks is not iterable"), n, []).
Proof.
  intros Hr. rewrite (ackTimeoutCheck_with_redis _ _ _ _ _ r Hr).
  apply for_each_quiet. eapply Forall_impl; [apply getAllUploadStates_fromData|].
  intros [k u] [d Hd] n'. cbn [fst snd] in *. subst u.
  apply checkUpload_without_Map. intros m. apply fromData_no_Map.
Qed.

Lemma ackTimeoutCheck_idle_with_redis_witness :
  let n :=
    state_of (serveAll defaultConfig DEFAULT_TTL (fun _ => ""%string) None
                (transferStarted
                 ++ [(1005, on_upload_chunk (chunkOf "file-1004-x" 0) true)])
                (emptyNode (Some emptyRedis))) in
  SocketHandler.ackTimeoutCheck defaultConfig DEFAULT_TTL 45000 ["sA"; "sB"] n
  = (Return tt, n, []) \/
  SocketHandler.ackTimeoutCheck defaultConfig DEFAULT_TTL 45000 ["sA"; "sB"] n
  = (Throw (TypeError "upload.pendingAcks is not iterable"), n, []).
Proof.
  intros n.
  assert (Hr : exists r, redisService n = Some r)
    by (vm_compute; eexists; reflexivity).
  destruct Hr as [r Hr].
  exact (ackTimeoutCheck_idle_with_redis defaultConfig DEFAULT_TTL 45000
           ["sA"; "sB"]%string n r Hr).
Defined.

(* ===================================================================== *)
(** ** The fixed-window rate limiter of the distributed backend *)
(* ===================================================================== *)

Section FixedWindow.
Variable maxRequests : Z.
Variable windowSeconds : Z.
Variable identifier : string.

(** The first request of a window is counted and starts the clock. *)
Lemma checkRateLimit_opens_window now r :
  Redis.isOpen r = true ->
  Redis.GET now identifier (Redis.ratelimitKeys r) = None ->
  0 < maxRequests -> 0 < windowSeconds ->
  exists r',
    RedisService.checkRateLimit now identifier maxRequests windowSeconds r
    = (Return {| allowed := true; remaining := maxRequests - 1;
                 resetAt := now + windowSeconds * 1000 |}, r') /\
    Redis.isOpen r' = true /\
    JsMap.get identifier (Redis.ratelimitKeys r')
    = Some (Redis.mkEntry 1 (Some (now + windowSeconds * 1000))).
Proof.
  intros Hopen Hget Hmax Hwin.
  unfold RedisService.checkRateLimit, RedisService.command.
  rewrite Hopen, Hget.
  rewrite (proj2 (Z.leb_gt _ _)) by lia. cbn [Z.eqb].
  eexists. split; [do 2 f_equal; f_equal; lia|]. split; [done|].
  cbn [Redis.ratelimitKeys Redis_set_ratelimitKeys].
  assert (Hincr : JsMap.get identifier
                    (Redis.INCR now identifier (Redis.ratelimitKeys r))
                  = Some (Redis.mkEntry 1 None)).
  { unfold Redis.INCR, Redis.GET in *.
    destruct (JsMap.get identifier (Redis.ratelimitKeys r)) as [e|];
      [|apply JsMap_get_set_eq].
    destruct (Redis.live now e); [done|apply JsMap_get_set_eq]. }
  unfold Redis.EXPIRE. rewrite Hincr. cbn [Redis.live Redis.expireAt Redis.value].
  apply JsMap_get_set_eq.
Qed.

(** A request inside the window is counted while the count is below the
    limit. *)
Lemma checkRateLimit_counts now r count expiry :
  Redis.isOpen r = true ->
  JsMap.get identifier (Redis.ratelimitKeys r)
  = Some (Redis.mkEntry count (Some expiry)) ->
  now < expiry -> 0 < count < maxRequests ->
  exists r',
    RedisService.checkRateLimit now identifier maxRequests windowSeconds r
    = (Return {| allowed := true; remaining := maxRequests - count - 1;
                 resetAt := now + windowSeconds * 1000 |}, r') /\
    Redis.isOpen r' = true /\
    JsMap.get identifier (Redis.ratelimitKeys r')
    = Some (Redis.mkEntry (count + 1) (Some expiry)).
Proof.
  intros Hopen Hget Hlive Hcount.
  assert (Hl : Redis.live now (Redis.mkEntry count (Some expiry)) = true)
    by (unfold Redis.live; cbn; by apply Z.ltb_lt).
  unfold RedisService.checkRateLimit, RedisService.command, Redis.GET.
  rewrite Hopen, Hget, Hl. cbn [Redis.value].
  rewrite (proj2 (Z.leb_gt _ _)) by lia.
  rewrite (proj2 (Z.eqb_neq _ _)) by lia.
  eexists. split; [reflexivity|]. split; [done|].
  cbn [Redis.ratelimitKeys Redis_set_ratelimitKeys].
  unfold Redis.INCR. rewrite Hget, Hl. cbn [Redis.expireAt Redis.value].
  apply JsMap_get_set_eq.
Qed.

Lemma over_limit_all_false (start : Z) (n : nat) :
  maxRequests <= start ->
  map (fun k => bool_decide (k < maxRequests)) (seqZ start (Z.of_nat n))
  = replicate n false.
Proof.
  revert start. induction n as [|n IH]; intros start Hstart; [done|].
  rewrite seqZ_cons by lia. cbn [map replicate].
  replace (Z.pred (Z.of_nat (S n))) with (Z.of_nat n) by lia.
  rewrite IH by lia. by rewrite bool_decide_eq_false_2 by lia.
Qed.

Lemma checkRateLimits_saturated expiry :
  forall times r count,
    Redis.isOpen r = true ->
    JsMap.get identifier (Redis.ratelimitKeys r)
    = Some (Redis.mkEntry count (Some expiry)) ->
    maxRequests <= count ->
    Forall (fun t => t < expiry) times ->
    map isAllowed
      (checkRateLimits maxRequests windowSeconds identifier times r)
    = replicate (length times) false.
Proof.
  induction times as [|now rest IH]; intros r count Hopen Hget Hcount Htimes;
    [done|].
  apply Forall_cons in Htimes as [Hnow Hrest]. cbn [checkRateLimits length].
  destruct (checkRateLimit_redis_refuses now identifier maxRequests
              windowSeconds r count expiry Hopen Hget Hnow Hcount)
    as (res & -> & Hres & _).
  cbn [map isAllowed replicate]. rewrite Hres. f_equal.
  by apply (IH r count).
Qed.

Lemma checkRateLimits_from_count expiry :
  forall times r count,
    Redis.isOpen r = true ->
    JsMap.get identifier (Redis.ratelimitKeys r)
    = Some (Redis.mkEntry count (Some expiry)) ->
    0 < count ->
    Forall (fun t => t < expiry) times ->
    map isAllowed
      (checkRateLimits maxRequests windowSeconds identifier times r)
    = map (fun k => bool_decide (k < maxRequests))
        (seqZ count (Z.of_nat (length times))).
Proof.
  induction times as [|now rest IH]; intros r count Hopen Hget Hcount Htimes;
    [done|].
  destruct (decide (count < maxRequests)) as [Hlt|Hge].
  - apply Forall_cons in Htimes as [Hnow Hrest].
    cbn [checkRateLimits length]. rewrite seqZ_cons by lia.
    replace (Z.pred (Z.of_nat (S (length rest)))) with (Z.of_nat (length rest))
      by lia.
    destruct (checkRateLimit_counts now r count expiry Hopen Hget Hnow
                ltac:(lia)) as (r' & -> & Hopen' & Hget').
    cbn [map isAllowed allowed]. f_equal.
    + by rewrite bool_decide_eq_true_2 by lia.
    + replace (Z.succ count) with (count + 1) by lia.
      apply (IH r'); [done|done|lia|done].
  - rewrite over_limit_all_false by lia.
    apply (checkRateLimits_saturated expiry _ r count); [done|done|lia|done].
Qed.

End FixedWindow.

(** X9.  The rate limiter of the distributed backend counts per window
    when the calls are served one after the other (no call starts before
    the previous one has returned).  When the first call for an
    identifier finds no live counter, then of the calls made from that
    moment until [windowSeconds] later, in that order, the first
    [maxRequests] are allowed and every later one is refused. *)
Theorem checkRateLimit_fixed_window
    (maxRequests windowSeconds : Z) (identifier : string)
    (start : Z) (later : list Z) (r : Redis.t) :
  Redis.isOpen r = true ->
  Redis.GET start identifier (Redis.ratelimitKeys r) = None ->
  0 < maxRequests -> 0 < windowSeconds ->
  Forall (fun t => t < start + windowSeconds * 1000) later ->
  map isAllowed
    (checkRateLimits maxRequests windowSeconds identifier (start :: later) r)
  = map (fun k => bool_decide (k < maxRequests))
      (seqZ 0 (Z.of_nat (S (length later)))).
Proof.
  intros Hopen Hget Hmax Hwin Hlater.
  cbn [checkRateLimits]. rewrite seqZ_cons by lia.
  replace (Z.pred (Z.of_nat (S (length later))))
    with (Z.of_nat (length later)) by lia.
  destruct (checkRateLimit_opens_window maxRequests windowSeconds identifier
              start r Hopen Hget Hmax Hwin) as (r' & -> & Hopen' & Hget').
  cbn [map isAllowed allowed]. f_equal.
  - by rewrite bool_decide_eq_true_2 by lia.
  - apply (checkRateLimits_from_count maxRequests windowSeconds identifier
             (start + windowSeconds * 1000) later r' 1); [done|done|lia|done].
Qed.

Lemma checkRateLimit_fixed_window_witness :
  map isAllowed
    (checkRateLimits 2 60 "heartbeat:A" [1000; 1001; 30000; 60999] emptyRedis)
  = [true; true; false; false].
Proof.
  apply (checkRateLimit_fixed_window 2 60 "heartbeat:A" 1000
           [1001; 30000; 60999] emptyRedis).
  - reflexivity.
  - reflexivity.
  - lia.
  - lia.
  - repeat constructor.
Defined.

(** X10.  Once the limit is reached, a request before the counter
    expires is refused without being counted, with [remaining] 0 and a
    [resetAt] within half a second of the expiry of the counter; a
    request at or after the expiry is allowed and opens a new window. *)
Theorem checkRateLimit_refuses_until_expiry
    (maxRequests windowSeconds : Z) (identifier : string) (r : Redis.t)
    (count expiry : Z) :
  Redis.isOpen r = true ->
  JsMap.get identifier (Redis.ratelimitKeys r)
  = Some (Redis.mkEntry count (Some expiry)) ->
  0 < maxRequests <= count -> 0 < windowSeconds ->
  (forall now, now < expiry ->
     exists res,
       RedisService.checkRateLimit now identifier maxRequests windowSeconds r
       = (Return res, r) /\
       allowed res = false /\
       expiry - 500 <= resetAt res <= expiry + 500) /\
  (forall now, expiry <= now ->
     exists r',
       RedisService.checkRateLimit now identifier maxRequests windowSeconds r
       = (Return {| allowed := true; remaining := maxRequests - 1;
                    resetAt := now + windowSeconds * 1000 |}, r') /\
       JsMap.get identifier (Redis.ratelimitKeys r')
       = Some (Redis.mkEntry 1 (Some (now + windowSeconds * 1000)))).
Proof.
  intros Hopen Hget Hmax Hwin. split.
  - intros now Hnow.
    apply (checkRateLimit_redis_refuses now identifier maxRequests
             windowSeconds r count expiry); [done|done|done|lia].
  - intros now Hnow.
    destruct (checkRateLimit_opens_window maxRequests windowSeconds identifier
                now r) as (r' & Hrun & _ & Hget'); [done| |lia|done|].
    + unfold Redis.GET, Redis.live. rewrite Hget. cbn.
      by rewrite (proj2 (Z.ltb_ge _ _)) by lia.
    + by exists r'.
Qed.

Lemma checkRateLimit_refuses_until_expiry_witness :
  let r :=
    Redis_set_ratelimitKeys
      [("upload:A"%string, Redis.mkEntry 100 (Some 61000))] emptyRedis in
  exists res,
    RedisService.checkRateLimit 30000 "upload:A" 100 60 r = (Return res, r) /\
    allowed res = false /\
    61000 - 500 <= resetAt res <= 61000 + 500.
Proof.
  intros r.
  destruct (checkRateLimit_refuses_until_expiry 100 60 "upload:A" r 100 61000)
    as [Hrefused _].
  - reflexivity.
  - reflexivity.
  - lia.
  - lia.
  - apply (Hrefused 30000). lia.
Defined.

(* ===================================================================== *)
(** ** Writes and later reads of sessions and shares *)
(* ===================================================================== *)

Section Stores.
Variable TTL : TTLConfig.

Lemma setShareSession_run now shareId session n :
  redisOpen n ->
  StorageRepository.setShareSession TTL now shareId session n
  = (Return tt, storeShare TTL now shareId session n, []).
Proof.
  intros Hopen. unfold storeShare, StorageRepository.setShareSession,
    StorageRepository.backend, redisOpen in *.
  destruct (redisService n) as [r|]; [|done].
  unfold RedisService.setShareSession, RedisService.command.
  by rewrite Hopen.
Qed.

Lemma setClientSession_run now clientId session n :
  redisOpen n ->
  StorageRepository.setClientSession TTL now clientId session n
  = (Return tt, storeSession TTL now clientId session n, []).
Proof.
  intros Hopen. unfold storeSession, StorageRepository.setClientSession,
    StorageRepository.backend, redisOpen in *.
  destruct (redisService n) as [r|]; [|done].
  unfold RedisService.setClientSession, RedisService.command.
  by rewrite Hopen.
Qed.

Lemma storeShare_redisOpen now shareId session n :
  redisOpen n -> redisOpen (storeShare TTL now shareId session n).
Proof.
  unfold storeShare, StorageRepository.setShareSession,
    StorageRepository.backend, redisOpen, state_of, modify.
  destruct (redisService n) as [r|] eqn:E; cbn.
  - unfold RedisService.setShareSession, RedisService.command.
    intros Hopen. rewrite Hopen. cbn. exact Hopen.
  - by rewrite E.
Qed.

Lemma storeSession_redisOpen now clientId session n :
  redisOpen n -> redisOpen (storeSession TTL now clientId session n).
Proof.
  unfold storeSession, StorageRepository.setClientSession,
    StorageRepository.backend, redisOpen, state_of, modify.
  destruct (redisService n) as [r|] eqn:E; cbn.
  - unfold RedisService.setClientSession, RedisService.command.
    intros Hopen. rewrite Hopen. cbn. exact Hopen.
  - by rewrite E.
Qed.

Lemma visibleShare_storeShare now later shareId session n k :
  redisOpen n ->
  visibleShare later (storeShare TTL now shareId session n) k
  = if decide (k = shareId)
    then unlessExpired n now (SHARE_SESSION TTL) later session
    else visibleShare later n k.
Proof.
  unfold storeShare, StorageRepository.setShareSession,
    StorageRepository.backend, redisOpen, state_of, modify, visibleShare,
    unlessExpired.
  destruct (redisService n) as [r|] eqn:E; cbn.
  - unfold RedisService.setShareSession, RedisService.command.
    intros Hopen. rewrite Hopen. cbn.
    unfold RedisService.getShareSession. cbn. rewrite Hopen. cbn.
    unfold Redis.SETEX, Redis.GET.
    destruct (decide (k = shareId)) as [->|Hne].
    + rewrite JsMap_get_set_eq. done.
    + by rewrite JsMap_get_set_ne.
  - intros _. rewrite E. destruct (decide (k = shareId)) as [->|Hne].
    + by rewrite JsMap_get_set_eq.
    + by rewrite JsMap_get_set_ne.
Qed.

Lemma visibleSession_storeSession now later clientId session n c :
  redisOpen n ->
  visibleSession later (storeSession TTL now clientId session n) c
  = if decide (c = clientId)
    then unlessExpired n now (CLIENT_SESSION TTL) later session
    else visibleSession later n c.
Proof.
  unfold storeSession, StorageRepository.setClientSession,
    StorageRepository.backend, redisOpen, state_of, modify, visibleSession,
    unlessExpired.
  destruct (redisService n) as [r|] eqn:E; cbn.
  - unfold RedisService.setClientSession, RedisService.command.
    intros Hopen. rewrite Hopen. cbn.
    unfold RedisService.getClientSession. cbn. rewrite Hopen. cbn.
    unfold Redis.SETEX, Redis.GET.
    destruct (decide (c = clientId)) as [->|Hne].
    + rewrite JsMap_get_set_eq. done.
    + by rewrite JsMap_get_set_ne.
  - intros _. rewrite E. destruct (decide (c = clientId)) as [->|Hne].
    + by rewrite JsMap_get_set_eq.
    + by rewrite JsMap_get_set_ne.
Qed.

Lemma visibleSession_storeShare now later shareId session n c :
  visibleSession later (storeShare TTL now shareId session n) c
  = visibleSession later n c.
Proof.
  unfold storeShare, StorageRepository.setShareSession,
    StorageRepository.backend, state_of, modify, visibleSession.
  destruct (redisService n) as [r|] eqn:E; cbn.
  - unfold RedisService.setShareSession, RedisService.command.
    destruct (Redis.isOpen r) eqn:Hopen; cbn; [|done].
    unfold RedisService.getClientSession. cbn. by rewrite Hopen.
  - by rewrite E.
Qed.

Lemma visibleShare_storeSession now later clientId session n k :
  visibleShare later (storeSession TTL now clientId session n) k
  = visibleShare later n k.
Proof.
  unfold storeSession, StorageRepository.setClientSession,
    StorageRepository.backend, state_of, modify, visibleShare.
  destruct (redisService n) as [r|] eqn:E; cbn.
  - unfold RedisService.setClientSession, RedisService.command.
    destruct (Redis.isOpen r) eqn:Hopen; cbn; [|done].
    unfold RedisService.getShareSession. cbn. by rewrite Hopen.
  - by rewrite E.
Qed.

End Stores.

Lemma unlessExpired_now {A} n now seconds (a : A) :
  0 < seconds -> unlessExpired n now seconds now a = Some a.
Proof.
  intros Hs. unfold unlessExpired. destruct (redisService n); [|done].
  by rewrite (proj2 (Z.ltb_lt _ _)) by lia.
Qed.

(* ===================================================================== *)
(** ** Creating and joining shares *)
(* ===================================================================== *)

Lemma bind_run {A B} (m : M A) (k : A -> M B) n a n1 o1 :
  m n = (Return a, n1, o1) ->
  bind m k n
  = (result_of (k a n1), state_of (k a n1), o1 ++ outputs_of (k a n1)).
Proof.
  intros H. unfold bind. rewrite H. by destruct (k a n1) as [[? ?] ?].
Qed.

Ltac run tac :=
  erewrite bind_run; [cbn [result_of state_of outputs_of fst snd]|tac].

Lemma for_each_emits {X} (body : X -> M unit) (outs : X -> list Output) xs n :
  (forall x n, body x n = (Return tt, n, outs x)) ->
  for_each xs body n = (Return tt, n, flat_map outs xs).
Proof.
  intros Hbody. induction xs as [|x xs IH]; [done|].
  cbn [for_each flat_map]. erewrite bind_run; [|apply Hbody].
  by rewrite IH.
Qed.

Section Shares.
Variable TTL : TTLConfig.

Lemma pointSession_redisOpen now clientId shareId n :
  redisOpen n -> redisOpen (pointSession TTL now clientId shareId n).
Proof.
  intros Hopen. unfold pointSession.
  destruct (visibleSession now n clientId); [|done].
  by apply storeSession_redisOpen.
Qed.

Lemma visibleShare_pointSession now later clientId shareId n k :
  visibleShare later (pointSession TTL now clientId shareId n) k
  = visibleShare later n k.
Proof.
  unfold pointSession. destruct (visibleSession now n clientId); [|done].
  apply visibleShare_storeSession.
Qed.

Lemma createShare_run now rnd body n c :
  truthy (req_clientId body) = Some c ->
  (forall s, truthy (req_shareId body) = Some s -> visibleShare now n s = None) ->
  redisOpen n ->
  let sid := newShareId now rnd body in
  let n1 := storeShare TTL now sid (newShare now sid c) n in
  ShareController.createShare TTL now rnd body n
  = (Return tt, pointSession TTL now c sid n1,
     (match visibleSession now n c with
      | Some _ => [ClusterNotify "handleShareCreate" c]
      | None => []
      end)
     ++ [Route c (connection_ready sid 1
                    "Share session created - Waiting for others to join");
         ResJson sid 1]).
Proof.
  intros Hc Hfree Hopen sid n1.
  unfold ShareController.createShare.
  run ltac:(by rewrite validateRequired_clientId, Hc).
  rewrite (truthy_default _ _ Hc).
  erewrite (bind_run _ _ n sid n []); cycle 1.
  { unfold sid, newShareId.
    destruct (truthy (req_shareId body)) as [s|] eqn:Hs; [|done].
    run ltac:(apply getShareSession_reads).
    by rewrite (Hfree s eq_refl). }
  cbn [result_of state_of outputs_of fst snd].
  fold (newShare now sid c).
  run ltac:(by apply setShareSession_run). fold n1.
  run ltac:(apply getClientSession_reads).
  unfold pointSession.
  assert (Hsame : visibleSession now n1 c = visibleSession now n c)
    by apply visibleSession_storeShare.
  rewrite Hsame.
  destruct (visibleSession now n c) as [cs|].
  - erewrite (bind_run (bind _ _)); cycle 1.
    { run ltac:(apply setClientSession_run; by apply storeShare_redisOpen).
      reflexivity. }
    reflexivity.
  - reflexivity.
Qed.

Lemma joinShare_run now body n s c ss :
  truthy (req_shareId body) = Some s -> truthy (req_clientId body) = Some c ->
  visibleShare now n s = Some ss -> ss_status ss = active ->
  (length (ss_clients ss) < 2)%nat ->
  redisOpen n ->
  let joined := joinedShare now c ss in
  ShareController.joinShare TTL now body n
  = (Return tt, pointSession TTL now c s (storeShare TTL now s joined n),
     flat_map
       (fun cid =>
          [Route cid (connection_ready s (length (ss_clients joined))
                        "Connection ready - Ready to share files!");
           Route cid (client_joined_share c s)])
       (ss_clients joined)
     ++ [Webhook "share-joined"; ResJson s (length (ss_clients joined))]).
Proof.
  intros Hs Hc Hv Hactive Hroom Hopen joined.
  unfold ShareController.joinShare.
  run ltac:(by apply (validateRequired_both_ok body n s c)).
  rewrite (truthy_default _ _ Hs), (truthy_default _ _ Hc).
  run ltac:(apply getShareSession_reads).
  rewrite Hv, Hactive.
  rewrite (proj2 (Nat.leb_gt _ _)) by lia.
  fold (joinedShare now c ss). fold joined.
  run ltac:(by apply setShareSession_run).
  run ltac:(apply getClientSession_reads).
  set (n1 := storeShare TTL now s joined n).
  assert (Hopen1 : redisOpen n1) by (by apply storeShare_redisOpen).
  assert (Hloop : forall n2,
            for_each (ss_clients joined)
              (fun cid =>
                 bind (send (Route cid
                               (connection_ready s (length (ss_clients joined))
                                  "Connection ready - Ready to share files!")))
                   (fun _ => send (Route cid (client_joined_share c s)))) n2
            = (Return tt, n2,
               flat_map
                 (fun cid =>
                    [Route cid (connection_ready s (length (ss_clients joined))
                                  "Connection ready - Ready to share files!");
                     Route cid (client_joined_share c s)])
                 (ss_clients joined))).
  { intros n2. by apply for_each_emits. }
  unfold pointSession.
  destruct (visibleSession now n1 c) as [cs|].
  - run ltac:(by apply setClientSession_run).
    run ltac:(apply Hloop). reflexivity.
  - run ltac:(reflexivity).
    run ltac:(apply Hloop). reflexivity.
Qed.

End Shares.

(** X11.  [createShare]: without a [clientId] the request is answered 400
    and nothing is stored; with a custom share id that is in use it is
    answered 409 and nothing is stored; otherwise the share is stored
    under the custom or generated id with the requester as its only
    client, no other share changes, the requester's session, if there is
    one, points to the new share, and the response carries the id. *)
Theorem createShare_outcomes
    (TTL : TTLConfig) (now : Z) (rnd : string) (body : ShareRequest)
    (n : Node) :
  (truthy (req_clientId body) = None ->
   ShareController.createShare TTL now rnd body n
   = (Throw (AppErr (badRequest "Missing required fields: clientId")), n, [])
   /\ ShareController.httpStatus
        (Throw (AppErr (badRequest "Missing required fields: clientId")))
      = 400) /\
  (forall c s existing,
      truthy (req_clientId body) = Some c ->
      truthy (req_shareId body) = Some s ->
      visibleShare now n s = Some existing ->
      ShareController.createShare TTL now rnd body n
      = (Throw (AppErr (conflict "Share ID already exists")), n, [])
      /\ ShareController.httpStatus
           (Throw (AppErr (conflict "Share ID already exists"))) = 409) /\
  (forall c,
      truthy (req_clientId body) = Some c ->
      (forall s, truthy (req_shareId body) = Some s ->
                 visibleShare now n s = None) ->
      redisOpen n -> 0 < SHARE_SESSION TTL -> 0 < CLIENT_SESSION TTL ->
      let sid := newShareId now rnd body in
      let run := ShareController.createShare TTL now rnd body n in
      result_of run = Return tt /\
      visibleShare now (state_of run) sid = Some (newShare now sid c) /\
      (forall k, k <> sid ->
                 visibleShare now (state_of run) k = visibleShare now n k) /\
      visibleSession now (state_of run) c
      = cs_with_shareId sid <$> visibleSession now n c /\
      (forall c', c' <> c ->
                  visibleSession now (state_of run) c'
                  = visibleSession now n c') /\
      List.filter (fun o => match o with ResJson _ _ => true | _ => false end)
        (outputs_of run) = [ResJson sid 1]).
Proof.
  split; [|split].
  - intros Hc. split; [|done]. unfold ShareController.createShare.
    apply bind_Throw. by rewrite validateRequired_clientId, Hc.
  - intros c s existing Hc Hs Hv. split; [|done].
    unfold ShareController.createShare.
    run ltac:(by rewrite validateRequired_clientId, Hc).
    erewrite bind_Throw; [reflexivity|].
    rewrite Hs. erewrite bind_run; [|apply getShareSession_reads].
    by rewrite Hv.
  - intros c Hc Hfree Hopen Hshare Hclient sid run. unfold run.
    rewrite (createShare_run TTL now rnd body n c Hc Hfree Hopen).
    fold sid. cbn [result_of state_of outputs_of fst snd].
    set (n1 := storeShare TTL now sid (newShare now sid c) n).
    split; [done|]. split; [|split; [|split; [|split]]].
    + rewrite visibleShare_pointSession. unfold n1.
      rewrite visibleShare_storeShare by done.
      rewrite decide_True by done. by apply unlessExpired_now.
    + intros k Hk. rewrite visibleShare_pointSession. unfold n1.
      rewrite visibleShare_storeShare by done. by rewrite decide_False.
    + unfold pointSession.
      assert (Hsame : visibleSession now n1 c = visibleSession now n c)
        by apply visibleSession_storeShare.
      destruct (visibleSession now n1 c) as [cs|] eqn:E.
      * rewrite visibleSession_storeSession
          by (by apply storeShare_redisOpen).
        rewrite decide_True by done. rewrite <- Hsame. cbn.
        by apply unlessExpired_now.
      * by rewrite E, <- Hsame.
    + intros c' Hc'. unfold pointSession.
      assert (Hsame : visibleSession now n1 c' = visibleSession now n c')
        by apply visibleSession_storeShare.
      destruct (visibleSession now n1 c) as [cs|]; [|done].
      rewrite visibleSession_storeSession by (by apply storeShare_redisOpen).
      by rewrite decide_False.
    + by destruct (visibleSession now n c).
Qed.

Lemma createShare_outcomes_witness :
  let body := {| req_clientId := Some "A"%string;
                 req_shareId := Some "S"%string |} in
  let n := state_of (SocketHandler.register DEFAULT_TTL None 1000 "sA" "A"
                       (emptyNode (Some emptyRedis))) in
  visibleShare 1001
    (state_of (ShareController.createShare DEFAULT_TTL 1001 "r" body n)) "S"
  = Some (newShare 1001 "S" "A") /\
  ShareController.createShare DEFAULT_TTL 1002 "r" body
    (state_of (ShareController.createShare DEFAULT_TTL 1001 "r" body n))
  = (Throw (AppErr (conflict "Share ID already exists")),
     state_of (ShareController.createShare DEFAULT_TTL 1001 "r" body n), []).
Proof.
  intros body n. split.
  - destruct (createShare_outcomes DEFAULT_TTL 1001 "r" body n)
      as (_ & _ & Hnew).
    destruct (Hnew "A"%string) as (_ & Hshare & _).
    + reflexivity.
    + intros s Hs. injection Hs as <-. reflexivity.
    + reflexivity.
    + reflexivity.
    + reflexivity.
    + exact Hshare.
  - destruct (createShare_outcomes DEFAULT_TTL 1002 "r" body
                (state_of (ShareController.createShare DEFAULT_TTL 1001 "r"
                             body n)))
      as (_ & Hconflict & _).
    destruct (Hconflict "A"%string "S"%string (newShare 1001 "S" "A"))
      as [Hrun _]; [reflexivity|reflexivity|by vm_compute|exact Hrun].
Defined.

(** X12.  [joinShare] on an active share with fewer than two clients
    appends the requester to the client list, without looking whether it
    is listed already, stamps the share with the time of the request,
    points the requester's session to the share, and sends
    [connection-ready] and [client-joined-share] to every client of the
    share before it answers with the new number of clients. *)
Theorem joinShare_joins
    (TTL : TTLConfig) (now : Z) (body : ShareRequest) (n : Node)
    (s c : string) (ss : ShareSession) :
  truthy (req_shareId body) = Some s -> truthy (req_clientId body) = Some c ->
  visibleShare now n s = Some ss -> ss_status ss = active ->
  (length (ss_clients ss) < 2)%nat ->
  redisOpen n -> 0 < SHARE_SESSION TTL -> 0 < CLIENT_SESSION TTL ->
  let run := ShareController.joinShare TTL now body n in
  let clients := ss_clients ss ++ [c] in
  result_of run = Return tt /\
  visibleShare now (state_of run) s
  = Some (ss_with_lastActivity now (ss_with_clients clients ss)) /\
  (forall k, k <> s -> visibleShare now (state_of run) k = visibleShare now n k) /\
  visibleSession now (state_of run) c
  = cs_with_shareId s <$> visibleSession now n c /\
  outputs_of run
  = flat_map
      (fun cid =>
         [Route cid (connection_ready s (length clients)
                       "Connection ready - Ready to share files!");
          Route cid (client_joined_share c s)]) clients
    ++ [Webhook "share-joined"; ResJson s (length clients)].
Proof.
  intros Hs Hc Hv Hactive Hroom Hopen Hshare Hclient run clients. unfold run.
  rewrite (joinShare_run TTL now body n s c ss Hs Hc Hv Hactive Hroom Hopen).
  cbn [result_of state_of outputs_of fst snd].
  fold clients. change (joinedShare now c ss)
    with (ss_with_lastActivity now (ss_with_clients clients ss)).
  set (joined := ss_with_lastActivity now (ss_with_clients clients ss)).
  set (n1 := storeShare TTL now s joined n).
  split; [done|]. split; [|split; [|split]].
  - rewrite visibleShare_pointSession. unfold n1.
    rewrite visibleShare_storeShare by done.
    rewrite decide_True by done. by apply unlessExpired_now.
  - intros k Hk. rewrite visibleShare_pointSession. unfold n1.
    rewrite visibleShare_storeShare by done. by rewrite decide_False.
  - unfold pointSession.
    assert (Hsame : visibleSession now n1 c = visibleSession now n c)
      by apply visibleSession_storeShare.
    destruct (visibleSession now n1 c) as [cs|] eqn:E.
    + rewrite visibleSession_storeSession by (by apply storeShare_redisOpen).
      rewrite decide_True by done. rewrite <- Hsame. cbn.
      by apply unlessExpired_now.
    + by rewrite E, <- Hsame.
  - done.
Qed.

Lemma joinShare_joins_witness :
  let body := {| req_clientId := Some "A"%string;
                 req_shareId := Some "S"%string |} in
  let n := nodeAfter [ (1000, on_register "sA" "A");
                       (1001, post_share_create "r" body) ] in
  ss_clients <$>
    visibleShare 1002
      (state_of (ShareController.joinShare DEFAULT_TTL 1002 body n)) "S"
  = Some ["A"; "A"]%string.
Proof.
  intros body n.
  destruct (joinShare_joins DEFAULT_TTL 1002 body n "S" "A"
              (newShare 1001 "S" "A")) as (_ & Hshare & _).
  - reflexivity.
  - reflexivity.
  - by vm_compute.
  - reflexivity.
  - cbn. lia.
  - exact I.
  - reflexivity.
  - reflexivity.
  - rewrite Hshare. reflexivity.
Defined.

(** X13.  A share lives for [SHARE_SESSION] seconds in Redis.  After
    [createShare], a [joinShare] that comes before the key has expired
    succeeds and leaves the creator and the joiner as the clients of the
    share; with Redis configured, a [joinShare] at or after the expiry is
    answered 404 and changes nothing.  The embedded backend never
    forgets a share. *)
Theorem share_expires_with_its_key
    (TTL : TTLConfig) (now later : Z) (rnd : string) (body join : ShareRequest)
    (n : Node) (c d : string) :
  truthy (req_clientId body) = Some c ->
  (forall s, truthy (req_shareId body) = Some s -> visibleShare now n s = None) ->
  redisOpen n -> 0 < SHARE_SESSION TTL ->
  let sid := newShareId now rnd body in
  truthy (req_shareId join) = Some sid ->
  truthy (req_clientId join) = Some d ->
  let created := state_of (ShareController.createShare TTL now rnd body n) in
  let run := ShareController.joinShare TTL later join created in
  (redisService n <> None -> now + SHARE_SESSION TTL * 1000 <= later ->
   run = (Throw (AppErr (notFound "Share session not found")), created, []) /\
   ShareController.httpStatus (result_of run) = 404) /\
  (redisService n = None \/ later < now + SHARE_SESSION TTL * 1000 ->
   result_of run = Return tt /\
   ss_clients <$> visibleShare later (state_of run) sid = Some [c; d]).
Proof.
  intros Hc Hfree Hopen Hshare sid Hs Hd created run.
  assert (Hcreated : created
                     = pointSession TTL now c sid
                         (storeShare TTL now sid (newShare now sid c) n)).
  { unfold created.
    by rewrite (createShare_run TTL now rnd body n c Hc Hfree Hopen). }
  assert (Hopen' : redisOpen created).
  { rewrite Hcreated. by apply pointSession_redisOpen, storeShare_redisOpen. }
  assert (Hvis : visibleShare later created sid
                 = unlessExpired n now (SHARE_SESSION TTL) later
                     (newShare now sid c)).
  { rewrite Hcreated, visibleShare_pointSession.
    rewrite visibleShare_storeShare by done. by rewrite decide_True. }
  split.
  - intros Hredis Hlate.
    assert (Hgone : visibleShare later created sid = None).
    { rewrite Hvis. unfold unlessExpired.
      destruct (redisService n); [|done].
      by rewrite (proj2 (Z.ltb_ge _ _)) by lia. }
    unfold run.
    rewrite (joinShare_missing TTL later join created sid d Hs Hd Hgone).
    done.
  - intros Hlive.
    assert (Hthere : visibleShare later created sid
                     = Some (newShare now sid c)).
    { rewrite Hvis. unfold unlessExpired.
      destruct (redisService n); [|done].
      destruct Hlive as [Hnone|Hlive]; [done|].
      by rewrite (proj2 (Z.ltb_lt _ _)) by lia. }
    unfold run.
    rewrite (joinShare_run TTL later join created sid d (newShare now sid c)
               Hs Hd Hthere eq_refl) by (cbn; lia || done).
    cbn [result_of state_of fst snd]. split; [done|].
    rewrite visibleShare_pointSession.
    rewrite visibleShare_storeShare by done.
    rewrite decide_True by done.
    by rewrite unlessExpired_now.
Qed.

Lemma share_expires_with_its_key_witness :
  let body := {| req_clientId := Some "A"%string;
                 req_shareId := Some "S"%string |} in
  let join := {| req_clientId := Some "B"%string;
                 req_shareId := Some "S"%string |} in
  let created :=
    state_of (ShareController.createShare DEFAULT_TTL 1000 "r" body
                (emptyNode (Some emptyRedis))) in
  ShareController.joinShare DEFAULT_TTL 86401000 join created
  = (Throw (AppErr (notFound "Share session not found")), created, []).
Proof.
  intros body join created.
  destruct (share_expires_with_its_key DEFAULT_TTL 1000 86401000 "r" body join
              (emptyNode (Some emptyRedis)) "A" "B")
    as [Hexpired _].
  - reflexivity.
  - intros s _. reflexivity.
  - reflexivity.
  - reflexivity.
  - reflexivity.
  - reflexivity.
  - destruct Hexpired as [Hrun _]; [discriminate|by vm_compute|exact Hrun].
Defined.

(* ===================================================================== *)
(** ** Handlers that leave sessions and shares alone *)
(* ===================================================================== *)

Lemma routingStore_views n n' :
  routingStore n' = routingStore n ->
  (redisOpen n' <-> redisOpen n) /\
  (forall later c, visibleSession later n' c = visibleSession later n c) /\
  (forall later k, visibleShare later n' k = visibleShare later n k) /\
  (forall later data, liveReceivers later n' data = liveReceivers later n data).
Proof.
  intros H. unfold routingStore in H.
  destruct (redisService n) as [r|] eqn:Er,
    (redisService n') as [r'|] eqn:Er'; cbn in H; try discriminate H.
  - injection H as Ho Hc Hsh _ _.
    assert (Hs : forall later c,
              visibleSession later n' c = visibleSession later n c).
    { intros later c. unfold visibleSession, RedisService.getClientSession.
      by rewrite Er, Er', Ho, Hc. }
    assert (Hv : forall later k,
              visibleShare later n' k = visibleShare later n k).
    { intros later k. unfold visibleShare, RedisService.getShareSession.
      by rewrite Er, Er', Ho, Hsh. }
    split; [|split; [done|split; [done|]]].
    + unfold redisOpen. by rewrite Er, Er', Ho.
    + intros later data. unfold liveReceivers. rewrite Hs.
      destruct (truthy (visibleSession later n (uc_clientId data)
                        ≫= cs_shareId)) as [sid|]; [|done].
      rewrite Hv. destruct (visibleShare later n sid) as [ss|]; [|done].
      apply filter_ext. intros c. by rewrite Hs.
  - injection H as Hcs Hss.
    assert (Hs : forall later c,
              visibleSession later n' c = visibleSession later n c).
    { intros later c. unfold visibleSession. by rewrite Er, Er', Hcs. }
    assert (Hv : forall later k,
              visibleShare later n' k = visibleShare later n k).
    { intros later k. unfold visibleShare. by rewrite Er, Er', Hss. }
    split; [|split; [done|split; [done|]]].
    + unfold redisOpen. by rewrite Er, Er'.
    + intros later data. unfold liveReceivers. rewrite Hs.
      destruct (truthy (visibleSession later n (uc_clientId data)
                        ≫= cs_shareId)) as [sid|]; [|done].
      rewrite Hv. destruct (visibleShare later n sid) as [ss|]; [|done].
      apply filter_ext. intros c. by rewrite Hs.
Qed.

Lemma routingStore_set_redis (n : Node) (r r' : Redis.t) :
  redisService n = Some r ->
  Redis.isOpen r' = Redis.isOpen r ->
  Redis.clientKeys r' = Redis.clientKeys r ->
  Redis.shareKeys r' = Redis.shareKeys r ->
  routingStore (set_redis r' n) = routingStore n.
Proof.
  intros Hr H1 H2 H3. unfold routingStore. rewrite Hr. cbn.
  by rewrite H1, H2, H3.
Qed.

(** Unfolds a method of [RedisService] and checks that the client is as
    open as before and the session and share keys are as they were. *)
Ltac redis_keeps_routing :=
  let n := fresh "n" in
  let r := fresh "r" in
  let Hr := fresh "Hr" in
  intros n r Hr; apply (routingStore_set_redis n r); [exact Hr|..];
  unfold RedisService.setUploadState, RedisService.getUploadState,
    RedisService.checkRateLimit, RedisService.addCancelledDownload,
    RedisService.removeCancelledDownloads, RedisService.command,
    StorageRepository.reading;
  repeat case_match; cbn in *; congruence.

Ltac routing_walk :=
  repeat first
    [ apply keeps_ret | apply keeps_throw | apply keeps_send
    | apply keeps_gets | apply keeps_bind | apply keeps_try
    | apply keeps_when | apply keeps_for_each
    | apply keeps_modify; intros []; reflexivity
    | apply keeps_backend; [redis_keeps_routing|]
    | progress intros
    | match goal with
      | |- keeps _ (match ?x with _ => _ end) => destruct x
      end ].

Section RoutingFrames.
Variable config : Config.
Variable TTL : TTLConfig.
Variable simdChecksum : Buffer -> string.

Lemma getClientSession_keeps_routing now clientId :
  keeps routingStore (StorageRepository.getClientSession now clientId).
Proof. unfold StorageRepository.getClientSession. routing_walk. Qed.

Lemma getShareSession_keeps_routing now shareId :
  keeps routingStore (StorageRepository.getShareSession now shareId).
Proof. unfold StorageRepository.getShareSession. routing_walk. Qed.

Lemma setUploadState_keeps_routing now fileId upload :
  keeps routingStore (StorageRepository.setUploadState TTL now fileId upload).
Proof. unfold StorageRepository.setUploadState. routing_walk. Qed.

Lemma getUploadState_keeps_routing now fileId :
  keeps routingStore (StorageRepository.getUploadState now fileId).
Proof. unfold StorageRepository.getUploadState. routing_walk. Qed.

Lemma addCancelledDownload_keeps_routing now fileId clientId :
  keeps routingStore
    (StorageRepository.addCancelledDownload TTL now fileId clientId).
Proof. unfold StorageRepository.addCancelledDownload. routing_walk. Qed.

Lemma removeCancelledDownloads_keeps_routing fileId :
  keeps routingStore (StorageRepository.removeCancelledDownloads fileId).
Proof. unfold StorageRepository.removeCancelledDownloads. routing_walk. Qed.

Lemma uploadChunk_keeps_routing now data callback :
  keeps routingStore
    (SocketHandler.uploadChunk config TTL simdChecksum now data callback).
Proof.
  unfold SocketHandler.uploadChunk.
  apply keeps_bind; [apply getUploadState_keeps_routing|]. intros [u|].
  2:{ routing_walk. }
  destruct (UploadStatus_eqb (up_status u) cancelled
            || UploadStatus_eqb (up_status u) paused); [routing_walk|].
  apply keeps_bind.
  { unfold SocketHandler.insertChunk, SocketHandler.writeThrough.
    routing_walk. }
  intros u1. apply keeps_bind; [apply keeps_send|]. intros _.
  apply keeps_bind.
  { unfold SocketHandler.forwardChunk, SocketHandler.relayChunk.
    apply keeps_bind; [apply getClientSession_keeps_routing|]. intros cs.
    destruct (truthy (cs ≫= cs_shareId)); [|apply keeps_ret].
    apply keeps_bind; [apply getShareSession_keeps_routing|]. intros [ss|];
      [|apply keeps_ret].
    apply keeps_for_each. intros c.
    apply keeps_bind; [apply getClientSession_keeps_routing|].
    intros [os|]; [|apply keeps_ret].
    destruct (includes_str (uc_fileId data) (cs_downloads os));
      routing_walk. }
  intros _. apply keeps_bind; [routing_walk|]. intros _.
  unfold SocketHandler.completeIfDone.
  destruct (_ && _); [|apply keeps_ret].
  apply keeps_bind; [apply setUploadState_keeps_routing|]. intros _.
  apply keeps_bind; [apply keeps_send|]. intros _.
  apply keeps_bind; [apply keeps_send|]. intros _.
  apply keeps_bind.
  { apply keeps_try. unfold incrementFilesSent. routing_walk. }
  intros _. apply removeCancelledDownloads_keeps_routing.
Qed.

End RoutingFrames.

(* ===================================================================== *)
(** ** Registration, cancellation and acknowledgement *)
(* ===================================================================== *)

Lemma visibleSession_later now later n c s :
  now <= later ->
  visibleSession later n c = Some s -> visibleSession now n c = Some s.
Proof.
  intros Hle. unfold visibleSession, RedisService.getClientSession, Redis.GET.
  destruct (redisService n) as [r|]; [|done].
  destruct (negb (Redis.isOpen r)); [done|].
  destruct (JsMap.get c (Redis.clientKeys r)) as [e|]; [|done].
  unfold Redis.live. destruct (Redis.expireAt e) as [t|]; [|done].
  destruct (later <? t) eqn:E; [|done]. apply Z.ltb_lt in E.
  by rewrite (proj2 (Z.ltb_lt _ _)) by lia.
Qed.

Lemma includes_str_without x l : includes_str x (without x l) = false.
Proof.
  unfold includes_str, without. induction l as [|y l IH]; [done|].
  cbn [List.filter]. destruct (String.eqb y x) eqn:E; cbn [negb]; [done|].
  cbn [existsb]. rewrite IH, orb_false_r. by rewrite String.eqb_sym.
Qed.

Section Registration.
Variable TTL : TTLConfig.

(** X14.  [register] always starts the client afresh: whatever session
    the client id had, the stored session is the new one, connected, with
    no downloads and no share, while the shares are as they were, so a
    share that listed the client still lists it.  In the state it
    leaves, at whatever time, a chunk the client uploads is relayed to
    nobody. *)
Theorem register_starts_afresh
    (nodeId : option string) (now : Z) (socketId clientId : string)
    (n : Node) :
  redisOpen n -> 0 < CLIENT_SESSION TTL ->
  let run := SocketHandler.register TTL nodeId now socketId clientId n in
  result_of run = Return tt /\
  outputs_of run
  = [ClusterNotify "handleClientConnect" clientId;
     Emit (registered clientId socketId); Webhook "client-connected"] /\
  visibleSession now (state_of run) clientId
  = Some (freshSession nodeId now socketId clientId) /\
  (forall c, c <> clientId ->
             visibleSession now (state_of run) c = visibleSession now n c) /\
  (forall later k, visibleShare later (state_of run) k = visibleShare later n k) /\
  (forall later data, uc_clientId data = clientId ->
                      liveReceivers later (state_of run) data = []).
Proof.
  intros Hopen Httl run.
  assert (Hrun : run
            = (Return tt,
               set_activeConnections
                 (JsMap.set clientId socketId
                    (activeConnections
                       (storeSession TTL now clientId
                          (freshSession nodeId now socketId clientId) n)))
                 (storeSession TTL now clientId
                    (freshSession nodeId now socketId clientId) n),
               [ClusterNotify "handleClientConnect" clientId;
                Emit (registered clientId socketId);
                Webhook "client-connected"])).
  { unfold run, SocketHandler.register.
    fold (freshSession nodeId now socketId clientId).
    run ltac:(by apply setClientSession_run).
    run ltac:(reflexivity). reflexivity. }
  rewrite Hrun. cbn [result_of state_of outputs_of fst snd].
  set (n1 := storeSession TTL now clientId
               (freshSession nodeId now socketId clientId) n).
  destruct (routingStore_views n1
              (set_activeConnections
                 (JsMap.set clientId socketId (activeConnections n1)) n1))
    as (_ & Hs & Hv & _); [reflexivity|].
  assert (Hfresh : visibleSession now n1 clientId
                   = Some (freshSession nodeId now socketId clientId)).
  { unfold n1. rewrite visibleSession_storeSession by done.
    rewrite decide_True by done. by apply unlessExpired_now. }
  split; [done|]. split; [done|]. split; [by rewrite Hs|].
  split; [|split].
  - intros c Hc. rewrite Hs. unfold n1.
    rewrite visibleSession_storeSession by done. by rewrite decide_False.
  - intros later k. rewrite Hv. apply visibleShare_storeSession.
  - intros later data Hdata. unfold liveReceivers.
    rewrite Hs, Hdata. unfold n1.
    rewrite visibleSession_storeSession by done.
    rewrite decide_True by done. unfold unlessExpired.
    destruct (redisService n); [|done].
    by destruct (later <? now + CLIENT_SESSION TTL * 1000).
Qed.

End Registration.

Lemma register_starts_afresh_witness :
  let run :=
    SocketHandler.register DEFAULT_TTL None 2000 "sA2" "A" nodeWithShareOfTwo in
  visibleSession 2000 (state_of run) "A"
  = Some (freshSession None 2000 "sA2" "A") /\
  ss_clients <$> visibleShare 2000 (state_of run) "S"
  = Some ["A"; "B"]%string /\
  liveReceivers 2000 (state_of run) (chunkOf "file-1004-x" 0) = [].
Proof.
  intros run.
  destruct (register_starts_afresh DEFAULT_TTL None 2000 "sA2" "A" nodeWithShareOfTwo)
    as (_ & _ & Hsession & _ & Hshares & Hrelay).
  - exact I.
  - reflexivity.
  - split; [exact Hsession|]. split.
    + fold run in Hshares. rewrite Hshares. by vm_compute.
    + apply Hrelay. reflexivity.
Defined.

Lemma unlessExpired_Some {A} n now seconds later (a b : A) :
  unlessExpired n now seconds later a = Some b -> b = a.
Proof.
  unfold unlessExpired. destruct (redisService n); [|congruence].
  destruct (later <? now + seconds * 1000); congruence.
Qed.

Lemma getUploadState_returns now fileId n :
  redisOpen n ->
  exists o n', StorageRepository.getUploadState now fileId n
               = (Return o, n', []).
Proof.
  intros Hopen.
  destruct (getUploadState_cases now fileId n)
    as [(u & _ & H) | [(_ & n' & _ & [H | [e H]]) | (_ & u & nc & _ & H)]];
    [by eexists _, _|by eexists _, _| |by eexists _, _].
  exfalso. revert H.
  unfold StorageRepository.getUploadState, bind, gets,
    StorageRepository.backend, RedisService.getUploadState,
    RedisService.command. unfold redisOpen in Hopen.
  destruct (JsMap.get fileId (fileUploads n)); cbn; [discriminate|].
  destruct (redisService n) as [r|]; cbn; [|discriminate].
  rewrite Hopen.
  destruct (Redis.GET now fileId (Redis.uploadKeys r)); cbn; discriminate.
Qed.

Section Cancelling.
Variable TTL : TTLConfig.

Lemma addCancelledDownload_run now fileId clientId n :
  redisOpen n ->
  exists n1,
    StorageRepository.addCancelledDownload TTL now fileId clientId n
    = (Return tt, n1, []) /\
    routingStore n1 = routingStore n /\
    (exists s, storedCancelled n1 fileId = Some s /\ clientId ∈ s).
Proof.
  intros Hopen.
  pose proof (addCancelledDownload_keeps_routing TTL now fileId clientId n)
    as Hk.
  revert Hk. unfold redisOpen in Hopen.
  unfold StorageRepository.addCancelledDownload, StorageRepository.backend,
    RedisService.addCancelledDownload, RedisService.command, modify,
    storedCancelled.
  destruct (redisService n) as [r|] eqn:E.
  - rewrite Hopen. cbn. intros Hk. eexists. split; [reflexivity|].
    split; [exact Hk|]. cbn. unfold Redis.EXPIRE.
    rewrite JsMap_get_set_eq. cbn.
    destruct (Redis.live now _); rewrite JsMap_get_set_eq; cbn;
      (eexists; split; [reflexivity|]; set_solver).
  - cbn. intros Hk. eexists. split; [reflexivity|]. split; [exact Hk|].
    cbn. rewrite E. rewrite JsMap_get_set_eq.
    eexists. split; [reflexivity|]. set_solver.
Qed.

Lemma getUploadState_keeps_cancelled now fileId f :
  keeps (fun n => storedCancelled n f)
    (StorageRepository.getUploadState now fileId).
Proof.
  unfold StorageRepository.getUploadState.
  apply keeps_bind; [apply keeps_gets|]. intros [u|]; [apply keeps_ret|].
  apply keeps_bind.
  - apply keeps_backend; [|apply keeps_ret]. intros n r Hr.
    unfold storedCancelled, RedisService.getUploadState, RedisService.command.
    destruct (Redis.isOpen r); cbn; by rewrite Hr.
  - intros [u|]; [|apply keeps_ret].
    apply keeps_bind; [apply keeps_modify; intros []; reflexivity|].
    intros _. apply keeps_ret.
Qed.

Lemma storedCancelled_storeSession now clientId session n f :
  storedCancelled (storeSession TTL now clientId session n) f
  = storedCancelled n f.
Proof.
  unfold storeSession, StorageRepository.setClientSession,
    StorageRepository.backend, state_of, modify, storedCancelled.
  destruct (redisService n) as [r|] eqn:E; cbn; [|by rewrite E].
  unfold RedisService.setClientSession, RedisService.command.
  by destruct (Redis.isOpen r).
Qed.

Lemma routingStore_redisOpen n n' :
  routingStore n' = routingStore n -> redisOpen n -> redisOpen n'.
Proof. intros H. by apply routingStore_views in H as [-> _]. Qed.

(** The session of [clientId] after the second step of
    [cancelDownload]. *)
Lemma cancelDownload_session now later fileId clientId n s :
  redisOpen n -> now <= later ->
  visibleSession later
    (match visibleSession now n clientId with
     | Some s =>
         if includes_str fileId (cs_downloads s)
         then storeSession TTL now clientId
                (cs_with_downloads (without fileId (cs_downloads s)) s) n
         else n
     | None => n
     end) clientId = Some s ->
  includes_str fileId (cs_downloads s) = false.
Proof.
  intros Hopen Hle.
  destruct (visibleSession now n clientId) as [s0|] eqn:Hnow.
  - destruct (includes_str fileId (cs_downloads s0)) eqn:Hinc.
    + rewrite visibleSession_storeSession by done.
      rewrite decide_True by done. intros H.
      apply unlessExpired_Some in H. subst s. cbn.
      apply includes_str_without.
    + intros H. apply (visibleSession_later now) in H; [|done].
      congruence.
  - intros H. apply (visibleSession_later now) in H; [|done]. congruence.
Qed.

Lemma cancelDownload_run now fileId clientId n :
  redisOpen n ->
  exists n1 n3 o,
    StorageRepository.addCancelledDownload TTL now fileId clientId n
    = (Return tt, n1, []) /\
    routingStore n1 = routingStore n /\
    SocketHandler.cancelDownload TTL now fileId clientId n
    = (Return tt, n3, Emit (download_cancelled fileId) :: o) /\
    (o = [] \/ o = [Webhook "download-cancelled"]) /\
    routingStore n3
    = routingStore
        (match visibleSession now n1 clientId with
         | Some s =>
             if includes_str fileId (cs_downloads s)
             then storeSession TTL now clientId
                    (cs_with_downloads (without fileId (cs_downloads s)) s) n1
             else n1
         | None => n1
         end) /\
    (exists s, storedCancelled n3 fileId = Some s /\ clientId ∈ s).
Proof.
  intros Hopen.
  destruct (addCancelledDownload_run now fileId clientId n Hopen)
    as (n1 & Hadd & Hr1 & Hmark).
  pose proof (routingStore_redisOpen _ _ Hr1 Hopen) as Hopen1.
  set (n2 := match visibleSession now n1 clientId with
             | Some s =>
                 if includes_str fileId (cs_downloads s)
                 then storeSession TTL now clientId
                        (cs_with_downloads (without fileId (cs_downloads s)) s)
                        n1
                 else n1
             | None => n1
             end).
  assert (Hopen2 : redisOpen n2).
  { unfold n2. destruct (visibleSession now n1 clientId) as [s|]; [|done].
    destruct (includes_str fileId (cs_downloads s)); [|done].
    by apply storeSession_redisOpen. }
  assert (Hmark2 : storedCancelled n2 fileId = storedCancelled n1 fileId).
  { unfold n2. destruct (visibleSession now n1 clientId) as [s|]; [|done].
    destruct (includes_str fileId (cs_downloads s)); [|done].
    apply storedCancelled_storeSession. }
  assert (Hmid :
    (match visibleSession now n1 clientId with
     | Some s =>
         when (includes_str fileId (cs_downloads s))
           (StorageRepository.setClientSession TTL now clientId
              (cs_with_downloads (without fileId (cs_downloads s)) s))
     | None => ret tt
     end) n1 = (Return tt, n2, [])).
  { unfold n2. destruct (visibleSession now n1 clientId) as [s|]; [|done].
    unfold when. destruct (includes_str fileId (cs_downloads s)); [|done].
    by apply setClientSession_run. }
  destruct (getUploadState_returns now fileId n2 Hopen2) as (u & n3 & Hget).
  pose proof (getUploadState_keeps_routing now fileId n2) as Hr3.
  pose proof (getUploadState_keeps_cancelled now fileId fileId n2) as Hc3.
  rewrite Hget in Hr3, Hc3. cbn in Hr3, Hc3.
  exists n1, n3, (match u with
                  | Some _ => [Webhook "download-cancelled"]
                  | None => []
                  end).
  split; [exact Hadd|]. split; [exact Hr1|]. split; [|split; [|split]].
  - unfold SocketHandler.cancelDownload.
    run ltac:(exact Hadd).
    run ltac:(apply getClientSession_reads).
    run ltac:(exact Hmid).
    run ltac:(reflexivity).
    run ltac:(exact Hget).
    by destruct u.
  - destruct u; auto.
  - exact Hr3.
  - rewrite Hc3, Hmark2. exact Hmark.
Qed.

End Cancelling.

(** X15.  [cancel-download] always answers [download-cancelled], whether
    or not the file or the client is known, and records the client among
    those that cancelled the file.  In the state it leaves, at the time
    of the request or later, the client is not a receiver of the file's
    chunks; no other client's session and no share changes. *)
Theorem cancelDownload_stops_the_relay
    (TTL : TTLConfig) (now later : Z) (fileId clientId : string)
    (n : Node) (data : UploadChunkEvent) :
  redisOpen n -> now <= later -> uc_fileId data = fileId ->
  let run := SocketHandler.cancelDownload TTL now fileId clientId n in
  result_of run = Return tt /\
  (Emit (download_cancelled fileId) ∈ outputs_of run) /\
  (exists s, storedCancelled (state_of run) fileId = Some s /\ clientId ∈ s) /\
  (clientId ∉ liveReceivers later (state_of run) data) /\
  (forall c, c <> clientId ->
     visibleSession later (state_of run) c = visibleSession later n c) /\
  (forall k, visibleShare later (state_of run) k = visibleShare later n k).
Proof.
  intros Hopen Hle Hfile run.
  destruct (cancelDownload_run TTL now fileId clientId n Hopen)
    as (n1 & n3 & o & _ & Hr1 & Hrun & _ & Hr3 & Hmark).
  unfold run. rewrite Hrun. cbn [result_of state_of outputs_of fst snd].
  pose proof (routingStore_redisOpen _ _ Hr1 Hopen) as Hopen1.
  destruct (routingStore_views _ _ Hr1) as (_ & Hs1 & Hv1 & _).
  destruct (routingStore_views _ _ Hr3) as (_ & Hs3 & Hv3 & _).
  split; [done|]. split; [apply elem_of_cons; by left|].
  split; [exact Hmark|]. split; [|split].
  - unfold liveReceivers.
    destruct (truthy _) as [sid|]; [|apply not_elem_of_nil].
    destruct (visibleShare later n3 sid) as [ss|]; [|apply not_elem_of_nil].
    rewrite list_elem_of_In, filter_In. intros [_ Hin].
    destruct (visibleSession later n3 clientId) as [s|] eqn:Hvis; [|done].
    rewrite Hs3 in Hvis.
    apply (cancelDownload_session TTL now later fileId clientId n1 s Hopen1 Hle)
      in Hvis.
    rewrite Hfile in Hin. congruence.
  - intros c Hc. rewrite Hs3, <- Hs1.
    destruct (visibleSession now n1 clientId) as [s|]; [|done].
    destruct (includes_str fileId (cs_downloads s)); [|done].
    rewrite visibleSession_storeSession by done. by rewrite decide_False.
  - intros k. rewrite Hv3, <- Hv1.
    destruct (visibleSession now n1 clientId) as [s|]; [|done].
    destruct (includes_str fileId (cs_downloads s)); [|done].
    apply visibleShare_storeSession.
Qed.

Lemma cancelDownload_stops_the_relay_witness :
  let n := nodeAfter transferStarted in
  let run :=
    SocketHandler.cancelDownload DEFAULT_TTL 1005 "file-1004-x" "B" n in
  liveReceivers 1006 n (chunkOf "file-1004-x" 1) = ["B"%string] /\
  ("B"%string ∉ liveReceivers 1006 (state_of run) (chunkOf "file-1004-x" 1)).
Proof.
  intros n run. split; [by vm_compute|].
  destruct (cancelDownload_stops_the_relay DEFAULT_TTL 1005 1006
              "file-1004-x" "B" n (chunkOf "file-1004-x" 1))
    as (_ & _ & _ & Hstop & _).
  - exact I.
  - lia.
  - reflexivity.
  - exact Hstop.
Defined.

(* ===================================================================== *)
(** ** Acknowledged chunks *)
(* ===================================================================== *)

Lemma setUploadState_run TTL now fileId upload n :
  exists n',
    StorageRepository.setUploadState TTL now fileId upload n
    = (Return tt, n', []) /\
    fileUploads n' = JsMap.set fileId upload (fileUploads n) /\
    routingStore n' = routingStore n.
Proof.
  pose proof (setUploadState_keeps_routing TTL now fileId upload n) as Hk.
  revert Hk.
  unfold StorageRepository.setUploadState, bind, try_, modify,
    StorageRepository.backend, RedisService.setUploadState,
    RedisService.command, ret.
  destruct n as [[r|] fu cs sh ac cd fs]; cbn.
  - destruct (Redis.isOpen r); cbn; intros Hk;
      (eexists; split; [reflexivity|]; split; [reflexivity|exact Hk]).
  - intros Hk. eexists. split; [reflexivity|]. split; [reflexivity|exact Hk].
Qed.

Lemma scanPendingAcks_delete config now i m :
  fst (fst (SocketHandler.scanPendingAcks config now (delete i m)))
  = delete i (fst (fst (SocketHandler.scanPendingAcks config now m))).
Proof. unfold SocketHandler.scanPendingAcks. cbn [fst]. apply fmap_delete. Qed.

Lemma checkerRuns_delete config i times :
  forall m, checkerRuns config times (delete i m)
            = delete i (checkerRuns config times m).
Proof.
  unfold checkerRuns. induction times as [|t times IH]; intros m; [done|].
  cbn [foldl]. rewrite scanPendingAcks_delete. apply IH.
Qed.

(** X16.  [chunk-acknowledged] for a chunk of an upload this node holds
    takes the chunk out of the pending acknowledgements and stamps the
    time; the status and the received chunks stay as they are, nothing is
    sent and no session or share changes.  However often the checker runs
    afterwards, it never retries or fails that chunk, and it treats every
    other chunk as it would have without the acknowledgement. *)
Theorem chunkAcknowledged_settles_the_chunk
    (config : Config) (TTL : TTLConfig) (now : Z) (fileId : string)
    (i : Z) (n : Node) (u : FileUpload) (m : gmap Z AckInfo) :
  JsMap.get fileId (fileUploads n) = Some u ->
  up_pendingAcks u = AcksMap m ->
  let run := SocketHandler.chunkAcknowledged TTL now fileId i n in
  let scan later times m :=
    SocketHandler.scanPendingAcks config later (checkerRuns config times m) in
  result_of run = Return tt /\ outputs_of run = [] /\
  JsMap.get fileId (fileUploads (state_of run))
  = Some (up_with_lastAckTime now
            (up_with_pendingAcks (AcksMap (delete i m)) u)) /\
  (forall k, k <> fileId ->
     JsMap.get k (fileUploads (state_of run)) = JsMap.get k (fileUploads n)) /\
  routingStore (state_of run) = routingStore n /\
  (forall later times,
     (i ∉ snd (fst (scan later times (delete i m)))) /\
     (i ∉ snd (scan later times (delete i m))) /\
     (forall j, j <> i ->
        (j ∈ snd (fst (scan later times (delete i m)))
         <-> j ∈ snd (fst (scan later times m))) /\
        (j ∈ snd (scan later times (delete i m))
         <-> j ∈ snd (scan later times m)))).
Proof.
  intros Hheld Hacks run scan.
  destruct (setUploadState_run TTL now fileId
              (up_with_lastAckTime now
                 (up_with_pendingAcks (AcksMap (delete i m)) u)) n)
    as (n' & Hset & Hfu & Hrt).
  assert (Hrun : run = (Return tt, n', [])).
  { unfold run, SocketHandler.chunkAcknowledged.
    run ltac:(by apply getUploadState_held).
    cbv beta iota. rewrite Hacks, Hset. reflexivity. }
  rewrite Hrun. cbn [result_of state_of outputs_of fst snd].
  split; [done|]. split; [done|].
  split; [by rewrite Hfu, JsMap_get_set_eq|].
  split; [by intros k Hk; rewrite Hfu, JsMap_get_set_ne|].
  split; [exact Hrt|].
  intros later times. unfold scan. rewrite checkerRuns_delete.
  split; [|split].
  - rewrite scanPendingAcks_retry. intros (a & Ha & _).
    by rewrite lookup_delete_eq in Ha.
  - rewrite scanPendingAcks_fail. intros (a & Ha & _).
    by rewrite lookup_delete_eq in Ha.
  - intros j Hj.
    rewrite !scanPendingAcks_retry, !scanPendingAcks_fail.
    by rewrite lookup_delete_ne.
Qed.

Lemma chunkAcknowledged_settles_the_chunk_witness :
  let n := nodeAfter twoChunksIn in
  let run :=
    SocketHandler.chunkAcknowledged DEFAULT_TTL 1007 "file-1004-x" 0 n in
  JsMap.get "file-1004-x" (fileUploads n) = Some uploadBeforeLastChunk /\
  (up_pendingAcks <$> JsMap.get "file-1004-x" (fileUploads (state_of run)))
  = Some (AcksMap (delete 0
                     (<[1 := {| timestamp := 1006; retries := 0 |}]>
                        {[0 := {| timestamp := 1005; retries := 0 |}]}))).
Proof.
  intros n run.
  assert (Hheld : JsMap.get "file-1004-x" (fileUploads n)
                  = Some uploadBeforeLastChunk) by (by vm_compute).
  split; [exact Hheld|].
  destruct (chunkAcknowledged_settles_the_chunk defaultConfig DEFAULT_TTL
              1007 "file-1004-x" 0 n uploadBeforeLastChunk _ Hheld eq_refl)
    as (_ & _ & Hstate & _).
  fold run in Hstate. by rewrite Hstate.
Defined.

(* ===================================================================== *)
(** ** The cleanup job *)
(* ===================================================================== *)

Lemma JsMap_get_notin {V} (k : string) (m : JsMap.t V) :
  k ∉ map fst m -> JsMap.get k m = None.
Proof.
  induction m as [|[k' v] m IH]; [done|]. cbn. intros Hk.
  apply not_elem_of_cons in Hk as [Hne Hk].
  destruct (String.eqb k' k) eqn:E; [|by apply IH].
  apply String.eqb_eq in E. congruence.
Qed.

(** Deleting, one after the other, the keys of the entries of [xs] that
    satisfy [P]. *)
Lemma JsMap_delete_each {V} (P : V -> bool) (xs : JsMap.t V) :
  forall m k,
    JsMap.get k
      (foldl (fun m kv => if P (snd kv) then JsMap.delete (fst kv) m else m)
         m xs)
    = if existsb (fun kv => String.eqb (fst kv) k && P (snd kv)) xs
      then @None V else JsMap.get k m.
Proof.
  induction xs as [|[k' v] xs IH]; intros m k; [done|].
  cbn [foldl existsb fst snd]. rewrite IH.
  destruct (existsb _ xs); [by rewrite orb_true_r|]. rewrite orb_false_r.
  destruct (P v); [|by rewrite andb_false_r]. rewrite andb_true_r.
  destruct (String.eqb k' k) eqn:E.
  - apply String.eqb_eq in E. subst. apply JsMap_get_delete_eq.
  - apply JsMap_get_delete_ne. intros ->. by rewrite String.eqb_refl in E.
Qed.

Lemma existsb_own_key {V} (P : V -> bool) (k : string) (m : JsMap.t V) :
  uniqueKeys m ->
  existsb (fun kv => String.eqb (fst kv) k && P (snd kv)) m
  = match JsMap.get k m with
    | Some v => P v
    | None => false
    end.
Proof.
  unfold uniqueKeys. induction m as [|[k' v] m IH]; [done|].
  cbn [map fst]. intros Hnd. apply NoDup_cons in Hnd as [Hk' Hnd].
  cbn [existsb JsMap.get fst snd].
  destruct (String.eqb k' k) eqn:E; cbn [andb orb]; [|by apply IH].
  apply String.eqb_eq in E. subst k'.
  destruct (P v); [done|]. cbn [orb].
  rewrite IH by done. by rewrite JsMap_get_notin.
Qed.

Section CleanupFacts.
Variable sessionTimeout : Z.
Variable shareSessionTimeout : Z.

Lemma cleanup_sessions_loop now xs :
  forall n,
    redisService n = None ->
    for_each xs
      (fun kv : string * ClientSession =>
         let '(clientId, session) := kv in
         when (negb (cs_connected session)
               && (sessionTimeout <? now - cs_lastHeartbeat session))
           (Server.deleteClientSession clientId)) n
    = (Return tt,
       set_clientSessions
         (foldl (fun m kv =>
                   if inactiveSession sessionTimeout now (snd kv)
                   then JsMap.delete (fst kv) m else m)
            (clientSessions n) xs) n, []).
Proof.
  induction xs as [|[c s] xs IH]; intros n Hmem.
  { by destruct n. }
  cbn [for_each foldl fst snd]. unfold inactiveSession at 2.
  destruct (negb (cs_connected s)
            && (sessionTimeout <? now - cs_lastHeartbeat s)); cbn [when].
  - erewrite bind_quiet.
    2:{ unfold Server.deleteClientSession, StorageRepository.backend, modify.
        rewrite Hmem. reflexivity. }
    rewrite IH by done. by destruct n.
  - erewrite bind_quiet by reflexivity. by apply IH.
Qed.

Lemma cleanup_uploads_loop now xs :
  forall n,
    redisService n = None ->
    for_each xs
      (fun kv : string * FileUpload =>
         let '(fileId, upload) := kv in
         if UploadStatus_eqb (up_status upload) completed
            && (5 * 60 * 1000 <? now - up_lastUpdate upload)
         then Server.deleteUploadState fileId
         else
           when (UploadStatus_eqb (up_status upload) uploading
                 && (shareSessionTimeout <? now - up_lastUpdate upload))
             (Server.deleteUploadState fileId)) n
    = (Return tt,
       set_fileUploads
         (foldl (fun m kv =>
                   if expiredUpload shareSessionTimeout now (snd kv)
                   then JsMap.delete (fst kv) m else m)
            (fileUploads n) xs) n, []).
Proof.
  assert (Hdel : forall f n, redisService n = None ->
            Server.deleteUploadState f n
            = (Return tt,
               set_fileUploads (JsMap.delete f (fileUploads n)) n, [])).
  { intros f n Hmem.
    unfold Server.deleteUploadState, StorageRepository.backend, bind, modify,
      ret. by rewrite Hmem. }
  induction xs as [|[f u] xs IH]; intros n Hmem.
  { by destruct n. }
  cbn [for_each foldl fst snd]. unfold expiredUpload at 2.
  destruct (up_status u); cbn [UploadStatus_eqb andb when];
    change (5 * 60 * 1000) with 300000.
  - destruct (shareSessionTimeout <? now - up_lastUpdate u).
    + erewrite bind_quiet by (by apply Hdel).
      rewrite IH by done. by destruct n.
    + erewrite bind_quiet by reflexivity. by apply IH.
  - erewrite bind_quiet by reflexivity. by apply IH.
  - destruct (300000 <? now - up_lastUpdate u).
    + erewrite bind_quiet by (by apply Hdel).
      rewrite IH by done. by destruct n.
    + erewrite bind_quiet by reflexivity. by apply IH.
  - erewrite bind_quiet by reflexivity. by apply IH.
  - erewrite bind_quiet by reflexivity. by apply IH.
Qed.

Lemma cleanup_embedded now n :
  redisService n = None ->
  Server.cleanup sessionTimeout shareSessionTimeout now n
  = (Return tt,
     set_fileUploads
       (foldl (fun m kv =>
                 if expiredUpload shareSessionTimeout now (snd kv)
                 then JsMap.delete (fst kv) m else m)
          (fileUploads n) (fileUploads n))
       (set_clientSessions
          (foldl (fun m kv =>
                    if inactiveSession sessionTimeout now (snd kv)
                    then JsMap.delete (fst kv) m else m)
             (clientSessions n) (clientSessions n)) n), []).
Proof.
  intros Hmem. unfold Server.cleanup, try_.
  erewrite bind_quiet.
  2:{ unfold StorageRepository.getAllClientSessions,
        StorageRepository.backend, gets. by rewrite Hmem. }
  erewrite bind_quiet by (by apply cleanup_sessions_loop).
  erewrite bind_quiet.
  2:{ unfold StorageRepository.getAllUploadStates,
        StorageRepository.backend, ret. cbn. by rewrite Hmem. }
  erewrite bind_quiet by reflexivity.
  cbn [deref]. rewrite cleanup_uploads_loop by done. reflexivity.
Qed.

End CleanupFacts.

(** X17.  The cleanup job on the embedded backend: a run removes exactly
    the sessions that are disconnected and whose last heartbeat is older
    than the session timeout, and exactly the uploads that are completed
    and untouched for more than five minutes or still uploading and
    untouched for more than the upload timeout.  A connected session is
    never removed, and an upload that is paused, failed or cancelled is
    kept whatever its age.  The run sends nothing and leaves the shares,
    the connections and the cancelled marks as they are. *)
Theorem cleanup_removes_what_is_stale
    (sessionTimeout shareSessionTimeout now : Z) (n : Node) :
  redisService n = None ->
  uniqueKeys (clientSessions n) -> uniqueKeys (fileUploads n) ->
  let run := Server.cleanup sessionTimeout shareSessionTimeout now n in
  result_of run = Return tt /\ outputs_of run = [] /\
  (forall c,
     JsMap.get c (clientSessions (state_of run))
     = match JsMap.get c (clientSessions n) with
       | Some s => if inactiveSession sessionTimeout now s then None else Some s
       | None => None
       end) /\
  (forall f,
     JsMap.get f (fileUploads (state_of run))
     = match JsMap.get f (fileUploads n) with
       | Some u =>
           if expiredUpload shareSessionTimeout now u then None else Some u
       | None => None
       end) /\
  (forall f u,
     JsMap.get f (fileUploads n) = Some u ->
     up_status u = paused \/ up_status u = failed \/ up_status u = cancelled ->
     JsMap.get f (fileUploads (state_of run)) = Some u) /\
  shareSessions (state_of run) = shareSessions n /\
  activeConnections (state_of run) = activeConnections n /\
  cancelledDownloads (state_of run) = cancelledDownloads n.
Proof.
  intros Hmem Hcs Hfu run. unfold run.
  rewrite cleanup_embedded by done.
  cbn [result_of state_of outputs_of fst snd].
  assert (Hup : forall f,
     JsMap.get f
       (foldl (fun m kv =>
                 if expiredUpload shareSessionTimeout now (snd kv)
                 then JsMap.delete (fst kv) m else m)
          (fileUploads n) (fileUploads n))
     = match JsMap.get f (fileUploads n) with
       | Some u =>
           if expiredUpload shareSessionTimeout now u then None else Some u
       | None => None
       end).
  { intros f.
    rewrite (JsMap_delete_each (expiredUpload shareSessionTimeout now)).
    rewrite existsb_own_key by done.
    destruct (JsMap.get f (fileUploads n)) as [u|]; [|done].
    by destruct (expiredUpload shareSessionTimeout now u). }
  split; [done|]. split; [done|]. split; [|split; [|split]].
  - intros c. cbn.
    rewrite (JsMap_delete_each (inactiveSession sessionTimeout now)).
    rewrite existsb_own_key by done.
    destruct (JsMap.get c (clientSessions n)) as [s|]; [|done].
    by destruct (inactiveSession sessionTimeout now s).
  - intros f. cbn. apply Hup.
  - intros f u Hget Hst. cbn. rewrite Hup, Hget.
    unfold expiredUpload. by destruct Hst as [-> | [-> | ->]].
  - done.
Qed.

Lemma cleanup_removes_what_is_stale_witness :
  let n := nodeAfter (shareOfTwo ++ [(1004, on_disconnect "sB")]) in
  let run := Server.cleanup 3600000 86400000 3700000 n in
  JsMap.get "B" (clientSessions n) <> None /\
  JsMap.get "B" (clientSessions (state_of run)) = None /\
  JsMap.get "A" (clientSessions (state_of run))
  = JsMap.get "A" (clientSessions n).
Proof.
  intros n run. split; [by vm_compute|].
  destruct (cleanup_removes_what_is_stale 3600000 86400000 3700000 n)
    as (_ & _ & Hsessions & _).
  - reflexivity.
  - apply (bool_decide_unpack _). by vm_compute.
  - apply (bool_decide_unpack _). by vm_compute.
  - fold run in Hsessions. rewrite !Hsessions. split; by vm_compute.
Defined.

(* ===================================================================== *)
(** ** Disconnecting *)
(* ===================================================================== *)

Lemma deleteShareSession_run shareId n :
  redisOpen n ->
  StorageRepository.deleteShareSession shareId n
  = (Return tt, dropShare shareId n, []).
Proof.
  intros Hopen. unfold dropShare, StorageRepository.deleteShareSession,
    StorageRepository.backend, redisOpen in *.
  destruct (redisService n) as [r|]; [|done].
  unfold RedisService.deleteShareSession, RedisService.command.
  by rewrite Hopen.
Qed.

Lemma dropShare_redisOpen shareId n :
  redisOpen n -> redisOpen (dropShare shareId n).
Proof.
  unfold dropShare, StorageRepository.deleteShareSession,
    StorageRepository.backend, redisOpen, state_of, modify.
  destruct (redisService n) as [r|] eqn:E; cbn.
  - unfold RedisService.deleteShareSession, RedisService.command.
    intros Hopen. rewrite Hopen. cbn. exact Hopen.
  - by rewrite E.
Qed.

Lemma visibleShare_dropShare later shareId n k :
  redisOpen n ->
  visibleShare later (dropShare shareId n) k
  = if decide (k = shareId) then None else visibleShare later n k.
Proof.
  unfold dropShare, StorageRepository.deleteShareSession,
    StorageRepository.backend, redisOpen, state_of, modify, visibleShare.
  destruct (redisService n) as [r|] eqn:E; cbn.
  - unfold RedisService.deleteShareSession, RedisService.command.
    intros Hopen. rewrite Hopen. cbn.
    unfold RedisService.getShareSession. cbn. rewrite Hopen. cbn.
    unfold Redis.GET.
    destruct (decide (k = shareId)) as [->|Hne].
    + by rewrite JsMap_get_delete_eq.
    + by rewrite JsMap_get_delete_ne.
  - intros _. rewrite E. destruct (decide (k = shareId)) as [->|Hne].
    + by rewrite JsMap_get_delete_eq.
    + by rewrite JsMap_get_delete_ne.
Qed.

Lemma visibleSession_dropShare later shareId n c :
  visibleSession later (dropShare shareId n) c = visibleSession later n c.
Proof.
  unfold dropShare, StorageRepository.deleteShareSession,
    StorageRepository.backend, state_of, modify, visibleSession.
  destruct (redisService n) as [r|] eqn:E; cbn.
  - unfold RedisService.deleteShareSession, RedisService.command.
    destruct (Redis.isOpen r) eqn:Hopen; cbn; [|done].
    unfold RedisService.getClientSession. cbn. by rewrite Hopen.
  - by rewrite E.
Qed.

Lemma getAllClientSessions_reads now :
  reads (StorageRepository.getAllClientSessions now)
    (fun n => listedSessions now n).
Proof. apply reads_backend. Qed.

Lemma without_not_elem c l : c ∉ without c l.
Proof.
  unfold without. rewrite list_elem_of_In, filter_In. intros [_ H].
  by rewrite String.eqb_refl in H.
Qed.

Section Disconnecting.
Variable TTL : TTLConfig.

Lemma disconnect_run now socketId n c s sid ss :
  redisOpen n ->
  List.find (fun kv => String.eqb (cs_socketId (snd kv)) socketId)
    (listedSessions now n) = Some (c, s) ->
  truthy (cs_shareId s) = Some sid ->
  visibleShare now n sid = Some ss ->
  SocketHandler.disconnect TTL now socketId n
  = (Return tt, afterDisconnect TTL now c s sid ss n,
     ClusterNotify "handleClientDisconnect" socketId
     :: flat_map
          (fun o => [Route o (client_disconnected_from_share c sid)])
          (without c (ss_clients ss))
     ++ [Webhook "client-disconnected"]).
Proof.
  intros Hopen Hfind Hsid Hshare.
  unfold SocketHandler.disconnect, afterDisconnect.
  run ltac:(reflexivity).
  run ltac:(apply getAllClientSessions_reads).
  rewrite Hfind, Hsid.
  assert (Hinner :
    (bind (StorageRepository.getShareSession now sid)
       (fun shareSession =>
          match shareSession with
          | Some ss =>
              let otherClients := without c (ss_clients ss) in
              bind (for_each otherClients
                      (fun otherClientId =>
                         send (Route otherClientId
                                 (client_disconnected_from_share c sid))))
                (fun _ =>
                   if (length otherClients =? 0)%nat
                   then StorageRepository.deleteShareSession sid
                   else StorageRepository.setShareSession TTL now sid
                          (ss_with_clients otherClients ss))
          | None => ret tt
          end)) n
    = (Return tt,
       (if (length (without c (ss_clients ss)) =? 0)%nat
        then dropShare sid n
        else storeShare TTL now sid
               (ss_with_clients (without c (ss_clients ss)) ss) n),
       flat_map (fun o => [Route o (client_disconnected_from_share c sid)])
         (without c (ss_clients ss)))).
  { run ltac:(apply getShareSession_reads). rewrite Hshare. cbv zeta.
    run ltac:(by apply for_each_emits).
    destruct (length (without c (ss_clients ss)) =? 0)%nat.
    - rewrite deleteShareSession_run by done. cbn. by rewrite app_nil_r.
    - rewrite setShareSession_run by done. cbn. by rewrite app_nil_r. }
  run ltac:(exact Hinner).
  set (n1 := if (length (without c (ss_clients ss)) =? 0)%nat
             then dropShare sid n
             else storeShare TTL now sid
                    (ss_with_clients (without c (ss_clients ss)) ss) n).
  assert (Hopen1 : redisOpen n1).
  { unfold n1. destruct (_ =? _)%nat;
      [by apply dropShare_redisOpen|by apply storeShare_redisOpen]. }
  run ltac:(by apply setClientSession_run).
  run ltac:(reflexivity).
  cbn. reflexivity.
Qed.

End Disconnecting.

(** X18.  [disconnect] of the socket of a client that is in a share
    takes the client out of the share's client list, tells every other
    client of the share that it has gone, and deletes the share when
    nobody is left.  The client's session stays, marked disconnected and
    still pointing to the share.  In the state it leaves, at whatever
    time, no chunk sent within the share is relayed to the client. *)
Theorem disconnect_leaves_the_share
    (TTL : TTLConfig) (now : Z) (socketId : string) (n : Node)
    (c : string) (s : ClientSession) (sid : string) (ss : ShareSession) :
  redisOpen n -> 0 < SHARE_SESSION TTL -> 0 < CLIENT_SESSION TTL ->
  List.find (fun kv => String.eqb (cs_socketId (snd kv)) socketId)
    (listedSessions now n) = Some (c, s) ->
  truthy (cs_shareId s) = Some sid ->
  visibleShare now n sid = Some ss ->
  let run := SocketHandler.disconnect TTL now socketId n in
  let others := without c (ss_clients ss) in
  result_of run = Return tt /\
  outputs_of run
  = ClusterNotify "handleClientDisconnect" socketId
    :: flat_map (fun o => [Route o (client_disconnected_from_share c sid)])
         others
    ++ [Webhook "client-disconnected"] /\
  visibleShare now (state_of run) sid
  = (if (length others =? 0)%nat then None
     else Some (ss_with_clients others ss)) /\
  (forall k, k <> sid ->
     visibleShare now (state_of run) k = visibleShare now n k) /\
  visibleSession now (state_of run) c = Some (cs_with_connected false s) /\
  (forall c', c' <> c ->
     visibleSession now (state_of run) c' = visibleSession now n c') /\
  (forall later data,
     truthy (visibleSession later (state_of run) (uc_clientId data)
             ≫= cs_shareId) = Some sid ->
     c ∉ liveReceivers later (state_of run) data).
Proof.
  intros Hopen Hshare Hclient Hfind Hsid Hv run others. unfold run.
  rewrite (disconnect_run TTL now socketId n c s sid ss Hopen Hfind Hsid Hv).
  cbn [result_of state_of outputs_of fst snd]. unfold afterDisconnect.
  fold others.
  set (n1 := if (length others =? 0)%nat then dropShare sid n
             else storeShare TTL now sid (ss_with_clients others ss) n).
  set (n2 := storeSession TTL now c (cs_with_connected false s) n1).
  assert (Hopen1 : redisOpen n1).
  { unfold n1. destruct (_ =? _)%nat;
      [by apply dropShare_redisOpen|by apply storeShare_redisOpen]. }
  destruct (routingStore_views n2
              (set_activeConnections (JsMap.delete c (activeConnections n2)) n2))
    as (_ & Hs & Hsh & _); [reflexivity|].
  assert (Hsid_share :
    visibleShare now n2 sid
    = (if (length others =? 0)%nat then None
       else Some (ss_with_clients others ss))).
  { unfold n2. rewrite visibleShare_storeSession. unfold n1.
    destruct (length others =? 0)%nat.
    - rewrite visibleShare_dropShare by done. by rewrite decide_True.
    - rewrite visibleShare_storeShare by done. rewrite decide_True by done.
      by apply unlessExpired_now. }
  split; [done|]. split; [done|]. split; [by rewrite Hsh|].
  split; [|split; [|split]].
  - intros k Hk. rewrite Hsh. unfold n2. rewrite visibleShare_storeSession.
    unfold n1. destruct (length others =? 0)%nat.
    + rewrite visibleShare_dropShare by done. by rewrite decide_False.
    + rewrite visibleShare_storeShare by done. by rewrite decide_False.
  - rewrite Hs. unfold n2. rewrite visibleSession_storeSession by done.
    rewrite decide_True by done. rewrite unlessExpired_now by done. done.
  - intros c' Hc'. rewrite Hs. unfold n2.
    rewrite visibleSession_storeSession by done.
    rewrite decide_False by done. unfold n1.
    destruct (length others =? 0)%nat;
      [apply visibleSession_dropShare|apply visibleSession_storeShare].
  - intros later data Hsender. unfold liveReceivers. rewrite Hsender.
    rewrite Hsh. unfold n2. rewrite visibleShare_storeSession. unfold n1.
    destruct (length others =? 0)%nat.
    { rewrite visibleShare_dropShare by done. rewrite decide_True by done.
      apply not_elem_of_nil. }
    rewrite visibleShare_storeShare by done. rewrite decide_True by done.
    destruct (unlessExpired n now (SHARE_SESSION TTL) later
                (ss_with_clients others ss)) as [ss'|] eqn:Hlater;
      [|apply not_elem_of_nil].
    apply unlessExpired_Some in Hlater. subst ss'.
    rewrite list_elem_of_In, filter_In. intros [Hin _].
    cbn in Hin. apply (without_not_elem c (ss_clients ss)).
    apply list_elem_of_In. unfold without in *.
    apply filter_In in Hin as [Hin _]. exact Hin.
Qed.

Lemma disconnect_leaves_the_share_witness :
  let run := SocketHandler.disconnect DEFAULT_TTL 1004 "sB" nodeWithShareOfTwo in
  ss_clients <$> visibleShare 1004 (state_of run) "S" = Some ["A"%string] /\
  ("B"%string ∉ liveReceivers 1004 (state_of run) (chunkOf "file-1004-x" 0)).
Proof.
  intros run.
  destruct (disconnect_leaves_the_share DEFAULT_TTL 1004 "sB"
              nodeWithShareOfTwo "B"
              (cs_with_shareId "S" (freshSession None 1001 "sB" "B")) "S"
              {| ss_shareId := "S"; ss_createdAt := 1002;
                 ss_lastActivity := 1003; ss_clients := ["A"; "B"]%string;
                 ss_status := active |})
    as (_ & _ & Hshare & _ & _ & _ & Hrelay).
  - exact I.
  - reflexivity.
  - reflexivity.
  - by vm_compute.
  - reflexivity.
  - by vm_compute.
  - fold run in Hshare, Hrelay. split.
    + rewrite Hshare. reflexivity.
    + apply Hrelay. by vm_compute.
Defined.

(* ===================================================================== *)
(** ** The progress of an upload *)
(* ===================================================================== *)

Lemma missingChunks_elem u i :
  i ∈ UploadController.missingChunks u
  <-> 0 <= i < up_totalChunks u /\ (i ∉ up_uploadedChunks u).
Proof.
  unfold UploadController.missingChunks.
  rewrite list_elem_of_In, filter_In, <- list_elem_of_In, elem_of_seqZ.
  rewrite negb_true_iff, bool_decide_eq_false. split.
  - intros [Hr Hn]. split; [lia|done].
  - intros [Hr Hn]. split; [lia|done].
Qed.

Lemma NoDup_List_filter {A} (f : A -> bool) (l : list A) :
  NoDup l -> NoDup (List.filter f l).
Proof.
  induction 1 as [|x l Hx Hnd IH]; cbn; [constructor|].
  destruct (f x); [|done]. constructor; [|done].
  rewrite list_elem_of_In, filter_In, <- list_elem_of_In. by intros [? _].
Qed.

Lemma missingChunks_count u :
  0 <= up_totalChunks u ->
  Z.of_nat (length (UploadController.missingChunks u))
  + Z.of_nat (size (up_uploadedChunks u
                    ∩ list_to_set (seqZ 0 (up_totalChunks u))))
  = up_totalChunks u.
Proof.
  intros Ht.
  set (range := list_to_set (seqZ 0 (up_totalChunks u)) : gset Z).
  assert (Hr : size range = Z.to_nat (up_totalChunks u)).
  { unfold range. rewrite size_list_to_set by apply NoDup_seqZ.
    by rewrite length_seqZ. }
  assert (Hm : length (UploadController.missingChunks u)
               = size (range ∖ up_uploadedChunks u)).
  { rewrite <- (size_list_to_set (C := gset Z)
                  (UploadController.missingChunks u)).
    - f_equal. apply set_eq. intros i.
      rewrite elem_of_list_to_set, missingChunks_elem, elem_of_difference.
      unfold range. rewrite elem_of_list_to_set, elem_of_seqZ.
      split; intros [? ?]; (split; [lia|done]).
    - apply NoDup_List_filter, NoDup_seqZ. }
  rewrite Hm, size_difference_alt.
  assert (Hi : range ∩ up_uploadedChunks u = up_uploadedChunks u ∩ range).
  { apply set_eq. intros i. rewrite !elem_of_intersection. tauto. }
  rewrite Hi.
  assert (Hle : (size (up_uploadedChunks u ∩ range) <= size range)%nat).
  { apply subseteq_size. intros i. rewrite elem_of_intersection. tauto. }
  lia.
Qed.

Lemma StronglySorted_List_filter {A} (R : A -> A -> Prop) (f : A -> bool) l :
  StronglySorted R l -> StronglySorted R (List.filter f l).
Proof.
  induction 1 as [|x l Hs IH Hall]; cbn; [constructor|].
  destruct (f x); [|done]. constructor; [done|].
  apply Forall_forall. intros y Hy.
  apply list_elem_of_In, filter_In in Hy as [Hy _].
  rewrite Forall_forall in Hall. by apply Hall, list_elem_of_In.
Qed.

Lemma StronglySorted_seqZ m k : StronglySorted Z.lt (seqZ m k).
Proof.
  destruct (decide (0 <= k)) as [Hk|Hk].
  2:{ rewrite seqZ_nil by lia. constructor. }
  rewrite <- (Z2Nat.id k Hk). generalize (Z.to_nat k). clear. intros j.
  revert m. induction j as [|j IH]; intros m.
  { rewrite seqZ_nil by lia. constructor. }
  rewrite seqZ_cons by lia. constructor.
  - replace (Z.pred (Z.of_nat (S j))) with (Z.of_nat j) by lia. apply IH.
  - apply Forall_forall. intros y Hy. apply elem_of_seqZ in Hy. lia.
Qed.

(** X19.  [getUploadProgress] answers 404 for a file id that no store
    knows.  For an upload held in memory it changes nothing, and its
    missing chunks are exactly the indices below [totalChunks] that have
    not been received, counted by [missingCount] and listed in ascending
    order, the first ten of them in [missingChunks].  [missingCount]
    and the received chunks that lie below [totalChunks] add up to
    [totalChunks]; with [uploadedChunks] they add up to it only when no
    received index lies outside. *)
Theorem getUploadProgress_accounts
    (now : Z) (fileId : string) (n : Node) :
  (JsMap.get fileId (fileUploads n) = None ->
   (forall r, redisService n = Some r ->
              Redis.isOpen r = true /\
              Redis.GET now fileId (Redis.uploadKeys r) = None) ->
   UploadController.getUploadProgress now fileId n
   = (Throw (AppErr (notFound "Upload")), n, []) /\
   statusCode (notFound "Upload") = 404) /\
  (forall u,
     JsMap.get fileId (fileUploads n) = Some u ->
     0 <= up_totalChunks u ->
     exists p,
       UploadController.getUploadProgress now fileId n = (Return p, n, []) /\
       UploadController.pr_totalChunks p = up_totalChunks u /\
       UploadController.pr_uploadedChunks p
       = Z.of_nat (size (up_uploadedChunks u)) /\
       UploadController.pr_missingCount p
       = Z.of_nat (length (UploadController.missingChunks u)) /\
       UploadController.pr_missingChunks p
       = take 10 (UploadController.missingChunks u) /\
       StronglySorted Z.lt (UploadController.missingChunks u) /\
       (forall i, i ∈ UploadController.missingChunks u
                  <-> 0 <= i < up_totalChunks u /\ (i ∉ up_uploadedChunks u)) /\
       UploadController.pr_missingCount p
       + Z.of_nat (size (up_uploadedChunks u
                         ∩ list_to_set (seqZ 0 (up_totalChunks u))))
       = up_totalChunks u /\
       ((forall i, i ∈ up_uploadedChunks u -> 0 <= i < up_totalChunks u) <->
        UploadController.pr_uploadedChunks p
        + UploadController.pr_missingCount p = up_totalChunks u)).
Proof.
  split.
  - intros Hnone Hredis. split; [|done].
    unfold UploadController.getUploadProgress.
    rewrite (bind_quiet _ _ n None n); [reflexivity|].
    unfold StorageRepository.getUploadState, bind, gets,
      StorageRepository.backend, ret.
    rewrite Hnone.
    destruct (redisService n) as [r|] eqn:Hr; [|done].
    destruct (Hredis r eq_refl) as [Hopen Hget].
    unfold RedisService.getUploadState, RedisService.command.
    rewrite Hopen, Hget. cbn. by rewrite (set_redis_same n r Hr).
  - intros u Hheld Ht. eexists. split.
    { unfold UploadController.getUploadProgress.
      erewrite bind_quiet by (by apply getUploadState_held). reflexivity. }
    cbn. pose proof (missingChunks_count u Ht) as Hcount.
    do 4 (split; [reflexivity|]).
    split; [apply StronglySorted_List_filter, StronglySorted_seqZ|].
    split; [intros i; apply missingChunks_elem|].
    split; [exact Hcount|]. split.
    + intros Hin.
      assert (Hsub : up_uploadedChunks u
                     ∩ list_to_set (seqZ 0 (up_totalChunks u))
                     = up_uploadedChunks u).
      { apply set_eq. intros i.
        rewrite elem_of_intersection, elem_of_list_to_set, elem_of_seqZ.
        split; [by intros [? _]|]. intros Hi. split; [done|].
        specialize (Hin i Hi). lia. }
      rewrite Hsub in Hcount. lia.
    + intros Hsum i Hi.
      assert (Heq : size (up_uploadedChunks u
                          ∩ list_to_set (seqZ 0 (up_totalChunks u)))
                    = size (up_uploadedChunks u)) by lia.
      assert (Hsame : up_uploadedChunks u
                      ∩ list_to_set (seqZ 0 (up_totalChunks u))
                      = up_uploadedChunks u).
      { apply set_subseteq_size_eq; [|lia].
        intros j. rewrite elem_of_intersection. tauto. }
      rewrite <- Hsame in Hi.
      rewrite elem_of_intersection, elem_of_list_to_set, elem_of_seqZ in Hi.
      lia.
Qed.

Lemma getUploadProgress_accounts_witness :
  let n := nodeAfter twoChunksIn in
  exists p,
    UploadController.getUploadProgress 1007 "file-1004-x" n
    = (Return p, n, []) /\
    UploadController.pr_missingChunks p = [2] /\
    UploadController.pr_missingCount p = 1.
Proof.
  intros n.
  destruct (getUploadProgress_accounts 1007 "file-1004-x" n) as [_ Hheld].
  destruct (Hheld uploadBeforeLastChunk)
    as (p & Hrun & _ & _ & Hcount & Hmissing & _).
  - by vm_compute.
  - by vm_compute.
  - exists p. split; [exact Hrun|]. rewrite Hcount, Hmissing.
    split; by vm_compute.
Defined.

(* ===================================================================== *)
(** ** Retrying with backoff *)
(* ===================================================================== *)

Lemma seqZ_first m n : 0 < n -> seqZ m n = m :: seqZ (m + 1) (n - 1).
Proof. intros Hn. by rewrite seqZ_cons by lia. Qed.

Section RetryFacts.
Context {T : Type}.
Variable fn : Z -> Exn + T.
Variable maxRetries : Z.
Variable delayMs : Z.
Variable backoffMultiplier : Z.
Variable onRetry : bool.

Lemma sleeps_pause attempt error rest :
  Retry.sleeps
    ((if attempt <? maxRetries then
        (if onRetry then [Retry.OnRetry attempt error] else [])
        ++ [Retry.Sleep (Retry.backoff delayMs backoffMultiplier attempt)]
      else []) ++ rest)
  = (if attempt <? maxRetries then [Retry.backoff delayMs backoffMultiplier attempt] else [])
    ++ Retry.sleeps rest.
Proof.
  unfold Retry.sleeps. rewrite omap_app.
  by destruct (attempt <? maxRetries), onRetry.
Qed.

Lemma calls_pause attempt error rest :
  Retry.calls
    ((if attempt <? maxRetries then
        (if onRetry then [Retry.OnRetry attempt error] else [])
        ++ [Retry.Sleep (Retry.backoff delayMs backoffMultiplier attempt)]
      else []) ++ rest)
  = Retry.calls rest.
Proof.
  unfold Retry.calls. rewrite omap_app.
  by destruct (attempt <? maxRetries), onRetry.
Qed.

(** Every remaining attempt fails. *)
Lemma attempts_all_fail remaining :
  forall attempt lastError,
    attempt + Z.of_nat remaining = maxRetries + 1 ->
    (forall j, attempt <= j <= maxRetries -> exists e, fn j = inl e) ->
    let run := Retry.attempts fn maxRetries delayMs backoffMultiplier onRetry
                 remaining attempt lastError in
    fst run = inl (match remaining with
                   | O => lastError
                   | S _ => match fn maxRetries with
                            | inl e => Some e
                            | inr _ => None
                            end
                   end) /\
    Retry.calls (snd run) = seqZ attempt (Z.of_nat remaining) /\
    Retry.sleeps (snd run)
    = Retry.backoff delayMs backoffMultiplier
      <$> seqZ attempt (Z.of_nat remaining - 1).
Proof.
  induction remaining as [|remaining IH]; intros attempt lastError Hal Hfail.
  { cbn. done. }
  cbn [Retry.attempts].
  destruct (Hfail attempt ltac:(lia)) as [e He]. rewrite He.
  specialize (IH (attempt + 1) (Some e) ltac:(lia)
                 ltac:(intros j Hj; apply Hfail; lia)).
  destruct (Retry.attempts fn maxRetries delayMs backoffMultiplier onRetry
              remaining (attempt + 1) (Some e)) as [r evs].
  cbn [fst snd] in *. destruct IH as (Hr & Hc & Hs).
  split; [|split].
  - rewrite Hr. destruct remaining as [|remaining']; [|done].
    replace maxRetries with attempt by lia. by rewrite He.
  - change (Retry.Attempt attempt :: ?l)
      with ([Retry.Attempt attempt] ++ l).
    unfold Retry.calls at 1. rewrite omap_app. cbn [omap app].
    fold (Retry.calls
            ((if attempt <? maxRetries then
                (if onRetry then [Retry.OnRetry attempt e] else [])
                ++ [Retry.Sleep (Retry.backoff delayMs backoffMultiplier attempt)]
              else []) ++ evs)).
    rewrite calls_pause, Hc.
    rewrite (seqZ_first attempt (Z.of_nat (S remaining))) by lia.
    by replace (Z.of_nat (S remaining) - 1) with (Z.of_nat remaining) by lia.
  - change (Retry.Attempt attempt :: ?l)
      with ([Retry.Attempt attempt] ++ l).
    unfold Retry.sleeps at 1. rewrite omap_app. cbn [omap app].
    fold (Retry.sleeps
            ((if attempt <? maxRetries then
                (if onRetry then [Retry.OnRetry attempt e] else [])
                ++ [Retry.Sleep (Retry.backoff delayMs backoffMultiplier attempt)]
              else []) ++ evs)).
    rewrite sleeps_pause, Hs.
    destruct (attempt <? maxRetries) eqn:E.
    + apply Z.ltb_lt in E.
      rewrite (seqZ_first attempt (Z.of_nat (S remaining) - 1)) by lia.
      by replace (Z.of_nat (S remaining) - 1 - 1)
        with (Z.of_nat remaining - 1) by lia.
    + apply Z.ltb_ge in E. rewrite !seqZ_nil by lia. done.
Qed.

(** The attempt [k] is the first that succeeds. *)
Lemma attempts_first_success remaining :
  forall attempt lastError k v,
    attempt <= k < attempt + Z.of_nat remaining ->
    attempt + Z.of_nat remaining = maxRetries + 1 ->
    (forall j, attempt <= j < k -> exists e, fn j = inl e) ->
    fn k = inr v ->
    let run := Retry.attempts fn maxRetries delayMs backoffMultiplier onRetry
                 remaining attempt lastError in
    fst run = inr v /\
    Retry.calls (snd run) = seqZ attempt (k - attempt + 1) /\
    Retry.sleeps (snd run)
    = Retry.backoff delayMs backoffMultiplier <$> seqZ attempt (k - attempt).
Proof.
  induction remaining as [|remaining IH];
    intros attempt lastError k v Hk Hal Hfail Hok; [lia|].
  cbn [Retry.attempts].
  destruct (decide (attempt = k)) as [->|Hne].
  { rewrite Hok. cbn. replace (k - k + 1) with 1 by lia.
    replace (k - k) with 0 by lia. done. }
  destruct (Hfail attempt ltac:(lia)) as [e He]. rewrite He.
  specialize (IH (attempt + 1) (Some e) k v ltac:(lia) ltac:(lia)
                 ltac:(intros j Hj; apply Hfail; lia) Hok).
  destruct (Retry.attempts fn maxRetries delayMs backoffMultiplier onRetry
              remaining (attempt + 1) (Some e)) as [r evs].
  cbn [fst snd] in *. destruct IH as (Hr & Hc & Hs).
  split; [done|split].
  - change (Retry.Attempt attempt :: ?l)
      with ([Retry.Attempt attempt] ++ l).
    unfold Retry.calls at 1. rewrite omap_app. cbn [omap app].
    fold (Retry.calls
            ((if attempt <? maxRetries then
                (if onRetry then [Retry.OnRetry attempt e] else [])
                ++ [Retry.Sleep (Retry.backoff delayMs backoffMultiplier attempt)]
              else []) ++ evs)).
    rewrite calls_pause, Hc.
    rewrite (seqZ_first attempt (k - attempt + 1)) by lia.
    by replace (k - attempt + 1 - 1) with (k - (attempt + 1) + 1) by lia.
  - change (Retry.Attempt attempt :: ?l)
      with ([Retry.Attempt attempt] ++ l).
    unfold Retry.sleeps at 1. rewrite omap_app. cbn [omap app].
    fold (Retry.sleeps
            ((if attempt <? maxRetries then
                (if onRetry then [Retry.OnRetry attempt e] else [])
                ++ [Retry.Sleep (Retry.backoff delayMs backoffMultiplier attempt)]
              else []) ++ evs)).
    rewrite sleeps_pause, Hs.
    rewrite (proj2 (Z.ltb_lt _ _)) by lia.
    rewrite (seqZ_first attempt (k - attempt)) by lia.
    by replace (k - attempt - 1) with (k - (attempt + 1)) by lia.
Qed.

End RetryFacts.

(** X20.  [retry] calls [fn] until it succeeds, at most [maxRetries]
    times.  When attempt [k] is the first to succeed, its value is
    returned after [k] calls and [k - 1] waits; when all attempts fail,
    the error of the last attempt is thrown after [maxRetries] calls and
    [maxRetries - 1] waits, with no wait after the last failure.  The
    wait after attempt [j] is [delayMs * backoffMultiplier ^ (j - 1)].
    With [maxRetries] of zero or less, [fn] is never called and
    [undefined] is thrown. *)
Theorem retry_backoff
    {T : Type} (fn : Z -> Exn + T)
    (maxRetries delayMs backoffMultiplier : Z) (onRetry : bool) :
  let run := Retry.retry fn maxRetries delayMs backoffMultiplier onRetry in
  let delay j := delayMs * backoffMultiplier ^ (j - 1) in
  (forall k v,
     1 <= k <= maxRetries ->
     (forall j, 1 <= j < k -> exists e, fn j = inl e) ->
     fn k = inr v ->
     fst run = inr v /\
     Retry.calls (snd run) = seqZ 1 k /\
     Retry.sleeps (snd run) = delay <$> seqZ 1 (k - 1)) /\
  (forall e,
     0 < maxRetries ->
     (forall j, 1 <= j <= maxRetries -> exists e, fn j = inl e) ->
     fn maxRetries = inl e ->
     fst run = inl (Some e) /\
     Retry.calls (snd run) = seqZ 1 maxRetries /\
     Retry.sleeps (snd run) = delay <$> seqZ 1 (maxRetries - 1)) /\
  (maxRetries <= 0 -> run = (inl None, [])).
Proof.
  intros run delay. unfold run, Retry.retry. split; [|split].
  - intros k v Hk Hfail Hok.
    destruct (attempts_first_success fn maxRetries delayMs backoffMultiplier
                onRetry (Z.to_nat maxRetries) 1 None k v)
      as (Hr & Hc & Hs); [lia|lia|done|done|].
    split; [done|]. split.
    + rewrite Hc. by replace (k - 1 + 1) with k by lia.
    + by rewrite Hs.
  - intros e Hpos Hfail He.
    destruct (attempts_all_fail fn maxRetries delayMs backoffMultiplier
                onRetry (Z.to_nat maxRetries) 1 None)
      as (Hr & Hc & Hs); [lia|done|].
    split; [|split].
    + rewrite Hr. destruct (Z.to_nat maxRetries) eqn:E; [lia|].
      by rewrite He.
    + rewrite Hc. by rewrite Z2Nat.id by lia.
    + rewrite Hs. by rewrite Z2Nat.id by lia.
  - intros Hle. replace (Z.to_nat maxRetries) with O by lia. done.
Qed.

Lemma retry_backoff_witness :
  let fn (j : Z) : Exn + Z := if j <? 3 then inl ClientClosedError else inr 7 in
  let run := Retry.retry fn 5 1000 2 false in
  fst run = inr 7 /\ Retry.sleeps (snd run) = [1000; 2000].
Proof.
  intros fn run.
  destruct (retry_backoff fn 5 1000 2 false) as (Hok & _ & _).
  destruct (Hok 3 7) as (Hr & _ & Hs).
  - lia.
  - intros j Hj. exists ClientClosedError. unfold fn.
    by rewrite (proj2 (Z.ltb_lt _ _)) by lia.
  - reflexivity.
  - split; [exact Hr|]. fold run in Hs. rewrite Hs. reflexivity.
Defined.

(** X21.  [initializeRedis] tries to connect at most three times, waiting
    2 s after the first failure and 4 s after the second.  The first
    client that connects becomes the Redis service of the repository.
    When the three attempts fail, a server in cluster mode gets the error
    of the third attempt, and any other server goes on with the
    in-memory storage.  With Redis disabled nothing is attempted. *)
Theorem initializeRedis_three_attempts
    (useCluster : bool) (createRedisClient : Z -> Exn + Redis.t) (n : Node) :
  let run := ServerInit.initializeRedis true useCluster createRedisClient n in
  (forall k client,
     1 <= k <= 3 ->
     (forall j, 1 <= j < k -> exists e, createRedisClient j = inl e) ->
     createRedisClient k = inr client ->
     fst (fst run) = inr (Some client) /\
     redisService (snd (fst run)) = Some client /\
     Retry.calls (snd run) = seqZ 1 k /\
     Retry.sleeps (snd run) = take (Z.to_nat (k - 1)) [2000; 4000]) /\
  (forall e,
     (forall j, 1 <= j <= 3 -> exists e, createRedisClient j = inl e) ->
     createRedisClient 3 = inl e ->
     fst (fst run) = (if useCluster then inl (Some e) else inr None) /\
     snd (fst run) = n /\
     Retry.calls (snd run) = [1; 2; 3] /\
     Retry.sleeps (snd run) = [2000; 4000]) /\
  ServerInit.initializeRedis false useCluster createRedisClient n
  = (inr None, n, []).
Proof.
  intros run. unfold run, ServerInit.initializeRedis, Retry.retry.
  cbn [negb]. split; [|split; [|done]].
  - intros k client Hk Hfail Hok.
    destruct (attempts_first_success createRedisClient 3 2000 2 true
                (Z.to_nat 3) 1 None k client)
      as (Hr & Hc & Hs); [lia|lia|done|done|].
    destruct (Retry.attempts createRedisClient 3 2000 2 true (Z.to_nat 3) 1
                None) as [r evs].
    cbn [fst snd] in *. subst r. cbn [fst snd].
    split; [done|]. split; [done|]. split.
    + rewrite Hc. by replace (k - 1 + 1) with k by lia.
    + rewrite Hs.
      assert (Hcases : k = 1 \/ k = 2 \/ k = 3) by lia.
      by destruct Hcases as [-> | [-> | ->]].
  - intros e Hfail He.
    destruct (attempts_all_fail createRedisClient 3 2000 2 true
                (Z.to_nat 3) 1 None)
      as (Hr & Hc & Hs); [lia|done|].
    destruct (Retry.attempts createRedisClient 3 2000 2 true (Z.to_nat 3) 1
                None) as [r evs].
    cbn [fst snd] in *. subst r. rewrite He.
    split; [by destruct useCluster|]. split; [by destruct useCluster|].
    destruct useCluster; cbn [fst snd]; by rewrite Hc, Hs.
Qed.

Lemma initializeRedis_three_attempts_witness :
  let create (j : Z) : Exn + Redis.t := inl ClientClosedError in
  let run := ServerInit.initializeRedis true false create (emptyNode None) in
  fst (fst run) = inr None /\ Retry.sleeps (snd run) = [2000; 4000].
Proof.
  intros create run.
  destruct (initializeRedis_three_attempts false create (emptyNode None))
    as (_ & Hfail & _).
  destruct (Hfail ClientClosedError) as (Hr & _ & _ & Hs).
  - intros j _. by exists ClientClosedError.
  - reflexivity.
  - split; [exact Hr|exact Hs].
Defined.

(* ===================================================================== *)
(** ** A chunk index outside the file *)
(* ===================================================================== *)

Lemma orderedChunks_inl chunks l ordered :
  StreamingDownload.orderedChunks chunks l = inl ordered ->
  forall i, i ∈ l -> is_Some (chunks !! i).
Proof.
  revert ordered. induction l as [|j l IH]; intros ordered H i Hi.
  { by apply elem_of_nil in Hi. }
  cbn [StreamingDownload.orderedChunks] in H.
  destruct (chunks !! j) as [c|] eqn:Hj; [|discriminate].
  destruct (StreamingDownload.orderedChunks chunks l) as [o|] eqn:Hl;
    [|discriminate].
  apply elem_of_cons in Hi as [->|Hi]; [by rewrite Hj|].
  by apply (IH o).
Qed.

Lemma addChunk_stuck stray i chunk d :
  dom (StreamingDownload.chunks d) ⊆ StreamingDownload.receivedChunks d ->
  stray ∈ StreamingDownload.receivedChunks d ->
  ~ (0 <= stray < StreamingDownload.totalChunks d) ->
  let '(_, d', events) := StreamingDownload.addChunk i chunk d in
  Forall (fun e => hands_over e = false) events /\
  dom (StreamingDownload.chunks d') ⊆ StreamingDownload.receivedChunks d' /\
  stray ∈ StreamingDownload.receivedChunks d' /\
  StreamingDownload.totalChunks d' = StreamingDownload.totalChunks d.
Proof.
  intros Hdom Hstray Hout. unfold StreamingDownload.addChunk.
  destruct (bool_decide (i ∈ StreamingDownload.receivedChunks d)); [done|].
  cbn [StreamingDownload.totalChunks StreamingDownload.receivedChunks].
  set (d1 := StreamingDownload.mk (StreamingDownload.totalChunks d)
               ({[i]} ∪ StreamingDownload.receivedChunks d)
               (<[i:=chunk]> (StreamingDownload.chunks d))).
  assert (Hdom1 : dom (StreamingDownload.chunks d1)
                  ⊆ StreamingDownload.receivedChunks d1).
  { cbn. rewrite dom_insert_L. intros j. rewrite !elem_of_union.
    intros [Hj|Hj]; [by left|right; by apply Hdom]. }
  assert (Hstray1 : stray ∈ StreamingDownload.receivedChunks d1).
  { cbn. apply elem_of_union. by right. }
  destruct (Z.of_nat (size ({[i]} ∪ StreamingDownload.receivedChunks d))
            =? StreamingDownload.totalChunks d) eqn:Hsize.
  2:{ split; [|done]. by repeat constructor. }
  apply Z.eqb_eq in Hsize. unfold StreamingDownload.finalize.
  destruct (StreamingDownload.orderedChunks (StreamingDownload.chunks d1)
              (seqZ 0 (StreamingDownload.totalChunks d1))) as [ordered|j]
    eqn:Hord.
  2:{ split; [|done]. by repeat constructor. }
  exfalso.
  pose proof (orderedChunks_inl _ _ _ Hord) as Hall.
  assert (Hsub : {[stray]} ∪ list_to_set
                   (seqZ 0 (StreamingDownload.totalChunks d))
                 ⊆ StreamingDownload.receivedChunks d1).
  { intros j. rewrite elem_of_union, elem_of_singleton, elem_of_list_to_set.
    intros [->|Hj]; [done|]. apply Hdom1, elem_of_dom. by apply Hall. }
  apply subseteq_size in Hsub.
  rewrite size_union in Hsub.
  2:{ apply disjoint_singleton_l. rewrite elem_of_list_to_set, elem_of_seqZ.
      lia. }
  rewrite size_singleton, size_list_to_set in Hsub by apply NoDup_seqZ.
  rewrite length_seqZ in Hsub. cbn in Hsub. lia.
Qed.

Lemma addChunks_snoc arrivals arrival d :
  addChunks (arrivals ++ [arrival]) d
  = let '(_, d', events) :=
      StreamingDownload.addChunk (fst arrival) (snd arrival)
        (fst (addChunks arrivals d)) in
    (d', snd (addChunks arrivals d) ++ events).
Proof. unfold addChunks. by rewrite foldl_app. Qed.

Lemma getMissingChunks_elem d i :
  i ∈ StreamingDownload.getMissingChunks d
  <-> 0 <= i < StreamingDownload.totalChunks d /\
      (i ∉ StreamingDownload.receivedChunks d).
Proof.
  unfold StreamingDownload.getMissingChunks.
  rewrite list_elem_of_In, filter_In, <- list_elem_of_In, elem_of_seqZ.
  rewrite negb_true_iff, bool_decide_eq_false. split.
  - intros [Hr Hn]. split; [lia|done].
  - intros [Hr Hn]. split; [lia|done].
Qed.

(** X22.  [addChunk] takes any index.  Once a download holds an index
    that is not one of [0 .. totalChunks - 1], no further arrival, in
    whatever number and order, makes it hand over the file: neither
    [downloadBlob] nor [onComplete] is ever called, the index stays, and
    whenever [isComplete] answers yes, a chunk is in fact missing. *)
Theorem stray_chunk_blocks_download
    (stray : Z) (d : StreamingDownload.t) (arrivals : list (Z * Buffer)) :
  dom (StreamingDownload.chunks d) ⊆ StreamingDownload.receivedChunks d ->
  stray ∈ StreamingDownload.receivedChunks d ->
  ~ (0 <= stray < StreamingDownload.totalChunks d) ->
  let d' := fst (addChunks arrivals d) in
  let events := snd (addChunks arrivals d) in
  Forall (fun e => hands_over e = false) events /\
  stray ∈ StreamingDownload.receivedChunks d' /\
  StreamingDownload.totalChunks d' = StreamingDownload.totalChunks d /\
  (StreamingDownload.isComplete d' = true ->
   StreamingDownload.getMissingChunks d' <> []).
Proof.
  intros Hdom Hstray Hout.
  assert (Hinv :
    Forall (fun e => hands_over e = false) (snd (addChunks arrivals d)) /\
    dom (StreamingDownload.chunks (fst (addChunks arrivals d)))
    ⊆ StreamingDownload.receivedChunks (fst (addChunks arrivals d)) /\
    stray ∈ StreamingDownload.receivedChunks (fst (addChunks arrivals d)) /\
    StreamingDownload.totalChunks (fst (addChunks arrivals d))
    = StreamingDownload.totalChunks d).
  { induction arrivals as [|arrival arrivals IH] using rev_ind.
    { cbn. split; [constructor|done]. }
    destruct IH as (Hev & Hd & Hs & Ht).
    rewrite addChunks_snoc.
    pose proof (addChunk_stuck stray (fst arrival) (snd arrival)
                  (fst (addChunks arrivals d)) Hd Hs ltac:(by rewrite Ht))
      as Hstep.
    destruct (StreamingDownload.addChunk (fst arrival) (snd arrival)
                (fst (addChunks arrivals d))) as [[b d1] evs].
    cbn [fst snd]. destruct Hstep as (Hev1 & Hd1 & Hs1 & Ht1).
    split; [by apply Forall_app|]. split; [done|]. split; [done|].
    by rewrite Ht1. }
  destruct Hinv as (Hev & Hd & Hs & Ht).
  intros d' events. split; [done|]. split; [done|]. split; [done|].
  unfold StreamingDownload.isComplete. intros Hsize Hnone.
  apply Z.eqb_eq in Hsize.
  assert (Hsub : {[stray]} ∪ list_to_set
                   (seqZ 0 (StreamingDownload.totalChunks d'))
                 ⊆ StreamingDownload.receivedChunks d').
  { intros j. rewrite elem_of_union, elem_of_singleton, elem_of_list_to_set.
    intros [->|Hj]; [done|]. apply elem_of_seqZ in Hj.
    destruct (decide (j ∈ StreamingDownload.receivedChunks d')) as [|Hn];
      [done|].
    assert (Hj' : j ∈ StreamingDownload.getMissingChunks d').
    { apply getMissingChunks_elem. split; [lia|done]. }
    rewrite Hnone in Hj'. by apply elem_of_nil in Hj'. }
  apply subseteq_size in Hsub.
  rewrite size_union in Hsub.
  2:{ apply disjoint_singleton_l. rewrite elem_of_list_to_set, elem_of_seqZ.
      unfold d'. rewrite Ht. lia. }
  rewrite size_singleton, size_list_to_set in Hsub by apply NoDup_seqZ.
  rewrite length_seqZ in Hsub. lia.
Qed.

Lemma stray_chunk_blocks_download_witness :
  let d := fst (addChunks [(5, [])] (StreamingDownload.create 2)) in
  let run := addChunks [(0, []); (1, [])] d in
  StreamingDownload.receivedChunks d = {[5]} /\
  Forall (fun e => hands_over e = false) (snd run) /\
  StreamingDownload.isComplete
    (fst (addChunks [(0, [])] d)) = true.
Proof.
  intros d run. split; [by vm_compute|].
  destruct (stray_chunk_blocks_download 5 d [(0, []); (1, [])])
    as (Hev & _).
  - apply (bool_decide_unpack _). by vm_compute.
  - apply (bool_decide_unpack _). by vm_compute.
  - vm_compute. intros [_ H]. discriminate H.
  - split; [exact Hev|]. by vm_compute.
Defined.

(** X23.  For a download whose received indices all lie in
    [0 .. totalChunks - 1], [isComplete] answers yes exactly when
    [getMissingChunks] is empty, and the indices that [getMissingChunks]
    lists and the received ones add up to [totalChunks]. *)
Theorem isComplete_iff_nothing_missing (d : StreamingDownload.t) :
  0 <= StreamingDownload.totalChunks d ->
  (forall i, i ∈ StreamingDownload.receivedChunks d ->
             0 <= i < StreamingDownload.totalChunks d) ->
  (StreamingDownload.isComplete d = true
   <-> StreamingDownload.getMissingChunks d = []) /\
  Z.of_nat (length (StreamingDownload.getMissingChunks d))
  + Z.of_nat (size (StreamingDownload.receivedChunks d))
  = StreamingDownload.totalChunks d.
Proof.
  intros Ht Hin.
  assert (Hcount :
    Z.of_nat (length (StreamingDownload.getMissingChunks d))
    + Z.of_nat (size (StreamingDownload.receivedChunks d))
    = StreamingDownload.totalChunks d).
  { set (range := list_to_set (seqZ 0 (StreamingDownload.totalChunks d))
                  : gset Z).
    assert (Hr : size range = Z.to_nat (StreamingDownload.totalChunks d)).
    { unfold range. rewrite size_list_to_set by apply NoDup_seqZ.
      by rewrite length_seqZ. }
    assert (Hm : length (StreamingDownload.getMissingChunks d)
                 = size (range ∖ StreamingDownload.receivedChunks d)).
    { rewrite <- (size_list_to_set (C := gset Z)
                    (StreamingDownload.getMissingChunks d)).
      - f_equal. apply set_eq. intros i.
        rewrite elem_of_list_to_set, getMissingChunks_elem,
          elem_of_difference.
        unfold range. rewrite elem_of_list_to_set, elem_of_seqZ.
        split; intros [? ?]; (split; [lia|done]).
      - apply NoDup_List_filter, NoDup_seqZ. }
    assert (Hsub : StreamingDownload.receivedChunks d ⊆ range).
    { intros i Hi. apply elem_of_list_to_set, elem_of_seqZ.
      specialize (Hin i Hi). lia. }
    rewrite Hm, (size_difference _ _ Hsub).
    apply subseteq_size in Hsub. lia. }
  split; [|exact Hcount].
  unfold StreamingDownload.isComplete. rewrite Z.eqb_eq. split.
  - intros Hsize.
    destruct (StreamingDownload.getMissingChunks d); [done|].
    cbn [length] in Hcount. lia.
  - intros Hnone. rewrite Hnone in Hcount. cbn [length] in Hcount. lia.
Qed.

Lemma isComplete_iff_nothing_missing_witness :
  let d := fst (addChunks [(1, []); (0, [])] (StreamingDownload.create 3)) in
  StreamingDownload.getMissingChunks d = [2] /\
  Z.of_nat (length (StreamingDownload.getMissingChunks d))
  + Z.of_nat (size (StreamingDownload.receivedChunks d)) = 3.
Proof.
  intros d. split; [by vm_compute|].
  destruct (isComplete_iff_nothing_missing d) as [_ Hcount].
  - by vm_compute.
  - intros i Hi.
    assert (Hd : StreamingDownload.receivedChunks d = {[0; 1]}).
    { apply (bool_decide_unpack _). by vm_compute. }
    rewrite Hd in Hi.
    apply elem_of_union in Hi as [Hi|Hi]; apply elem_of_singleton in Hi;
      subst i; by vm_compute.
  - exact Hcount.
Defined.

(* ===================================================================== *)
(** ** Routing between nodes *)
(* ===================================================================== *)

Lemma routeMessageToClient_not_local session sessions clientId event c :
  (forall sid sockets,
     truthy (JsMap.get clientId (MessageRouting.localClients c)) = Some sid ->
     MessageRouting.io c = Some sockets -> sid ∉ sockets) ->
  exists c',
    MessageRouting.routeMessageToClient session sessions clientId event c
    = (c', MessageRouting.routeBySession session sessions clientId event c') /\
    MessageRouting.nodeId c' = MessageRouting.nodeId c /\
    MessageRouting.io c' = MessageRouting.io c /\
    MessageRouting.isMaster c' = MessageRouting.isMaster c /\
    MessageRouting.pubSubReady c' = MessageRouting.pubSubReady c /\
    (forall k, k <> clientId ->
       JsMap.get k (MessageRouting.localClients c')
       = JsMap.get k (MessageRouting.localClients c)).
Proof.
  intros Hnot. unfold MessageRouting.routeMessageToClient.
  destruct (truthy (JsMap.get clientId (MessageRouting.localClients c)))
    as [sid|] eqn:Hl; [|by exists c].
  destruct (MessageRouting.io c) as [sockets|] eqn:Hio; [|by exists c].
  rewrite bool_decide_eq_false_2 by (by apply (Hnot sid sockets)).
  eexists. split; [reflexivity|]. cbn. repeat split; try done.
  intros k Hk. by apply JsMap_get_delete_ne.
Qed.

Lemma onMessageRoute_elsewhere data c :
  MessageRouting.nodeId c <> Some (MessageRouting.targetNodeId data) ->
  MessageRouting.onMessageRoute data c = [].
Proof.
  intros Hne. unfold MessageRouting.onMessageRoute.
  destruct (MessageRouting.io c); [|done].
  by rewrite bool_decide_eq_false_2 by congruence.
Qed.

(** X24.  From node to node: when the client cannot be served on the
    sending node and its stored session names another node, the sender
    publishes one message on [message:route] and nothing else.  Of all
    the nodes that receive it, the sender included, only the node named
    acts: it emits the event once, on the socket of the session if that
    is open, else on the socket it has cached for the client if that is
    open, and else the message is dropped. *)
Theorem route_reaches_the_remote_socket
    (a b : MessageRouting.t) (s : ClientSession)
    (sessions : list MessageRouting.DbSession) (clientId : string)
    (event : ServerEvent) (target : string) (sockets : list string) :
  clientId <> ""%string ->
  truthy (cs_nodeId s) = Some target ->
  MessageRouting.nodeId a <> Some target ->
  MessageRouting.pubSubReady a = true ->
  (forall sid open,
     truthy (JsMap.get clientId (MessageRouting.localClients a)) = Some sid ->
     MessageRouting.io a = Some open -> sid ∉ open) ->
  MessageRouting.nodeId b = Some target ->
  MessageRouting.io b = Some sockets ->
  let run := MessageRouting.routeMessageToClient (Some s) sessions clientId
               event a in
  exists m,
    snd run = [MessageRouting.PublishRoute m] /\
    MessageRouting.onMessageRoute m (fst run) = [] /\
    (forall c, MessageRouting.nodeId c <> Some target ->
               MessageRouting.onMessageRoute m c = []) /\
    MessageRouting.onMessageRoute m b
    = (if bool_decide (cs_socketId s ∈ sockets)
       then [MessageRouting.SocketEmit (cs_socketId s) event]
       else match truthy (JsMap.get clientId (MessageRouting.localClients b)) with
            | Some cached =>
                if bool_decide (cached ∈ sockets)
                then [MessageRouting.SocketEmit cached event] else []
            | None => []
            end).
Proof.
  intros Hclient Hnode Ha Hready Hnot Hb Hio run.
  destruct (routeMessageToClient_not_local (Some s) sessions clientId event a
              Hnot) as (a' & Hrun & Hid & _ & _ & Hrdy & _).
  unfold run. rewrite Hrun. cbn [fst snd].
  unfold MessageRouting.routeBySession. rewrite Hnode.
  rewrite bool_decide_eq_false_2 by (rewrite Hid; congruence).
  rewrite Hrdy, Hready.
  eexists. split; [reflexivity|]. split; [|split].
  - apply onMessageRoute_elsewhere. cbn. by rewrite Hid.
  - intros c Hc. by apply onMessageRoute_elsewhere.
  - unfold MessageRouting.onMessageRoute, MessageRouting.emitIfOpen.
    cbn. rewrite Hio, Hb. rewrite bool_decide_eq_true_2 by done.
    destruct (bool_decide (cs_socketId s ∈ sockets)); [done|].
    destruct (String.eqb clientId "") eqn:E; [|done].
    by apply String.eqb_eq in E.
Qed.

Lemma route_reaches_the_remote_socket_witness :
  let a := MessageRouting.mk (Some "n1") (Some ["sA"]) true
             [("B", "old")] true in
  let b := MessageRouting.mk (Some "n2") (Some ["sB"]) false
             [("B", "sB")] true in
  let s := freshSession (Some "n2") 1001 "sB" "B" in
  let run := MessageRouting.routeMessageToClient (Some s) [] "B"
               heartbeat_ack a in
  MessageRouting.localClients (fst run) = [] /\
  deliverRoute
    {| MessageRouting.targetNodeId := "n2";
       MessageRouting.targetClientId := Some "B";
       MessageRouting.rm_socketId := "sB";
       MessageRouting.rm_event := heartbeat_ack |} [fst run; b]
  = [MessageRouting.SocketEmit "sB" heartbeat_ack].
Proof.
  intros a b s run.
  destruct (route_reaches_the_remote_socket a b s [] "B" heartbeat_ack "n2"
              ["sB"]%string)
    as (m & Hpub & Hself & _ & Hthere).
  - done.
  - reflexivity.
  - done.
  - reflexivity.
  - intros sid open Hsid Hopen. injection Hsid as <-. injection Hopen as <-.
    apply not_elem_of_cons. split; [done|apply not_elem_of_nil].
  - reflexivity.
  - reflexivity.
  - split; [reflexivity|]. fold run in Hpub, Hself.
    assert (Hm : m = {| MessageRouting.targetNodeId := "n2";
                        MessageRouting.targetClientId := Some "B";
                        MessageRouting.rm_socketId := "sB";
                        MessageRouting.rm_event := heartbeat_ack |}).
    { assert (H : [MessageRouting.PublishRoute m]
                  = [MessageRouting.PublishRoute
                       {| MessageRouting.targetNodeId := "n2";
                          MessageRouting.targetClientId := Some "B";
                          MessageRouting.rm_socketId := "sB";
                          MessageRouting.rm_event := heartbeat_ack |}])
        by (rewrite <- Hpub; reflexivity).
      by injection H. }
    subst m. unfold deliverRoute. cbn [flat_map].
    rewrite Hself, Hthere. reflexivity.
Defined.

(** X25.  Through the master: a worker that cannot serve the client and
    finds no node in the client's stored session publishes one request on
    [routing:request].  Only the master acts on it: for every session of
    the client in the database that is on another node it publishes one
    message on [message:route], without the client id.  The node named
    emits the event on the socket of that session if it is open, and
    drops the message if not, whatever socket it has cached for the
    client. *)
Theorem route_through_the_master
    (a mst : MessageRouting.t) (session : option ClientSession)
    (known : list MessageRouting.DbSession) (clientId : string)
    (event : ServerEvent) :
  MessageRouting.isMaster a = false ->
  MessageRouting.pubSubReady a = true ->
  (forall sid open,
     truthy (JsMap.get clientId (MessageRouting.localClients a)) = Some sid ->
     MessageRouting.io a = Some open -> sid ∉ open) ->
  session ≫= (fun s => truthy (cs_nodeId s)) = None ->
  MessageRouting.isMaster mst = true ->
  MessageRouting.pubSubReady mst = true ->
  let toNode (d : MessageRouting.DbSession) :=
    {| MessageRouting.targetNodeId := MessageRouting.db_nodeId d;
       MessageRouting.targetClientId := None;
       MessageRouting.rm_socketId := MessageRouting.db_socketId d;
       MessageRouting.rm_event := event |} in
  snd (MessageRouting.routeMessageToClient session known clientId event a)
  = [MessageRouting.PublishRequest clientId event] /\
  (forall c sessions,
     MessageRouting.isMaster c = false ->
     MessageRouting.onRoutingRequest sessions event c = []) /\
  (forall sessions,
     (forall d, d ∈ sessions ->
        Some (MessageRouting.db_nodeId d) <> MessageRouting.nodeId mst) ->
     MessageRouting.onRoutingRequest sessions event mst
     = (fun d => MessageRouting.PublishRoute (toNode d)) <$> sessions) /\
  (forall d b sockets,
     MessageRouting.nodeId b = Some (MessageRouting.db_nodeId d) ->
     MessageRouting.io b = Some sockets ->
     MessageRouting.onMessageRoute (toNode d) b
     = (if bool_decide (MessageRouting.db_socketId d ∈ sockets)
        then [MessageRouting.SocketEmit (MessageRouting.db_socketId d) event]
        else [])).
Proof.
  intros Hworker Hready Hnot Hnode Hmaster Hmready toNode.
  split; [|split; [|split]].
  - destruct (routeMessageToClient_not_local session known clientId event a
                Hnot) as (a' & Hrun & _ & _ & Hm & Hrdy & _).
    rewrite Hrun. cbn [snd].
    assert (Hrole : MessageRouting.routeByRole known clientId event a'
                    = [MessageRouting.PublishRequest clientId event]).
    { unfold MessageRouting.routeByRole. by rewrite Hm, Hworker, Hrdy, Hready. }
    unfold MessageRouting.routeBySession.
    destruct session as [s|]; [|done]. cbn in Hnode. by rewrite Hnode.
  - intros c sessions Hc. unfold MessageRouting.onRoutingRequest.
    by rewrite Hc.
  - intros sessions Hother. unfold MessageRouting.onRoutingRequest.
    rewrite Hmaster, Hmready. cbn [negb].
    induction sessions as [|d sessions IH]; [done|].
    cbn [flat_map fmap list_fmap].
    rewrite bool_decide_eq_false_2
      by (apply Hother, elem_of_cons; by left).
    cbn [app]. f_equal. apply IH. intros d' Hd'. apply Hother.
    apply elem_of_cons. by right.
  - intros d b sockets Hb Hio. unfold MessageRouting.onMessageRoute.
    cbn. rewrite Hio, Hb. rewrite bool_decide_eq_true_2 by done.
    by destruct (bool_decide (MessageRouting.db_socketId d ∈ sockets)).
Qed.

Lemma route_through_the_master_witness :
  let a := MessageRouting.mk (Some "n1") (Some ["sA"]) false [] true in
  let mst := MessageRouting.mk (Some "n0") (Some []) true [] true in
  let b := MessageRouting.mk (Some "n2") (Some ["new"]) false
             [("B", "new")] true in
  let d := {| MessageRouting.db_nodeId := "n2";
              MessageRouting.db_socketId := "old" |} in
  snd (MessageRouting.routeMessageToClient None [] "B" heartbeat_ack a)
  = [MessageRouting.PublishRequest "B" heartbeat_ack] /\
  deliverRoute
    {| MessageRouting.targetNodeId := "n2";
       MessageRouting.targetClientId := None;
       MessageRouting.rm_socketId := "old";
       MessageRouting.rm_event := heartbeat_ack |} [b] = [].
Proof.
  intros a mst b d.
  destruct (route_through_the_master a mst None [] "B" heartbeat_ack)
    as (Hreq & _ & _ & Hthere).
  - reflexivity.
  - reflexivity.
  - intros sid open Hsid. discriminate Hsid.
  - reflexivity.
  - reflexivity.
  - reflexivity.
  - split; [exact Hreq|]. unfold deliverRoute. cbn [flat_map].
    rewrite app_nil_r.
    etransitivity; [apply (Hthere d b ["new"]%string eq_refl eq_refl)|].
    reflexivity.
Defined.

(* ===================================================================== *)
(** ** A file through the server *)
(* ===================================================================== *)

Lemma routedChunks_app c f o1 o2 :
  routedChunks c f (o1 ++ o2) = routedChunks c f o1 ++ routedChunks c f o2.
Proof. apply omap_app. Qed.

Lemma routedChunks_pair c f r i chunk total other :
  routedChunks c f [Route r (chunk_received f i chunk total);
                    Route other (chunk_acknowledged f i)]
  = if String.eqb r c then [(i, chunk)] else [].
Proof.
  unfold routedChunks. cbn. rewrite String.eqb_refl, andb_true_r.
  by destruct (String.eqb r c).
Qed.

Lemma routedChunks_relayOutputs c data total receivers i b :
  (i, b) ∈ routedChunks c (uc_fileId data) (relayOutputs data total receivers)
  <-> c ∈ receivers /\ i = uc_chunkIndex data /\ b = uc_chunk data.
Proof.
  induction receivers as [|r receivers IH].
  { cbn. rewrite !elem_of_nil. tauto. }
  cbn [relayOutputs flat_map app].
  change (?x :: ?y :: ?l) with ([x; y] ++ l).
  rewrite routedChunks_app, elem_of_app.
  fold (relayOutputs data total receivers). rewrite IH, elem_of_cons.
  rewrite routedChunks_pair.
  destruct (String.eqb r c) eqn:E.
  - apply String.eqb_eq in E. subst r.
    rewrite elem_of_cons, elem_of_nil. split.
    + intros [[H|[]]|H]; [|tauto]. injection H as -> ->. tauto.
    + intros [_ [-> ->]]. left. by left.
  - rewrite elem_of_nil. split.
    + intros [[]|H]. tauto.
    + intros [[->|H] H']; [by rewrite String.eqb_refl in E|]. right. tauto.
Qed.

Section Relaying.
Variable config : Config.
Variable TTL : TTLConfig.
Variable simdChecksum : Buffer -> string.

Lemma withChunk_pendingAcks now data u :
  up_pendingAcks u <> AcksObject ->
  up_pendingAcks (withChunk config simdChecksum now data u) <> AcksObject.
Proof. unfold withChunk. by case_match. Qed.

(** One chunk: what is routed, and what the next chunk finds. *)
Lemma uploadChunk_routes now data n u :
  JsMap.get (uc_fileId data) (fileUploads n) = Some u ->
  up_status u <> cancelled -> up_status u <> paused ->
  up_pendingAcks u <> AcksObject ->
  redisOpen n ->
  let run :=
    SocketHandler.uploadChunk config TTL simdChecksum now data true n in
  (forall c i b,
     (i, b) ∈ routedChunks c (uc_fileId data) (outputs_of run)
     <-> c ∈ liveReceivers now n data /\
         i = uc_chunkIndex data /\ b = uc_chunk data) /\
  routingStore (state_of run) = routingStore n /\
  exists u',
    JsMap.get (uc_fileId data) (fileUploads (state_of run)) = Some u' /\
    up_status u' <> cancelled /\ up_status u' <> paused /\
    up_pendingAcks u' <> AcksObject.
Proof.
  intros Hheld Hc Hp Hacks Hopen run.
  pose proof (uploadChunk_keeps_routing config TTL simdChecksum now data true n)
    as Hkeep.
  fold run in Hkeep.
  destruct (uploadChunk_run config TTL simdChecksum now data true n u
              Hheld Hc Hp Hacks Hopen) as (n' & Hrun & Hheld' & _).
  fold run in Hrun. rewrite Hrun in *.
  cbn [state_of outputs_of fst snd] in *.
  split; [|split; [exact Hkeep|]].
  - intros c i b. rewrite !routedChunks_app, !elem_of_app.
    rewrite routedChunks_relayOutputs.
    split; [|by intros H; right; left].
    intros [H|[H|[H|H]]]; [|done| |].
    + cbn in H. by apply elem_of_nil in H.
    + cbn in H. by apply elem_of_nil in H.
    + destruct (bool_decide _) in H; cbn in H; by apply elem_of_nil in H.
  - eexists. split; [exact Hheld'|].
    pose proof (withChunk_status config simdChecksum now data u) as Hst.
    pose proof (withChunk_pendingAcks now data u Hacks) as Hpa.
    destruct (bool_decide _); cbn; rewrite ?Hst; done.
Qed.

Lemma relayAll_routes fileId timed :
  forall n u,
    JsMap.get fileId (fileUploads n) = Some u ->
    up_status u <> cancelled -> up_status u <> paused ->
    up_pendingAcks u <> AcksObject ->
    redisOpen n ->
    (forall t d, (t, d) ∈ timed -> uc_fileId d = fileId) ->
    forall c i b,
      (i, b) ∈ routedChunks c fileId
                 (snd (relayAll config TTL simdChecksum timed n))
      <-> exists t d, (t, d) ∈ timed /\ c ∈ liveReceivers t n d /\
                      i = uc_chunkIndex d /\ b = uc_chunk d.
Proof.
  induction timed as [|[now data] timed IH];
    intros n u Hheld Hc Hp Hacks Hopen Hfile c i b.
  { cbn. rewrite elem_of_nil. split; [done|].
    intros (t & d & H & _). by apply elem_of_nil in H. }
  assert (Hf : uc_fileId data = fileId)
    by (apply (Hfile now); apply elem_of_cons; by left).
  subst fileId.
  destruct (uploadChunk_routes now data n u Hheld Hc Hp Hacks Hopen)
    as (Hout & Hrt & u' & Hheld' & Hc' & Hp' & Hacks').
  destruct (routingStore_views _ _ Hrt) as (Hopen' & _ & _ & Hlive).
  specialize (IH (state_of (SocketHandler.uploadChunk config TTL simdChecksum
                              now data true n)) u' Hheld' Hc' Hp' Hacks'
                 (proj2 Hopen' Hopen)
                 ltac:(intros t d Htd; apply (Hfile t); apply elem_of_cons;
                       by right) c i b).
  cbn [relayAll].
  destruct (relayAll config TTL simdChecksum timed
              (state_of (SocketHandler.uploadChunk config TTL simdChecksum
                           now data true n))) as [n' outs].
  cbn [snd] in *. rewrite routedChunks_app, elem_of_app, Hout, IH.
  split.
  - intros [(Hin & -> & ->)|(t & d & Htd & Hin & -> & ->)].
    + exists now, data. split; [apply elem_of_cons; by left|done].
    + exists t, d. split; [apply elem_of_cons; by right|].
      by rewrite <- Hlive.
  - intros (t & d & Htd & Hin & -> & ->).
    apply elem_of_cons in Htd as [Heq|Htd].
    + injection Heq as -> ->. by left.
    + right. exists t, d. by rewrite Hlive.
Qed.

End Relaying.

(** X26.  The relay passes on what it is given.  While the server
    handles the [upload-chunk] events of a file whose upload it holds and
    has not paused or cancelled, the chunks it routes to a client are
    exactly the chunks of the events at whose time the client was a
    receiver of the file, with the index and the bytes of the event,
    duplicates and chunks after completion included; and the handling
    itself never changes who the receivers are. *)
Theorem relay_passes_on_every_chunk
    (config : Config) (TTL : TTLConfig) (simdChecksum : Buffer -> string)
    (fileId : string) (timed : list (Z * UploadChunkEvent))
    (n : Node) (u : FileUpload) :
  JsMap.get fileId (fileUploads n) = Some u ->
  up_status u <> cancelled -> up_status u <> paused ->
  up_pendingAcks u <> AcksObject ->
  redisOpen n ->
  (forall t d, (t, d) ∈ timed -> uc_fileId d = fileId) ->
  let run := relayAll config TTL simdChecksum timed n in
  (forall c i b,
     (i, b) ∈ routedChunks c fileId (snd run)
     <-> exists t d, (t, d) ∈ timed /\ c ∈ liveReceivers t n d /\
                     i = uc_chunkIndex d /\ b = uc_chunk d) /\
  (forall t d, liveReceivers t (fst run) d = liveReceivers t n d).
Proof.
  intros Hheld Hc Hp Hacks Hopen Hfile run. split.
  { by apply (relayAll_routes config TTL simdChecksum fileId timed n u). }
  unfold run. clear Hheld Hc Hp Hacks Hopen Hfile run u.
  revert n. induction timed as [|[now data] timed IH]; intros n t d; [done|].
  cbn [relayAll].
  specialize (IH (state_of (SocketHandler.uploadChunk config TTL simdChecksum
                              now data true n)) t d).
  destruct (relayAll config TTL simdChecksum timed
              (state_of (SocketHandler.uploadChunk config TTL simdChecksum
                           now data true n))) as [n' outs].
  cbn [fst] in *. rewrite IH.
  by apply routingStore_views, uploadChunk_keeps_routing.
Qed.

Lemma relay_passes_on_every_chunk_witness :
  let n := nodeAfter transferStarted in
  let timed := [(1005, chunkOf "file-1004-x" 1); (1006, chunkOf "file-1004-x" 0);
                (1007, chunkOf "file-1004-x" 1)] in
  let run := relayAll defaultConfig DEFAULT_TTL (fun _ => ""%string) timed n in
  (1, []) ∈ routedChunks "B" "file-1004-x" (snd run) /\
  liveReceivers 1008 (fst run) (chunkOf "file-1004-x" 2) = ["B"%string].
Proof.
  intros n timed run.
  destruct (relay_passes_on_every_chunk defaultConfig DEFAULT_TTL
              (fun _ => ""%string) "file-1004-x" timed n uploadJustStarted)
    as [Hrouted Hlive].
  - by vm_compute.
  - done.
  - done.
  - done.
  - exact I.
  - intros t d Htd. unfold timed in Htd.
    rewrite !elem_of_cons, elem_of_nil in Htd.
    destruct Htd as [H|[H|[H|[]]]]; by injection H as -> ->.
  - split.
    + apply Hrouted. exists 1005, (chunkOf "file-1004-x" 1).
      split; [apply elem_of_cons; by left|].
      split; [|done]. apply (bool_decide_unpack _). by vm_compute.
    + fold run in Hlive. rewrite Hlive. by vm_compute.
Defined.



(* ===================================================================== *)
(** ** From [upload-init] to the relay *)
(* ===================================================================== *)

Lemma includes_str_app_r x l : includes_str x (l ++ [x]) = true.
Proof.
  unfold includes_str. rewrite existsb_app. cbn.
  by rewrite String.eqb_refl, orb_true_r.
Qed.

Lemma fileUploads_storeSession TTL now clientId session n :
  fileUploads (storeSession TTL now clientId session n) = fileUploads n.
Proof.
  unfold storeSession, StorageRepository.setClientSession,
    StorageRepository.backend, state_of, modify.
  destruct (redisService n) as [r|]; [|done].
  by destruct (RedisService.setClientSession TTL now clientId session r).
Qed.

Section Accepting.
Variable config : Config.
Variable TTL : TTLConfig.
Hypothesis TTL_pos : 0 < CLIENT_SESSION TTL.

(** What the receiver loop of [upload-init] leaves behind. *)
Lemma acceptReceivers_spec now fileId allUploads others :
  forall n accepted n' o,
    redisOpen n ->
    SocketHandler.acceptReceivers config TTL now fileId allUploads others n
    = (Return accepted, n', o) ->
    o = [] /\ redisOpen n' /\ fileUploads n' = fileUploads n /\
    (forall later k, visibleShare later n' k = visibleShare later n k) /\
    (forall c, c ∉ others ->
               visibleSession now n' c = visibleSession now n c) /\
    (forall c s,
       visibleSession now n c = Some s ->
       includes_str fileId (cs_downloads s) = true ->
       exists s', visibleSession now n' c = Some s' /\
                  includes_str fileId (cs_downloads s') = true) /\
    (forall c, c ∈ accepted ->
       c ∈ others /\
       exists s', visibleSession now n' c = Some s' /\
                  includes_str fileId (cs_downloads s') = true).
Proof.
  induction others as [|c0 others IH]; intros n accepted n' o Hopen Hrun.
  { cbn in Hrun. injection Hrun as <- <- <-.
    do 5 (split; [done|]). split.
    - intros c s Hs Hinc. by exists s.
    - intros c H. by apply elem_of_nil in H. }
  cbn [SocketHandler.acceptReceivers] in Hrun.
  rewrite (bind_quiet _ _ n _ n (getClientSession_reads now c0 n)) in Hrun.
  assert (Hskip :
    SocketHandler.acceptReceivers config TTL now fileId allUploads others n
    = (Return accepted, n', o) ->
    o = [] /\ redisOpen n' /\ fileUploads n' = fileUploads n /\
    (forall later k, visibleShare later n' k = visibleShare later n k) /\
    (forall c, c ∉ c0 :: others ->
               visibleSession now n' c = visibleSession now n c) /\
    (forall c s,
       visibleSession now n c = Some s ->
       includes_str fileId (cs_downloads s) = true ->
       exists s', visibleSession now n' c = Some s' /\
                  includes_str fileId (cs_downloads s') = true) /\
    (forall c, c ∈ accepted ->
       c ∈ c0 :: others /\
       exists s', visibleSession now n' c = Some s' /\
                  includes_str fileId (cs_downloads s') = true)).
  { intros H. destruct (IH n accepted n' o Hopen H)
      as (Ho & Hop & Hfu & Hsh & Hout & Hmono & Hacc).
    split; [done|]. split; [done|]. split; [done|]. split; [done|].
    split; [|split; [done|]].
    - intros c Hc. apply Hout. intros Hin. apply Hc, elem_of_cons. by right.
    - intros c Hc. destruct (Hacc c Hc) as [Hin Hs]. split; [|done].
      apply elem_of_cons. by right. }
  destruct (visibleSession now n c0) as [os|] eqn:Hos; [|by apply Hskip].
  destruct (maxConcurrentDownloads config <=? Z.of_nat (length (cs_downloads os)));
    [by apply Hskip|].
  rewrite (bind_quiet _ _ n _ n eq_refl) in Hrun.
  destruct (maxConcurrentTransfers config <=? _); [by apply Hskip|].
  rewrite (bind_quiet _ _ n tt
             (storeSession TTL now c0
                (cs_with_downloads (cs_downloads os ++ [fileId]) os) n))
    in Hrun by (by apply setClientSession_run).
  set (n1 := storeSession TTL now c0
               (cs_with_downloads (cs_downloads os ++ [fileId]) os) n) in *.
  assert (Hopen1 : redisOpen n1) by (by apply storeSession_redisOpen).
  destruct (SocketHandler.acceptReceivers config TTL now fileId allUploads
              others n1) as [[[acc|e] n2] o2] eqn:Hrest.
  2:{ rewrite (bind_Throw _ _ _ _ _ _ Hrest) in Hrun. discriminate Hrun. }
  rewrite (bind_run _ _ _ _ _ _ Hrest) in Hrun. cbn in Hrun.
  injection Hrun as <- <- <-.
  destruct (IH n1 acc n2 o2 Hopen1 Hrest)
    as (Ho & Hop & Hfu & Hsh & Hout & Hmono & Hacc).
  assert (Hhead : exists s', visibleSession now n2 c0 = Some s' /\
                             includes_str fileId (cs_downloads s') = true).
  { apply (Hmono c0 (cs_with_downloads (cs_downloads os ++ [fileId]) os)).
    - unfold n1. rewrite visibleSession_storeSession by done.
      rewrite decide_True by done. by apply unlessExpired_now.
    - cbn. apply includes_str_app_r. }
  split; [by rewrite Ho|]. split; [done|].
  split; [by rewrite Hfu; apply fileUploads_storeSession|].
  split; [|split; [|split]].
  - intros later k. rewrite Hsh. apply visibleShare_storeSession.
  - intros c Hc. apply not_elem_of_cons in Hc as [Hne Hc].
    rewrite (Hout c Hc). unfold n1.
    rewrite visibleSession_storeSession by done. by rewrite decide_False.
  - intros c s Hs Hinc. destruct (decide (c = c0)) as [->|Hne]; [done|].
    apply (Hmono c s); [|done]. unfold n1.
    rewrite visibleSession_storeSession by done. by rewrite decide_False.
  - intros c Hc. apply elem_of_cons in Hc as [->|Hc].
    + split; [apply elem_of_cons; by left|done].
    + destruct (Hacc c Hc) as [Hin Hs]. split; [|done].
      apply elem_of_cons. by right.
Qed.

End Accepting.

Lemma bind_assoc {A B C} (m : M A) (k1 : A -> M B) (k2 : B -> M C) n :
  bind (bind m k1) k2 n = bind m (fun a => bind (k1 a) k2) n.
Proof.
  unfold bind. destruct (m n) as [[[a|e] n1] o1]; [|done].
  destruct (k1 a n1) as [[[b|e] n2] o2]; [|done].
  destruct (k2 b n2) as [[r n3] o3]. by rewrite app_assoc.
Qed.

Lemma outputs_bind_nil {A B} (m : M A) (k : A -> M B) :
  (forall n, outputs_of (m n) = []) ->
  (forall a n, outputs_of (k a n) = []) ->
  forall n, outputs_of (bind m k n) = [].
Proof.
  intros Hm Hk n. unfold bind. specialize (Hm n).
  destruct (m n) as [[[a|e] n1] o1]; cbn in *; subst o1; [|done].
  specialize (Hk a n1). by destruct (k a n1) as [[r n2] o2].
Qed.

Lemma outputs_backend_nil {A} (redis : Redis.t -> Result A * Redis.t)
    (memory : M A) :
  (forall n, outputs_of (memory n) = []) ->
  forall n, outputs_of (StorageRepository.backend redis memory n) = [].
Proof.
  intros Hm n. unfold StorageRepository.backend.
  destruct (redisService n) as [r|]; [|apply Hm]. by destruct (redis r).
Qed.

Lemma acceptReceivers_quiet config TTL now fileId allUploads others :
  forall n,
    outputs_of (SocketHandler.acceptReceivers config TTL now fileId
                  allUploads others n) = [].
Proof.
  induction others as [|c others IH]; [done|].
  cbn [SocketHandler.acceptReceivers].
  apply outputs_bind_nil; [by apply outputs_backend_nil|].
  intros [os|] n; [|apply IH].
  destruct (_ <=? _); [apply IH|].
  apply outputs_bind_nil; [done|]. intros active n1.
  destruct (_ <=? _); [apply IH|].
  apply outputs_bind_nil; [by apply outputs_backend_nil|]. intros _ n2.
  apply outputs_bind_nil; [apply IH|done].
Qed.

(** A step that sends nothing and leaves routing alone, in front of the
    step that sent [x]. *)
Lemma step_inv {A B} (m : M A) (k : A -> M B) n x :
  (forall n, outputs_of (m n) = []) -> keeps routingStore m ->
  x ∈ outputs_of (bind m k n) ->
  exists a n1, m n = (Return a, n1, []) /\
               routingStore n1 = routingStore n /\
               bind m k n = k a n1.
Proof.
  intros Hq Hk Hin. specialize (Hq n). specialize (Hk n).
  destruct (m n) as [[[a|e] n1] o1] eqn:E; cbn in *; subst o1.
  - exists a, n1. split; [done|]. split; [done|]. by apply bind_quiet.
  - rewrite (bind_Throw _ _ _ _ _ _ E) in Hin. by apply elem_of_nil in Hin.
Qed.

Lemma checkRateLimit_keeps_routing TTL now identifier maxRequests :
  keeps routingStore
    (StorageRepository.checkRateLimit TTL now identifier maxRequests).
Proof. unfold StorageRepository.checkRateLimit. routing_walk. Qed.

Lemma checkRateLimit_quiet TTL now identifier maxRequests n :
  outputs_of (StorageRepository.checkRateLimit TTL now identifier
                maxRequests n) = [].
Proof. unfold StorageRepository.checkRateLimit. by apply outputs_backend_nil. Qed.

Lemma checkRateLimit_redisOpen TTL now identifier maxRequests n rl n1 o :
  StorageRepository.checkRateLimit TTL now identifier maxRequests n
  = (Return rl, n1, o) -> redisOpen n.
Proof.
  unfold StorageRepository.checkRateLimit, StorageRepository.backend,
    RedisService.checkRateLimit, RedisService.command, redisOpen.
  destruct (redisService n) as [r|]; [|done].
  destruct (Redis.isOpen r); [done|]. discriminate.
Qed.

Lemma getAllUploadStates_run now n :
  StorageRepository.getAllUploadStates now n
  = (Return (match redisService n with
             | Some r => Snapshot (RedisService.getAllUploadStates now r)
             | None => LiveUploads
             end), n, []).
Proof. apply (reads_backend _ (fun _ => LiveUploads)). Qed.

Section Initiating.
Variable config : Config.
Variable TTL : TTLConfig.

(** The run of an [upload-init] that was answered with
    [upload-init-response]. *)
Lemma uploadInit_accepted now rnd data n :
  Emit (upload_init_response (newFileId now rnd))
  ∈ outputs_of (SocketHandler.uploadInit config TTL now rnd data n) ->
  exists allUploads na nb accepted,
    redisOpen na /\
    JsMap.get (newFileId now rnd) (fileUploads na)
    = Some (newUpload now rnd data) /\
    match truthy (visibleSession now na (ui_clientId data) ≫= cs_shareId) with
    | Some shareId =>
        match visibleShare now na shareId with
        | Some ss =>
            SocketHandler.acceptReceivers config TTL now (newFileId now rnd)
              allUploads (without (ui_clientId data) (ss_clients ss)) na
            = (Return accepted, nb, [])
        | None => accepted = [] /\ nb = na
        end
    | None => accepted = [] /\ nb = na
    end /\
    SocketHandler.uploadInit config TTL now rnd data n
    = (Return tt, nb,
       Emit (upload_init_response (newFileId now rnd))
       :: flat_map
            (fun c => [Route c (file_transfer_started (newFileId now rnd)
                                  (ui_fileName data) (ui_fileSize data)
                                  (ui_totalChunks data))])
            accepted).
Proof.
  intros Hin.
  assert (Hfinal : forall accepted nb,
    bind (send (Emit (upload_init_response (newFileId now rnd))))
      (fun _ =>
         for_each accepted
           (fun receiverId =>
              send (Route receiverId
                      (file_transfer_started (newFileId now rnd)
                         (ui_fileName data) (ui_fileSize data)
                         (ui_totalChunks data))))) nb
    = (Return tt, nb,
       Emit (upload_init_response (newFileId now rnd))
       :: flat_map
            (fun c => [Route c (file_transfer_started (newFileId now rnd)
                                  (ui_fileName data) (ui_fileSize data)
                                  (ui_totalChunks data))])
            accepted)).
  { intros accepted nb. erewrite bind_run by reflexivity.
    by rewrite (for_each_emits _
                  (fun c => [Route c (file_transfer_started (newFileId now rnd)
                                        (ui_fileName data) (ui_fileSize data)
                                        (ui_totalChunks data))])). }
  pose proof (eq_refl (SocketHandler.uploadInit config TTL now rnd data n))
    as Hrun.
  unfold SocketHandler.uploadInit at 2 in Hrun.
  unfold SocketHandler.uploadInit in Hin.
  fold (newFileId now rnd) in Hrun, Hin.
  fold (newUpload now rnd data) in Hrun, Hin.
  (* the rate limit *)
  destruct (step_inv _ _ _ _
              (checkRateLimit_quiet TTL now _ _)
              (checkRateLimit_keeps_routing TTL now _ _) Hin)
    as (rl & n1 & E1 & Hrt1 & Hb1).
  rewrite Hb1 in *. clear Hb1.
  pose proof (checkRateLimit_redisOpen _ _ _ _ _ _ _ _ E1) as Hopen.
  assert (Hopen1 : redisOpen n1)
    by (by apply (routingStore_redisOpen n n1)).
  destruct (allowed rl); cbn [negb] in *.
  2:{ cbn in Hin. apply elem_of_cons in Hin as [Hin|Hin];
        [discriminate|by apply elem_of_nil in Hin]. }
  (* the uploads of the sender *)
  rewrite (bind_quiet _ _ n1 _ n1 (getAllUploadStates_run now n1)) in *.
  set (allUploads := match redisService n1 with
                     | Some r => Snapshot (RedisService.getAllUploadStates now r)
                     | None => LiveUploads
                     end) in *.
  rewrite (bind_quiet _ _ n1 _ n1 eq_refl) in *.
  destruct (maxConcurrentUploads config <=? _);
    [cbn in Hin; by apply elem_of_nil in Hin|].
  rewrite (bind_quiet _ _ n1 _ n1 (getClientSession_reads now _ n1)) in *.
  destruct (maxConcurrentTransfers config <=? _);
    [cbn in Hin; by apply elem_of_nil in Hin|].
  destruct (maxFileSize config <? ui_fileSize data);
    [cbn in Hin; by apply elem_of_nil in Hin|].
  (* the upload is stored *)
  destruct (setUploadState_run TTL now (newFileId now rnd)
              (newUpload now rnd data) n1) as (na & Eset & Hfu & Hrta).
  rewrite (bind_quiet _ _ n1 tt na Eset) in *.
  assert (Hopena : redisOpen na)
    by (by apply (routingStore_redisOpen n1 na)).
  assert (Hcluster :
    when (useCluster config)
      (try_
         (bind (StorageRepository.getClientSession now (ui_clientId data))
            (fun clientSession =>
               match truthy (clientSession ≫= cs_shareId) with
               | Some shareId =>
                   bind (StorageRepository.getShareSession now shareId)
                     (fun _ => ret tt)
               | None => ret tt
               end))) na = (Return tt, na, [])).
  { destruct (useCluster config); [|done]. cbn [when]. unfold try_.
    rewrite (bind_quiet _ _ na _ na (getClientSession_reads now _ na)).
    destruct (truthy _); [|done].
    by rewrite (bind_quiet _ _ na _ na (getShareSession_reads now _ na)). }
  rewrite (bind_quiet _ _ na tt na Hcluster) in *.
  rewrite (bind_quiet _ _ na _ na (getClientSession_reads now _ na)) in *.
  exists allUploads, na.
  destruct (truthy (visibleSession now na (ui_clientId data) ≫= cs_shareId))
    as [shareId|] eqn:Hsid.
  2:{ rewrite (bind_quiet _ _ na [] na eq_refl) in *.
      rewrite (bind_quiet _ _ na tt na eq_refl) in *.
      exists na, []. split; [done|].
      split; [by rewrite Hfu, JsMap_get_set_eq|]. split; [done|].
      by rewrite Hrun, Hfinal. }
  rewrite bind_assoc in Hin, Hrun.
  rewrite (bind_quiet _ _ na _ na (getShareSession_reads now _ na)) in Hin.
  rewrite (bind_quiet _ _ na _ na (getShareSession_reads now _ na)) in Hrun.
  destruct (visibleShare now na shareId) as [ss|] eqn:Hss.
  2:{ rewrite (bind_quiet _ _ na [] na eq_refl) in *.
      rewrite bind_assoc in Hin, Hrun.
      rewrite (bind_quiet _ _ na _ na (getShareSession_reads now _ na)) in *.
      rewrite Hss in *.
      rewrite (bind_quiet _ _ na tt na eq_refl) in *.
      exists na, []. split; [done|].
      split; [by rewrite Hfu, JsMap_get_set_eq|]. split; [done|].
      by rewrite Hrun, Hfinal. }
  pose proof (acceptReceivers_quiet config TTL now (newFileId now rnd)
                allUploads (without (ui_clientId data) (ss_clients ss)) na)
    as Hquiet.
  destruct (SocketHandler.acceptReceivers config TTL now (newFileId now rnd)
              allUploads (without (ui_clientId data) (ss_clients ss)) na)
    as [[[accepted|e] nb] o] eqn:Eacc; cbn in Hquiet; subst o.
  2:{ rewrite (bind_Throw _ _ _ _ _ _ Eacc) in Hin.
      by apply elem_of_nil in Hin. }
  rewrite (bind_quiet _ _ na accepted nb Eacc) in *.
  exists nb, accepted. split; [done|].
  split; [by rewrite Hfu, JsMap_get_set_eq|]. split; [done|].
  rewrite bind_assoc in Hin, Hrun.
  rewrite (bind_quiet _ _ nb _ nb (getShareSession_reads now _ nb)) in *.
  destruct (visibleShare now nb shareId) as [ss'|].
  - destruct ((1 <? length (ss_clients ss'))%nat
              && (length accepted =? 0)%nat).
    { rewrite (bind_Throw _ _ nb _ nb [] eq_refl) in Hin.
      by apply elem_of_nil in Hin. }
    rewrite (bind_quiet _ _ nb tt nb eq_refl) in *. by rewrite Hrun, Hfinal.
  - rewrite (bind_quiet _ _ nb tt nb eq_refl) in *. by rewrite Hrun, Hfinal.
Qed.

End Initiating.

(** X28.  From [upload-init] to the relay.  When the server answers an
    [upload-init] with [upload-init-response], the handler has returned
    normally, the node holds the new upload under the id it announced,
    uploading and with no chunk yet, and every client that was sent
    [file-transfer-started] is, at that moment, a receiver of the chunks
    that the sender uploads for the file. *)
Theorem uploadInit_opens_the_relay
    (config : Config) (TTL : TTLConfig) (now : Z) (rnd : string)
    (data : UploadInitEvent) (n : Node) :
  0 < CLIENT_SESSION TTL ->
  let run := SocketHandler.uploadInit config TTL now rnd data n in
  let fileId := newFileId now rnd in
  Emit (upload_init_response fileId) ∈ outputs_of run ->
  result_of run = Return tt /\
  redisOpen (state_of run) /\
  JsMap.get fileId (fileUploads (state_of run))
  = Some (newUpload now rnd data) /\
  (forall c i chunk,
     Route c (file_transfer_started fileId (ui_fileName data)
                (ui_fileSize data) (ui_totalChunks data))
     ∈ outputs_of run ->
     c ∈ liveReceivers now (state_of run)
           {| uc_fileId := fileId; uc_chunkIndex := i; uc_chunk := chunk;
              uc_clientId := ui_clientId data |}).
Proof.
  intros Httl run fileId Hin.
  destruct (uploadInit_accepted config TTL now rnd data n Hin)
    as (allUploads & na & nb & accepted & Hopena & Hheld & Hacc & Hrun).
  unfold run. rewrite Hrun. cbn [result_of state_of outputs_of fst snd].
  assert (Htold : forall c,
    Route c (file_transfer_started fileId (ui_fileName data)
               (ui_fileSize data) (ui_totalChunks data))
    ∈ Emit (upload_init_response (newFileId now rnd))
      :: flat_map
           (fun c => [Route c (file_transfer_started (newFileId now rnd)
                                 (ui_fileName data) (ui_fileSize data)
                                 (ui_totalChunks data))]) accepted ->
    c ∈ accepted).
  { intros c Hc. apply elem_of_cons in Hc as [Hc|Hc]; [discriminate|].
    apply list_elem_of_In, in_flat_map in Hc as (c' & Hc' & Hc).
    destruct Hc as [Hc|[]]. injection Hc as ->. by apply list_elem_of_In. }
  destruct (truthy (visibleSession now na (ui_clientId data) ≫= cs_shareId))
    as [shareId|] eqn:Hsid.
  2:{ destruct Hacc as [-> ->]. do 3 (split; [done|]).
      intros c i chunk Hc. apply Htold in Hc. by apply elem_of_nil in Hc. }
  destruct (visibleShare now na shareId) as [ss|] eqn:Hss.
  2:{ destruct Hacc as [-> ->]. do 3 (split; [done|]).
      intros c i chunk Hc. apply Htold in Hc. by apply elem_of_nil in Hc. }
  destruct (acceptReceivers_spec config TTL Httl now fileId allUploads _ na
              accepted nb [] Hopena Hacc)
    as (_ & Hopenb & Hfu & Hshares & Hothers & _ & Hlive).
  split; [done|]. split; [done|]. split; [by rewrite Hfu|].
  intros c i chunk Hc. apply Htold in Hc.
  destruct (Hlive c Hc) as (Hin_others & s' & Hs' & Hinc).
  unfold liveReceivers. cbn [uc_clientId uc_fileId].
  rewrite (Hothers (ui_clientId data)) by apply without_not_elem.
  rewrite Hsid, Hshares, Hss.
  apply list_elem_of_In, filter_In. split; [by apply list_elem_of_In|].
  by rewrite Hs'.
Qed.

Lemma uploadInit_opens_the_relay_witness :
  let run :=
    SocketHandler.uploadInit defaultConfig DEFAULT_TTL 1004 "x"
      {| ui_clientId := "A"; ui_fileName := "x"; ui_fileSize := 48;
         ui_totalChunks := 3 |} nodeWithShareOfTwo in
  Route "B" (file_transfer_started "file-1004-x" "x" 48 3) ∈ outputs_of run /\
  ("B"%string ∈ liveReceivers 1004 (state_of run) (chunkOf "file-1004-x" 0)).
Proof.
  intros run.
  assert (Hout : outputs_of run
                 = [Emit (upload_init_response "file-1004-x");
                    Route "B" (file_transfer_started "file-1004-x" "x" 48 3)])
    by (by vm_compute).
  destruct (uploadInit_opens_the_relay defaultConfig DEFAULT_TTL 1004 "x"
              {| ui_clientId := "A"; ui_fileName := "x"; ui_fileSize := 48;
                 ui_totalChunks := 3 |} nodeWithShareOfTwo)
    as (_ & _ & _ & Hlive).
  - reflexivity.
  - fold run. rewrite Hout. apply elem_of_cons. by left.
  - fold run in Hlive. split.
    + rewrite Hout. apply elem_of_cons. right. apply elem_of_cons. by left.
    + apply (Hlive "B"%string 0 []). rewrite Hout.
      apply elem_of_cons. right. apply elem_of_cons. by left.
Defined.

(* ===================================================================== *)
(** ** Heartbeats *)
(* ===================================================================== *)

Lemma unlessExpired_routing {A} n n' now seconds later (a : A) :
  routingStore n' = routingStore n ->
  unlessExpired n' now seconds later a = unlessExpired n now seconds later a.
Proof.
  unfold routingStore, unlessExpired. intros H.
  destruct (redisService n), (redisService n'); cbn in H; congruence.
Qed.

(** The four ways a [heartbeat] can go. *)
Lemma heartbeat_cases config TTL now clientId n :
  let run := SocketHandler.heartbeat config TTL now clientId n in
  exists n1,
    routingStore n1 = routingStore n /\
    ((exists e, run = (Throw e, n1, [])) \/
     (exists resetAt, run = (Return tt, n1, [Emit (rate_limited resetAt)])) \/
     (visibleSession now n clientId = None /\ run = (Return tt, n1, [])) \/
     (exists s, visibleSession now n clientId = Some s /\ redisOpen n1 /\
        run = (Return tt,
               storeSession TTL now clientId (cs_with_lastHeartbeat now s) n1,
               [Emit heartbeat_ack]))).
Proof.
  intros run. unfold run, SocketHandler.heartbeat.
  pose proof (checkRateLimit_keeps_routing TTL now
                ("heartbeat:" +:+ clientId) (rateLimitMessages config) n) as Hk.
  pose proof (checkRateLimit_quiet TTL now
                ("heartbeat:" +:+ clientId) (rateLimitMessages config) n) as Hq.
  destruct (StorageRepository.checkRateLimit TTL now
              ("heartbeat:" +:+ clientId) (rateLimitMessages config) n)
    as [[[rl|e] n1] o1] eqn:E; cbn in Hk, Hq; subst o1; exists n1;
    (split; [exact Hk|]).
  2:{ left. exists e. by apply bind_Throw. }
  right. rewrite (bind_quiet _ _ n rl n1 E).
  destruct (allowed rl); cbn [negb].
  2:{ left. by eexists. }
  right.
  rewrite (bind_quiet _ _ n1 _ n1 (getClientSession_reads now clientId n1)).
  destruct (routingStore_views n n1 Hk) as (Hopen & Hs & _).
  rewrite Hs.
  destruct (visibleSession now n clientId) as [s|]; [right|by left].
  assert (Hopen1 : redisOpen n1).
  { apply Hopen. by apply (checkRateLimit_redisOpen _ _ _ _ _ _ _ _ E). }
  exists s. split; [done|]. split; [done|].
  by rewrite (bind_quiet _ _ n1 tt _ (setClientSession_run TTL now clientId _ n1 Hopen1)).
Qed.

(** X29.  A [heartbeat-ack] means that the session has been renewed:
    the session the client had is stored again with the time of the
    heartbeat, and in Redis it lives for [CLIENT_SESSION] seconds from
    then.  A heartbeat that is not acknowledged, because it is over the
    rate limit, the client is unknown or Redis is closed, leaves every
    session as it was.  No heartbeat touches another client's session or
    a share. *)
Theorem heartbeat_renews_the_session
    (config : Config) (TTL : TTLConfig) (now : Z) (clientId : string)
    (n : Node) :
  let run := SocketHandler.heartbeat config TTL now clientId n in
  (Emit heartbeat_ack ∈ outputs_of run ->
   exists s,
     visibleSession now n clientId = Some s /\
     result_of run = Return tt /\
     forall later,
       visibleSession later (state_of run) clientId
       = unlessExpired n now (CLIENT_SESSION TTL) later
           (cs_with_lastHeartbeat now s)) /\
  ((Emit heartbeat_ack ∉ outputs_of run) ->
   forall later,
     visibleSession later (state_of run) clientId
     = visibleSession later n clientId) /\
  (forall later c, c <> clientId ->
     visibleSession later (state_of run) c = visibleSession later n c) /\
  (forall later k, visibleShare later (state_of run) k = visibleShare later n k).
Proof.
  intros run.
  destruct (heartbeat_cases config TTL now clientId n)
    as (n1 & Hrt & [[e Hrun] | [[r Hrun] | [[Hnone Hrun] | Hack]]]);
    destruct (routingStore_views n n1 Hrt) as (_ & Hs & Hv & _);
    try (fold run in Hrun; rewrite Hrun;
         cbn [result_of state_of outputs_of fst snd]).
  - split; [by intros []%elem_of_nil|]. by repeat split.
  - split.
    { intros H. apply elem_of_cons in H as [H|H]; [discriminate|].
      by apply elem_of_nil in H. }
    by repeat split.
  - split; [by intros []%elem_of_nil|]. by repeat split.
  - destruct Hack as (s & Hsome & Hopen1 & Hrun). fold run in Hrun.
    rewrite Hrun. cbn [result_of state_of outputs_of fst snd].
    split; [|split; [|split]].
    + intros _. exists s. split; [done|]. split; [done|]. intros later.
      rewrite visibleSession_storeSession by done.
      rewrite decide_True by done. by apply unlessExpired_routing.
    + intros Hno. exfalso. apply Hno, elem_of_cons. by left.
    + intros later c Hc. rewrite visibleSession_storeSession by done.
      by rewrite decide_False.
    + intros later k. by rewrite visibleShare_storeSession.
Qed.

Lemma heartbeat_renews_the_session_witness :
  let run :=
    SocketHandler.heartbeat defaultConfig DEFAULT_TTL 2000 "A"
      nodeWithShareOfTwo in
  cs_lastHeartbeat <$> visibleSession 5000 (state_of run) "A" = Some 2000.
Proof.
  intros run.
  destruct (heartbeat_renews_the_session defaultConfig DEFAULT_TTL 2000 "A"
              nodeWithShareOfTwo) as (Hack & _).
  destruct Hack as (s & Hs & _ & Hlater).
  - assert (Hout : outputs_of run = [Emit heartbeat_ack]) by (by vm_compute).
    fold run. rewrite Hout. apply elem_of_cons. by left.
  - fold run in Hlater. rewrite Hlater.
    assert (Hs' : Some s = Some (cs_with_shareId "S"
                                   (freshSession None 1000 "sA" "A")))
      by (rewrite <- Hs; by vm_compute).
    injection Hs' as ->. reflexivity.
Defined.

(* ===================================================================== *)
(** ** Webhooks *)
(* ===================================================================== *)

Lemma JsMap_set_new {V} (k : string) (v : V) (m : JsMap.t V) :
  JsMap.get k m = None -> JsMap.set k v m = m ++ [(k, v)].
Proof.
  induction m as [|[k' v'] m IH]; [done|]. cbn.
  destruct (String.eqb k' k); [discriminate|]. intros H. by rewrite IH.
Qed.

Lemma JsMap_set_set {V} (k : string) (v1 v2 : V) (m : JsMap.t V) :
  JsMap.set k v2 (JsMap.set k v1 m) = JsMap.set k v2 m.
Proof.
  induction m as [|[k' v'] m IH]; cbn.
  - by rewrite String.eqb_refl.
  - destruct (String.eqb k' k) eqn:E; cbn.
    + by rewrite String.eqb_refl.
    + by rewrite E, IH.
Qed.

(** X30.  Webhooks.  A registration without a url is answered 400 and
    registers nothing.  A webhook registered under a fresh id is posted
    the events of its list, after the webhooks registered before it, and
    no other; without a list it is posted the four default events only,
    so never [share-joined] or [download-cancelled].  The id is made of
    the time alone: of two registrations in the same millisecond only
    the second remains. *)
Theorem webhook_registration
    (now : Z) (body : Webhooks.WebhookRequest)
    (endpoints : JsMap.t Webhooks.WebhookEndpoint) :
  (truthy (Webhooks.wr_url body) = None ->
   Webhooks.registerWebhook now body endpoints
   = (Throw (AppErr (badRequest "Missing required fields: url")), endpoints) /\
   statusCode (badRequest "Missing required fields: url") = 400) /\
  (forall url,
     truthy (Webhooks.wr_url body) = Some url ->
     let run := Webhooks.registerWebhook now body endpoints in
     let listens event :=
       includes_str event
         (default Webhooks.defaultEvents (Webhooks.wr_events body)) in
     fst run = Return ("webhook-" +:+ pretty now) /\
     (JsMap.get ("webhook-" +:+ pretty now) endpoints = None ->
      forall event,
        Webhooks.triggerWebhook event (snd run)
        = Webhooks.triggerWebhook event endpoints
          ++ (if listens event then [url] else [])) /\
     (Webhooks.wr_events body = None ->
      listens "share-joined" = false /\
      listens "download-cancelled" = false /\
      listens "upload-complete" = true) /\
     (forall earlier,
        truthy (Webhooks.wr_url earlier) <> None ->
        snd (Webhooks.registerWebhook now body
               (snd (Webhooks.registerWebhook now earlier endpoints)))
        = snd run)).
Proof.
  split.
  - intros Hurl. unfold Webhooks.registerWebhook. rewrite Hurl. by split.
  - intros url Hurl run listens. unfold run, Webhooks.registerWebhook.
    rewrite Hurl. cbn [fst snd]. split; [done|]. split; [|split].
    + intros Hfresh event. rewrite (JsMap_set_new _ _ _ Hfresh).
      unfold Webhooks.triggerWebhook, listens. rewrite omap_app. f_equal.
      cbn. unfold includes_str. by destruct (existsb _ _).
    + intros Hnone. unfold listens. rewrite Hnone. by vm_compute.
    + intros earlier Hearlier.
      destruct (truthy (Webhooks.wr_url earlier)) as [url'|]; [|done].
      cbn [snd]. apply JsMap_set_set.
Qed.

Lemma webhook_registration_witness :
  let first := {| Webhooks.wr_url := Some "http://a"%string;
                  Webhooks.wr_events := Some ["share-joined"%string] |} in
  let second := {| Webhooks.wr_url := Some "http://b"%string;
                   Webhooks.wr_events := None |} in
  let endpoints := snd (Webhooks.registerWebhook 1000 first []) in
  Webhooks.triggerWebhook "upload-complete"
    (snd (Webhooks.registerWebhook 1001 second endpoints))
  = ["http://b"%string] /\
  Webhooks.triggerWebhook "share-joined"
    (snd (Webhooks.registerWebhook 1001 second endpoints))
  = ["http://a"%string].
Proof.
  intros first second endpoints.
  destruct (webhook_registration 1001 second endpoints) as [_ Hreg].
  destruct (Hreg "http://b"%string eq_refl) as (_ & Hposts & _).
  split.
  - rewrite (Hposts eq_refl "upload-complete"%string). reflexivity.
  - rewrite (Hposts eq_refl "share-joined"%string). reflexivity.
Defined.

(* ===================================================================== *)
(** ** One share per client *)
(* ===================================================================== *)








Section SharesInTime.
Variable config : Config.
Variable TTL : TTLConfig.
Variable simdChecksum : Buffer -> string.
Variable nodeId : option string.







End SharesInTime.

Section OneShareEach.
Variable config : Config.
Variable TTL : TTLConfig.
Variable simdChecksum : Buffer -> string.
Variable nodeId : option string.







End OneShareEach.



